(* ===== verification/_CoqProject ===== *)
-Q . S2P
Prelude.v
GoStd.v
Keys.v
Errors.v
Fields.v
Index.v
ModelState.v
Apps.v
ProjectState.v
StateLemmas.v
Operation.v
OperationLemmas.v
Optimizer.v
Reduce.v
OptimizerTermination.v
OptimizerSound.v
SchemaEditor.v
Effects.v
Recorder.v
RecorderLemmas.v
OpDatabase.v
Migration.v
MigrationLemmas.v
Traversal.v
Graph.v
GraphLemmas.v
Filename.v
Loader.v
SquashLemmas.v
LoaderLemmas.v
Executor.v
PlanLemmas.v
ExecutorRuns.v
ExecutorTheorems.v
Examples.v
Witnesses.v
ExampleDatabase.v
Findings.v
Respects.v
Names.v
Grammar.v
References.v
Backend.v
EditorSQL.v
EditorOps.v
EditorAlter.v
BaseEditor.v
EditorLemmas.v
EditorTheorems.v
BackendExample.v
Questioner.v
TopoSort.v
AutoDeps.v
DetectModels.v
DetectFields.v
AutoBuild.v
Arrange.v
BuildTheorems.v
AutoTheorems.v
NoChanges.v
AutoWitnesses.v
SplitSQL.v
Interactive.v
Management.v
Commands.v
MakeMigrations.v
MigrateCommand.v
CommandTheorems.v
MergeTheorems.v
CommandExample.v
Literals.v
SplitTheorems.v
SqliteParse.v
Sqlite3.v
SqliteTheorems.v
SqliteExample.v
SqliteParseTheorems.v
Postgres.v
Mysql.v
DialectTheorems.v
