(* ===== verification/Prelude.v ===== *)
(** * gormgate: a verification development

    gormgate is a migration engine for gorm, in Go, after Django's. A project
    has apps; an app has migrations, each a list of operations; a database
    holds a table of the migrations that have been applied. This library
    translates the engine into Rocq, function by function, and proves what it
    promises. Paths below are relative to src/.

    ** How the program is put together

    An operation (migrations/op_*.go) has two effects: StateForwards changes a
    ProjectState, a symbolic schema, and DatabaseForwards changes a database
    through a SchemaEditor. A migration runs its operations in order. The
    loader (internal/loader) reads the migrations of every app, builds the
    graph of their dependencies (internal/graph) and folds squashed
    migrations into it; the executor (internal/executor) turns targets into
    plans and runs them, and the recorder (internal/recorder) keeps the table.
    The optimizer (internal/optimizer) shortens lists of operations by
    reducing pairs of them, and the autodetector (internal/autodetector)
    compares two states and makes the migrations from one to the other,
    asking the questioner (internal/questioner) what it cannot see. The
    commands (internal/management) tie these together: each reads the
    project, acts on files and databases, and writes to its streams.
    backends/base holds the schema editor that every database of the program
    derives from; the editors of backends/sqlite3, postgresql and mysql derive
    from it, those of gaussdb and cockroachdb from PostgreSQL's and that of
    tidb from MySQL's.

    ** Files

    - Go and errors: [GoStd] has what the program uses of Go and of its
      standard library, [Errors] the error types and the monad [outcome], in
      which a function returns, fails or panics.
    - Data: [Keys], [Fields], [Index], [ModelState], [ProjectState] for
      migrations/field.go, index.go and state.go, [Apps] for the rendered
      models of apps.go. Pointers between models are keys of a registry.
    - Operations: [Operation] (StateForwards), [SchemaEditor] (the interface
      to a database, and the state and error monad [io]), [OpDatabase]
      (DatabaseForwards and DatabaseBackwards), [Reduce] and [Optimizer].
    - Migrations: [Migration] (migration.go), [Filename] (the names of
      internal/writer).
    - Graph and loader: [Traversal] and [Graph], [Loader].
    - Running: [Recorder] (with the class [Conn] of what a connection offers),
      [Executor].
    - The autodetector: [Questioner] (the interface as a class, Base and
      NonInteractive), [Interactive] (the prompts, over a console that has the
      text still to be typed), [TopoSort] (topoSorter), [AutoDeps] (what a generated
      operation depends on, and the state of an Autodetector),
      [DetectModels] and [DetectFields] (the steps of detectChanges),
      [AutoBuild] (the migrations made of the operations), [Arrange]
      (numbers, names, and the apps that are kept).
    - The commands: [Management] (base.go, errors.go, project.go, helpers.go:
      streams, files, the [Shell] a command acts on), [Commands]
      (squashmigrations, optimizemigration, sqlmigrate, showmigrations),
      [MakeMigrations] (makemigrations.go), [MigrateCommand] (migrate.go).
    - The base editor: [Names], [Grammar], [References] (deferred statements),
      [Backend] (the class of what gorm, the driver and a database's own
      package give; Begin, Execute, Finish), [EditorSQL], [EditorOps],
      [EditorAlter] (editor.go), [BaseEditor] (the editor as a [SchemaEditor]
      and a connection with it as a [Conn]). A method a backend may override
      is called through the record [Overrides], as the source calls it
      through the field outer.
    - SQL texts: [SplitSQL] (sqlsplit.go) cuts a script into statements;
      [Literals] has literals.go and the Ops of sqlite3, postgresql, mysql,
      oracle, clickhouse and mssql.
    - SQLite: [SqliteParse] (parse.go) reads CREATE TABLE statements,
      [Sqlite3] (sqlite3.go) is the editor with remakeTable.
    - The servers: [Postgres] (postgresql.go, gaussdb.go, cockroachdb.go) and
      [Mysql] (mysql.go, schema.go, tidb.go). An editor is the base editor
      under a layer, a function from the [Overrides] it embeds to its own,
      so that CockroachDB is [cockroach_layer] over [postgres_layer] and TiDB
      [tidb_layer] over [mysql_layer], as the structs are embedded.
    - Reasoning: [Prelude] (tactics, lists), [Effects] (rules for
      computations: what they do when they succeed, fail, or however they
      end) and [Respects] (preorders that every step of an editor, and so of
      a migration, keeps).

    Files that end in Lemmas, and [OptimizerTermination], [OptimizerSound],
    [ExecutorRuns] and [NoChanges], hold proofs; files that
    end in Theorems hold the theorems of the component they are named after,
    and of running, collecting and deferring. [Examples], [ExampleDatabase],
    [BackendExample], [SqliteExample] and [CommandExample] build a small
    project, a database for the recorder, a backend for the base editor, one
    for SQLite's, and the files and streams of a command; [Witnesses],
    [Findings], [AutoWitnesses] and the three last apply the theorems there. [Findings] and the examples show, by evaluation, where
    the code does something else than it means to.

    ** What the theorems show

    - States: every operation keeps the well-formedness of a state, and on a
      well-formed state does not panic; comparison of fields, constraints and
      models is the equality it stands for.
    - Optimizer: Optimize returns, and on the histories it is meant for gives
      a list with the same effect on the state.
    - Migrations: Apply and MutateState agree; Unapply undoes the operations
      backwards with the states they had; an operation a router denies does
      nothing.
    - Graph: plans list exactly the ancestors (or descendants), each after
      what it depends on; the cycle check is exact; replaced nodes are
      contracted.
    - Loader: the graph of a built loader is well-formed and acyclic, its
      applied set is the recorded one with squashed migrations accounted for,
      its edges are the declared dependencies; the consistency, conflict and
      disk checks are exact.
    - Recorder and executor: the recorder refines a list of keys; a plan ends with its
      targets reached, and there is one unless a target is missing and
      reloading fails; MigrateTo records exactly what it ran; a
      migration that fails is not recorded, and on a database that rolls back
      DDL leaves the database as it was; mixed plans are refused.
    - Autodetector: detectChanges returns, and puts every operation after
      what it depends on, in its migration and over the migrations; a state
      compared with itself gives no migration; the migrations get the numbers
      that follow the graph's, and their dependencies the new names; an app is
      kept when one that is asked for needs it; the number of a name is read
      back.
    - Questions: the prompts end, and take only answers that were offered or
      that go/types accepts.
    - Commands: makemigrations in a dry run, and migrate with --plan or
      --check, leave files and databases as they are; --prune forgets exactly
      what is gone; squashmigrations overwrites nothing, and what it writes
      does what the squashed migrations did; --merge takes a conflict away and
      makes none; showmigrations lists an app completely and in order.
    - Base editor: sqlmigrate does not touch the database; deferred
      statements follow renames and drops; Finish runs them in order and
      keeps those it did not reach; a generated name fits its limit.
    - SQL texts: SplitSQL loses nothing and gives back the statements of a
      script; literals and quoted names read back as what they were made of.
    - The servers: collecting SQL with any of their editors touches no
      database; a change of type runs nothing while it is rendered but the
      loss of an identity; MySQL keeps an index under every foreign key of a
      field; a version is read, and refused below the minimum.
    - SQLite: a table is remade in an order that keeps every row and runs what
      was deferred for the new table, sqlmigrate
      does not touch the database here either, and a CREATE TABLE statement
      the editor writes is read back by the parser.

    ** Fuel

    A recursion of the source that is not structural has fuel, and runs out
    of it as a Panic of its own ([Loader.out_of_fuel]) or as None, which the
    theorems exclude. Optimize has [optimize_fuel], one more than a measure
    that every pass lowers ([Optimize_terminates]). The traversals have
    [dfs_fuel], the number of iterations that the traversal of an acyclic
    graph takes; the cycle search has [cycle_fuel], since every step removes a
    node from its todo set or from its path. The recursion over
    squashed migrations has one more than their number: the nesting of
    Replaces in a built loader is well-founded, so its depth is at most that.
    [record_fuel] is two more: the migration recorded and those that are not
    on disk. MigrationPlan starts over once at most, since it turns
    ReplaceMigrations off before it does: two rounds. A migration that
    replaces itself makes the source recurse for ever, as
    [Findings.self_replacing] shows. The order of a topoSorter has two more
    than its nodes, each round taking one; buildMigrationList has
    [build_fuel], twice the operations and one, since two rounds in a row
    take one; the loop of trimChangesToApps two more than the apps that
    dependencies name. [split_fuel] is one more than the length of a text,
    since every turn of SplitSQL and of tokenize reads a byte; parseColumnDef
    has the number of its tokens. The loops of the prompts have one more
    than the length of the input, since every turn reads a line
    ([interactive_prompts_end]). The methods of an editor call one another
    through the record of its overrides, which [postgres_overrides] and its
    kin tie a number of times over a record below; the methods do not call
    themselves in a circle, so some such number is enough, and the theorems
    hold for every one and, where it matters, whatever is below.

    ** What is a parameter

    gorm, the driver and the dialector (class [Backend]), a connection (class
    [Conn], with [ConnLaws]: what an INSERT, a DELETE or a SELECT of a few
    shapes, read from its text, does to the rows of a table), the schema
    editor as operations see it (class [SchemaEditor]), the answers of the
    questioner (class [Questioner]), the PRAGMAs and the version of SQLite
    (class [Sqlite]), the sequences PostgreSQL and its forks report (class
    [Postgres]), the answers of MySQL and TiDB to the queries of ReadServer,
    what fmt, strconv and time print (classes [Formatting]
    and [Printing]), go/parser and go/types (class [GoChecker]), go/token
    (class [GoNames]), the source of a migration and of the package files
    (class [Printer]), the state of the models ([pj_CurrentState]), the hooks
    of migrate and what its progress lines do to the world,
    the Go code of RunGo, the text of FormatOperation, the clock of
    MigrationNameTimestamp, the Progress callback, reflect types (their
    names), os.ReadDir (the lists of file names of a [Config]). Writing a file
    fails when its directory is missing or its path is one, and otherwise
    does not.
    [Transactional] states what Begin, Commit and Rollback of a database
    promise, and [ReadOnly] that the catalogue is only read; [BackendExample]
    has an instance of each. Strings are lists of bytes; where the source
    walks over runes, the text is taken to be valid UTF-8.

    ** Not modelled, and why

    fromgorm (reflection over gorm schemas) and the checks of
    internal/management (reflection over model structs); the printing half
    of the writer (go/format); flag parsing (cobra) and inspectdb; terminal
    colours; the editors of SQL Server, Oracle and ClickHouse, which the base
    editor would see as further [Overrides], and the catalogue queries of all
    backends, which it sees through [Backend]; the opening of connections and
    the registry of backends. An operation is one of those of the package: an
    implementation of the interface Operation by a user is not represented,
    and neither is an operation whose Constraint is a nil interface. *)

From stdpp Require Export base tactics gmap strings list sorting relations pretty.
From Stdlib Require Export Lia Ascii String.
From stdpp Require Export strings.
Open Scope string_scope.
Open Scope list_scope.
Open Scope nat_scope.

(** ** Scopes *)

(** Notations of this development live in a scope of their own. *)
Declare Scope gormgate_scope.
Delimit Scope gormgate_scope with gg.
Global Open Scope gormgate_scope.

(** ** Tactics *)

(** Split every conjunction and existential of the context, substitute. *)
Ltac unpack :=
  repeat match goal with
  | H : _ ∧ _ |- _ => destruct H
  | H : ∃ _, _ |- _ => destruct H
  | H : Some _ = Some _ |- _ => injection H as H
  end; subst.

(** Case on the innermost [match] or [if] of the goal or of a hypothesis. *)
Ltac case_goal :=
  match goal with
  | |- context [match ?x with _ => _ end] =>
      lazymatch x with
      | context [match _ with _ => _ end] => fail
      | _ => let E := fresh "E" in destruct x eqn:E
      end
  end.

Ltac case_hyp H :=
  match type of H with
  | context [match ?x with _ => _ end] =>
      lazymatch x with
      | context [match _ with _ => _ end] => fail
      | _ => let E := fresh "E" in destruct x eqn:E
      end
  end.

(** Turn boolean tests of the context into the propositions they decide. *)
Ltac breflect :=
  repeat match goal with
  | H : bool_decide _ = true |- _ => apply bool_decide_eq_true in H
  | H : bool_decide _ = false |- _ => apply bool_decide_eq_false in H
  | H : _ && _ = true |- _ => apply andb_true_iff in H; destruct H
  | H : _ || _ = false |- _ => apply orb_false_iff in H; destruct H
  | H : negb _ = true |- _ => apply negb_true_iff in H
  | H : negb _ = false |- _ => apply negb_false_iff in H
  end.

(** ** Lists *)

Section lists.
Context {A B : Type}.

Lemma length_filter_le (P : A → Prop) `{∀ x, Decision (P x)} (l : list A) :
  length (filter P l) ≤ length l.
Proof. apply length_filter. Qed.

Lemma filter_all (P : A → Prop) `{∀ x, Decision (P x)} (l : list A) :
  (∀ x, x ∈ l → P x) → filter P l = l.
Proof.
  induction l as [|x l IH]; intros Hl; [done|].
  rewrite filter_cons_True; [|apply Hl; left].
  f_equal. apply IH. intros y Hy. apply Hl. by right.
Qed.

Lemma filter_none (P : A → Prop) `{∀ x, Decision (P x)} (l : list A) :
  (∀ x, x ∈ l → ¬ P x) → filter P l = [].
Proof.
  induction l as [|x l IH]; intros Hl; [done|].
  rewrite filter_cons_False; [|apply Hl; left].
  apply IH. intros y Hy. apply Hl. by right.
Qed.

Lemma map_fixed (f : A → A) (l : list A) :
  (∀ x, x ∈ l → f x = x) → map f l = l.
Proof.
  induction l as [|x l IH]; intros Hl; simpl; [done|].
  f_equal; [apply Hl; left|]. apply IH. intros y Hy. apply Hl. by right.
Qed.

Lemma filter_map (f : A → B) (P : B → Prop) (Q : A → Prop) `{∀ x, Decision (P x)} `{∀ x, Decision (Q x)} (l : list A) :
  (∀ x, x ∈ l → P (f x) ↔ Q x) → filter P (map f l) = map f (filter Q l).
Proof.
  induction l as [|x l IH]; intros Hl; [done|]. simpl. rewrite !filter_cons.
  rewrite IH by (intros; apply Hl; by right). specialize (Hl x (list_elem_of_here _ _)).
  repeat case_decide; naive_solver.
Qed.

Lemma filter_iff_list (P Q : A → Prop) `{∀ x, Decision (P x)} `{∀ x, Decision (Q x)} (l : list A) :
  (∀ x, x ∈ l → P x ↔ Q x) → filter P l = filter Q l.
Proof.
  induction l as [|x l IH]; intros Hl; [done|]. rewrite !filter_cons.
  rewrite IH by (intros; apply Hl; by right). specialize (Hl x (list_elem_of_here _ _)).
  repeat case_decide; naive_solver.
Qed.

End lists.

(** [find] the first element a boolean test accepts, as Go's
    [slices.IndexFunc] does: its position, or [None] for -1. *)
Fixpoint index_func {A} (p : A → bool) (l : list A) : option nat :=
  match l with
  | [] => None
  | x :: l' => if p x then Some 0 else S <$> index_func p l'
  end.

Lemma index_func_Some {A} (p : A → bool) (l : list A) i :
  index_func p l = Some i ↔
  ∃ x, l !! i = Some x ∧ p x = true ∧ ∀ j y, j < i → l !! j = Some y → p y = false.
Proof.
  revert i. induction l as [|a l IH]; intros i; simpl.
  { split; [done|]. intros (x & Hx & _). by rewrite lookup_nil in Hx. }
  destruct (p a) eqn:Ha.
  - split.
    + intros [= <-]. exists a. split_and!; [done|done|]. intros j y ?. lia.
    + intros (x & Hx & Hp & Hlt). destruct i as [|i]; [done|].
      specialize (Hlt 0 a ltac:(lia) eq_refl). congruence.
  - split.
    + intros (k & Hk & ->)%fmap_Some. apply IH in Hk as (x & Hx & Hp & Hlt).
      exists x. split_and!; [done|done|]. intros [|j] y ? Hj; simpl in *.
      * congruence.
      * eapply Hlt; [|done]. lia.
    + intros (x & Hx & Hp & Hlt). destruct i as [|i]; simpl in *; [congruence|].
      apply fmap_Some. exists i. split; [|done]. apply IH. exists x.
      split_and!; [done|done|]. intros j y ? Hj.
      apply (Hlt (S j) y); [lia|done].
Qed.

Lemma index_func_None {A} (p : A → bool) (l : list A) :
  index_func p l = None ↔ ∀ x, x ∈ l → p x = false.
Proof.
  induction l as [|a l IH]; simpl.
  { split; [intros _ x Hx; by apply elem_of_nil in Hx|done]. }
  destruct (p a) eqn:Ha.
  - split; [done|]. intros Hl. specialize (Hl a ltac:(left)). congruence.
  - split.
    + intros Hn%fmap_None x [->|Hx]%elem_of_cons; [done|].
      by apply (proj1 IH Hn).
    + intros Hl. apply fmap_None, IH. intros x Hx. apply Hl. by right.
Qed.

(** ** Maps *)

Lemma lookup_map_imap_Some {K A B} `{Countable K} (f : K → A → option B) (m : gmap K A) k y :
  map_imap f m !! k = Some y ↔ ∃ x, m !! k = Some x ∧ f k x = Some y.
Proof. rewrite map_lookup_imap. apply bind_Some. Qed.

(** ** Hints *)

Create HintDb gormgate.
#[export] Hint Resolve list_elem_of_here list_elem_of_further : gormgate.
