(* ===== verification/GoStd.v ===== *)
(** * The parts of Go and of its standard library the program uses

    Strings are byte strings. The letter functions ([strings.ToLower],
    [strings.EqualFold]) are modelled on ASCII letters, which is what app
    labels, model names and column names are made of; a byte outside ASCII is
    left as it is. *)

From S2P Require Import Prelude.
From Stdlib Require Import OrdersEx.

(** ** Bytes *)

Definition byte_is_upper (c : ascii) : bool :=
  (65 <=? N_of_ascii c)%N && (N_of_ascii c <=? 90)%N.

Definition byte_is_lower (c : ascii) : bool :=
  (97 <=? N_of_ascii c)%N && (N_of_ascii c <=? 122)%N.

Definition byte_is_digit (c : ascii) : bool :=
  (48 <=? N_of_ascii c)%N && (N_of_ascii c <=? 57)%N.

Definition byte_to_lower (c : ascii) : ascii :=
  if byte_is_upper c then ascii_of_N (N_of_ascii c + 32) else c.

(** ** Package strings *)

(** strings.ToLower *)
Fixpoint ToLower (s : string) : string :=
  match s with
  | EmptyString => EmptyString
  | String c s' => String (byte_to_lower c) (ToLower s')
  end.

(** strings.EqualFold *)
Fixpoint EqualFold (s t : string) : bool :=
  match s, t with
  | EmptyString, EmptyString => true
  | String c s', String d t' =>
      bool_decide (byte_to_lower c = byte_to_lower d) && EqualFold s' t'
  | _, _ => false
  end.

(** strings.HasPrefix *)
Definition HasPrefix (s prefix : string) : bool := String.prefix prefix s.

(** strings.Cut, for a separator of one byte *)
Fixpoint Cut (s : string) (sep : ascii) : option (string * string) :=
  match s with
  | EmptyString => None
  | String c s' =>
      if bool_decide (c = sep) then Some (EmptyString, s')
      else (fun '(a, b) => (String c a, b)) <$> Cut s' sep
  end.

(** strings.Contains, for a needle of one byte *)
Fixpoint ContainsByte (s : string) (c : ascii) : bool :=
  match s with
  | EmptyString => false
  | String d s' => bool_decide (d = c) || ContainsByte s' c
  end.

(** strings.Join *)
Fixpoint Join (l : list string) (sep : string) : string :=
  match l with
  | [] => EmptyString
  | [x] => x
  | x :: l' => x +:+ sep +:+ Join l' sep
  end.

Definition dot : ascii := "."%char.

(** ** Package cmp: the byte-wise order on strings *)

Definition str_le (a b : string) : Prop := String.compare a b ≠ Gt.

#[export] Instance str_le_dec a b : Decision (str_le a b).
Proof. unfold str_le. apply _. Defined.

Lemma str_compare_refl a : String.compare a a = Eq.
Proof.
  pose proof (String.compare_antisym a a) as H.
  destruct (String.compare a a); [done|discriminate H|discriminate H].
Qed.

Lemma str_compare_trans a b c :
  String.compare a b = Lt → String.compare b c = Lt → String.compare a c = Lt.
Proof.
  intros H1 H2.
  exact (@StrictOrder_Transitive _ _ String_as_OT.lt_strorder a b c H1 H2).
Qed.

#[export] Instance str_le_preorder : PreOrder str_le.
Proof.
  split.
  - intros a. unfold str_le. by rewrite str_compare_refl.
  - intros a b c Hab Hbc. unfold str_le in *.
    destruct (String.compare a b) eqn:E1; [| |done].
    + apply String.compare_eq_iff in E1. by subst.
    + destruct (String.compare b c) eqn:E2; [| |done].
      * apply String.compare_eq_iff in E2. subst. by rewrite E1.
      * by rewrite (str_compare_trans _ _ _ E1 E2).
Qed.

#[export] Instance str_le_antisymm : AntiSymm eq str_le.
Proof.
  intros a b Hab Hba. unfold str_le in *.
  rewrite String.compare_antisym in Hba.
  destruct (String.compare a b) eqn:E; [by apply String.compare_eq_iff| |done].
  by simpl in Hba.
Qed.

#[export] Instance str_le_total : Total str_le.
Proof.
  intros a b. unfold str_le. rewrite (String.compare_antisym b a).
  destruct (String.compare a b); auto.
Qed.

(** slices.Sort on strings *)
Definition sort_strings (l : list string) : list string := merge_sort str_le l.

(** ** Formatting: %d, %q as the %#v verb prints a string *)

Definition itoa (z : Z) : string := pretty z.

Definition dquote : ascii := ascii_of_nat 34.
Definition backslash : ascii := ascii_of_nat 92.

Definition hex_digit (n : N) : ascii :=
  if (n <? 10)%N then ascii_of_N (48 + n) else ascii_of_N (87 + n).

(** The bytes of one character inside a quoted string. *)
Definition quote_byte (c : ascii) : string :=
  if bool_decide (c = dquote ∨ c = backslash) then String backslash (String c EmptyString)
  else if bool_decide (N_of_ascii c = 10%N) then String backslash "n"
  else if bool_decide (N_of_ascii c = 9%N) then String backslash "t"
  else if bool_decide (N_of_ascii c = 13%N) then String backslash "r"
  else if bool_decide (N_of_ascii c = 7%N) then String backslash "a"
  else if bool_decide (N_of_ascii c = 8%N) then String backslash "b"
  else if bool_decide (N_of_ascii c = 12%N) then String backslash "f"
  else if bool_decide (N_of_ascii c = 11%N) then String backslash "v"
  else if (N_of_ascii c <? 32)%N || (N_of_ascii c =? 127)%N then
    String backslash (String "x"%char
      (String (hex_digit (N_of_ascii c / 16)) (String (hex_digit (N_of_ascii c mod 16)) EmptyString)))
  else String c EmptyString.

Fixpoint quote_body (s : string) : string :=
  match s with
  | EmptyString => EmptyString
  | String c s' => quote_byte c +:+ quote_body s'
  end.

(** strconv.Quote *)
Definition Quote (s : string) : string :=
  String dquote (quote_body s +:+ String dquote EmptyString).

(** ** Numerals *)

(** The number some digits stand for *)
Definition digit_value (c : ascii) : Z := Z.of_N (N_of_ascii c) - 48.
Fixpoint decimal (acc : Z) (digits : string) : Z :=
  match digits with
  | String c digits => decimal (10 * acc + digit_value c)%Z digits
  | EmptyString => acc
  end.
Definition maxInt : Z := 2 ^ 63 - 1.

(** strconv.Atoi of digits, its error ignored: a number that does not fit is
    the largest one, and no digit at all is zero. *)
Definition atoi (digits : string) : Z := Z.min maxInt (decimal 0 digits).

(** slices.Compare of two versions *)
Notation version := (Z * Z * Z)%type.
Definition compare_versions (v want : version) : comparison :=
  let '(a, b, c) := v in
  let '(x, y, z) := want in
  match Z.compare a x with
  | Eq => match Z.compare b y with Eq => Z.compare c z | r => r end
  | r => r
  end.

(** A numeral: nothing but digits *)
Fixpoint all_digits (s : string) : bool :=
  match s with String c s => byte_is_digit c && all_digits s | EmptyString => true end.

(** ** Lemmas *)

Lemma byte_to_lower_idem c : byte_to_lower (byte_to_lower c) = byte_to_lower c.
Proof. destruct c as [[] [] [] [] [] [] [] []]; reflexivity. Qed.

Lemma ToLower_idem s : ToLower (ToLower s) = ToLower s.
Proof. induction s as [|c s IH]; simpl; [done|]. by rewrite byte_to_lower_idem, IH. Qed.

Lemma EqualFold_spec s t : EqualFold s t = true ↔ ToLower s = ToLower t.
Proof.
  revert t. induction s as [|c s IH]; intros [|d t]; simpl; try done.
  rewrite andb_true_iff, bool_decide_eq_true, IH. split.
  - intros [-> ->]. done.
  - intros [=]. done.
Qed.

Lemma EqualFold_decide s t : EqualFold s t = bool_decide (ToLower s = ToLower t).
Proof.
  apply eq_true_iff_eq. by rewrite EqualFold_spec, bool_decide_eq_true.
Qed.

Lemma EqualFold_refl s : EqualFold s s = true.
Proof. by apply EqualFold_spec. Qed.

Lemma EqualFold_sym s t : EqualFold s t = EqualFold t s.
Proof. rewrite !EqualFold_decide. apply bool_decide_ext. done. Qed.

Lemma ContainsByte_Cut s c : ContainsByte s c = true ↔ is_Some (Cut s c).
Proof.
  induction s as [|d s IH]; simpl.
  { split; [done|]. by intros [? ?]. }
  destruct (bool_decide (d = c)); simpl.
  { split; [by eexists|done]. }
  by rewrite fmap_is_Some.
Qed.

Lemma Cut_app_sep a b c : ContainsByte a c = false → Cut (a +:+ String c b) c = Some (a, b).
Proof.
  induction a as [|d a IH]; simpl; intros Hc.
  - by rewrite bool_decide_eq_true_2.
  - apply orb_false_iff in Hc as [Hd Hc]. rewrite Hd, IH; done.
Qed.

Lemma sort_strings_perm l : sort_strings l ≡ₚ l.
Proof. apply merge_sort_Permutation. Qed.

Lemma str_app_cons c a b : String c a +:+ b = String c (a +:+ b).
Proof. done. Qed.

Lemma str_app_nil_l a : "" +:+ a = a.
Proof. done. Qed.

Lemma str_app_length a b : String.length (a +:+ b) = String.length a + String.length b.
Proof. induction a as [|c a IH]; [done|]. rewrite str_app_cons. simpl. by rewrite IH. Qed.

Lemma str_app_assoc (a b c : string) : (a +:+ b) +:+ c = a +:+ (b +:+ c).
Proof. induction a as [|x a IH]; [done|]. by rewrite !str_app_cons, IH. Qed.

Lemma str_app_nil_r s : s +:+ "" = s.
Proof. induction s as [|c s IH]; [done|]. by rewrite str_app_cons, IH. Qed.

Lemma str_app_inj_r a b c : a +:+ c = b +:+ c → a = b.
Proof.
  intros H. assert (String.length a = String.length b) as Hlen.
  { apply (f_equal String.length) in H. rewrite !str_app_length in H. lia. }
  revert b Hlen H. induction a as [|x a IH]; intros [|y b] Hlen H; try done.
  rewrite !str_app_cons in H. injection H as -> H. injection Hlen as Hlen. by rewrite (IH b Hlen H).
Qed.

Lemma pretty_digit d : (d < 10)%N → byte_is_digit (pretty_N_char d) = true ∧ digit_value (pretty_N_char d) = Z.of_N d.
Proof.
  intros Hd. assert (d = 0 ∨ d = 1 ∨ d = 2 ∨ d = 3 ∨ d = 4 ∨ d = 5 ∨ d = 6 ∨ d = 7 ∨ d = 8 ∨ d = 9)%N as Hc by lia.
  destruct_or! Hc; subst d; done.
Qed.

Lemma pretty_numeral x s :
  decimal 0 (pretty_N_go x s) = decimal (Z.of_N x) s ∧ (all_digits s = true → all_digits (pretty_N_go x s) = true).
Proof.
  revert s. induction (N.lt_wf_0 x) as [x _ IH]. intros s. destruct (decide (0 < x)%N) as [Hx|Hx].
  - rewrite pretty_N_go_step by done. assert (x `div` 10 < x)%N as Hlt by (apply N.div_lt; lia).
    destruct (pretty_digit (x `mod` 10) ltac:(apply N.mod_lt; lia)) as [Hd Hv].
    destruct (IH _ Hlt (String (pretty_N_char (x `mod` 10)) s)) as [-> Hall]. split.
    + simpl. rewrite Hv. f_equal. pose proof (N.div_mod x 10 ltac:(lia)). lia.
    + intros Hs. apply Hall. simpl. by rewrite Hd.
  - assert (x = 0%N) as -> by lia. by rewrite pretty_N_go_0.
Qed.

Lemma itoa_numeral n : (0 ≤ n)%Z → decimal 0 (itoa n) = n ∧ all_digits (itoa n) = true ∧ itoa n ≠ "".
Proof.
  intros Hn. unfold itoa. destruct (decide (n = 0%Z)) as [->|Hne]; [done|].
  assert (pretty n = pretty_N_go (Z.to_N n) "") as ->.
  { destruct n as [|p|p]; [done| |lia]. change (pretty (Z.pos p)) with (pretty (N.pos p)). unfold pretty, pretty_N.
    by case_decide. }
  destruct (pretty_numeral (Z.to_N n) "") as [Hd Hall]. rewrite Hd. split; [simpl; lia|]. split; [by apply Hall|].
  intros He. rewrite He in Hd. simpl in Hd. lia.
Qed.

Lemma digit_value_nonneg c : byte_is_digit c = true → (0 ≤ digit_value c)%Z.
Proof. unfold byte_is_digit, digit_value. intros [Hc _]%andb_true_iff. apply N.leb_le in Hc. lia. Qed.

Lemma decimal_nonneg s acc : (0 ≤ acc)%Z → all_digits s = true → (0 ≤ decimal acc s)%Z.
Proof.
  revert acc. induction s as [|c s IH]; intros acc Ha; simpl; [done|]. intros [Hc Hs]%andb_true_iff.
  apply IH; [|done]. pose proof (digit_value_nonneg c Hc). lia.
Qed.
