(* ===== verification/Keys.v ===== *)
(** * Identifiers: migration keys and model keys

    migrations/migration.go, migrations/field.go, migrations/state.go and the
    key helpers of internal/graph/graph.go. *)

From S2P Require Import Prelude GoStd.

(** ** Migration keys *)

Record Key := mkKey { key_App : string; key_Name : string }.

#[export] Instance Key_eq_dec : EqDecision Key.
Proof. solve_decision. Defined.

#[export] Instance Key_countable : Countable Key.
Proof.
  apply (inj_countable' (fun k => (key_App k, key_Name k)) (fun '(a, n) => mkKey a n)).
  by intros [].
Defined.

(** Key.String *)
Definition Key_String (k : Key) : string := key_App k +:+ "." +:+ key_Name k.

(** Dep, First and Latest *)
Definition Dep (app name : string) : Key := mkKey app name.
Definition First (app : string) : Key := mkKey app "__first__".
Definition Latest (app : string) : Key := mkKey app "__latest__".

(** FormatKey *)
Definition FormatKey (k : Key) : string :=
  "('" +:+ key_App k +:+ "', '" +:+ key_Name k +:+ "')".

(** CompareKeys: cmp.Or of the two comparisons, so the name decides only
    between keys of the same app. *)
Definition CompareKeys (a b : Key) : comparison :=
  match String.compare (key_App a) (key_App b) with
  | Eq => String.compare (key_Name a) (key_Name b)
  | c => c
  end.

Definition key_le (a b : Key) : Prop := CompareKeys a b ≠ Gt.

#[export] Instance key_le_dec a b : Decision (key_le a b).
Proof. unfold key_le. apply _. Defined.

(** SortKeys *)
Definition SortKeys (keys : list Key) : list Key := merge_sort key_le keys.

(** ** Model keys *)

Record ModelKey := mkModelKey { mk_App : string; mk_Model : string }.

#[export] Instance ModelKey_eq_dec : EqDecision ModelKey.
Proof. solve_decision. Defined.

#[export] Instance ModelKey_countable : Countable ModelKey.
Proof.
  apply (inj_countable' (fun k => (mk_App k, mk_Model k)) (fun '(a, n) => mkModelKey a n)).
  by intros [].
Defined.

Definition ModelKey_String (k : ModelKey) : string := mk_App k +:+ "." +:+ mk_Model k.

(** ResolveRelation turns "app.Model" or "Model" into a ModelKey. *)
Definition ResolveRelation (ref appLabel : string) : ModelKey :=
  match Cut ref dot with
  | Some (app, model) => mkModelKey app (ToLower model)
  | None => mkModelKey appLabel (ToLower ref)
  end.

Definition compareModelKeys (a b : ModelKey) : comparison :=
  match String.compare (mk_App a) (mk_App b) with
  | Eq => String.compare (mk_Model a) (mk_Model b)
  | c => c
  end.

Definition model_key_le (a b : ModelKey) : Prop := compareModelKeys a b ≠ Gt.

#[export] Instance model_key_le_dec a b : Decision (model_key_le a b).
Proof. unfold model_key_le. apply _. Defined.

Definition sortKeys (keys : list ModelKey) : list ModelKey := merge_sort model_key_le keys.

(** ** Both orders are the lexicographic order on pairs of strings *)

Definition pair_compare (a b : string * string) : comparison :=
  match String.compare a.1 b.1 with
  | Eq => String.compare a.2 b.2
  | c => c
  end.

Definition pair_le (a b : string * string) : Prop := pair_compare a b ≠ Gt.

Lemma pair_le_iff a b :
  pair_le a b ↔ (a.1 = b.1 ∧ str_le a.2 b.2) ∨ String.compare a.1 b.1 = Lt.
Proof.
  unfold pair_le, pair_compare, str_le.
  destruct (String.compare a.1 b.1) eqn:E.
  - apply String.compare_eq_iff in E. naive_solver.
  - naive_solver.
  - split; [done|]. intros [[Heq _]|]; [|done].
    rewrite Heq, str_compare_refl in E. done.
Qed.

#[export] Instance pair_le_preorder : PreOrder pair_le.
Proof.
  split.
  - intros a. apply pair_le_iff. left. by split.
  - intros a b c. rewrite !pair_le_iff.
    intros [[H1 H2]|H1] [[H3 H4]|H3].
    + left. split; [congruence|]. by etrans.
    + right. by rewrite H1.
    + right. by rewrite <- H3.
    + right. by eapply str_compare_trans.
Qed.

#[export] Instance pair_le_antisymm : AntiSymm eq pair_le.
Proof.
  intros a b. rewrite !pair_le_iff.
  assert (Hlt : ∀ x y, String.compare x y = Lt → String.compare y x = Lt → False).
  { intros x y H1 H2. pose proof (str_compare_trans _ _ _ H1 H2) as H3.
    rewrite str_compare_refl in H3. done. }
  assert (Hne : ∀ x, String.compare x x = Lt → False).
  { intros x H. by rewrite str_compare_refl in H. }
  destruct a as [a1 a2], b as [b1 b2]; simpl.
  intros [[-> H2]|H1] [[H3 H4]|H3].
  - f_equal. by apply (anti_symm str_le).
  - exfalso. eauto.
  - subst. exfalso. eauto.
  - exfalso. eauto.
Qed.

#[export] Instance pair_le_total : Total pair_le.
Proof.
  intros a b. rewrite !pair_le_iff.
  pose proof (String.compare_antisym a.1 b.1) as Ha.
  destruct (String.compare a.1 b.1) eqn:E.
  - apply String.compare_eq_iff in E. rewrite E.
    destruct (total str_le a.2 b.2); auto.
  - auto.
  - right. right. destruct (String.compare b.1 a.1); simpl in Ha; congruence.
Qed.

Lemma key_le_pair a b :
  key_le a b ↔ pair_le (key_App a, key_Name a) (key_App b, key_Name b).
Proof. done. Qed.

Lemma model_key_le_pair a b :
  model_key_le a b ↔ pair_le (mk_App a, mk_Model a) (mk_App b, mk_Model b).
Proof. done. Qed.

#[export] Instance key_le_preorder : PreOrder key_le.
Proof.
  split.
  - intros a. rewrite key_le_pair. reflexivity.
  - intros a b c. rewrite !key_le_pair. apply transitivity.
Qed.

#[export] Instance key_le_antisymm : AntiSymm eq key_le.
Proof.
  intros a b. rewrite !key_le_pair. intros H1 H2.
  pose proof (anti_symm pair_le _ _ H1 H2) as [= Ha Hn].
  destruct a, b; simpl in *; congruence.
Qed.

#[export] Instance key_le_total : Total key_le.
Proof. intros a b. rewrite !key_le_pair. apply (total pair_le). Qed.

#[export] Instance model_key_le_preorder : PreOrder model_key_le.
Proof.
  split.
  - intros a. rewrite model_key_le_pair. reflexivity.
  - intros a b c. rewrite !model_key_le_pair. apply transitivity.
Qed.

#[export] Instance model_key_le_antisymm : AntiSymm eq model_key_le.
Proof.
  intros a b. rewrite !model_key_le_pair. intros H1 H2.
  pose proof (anti_symm pair_le _ _ H1 H2) as [= Ha Hn].
  destruct a, b; simpl in *; congruence.
Qed.

#[export] Instance model_key_le_total : Total model_key_le.
Proof. intros a b. rewrite !model_key_le_pair. apply (total pair_le). Qed.

Lemma elem_of_SortKeys k l : k ∈ SortKeys l ↔ k ∈ l.
Proof. unfold SortKeys. by rewrite merge_sort_Permutation. Qed.

Lemma NoDup_SortKeys l : NoDup (SortKeys l) ↔ NoDup l.
Proof. unfold SortKeys. by rewrite merge_sort_Permutation. Qed.

Lemma elem_of_sortKeys k l : k ∈ sortKeys l ↔ k ∈ l.
Proof. unfold sortKeys. by rewrite merge_sort_Permutation. Qed.

Lemma NoDup_sortKeys l : NoDup (sortKeys l) ↔ NoDup l.
Proof. unfold sortKeys. by rewrite merge_sort_Permutation. Qed.

(** The result of a sort does not depend on the order of its input: Go's
    random map iteration order cannot be observed through it. *)
Lemma SortKeys_perm l1 l2 : l1 ≡ₚ l2 → SortKeys l1 = SortKeys l2.
Proof.
  intros Hp. apply (StronglySorted_unique key_le).
  - apply StronglySorted_merge_sort; apply _.
  - apply StronglySorted_merge_sort; apply _.
  - unfold SortKeys. by rewrite !merge_sort_Permutation.
Qed.

Lemma ResolveRelation_qualified app model label :
  ContainsByte app dot = false →
  ResolveRelation (app +:+ "." +:+ model) label = mkModelKey app (ToLower model).
Proof.
  intros Ha. unfold ResolveRelation.
  change ("." +:+ model) with (String dot model). by rewrite Cut_app_sep.
Qed.
