(* ===== verification/Errors.v ===== *)
(** * Errors and the error monad

    migrations/exceptions.go, the two error types of
    internal/loader/loader.go and those of internal/management/errors.go.
    Each Go error type is a constructor; an error made by fmt.Errorf or
    errors.New is [PlainError]. *)

From S2P Require Import Prelude GoStd Keys.

Inductive error :=
| PlainError (Msg : string)
| AmbiguityError (Msg : string)
| BadMigrationError (Msg : string)
| CircularDependencyError (Msg : string)
| InconsistentMigrationHistory (Msg : string)
| IrreversibleError (Msg : string)
| NodeNotFoundError (Message : string) (Node : Key) (Origin : string)
| MigrationSchemaMissing (Msg : string)
| InvalidMigrationPlan (Msg : string) (Plan : list (Key * bool))
| NotSupportedError (Msg : string)
| FieldDoesNotExist (Msg : string)
| ModelNotFoundError (Msg : string)
| ValueError (Msg : string) (Err : option error)
| CommandError (Msg : string)
| MigrationNotFoundError (Msg : string)
| JoinedError (errs : list string)
| ManagementError (Msg : string)
| UsageError (Msg : string)
| AbortError (Msg : string)
| SilentError (Code : Z) (Why : string)
| SystemCheckError (Msg : string).

(** The Error method of each type: the text the user sees. *)
Definition Error (e : error) : string :=
  match e with
  | PlainError m | AmbiguityError m | BadMigrationError m | CircularDependencyError m
  | InconsistentMigrationHistory m | IrreversibleError m | NodeNotFoundError m _ _
  | MigrationSchemaMissing m | InvalidMigrationPlan m _ | NotSupportedError m
  | FieldDoesNotExist m | ModelNotFoundError m | ValueError m _ | CommandError m
  | MigrationNotFoundError m | ManagementError m | UsageError m | AbortError m | SilentError _ m | SystemCheckError m => m
  | JoinedError msgs => Join msgs (String (ascii_of_nat 10) EmptyString)
  end.

(** valueError wraps an error in one that prints exactly as it does. *)
Definition valueError (err : error) : error := ValueError (Error err) (Some err).

(** ** Results *)

(** What a Go call comes to: a value, a returned error, or a panic. *)
Inductive outcome (A : Type) :=
| Ok (a : A)
| Err (e : error)
| Panic (e : error).
Arguments Ok {A} a.
Arguments Err {A} e.
Arguments Panic {A} e.

#[export] Instance outcome_ret : MRet outcome := @Ok.
#[export] Instance outcome_bind : MBind outcome := fun A B f m =>
  match m with
  | Ok a => f a
  | Err e => Err e
  | Panic e => Panic e
  end.
#[export] Instance outcome_fmap : FMap outcome := fun A B f m =>
  match m with
  | Ok a => Ok (f a)
  | Err e => Err e
  | Panic e => Panic e
  end.

(** The panic of a nil pointer dereference, and of an index out of range. *)
Definition nil_dereference : error :=
  PlainError "runtime error: invalid memory address or nil pointer dereference".
Definition index_out_of_range : error :=
  PlainError "runtime error: index out of range".

(** Reading through a pointer that may be nil *)
Definition deref {A} (p : option A) : outcome A := match p with Some a => Ok a | None => Panic nil_dereference end.

Definition is_ok {A} (m : outcome A) : bool := match m with Ok _ => true | _ => false end.

(** A loop whose body may fail: it stops at the first error. *)
Section fold.
Context {A S : Type} (f : S → A → outcome S).
Fixpoint foldM (s : S) (l : list A) : outcome S :=
  match l with
  | [] => Ok s
  | x :: l' => match f s x with
               | Ok s' => foldM s' l'
               | Err e => Err e
               | Panic e => Panic e
               end
  end.
End fold.

(** ** Lemmas *)

Lemma bind_Ok {A B} (m : outcome A) (f : A → outcome B) b :
  (m ≫= f) = Ok b ↔ ∃ a, m = Ok a ∧ f a = Ok b.
Proof. destruct m; simpl; naive_solver. Qed.

Lemma bind_Err {A B} (m : outcome A) (f : A → outcome B) e :
  (m ≫= f) = Err e ↔ m = Err e ∨ ∃ a, m = Ok a ∧ f a = Err e.
Proof. destruct m; simpl; naive_solver. Qed.

Lemma bind_assoc {A B C} (m : outcome A) (f : A → outcome B) (g : B → outcome C) :
  ((m ≫= f) ≫= g) = (m ≫= fun a => f a ≫= g).
Proof. by destruct m. Qed.

Lemma foldM_cons {A S} (f : S → A → outcome S) s x l :
  foldM f s (x :: l) = (s' ← f s x; foldM f s' l).
Proof. simpl. by destruct (f s x). Qed.

Lemma foldM_app {A S} (f : S → A → outcome S) s l1 l2 :
  foldM f s (l1 ++ l2) = (foldM f s l1 ≫= fun s' => foldM f s' l2).
Proof.
  revert s. induction l1 as [|x l1 IH]; intros s; simpl; [done|].
  destruct (f s x); simpl; auto.
Qed.

Lemma foldM_snoc {A S} (f : S → A → outcome S) s l x s' :
  foldM f s (l ++ [x]) = Ok s' ↔ ∃ s1, foldM f s l = Ok s1 ∧ f s1 x = Ok s'.
Proof.
  rewrite foldM_app, bind_Ok. split; intros (s1 & H1 & H2); exists s1; (split; [done|]); simpl in *; by destruct (f s1 x).
Qed.

(** An invariant of the body is an invariant of the loop. *)
Lemma foldM_ind {A S} (f : S → A → outcome S) (P : S → Prop) s l s' :
  (∀ s x s', x ∈ l → P s → f s x = Ok s' → P s') →
  P s → foldM f s l = Ok s' → P s'.
Proof.
  revert s. induction l as [|x l IH]; intros s Hf Hs Hfold.
  { by simplify_eq/=. }
  rewrite foldM_cons in Hfold. apply bind_Ok in Hfold as (s1 & H1 & H2).
  eapply (IH s1); [|by eapply Hf; [left|done|]|done].
  intros s2 y s3 Hy. apply Hf. by right.
Qed.

(** A loop panics only when its body does. *)
Lemma foldM_no_panic {A S} (f : S → A → outcome S) s l e :
  (∀ s x, x ∈ l → ∀ e, f s x ≠ Panic e) → foldM f s l ≠ Panic e.
Proof.
  revert s. induction l as [|x l IH]; intros s Hf; simpl; [done|].
  destruct (f s x) eqn:E; [|done|].
  - apply IH. intros s1 y Hy. apply Hf. by right.
  - exfalso. by eapply (Hf s x); [left|].
Qed.

(** The computation does not panic, and what it returns satisfies P. *)
Definition fine {A} (P : A → Prop) (o : outcome A) : Prop :=
  match o with Ok a => P a | Err _ => True | Panic _ => False end.

Lemma fine_bind {A B} (P : A → Prop) (Q : B → Prop) (m : outcome A) (f : A → outcome B) :
  fine P m → (∀ a, P a → fine Q (f a)) → fine Q (m ≫= f).
Proof. destruct m; simpl; auto. Qed.

Lemma fine_mono {A} (P Q : A → Prop) (m : outcome A) : fine P m → (∀ a, P a → Q a) → fine Q m.
Proof. destruct m; simpl; auto. Qed.

Lemma fine_foldM {A S} (P : S → Prop) (f : S → A → outcome S) s l :
  P s → (∀ s x, x ∈ l → P s → fine P (f s x)) → fine P (foldM f s l).
Proof.
  revert s. induction l as [|x l IH]; intros s Hs Hf; simpl; [done|].
  pose proof (Hf s x (list_elem_of_here _ _) Hs) as Hx. destruct (f s x) as [s'|e|e]; simpl in *; [|done|done].
  apply IH; [done|]. intros s1 y Hy. apply Hf. by right.
Qed.

Lemma Error_valueError e : Error (valueError e) = Error e.
Proof. done. Qed.
