(* ===== verification/Fields.v ===== *)
(** * Fields: migrations/field.go and migrations/deconstruct.go

    The description of one column, and the deconstruction two values are
    compared by. A Go [any] is an [any] here; a nil pointer, map or interface
    is [None]. *)

From S2P Require Import Prelude GoStd Keys Errors.

(** ** Dynamic values *)

(** A function value is known by what reflection tells of it: its qualified
    name, its type as %s prints it, and the shape of its signature. *)
Record GoFunc := mkGoFunc {
  fn_Name : string;
  fn_Type : string;
  fn_NumIn : nat;
  fn_NumOut : nat;
  fn_Variadic : bool;
}.

#[export] Instance GoFunc_eq_dec : EqDecision GoFunc.
Proof. solve_decision. Defined.

(** The values a Go [any] holds in this program. [AnyOther] is a value of any
    other comparable type: its type name and its value as printed. *)
Inductive any :=
| AnyBool (b : bool)
| AnyInt (z : Z)
| AnyString (s : string)
| AnyFunc (f : GoFunc)
| AnyFuncRef (name : string)
| AnyGoExpr (Source : string)
| AnyOther (typ repr : string).

#[export] Instance any_eq_dec : EqDecision any.
Proof. solve_decision. Defined.

(** ** Data types and referential actions *)

(** A DataType is a string; these are the standard ones. *)
Definition DataType := string.
Definition Bool_ : DataType := "bool".
Definition Int_ : DataType := "int".
Definition Uint_ : DataType := "uint".
Definition Float_ : DataType := "float".
Definition String_ : DataType := "string".
Definition Time_ : DataType := "time".
Definition Bytes_ : DataType := "bytes".

Definition ReferentialAction := string.
Definition Cascade : ReferentialAction := "CASCADE".
Definition SetNull : ReferentialAction := "SET NULL".
Definition SetDefault : ReferentialAction := "SET DEFAULT".
Definition Restrict : ReferentialAction := "RESTRICT".
Definition NoAction : ReferentialAction := "NO ACTION".

(** ** The field record and its parts *)

Record DBDefault := mkDBDefault { dbd_Value : option any; dbd_Expr : string }.

Definition DBValue (v : any) : DBDefault := mkDBDefault (Some v) "".
Definition DBExpr (sql : string) : DBDefault := mkDBDefault None sql.

Record ForeignKey := mkForeignKey {
  fk_To : string;
  fk_ToField : string;
  fk_OnDelete : ReferentialAction;
  fk_OnUpdate : ReferentialAction;
  fk_Name : string;
}.

(** [tr_Type] is the identity of the reflect.Type; it plays no part in any
    comparison of this program. *)
Record TypeRef := mkTypeRef { tr_Package : string; tr_Name : string; tr_Type : string }.

Definition TypeRef_String (r : option TypeRef) : string :=
  match r with
  | None => ""
  | Some r => tr_Package r +:+ "." +:+ tr_Name r
  end.

Record Field := mkField {
  fld_Type : DataType;
  fld_Size : Z;
  fld_Precision : Z;
  fld_Scale : Z;
  fld_PrimaryKey : bool;
  fld_AutoIncrement : bool;
  fld_AutoIncrementIncrement : Z;
  fld_Null : bool;
  fld_Unique : bool;
  fld_DBDefault : option DBDefault;
  fld_Default : option any;
  fld_Comment : string;
  fld_Custom : option TypeRef;
  fld_Tags : option (gmap string string);
  fld_ForeignKey : option ForeignKey;
  fld_AutoNowAdd : bool;
  fld_AutoNow : bool;
  fld_Serializer : string;
}.

#[export] Instance DBDefault_eq_dec : EqDecision DBDefault.
Proof. solve_decision. Defined.
#[export] Instance ForeignKey_eq_dec : EqDecision ForeignKey.
Proof. solve_decision. Defined.
#[export] Instance TypeRef_eq_dec : EqDecision TypeRef.
Proof. solve_decision. Defined.
#[export] Instance Field_eq_dec : EqDecision Field.
Proof. solve_decision. Defined.

(** The zero Field, and the record updates the program makes. *)
Definition zero_Field : Field :=
  mkField "" 0 0 0 false false 0 false false None None "" None None None false false "".

Definition fld_set_Default (d : option any) (f : Field) : Field :=
  mkField (fld_Type f) (fld_Size f) (fld_Precision f) (fld_Scale f) (fld_PrimaryKey f)
    (fld_AutoIncrement f) (fld_AutoIncrementIncrement f) (fld_Null f) (fld_Unique f)
    (fld_DBDefault f) d (fld_Comment f) (fld_Custom f) (fld_Tags f) (fld_ForeignKey f)
    (fld_AutoNowAdd f) (fld_AutoNow f) (fld_Serializer f).

Definition fld_set_ForeignKey (fk : option ForeignKey) (f : Field) : Field :=
  mkField (fld_Type f) (fld_Size f) (fld_Precision f) (fld_Scale f) (fld_PrimaryKey f)
    (fld_AutoIncrement f) (fld_AutoIncrementIncrement f) (fld_Null f) (fld_Unique f)
    (fld_DBDefault f) (fld_Default f) (fld_Comment f) (fld_Custom f) (fld_Tags f) fk
    (fld_AutoNowAdd f) (fld_AutoNow f) (fld_Serializer f).

Definition fk_set_To (to : string) (fk : ForeignKey) : ForeignKey :=
  mkForeignKey to (fk_ToField fk) (fk_OnDelete fk) (fk_OnUpdate fk) (fk_Name fk).

Definition fk_set_ToField (toField : string) (fk : ForeignKey) : ForeignKey :=
  mkForeignKey (fk_To fk) toField (fk_OnDelete fk) (fk_OnUpdate fk) (fk_Name fk).

(** Field.IsRelation, Field.HasDefault *)
Definition IsRelation (f : Field) : bool := bool_decide (is_Some (fld_ForeignKey f)).
Definition HasDefault (f : Field) : bool := bool_decide (is_Some (fld_Default f)).

(** Field.Clone copies the values behind the pointers and the map. *)
Definition Field_Clone (f : Field) : Field :=
  mkField (fld_Type f) (fld_Size f) (fld_Precision f) (fld_Scale f) (fld_PrimaryKey f)
    (fld_AutoIncrement f) (fld_AutoIncrementIncrement f) (fld_Null f) (fld_Unique f)
    (match fld_DBDefault f with
     | Some d => Some (mkDBDefault (dbd_Value d) (dbd_Expr d))
     | None => None
     end)
    (fld_Default f) (fld_Comment f) (fld_Custom f) (fld_Tags f)
    (match fld_ForeignKey f with
     | Some fk => Some (mkForeignKey (fk_To fk) (fk_ToField fk) (fk_OnDelete fk)
                          (fk_OnUpdate fk) (fk_Name fk))
     | None => None
     end)
    (fld_AutoNowAdd f) (fld_AutoNow f) (fld_Serializer f).

(** ForeignKey.Target *)
Definition Target (fk : ForeignKey) (appLabel : string) : ModelKey :=
  ResolveRelation (fk_To fk) appLabel.

(** ** Field lists *)

Record NamedField := mkNamedField { nf_Name : string; nf_Field : Field }.

#[export] Instance NamedField_eq_dec : EqDecision NamedField.
Proof. solve_decision. Defined.

Notation Fields := (list NamedField).

(** Fields.Index, with -1 as [None] *)
Definition Fields_Index (fs : Fields) (name : string) : option nat :=
  index_func (fun f => bool_decide (nf_Name f = name)) fs.

(** Fields.Get *)
Definition Fields_Get (fs : Fields) (name : string) : option Field :=
  match Fields_Index fs name with
  | Some i => nf_Field <$> fs !! i
  | None => None
  end.

(** Fields.Names *)
Definition Fields_Names (fs : Fields) : list string := map nf_Name fs.

(** ** One element of an index *)

Record IndexField := mkIndexField {
  if_Column : string;
  if_Expression : string;
  if_Sort : string;
  if_Collate : string;
  if_Length : Z;
}.

#[export] Instance IndexField_eq_dec : EqDecision IndexField.
Proof. solve_decision. Defined.

(** ** Deconstruction *)

(** The value of a KV, by the Go type it has. *)
Inductive KVValue :=
| VString (s : string)
| VInt (z : Z)
| VBool (b : bool)
| VBoolPtr (b : bool)
| VAny (a : any)
| VDBDefault (d : DBDefault)
| VTypeRef (r : TypeRef)
| VTags (m : gmap string string)
| VForeignKey (fk : ForeignKey)
| VIndexFields (l : list IndexField)
| VStrings (l : list string).

#[export] Instance KVValue_eq_dec : EqDecision KVValue.
Proof. solve_decision. Defined.

Record KV := mkKV { kv_Key : string; kv_Value : KVValue }.

(** reflect.DeepEqual on [any]: function values are never deeply equal. *)
Definition any_DeepEqual (a b : any) : bool :=
  match a, b with
  | AnyFunc _, _ | _, AnyFunc _ => false
  | _, _ => bool_decide (a = b)
  end.

Definition DBDefault_DeepEqual (a b : DBDefault) : bool :=
  bool_decide (dbd_Expr a = dbd_Expr b) &&
  match dbd_Value a, dbd_Value b with
  | None, None => true
  | Some x, Some y => any_DeepEqual x y
  | _, _ => false
  end.

(** reflect.DeepEqual on deconstructed values *)
Definition DeepEqual (a b : KVValue) : bool :=
  match a, b with
  | VAny x, VAny y => any_DeepEqual x y
  | VDBDefault x, VDBDefault y => DBDefault_DeepEqual x y
  | _, _ => bool_decide (a = b)
  end.

(** One iteration of deconstructEqual: the values are deeply equal, or are
    type references of the same name. *)
Definition kv_value_equal (a b : KVValue) : bool :=
  DeepEqual a b ||
  match a, b with
  | VTypeRef ra, VTypeRef rb => bool_decide (TypeRef_String (Some ra) = TypeRef_String (Some rb))
  | _, _ => false
  end.

(** deconstructEqual *)
Fixpoint deconstructEqual (a b : list KV) : bool :=
  match a, b with
  | [], [] => true
  | x :: a', y :: b' =>
      bool_decide (kv_Key x = kv_Key y) && kv_value_equal (kv_Value x) (kv_Value y) &&
      deconstructEqual a' b'
  | _, _ => false
  end.

(** A struct as reflection walks it: its exported fields in declaration
    order, each with its value, or [None] where the field is zero. *)
Notation attributes T := (list (string * (T → option KVValue))).

Definition deconstruct {T} (attrs : attributes T) (x : T) : list KV :=
  omap (fun '(k, get) => mkKV k <$> get x) attrs.

Definition at_string (s : string) : option KVValue :=
  if bool_decide (s = "") then None else Some (VString s).
Definition at_int (z : Z) : option KVValue :=
  if bool_decide (z = 0%Z) then None else Some (VInt z).
Definition at_bool (b : bool) : option KVValue :=
  if b then Some (VBool b) else None.

(** normalizeDefault: a function is compared by its qualified name. *)
Definition normalizeDefault (v : any) : any :=
  match v with
  | AnyFunc f => AnyFuncRef (fn_Name f)
  | _ => v
  end.

Definition AttrDefault : string := "Default".
Definition AttrForeignKey : string := "ForeignKey".

Definition Field_attributes : attributes Field := [
  ("Type", fun f => at_string (fld_Type f));
  ("Size", fun f => at_int (fld_Size f));
  ("Precision", fun f => at_int (fld_Precision f));
  ("Scale", fun f => at_int (fld_Scale f));
  ("PrimaryKey", fun f => at_bool (fld_PrimaryKey f));
  ("AutoIncrement", fun f => at_bool (fld_AutoIncrement f));
  ("AutoIncrementIncrement", fun f => at_int (fld_AutoIncrementIncrement f));
  ("Null", fun f => at_bool (fld_Null f));
  ("Unique", fun f => at_bool (fld_Unique f));
  ("DBDefault", fun f => VDBDefault <$> fld_DBDefault f);
  (AttrDefault, fun f => (fun v => VAny (normalizeDefault v)) <$> fld_Default f);
  ("Comment", fun f => at_string (fld_Comment f));
  ("Custom", fun f => VTypeRef <$> fld_Custom f);
  ("Tags", fun f => VTags <$> fld_Tags f);
  (AttrForeignKey, fun f => (fun fk => VForeignKey (fk_set_To (ToLower (fk_To fk)) fk)) <$> fld_ForeignKey f);
  ("AutoNowAdd", fun f => at_bool (fld_AutoNowAdd f));
  ("AutoNow", fun f => at_bool (fld_AutoNow f));
  ("Serializer", fun f => at_string (fld_Serializer f))
].

(** Field.Deconstruct *)
Definition Deconstruct (f : Field) : list KV := deconstruct Field_attributes f.

(** Field.Equal *)
Definition Field_Equal (f o : Field) : bool :=
  deconstructEqual (Deconstruct f) (Deconstruct o).

(** ** Names and checks *)

(** Field.ClassName *)
Definition ClassName (f : Field) : string :=
  if bool_decide (is_Some (fld_ForeignKey f)) then "ForeignKey"
  else match fld_Custom f with
  | Some r => tr_Name r
  | None =>
    let t := fld_Type f in
    let s := fld_Size f in
    if bool_decide (t = Bool_) then "BooleanField"
    else if bool_decide (t = Int_ ∨ t = Uint_) then
      let prefix := if bool_decide (t = Uint_) && negb (fld_AutoIncrement f) then "Positive" else "" in
      if fld_AutoIncrement f then
        if (0 <? s)%Z && (s <=? 16)%Z then "SmallAutoField"
        else if (0 <? s)%Z && (s <=? 32)%Z then "AutoField"
        else "BigAutoField"
      else if (0 <? s)%Z && (s <=? 16)%Z then prefix +:+ "SmallIntegerField"
      else if (0 <? s)%Z && (s <=? 32)%Z then prefix +:+ "IntegerField"
      else prefix +:+ "BigIntegerField"
    else if bool_decide (t = Float_) then
      if (0 <? fld_Precision f)%Z then "DecimalField" else "FloatField"
    else if bool_decide (t = String_) then
      if (0 <? s)%Z then "CharField" else "TextField"
    else if bool_decide (t = Time_) then "DateTimeField"
    else if bool_decide (t = Bytes_) then "BinaryField"
    else "Field"
  end.

(** checkDefault (migrations/operation.go) *)
Definition checkDefault (name : string) (f : Field) : outcome unit :=
  match fld_Default f with
  | Some (AnyFunc fn) =>
      if fn_Variadic fn || negb (bool_decide (fn_NumIn fn = 0)) || negb (bool_decide (fn_NumOut fn = 1))
      then Err (ValueError ("field " +:+ name +:+ ": Default must be a literal value or a function with no arguments and a single result, not " +:+ fn_Type fn) None)
      else Ok tt
  | _ => Ok tt
  end.

(** ** What a deconstruction compares *)

(** Two optional attributes compare equal when both are zero or both are
    there and equal. *)
Definition attr_equal (a b : option KVValue) : bool :=
  match a, b with
  | None, None => true
  | Some x, Some y => kv_value_equal x y
  | _, _ => false
  end.

(** The form [Field_Equal] compares: the target of a foreign key in lower
    case, a function default by its name, a custom type by its string. *)
Definition Field_canonical (f : Field) : Field :=
  mkField (fld_Type f) (fld_Size f) (fld_Precision f) (fld_Scale f) (fld_PrimaryKey f)
    (fld_AutoIncrement f) (fld_AutoIncrementIncrement f) (fld_Null f) (fld_Unique f)
    (fld_DBDefault f) (normalizeDefault <$> fld_Default f) (fld_Comment f)
    ((fun r => mkTypeRef "" (TypeRef_String (Some r)) "") <$> fld_Custom f)
    (fld_Tags f) ((fun fk => fk_set_To (ToLower (fk_To fk)) fk) <$> fld_ForeignKey f)
    (fld_AutoNowAdd f) (fld_AutoNow f) (fld_Serializer f).

(** A database default written as a Go function would never compare equal to
    anything, itself included. *)
Definition db_default_comparable (f : Field) : Prop :=
  match fld_DBDefault f with
  | Some (mkDBDefault (Some (AnyFunc _)) _) => False
  | _ => True
  end.

#[export] Instance db_default_comparable_dec f : Decision (db_default_comparable f).
Proof.
  unfold db_default_comparable.
  destruct (fld_DBDefault f) as [[[[]|] ?]|]; apply _.
Defined.

Lemma deconstructEqual_keys a b :
  deconstructEqual a b = true → map kv_Key a = map kv_Key b.
Proof.
  revert b. induction a as [|x a IH]; intros [|y b]; simpl; try done.
  intros [[Hk _]%andb_true_iff Ht]%andb_true_iff. breflect.
  f_equal; auto.
Qed.

Lemma deconstruct_keys {T} (attrs : attributes T) (x : T) k :
  k ∈ map kv_Key (deconstruct attrs x) → k ∈ attrs.*1.
Proof.
  unfold deconstruct.
  induction attrs as [|[k' get] attrs IH]; simpl; [done|].
  destruct (get x); simpl.
  - intros [->|Hk]%elem_of_cons; [left|right; auto].
  - intros Hk. right. auto.
Qed.

Lemma deconstructEqual_iff {T} (attrs : attributes T) (x y : T) :
  NoDup attrs.*1 →
  deconstructEqual (deconstruct attrs x) (deconstruct attrs y) = true ↔
  Forall (fun a => attr_equal (a.2 x) (a.2 y) = true) attrs.
Proof.
  unfold deconstruct.
  induction attrs as [|[k get] attrs IH]; simpl; intros Hnd.
  { by split. }
  apply NoDup_cons in Hnd as [Hk Hnd]. specialize (IH Hnd).
  assert (Hhead : ∀ z w v, deconstructEqual (mkKV k v :: deconstruct attrs z)
                             (deconstruct attrs w) = true → False).
  { intros z w v Heq%deconstructEqual_keys. apply Hk.
    apply (deconstruct_keys attrs w). rewrite <- Heq. left. }
  assert (Hhead' : ∀ z w v, deconstructEqual (deconstruct attrs w)
                              (mkKV k v :: deconstruct attrs z) = true → False).
  { intros z w v Heq%deconstructEqual_keys. apply Hk.
    apply (deconstruct_keys attrs w). rewrite Heq. left. }
  rewrite Forall_cons. simpl. unfold attr_equal.
  destruct (get x) as [a|], (get y) as [b|]; simpl.
  - rewrite (bool_decide_eq_true_2 (k = k)) by done. simpl.
    by rewrite andb_true_iff, IH.
  - split; [intros H; by destruct (Hhead x y a)|]. by intros [? _].
  - split; [intros H; by destruct (Hhead' y x b)|]. by intros [? _].
  - rewrite IH. naive_solver.
Qed.

Lemma attr_equal_string s t : attr_equal (at_string s) (at_string t) = bool_decide (s = t).
Proof.
  unfold at_string, attr_equal, kv_value_equal, DeepEqual.
  repeat case_bool_decide; simpl; subst; try done; simplify_eq.
Qed.

Lemma attr_equal_int s t : attr_equal (at_int s) (at_int t) = bool_decide (s = t).
Proof.
  unfold at_int, attr_equal, kv_value_equal, DeepEqual.
  repeat case_bool_decide; simpl; subst; try done; simplify_eq.
Qed.

Lemma attr_equal_bool s t : attr_equal (at_bool s) (at_bool t) = bool_decide (s = t).
Proof. by destruct s, t. Qed.

Lemma any_DeepEqual_normal a b :
  any_DeepEqual (normalizeDefault a) (normalizeDefault b) =
  bool_decide (normalizeDefault a = normalizeDefault b).
Proof. by destruct a, b. Qed.

Lemma attr_equal_default (a b : option any) :
  attr_equal ((fun v => VAny (normalizeDefault v)) <$> a)
             ((fun v => VAny (normalizeDefault v)) <$> b) =
  bool_decide (normalizeDefault <$> a = normalizeDefault <$> b).
Proof.
  destruct a as [a|], b as [b|]; simpl; try done.
  unfold kv_value_equal, DeepEqual. rewrite any_DeepEqual_normal, orb_false_r.
  apply bool_decide_ext. split; congruence.
Qed.

Lemma attr_equal_custom (a b : option TypeRef) :
  attr_equal (VTypeRef <$> a) (VTypeRef <$> b) =
  bool_decide ((fun r => mkTypeRef "" (TypeRef_String (Some r)) "") <$> a =
               (fun r => mkTypeRef "" (TypeRef_String (Some r)) "") <$> b).
Proof.
  destruct a as [a|], b as [b|]; cbn [fmap option_fmap option_map attr_equal]; try done.
  unfold kv_value_equal, DeepEqual. apply eq_true_iff_eq.
  rewrite orb_true_iff, !bool_decide_eq_true. split.
  - intros [[= ->]|Heq]; [done|]. do 2 f_equal. done.
  - intros [=]. right. simpl. congruence.
Qed.

Lemma attr_equal_decide (f : option KVValue) (g : option KVValue) :
  (∀ x y, f = Some x → g = Some y → kv_value_equal x y = bool_decide (x = y)) →
  attr_equal f g = bool_decide (f = g).
Proof.
  intros H. destruct f as [x|], g as [y|]; simpl; try done.
  rewrite (H x y) by done. apply bool_decide_ext. split; congruence.
Qed.

Lemma attr_equal_dbdefault f g :
  db_default_comparable f →
  attr_equal (VDBDefault <$> fld_DBDefault f) (VDBDefault <$> fld_DBDefault g) =
  bool_decide (fld_DBDefault f = fld_DBDefault g).
Proof.
  unfold db_default_comparable. intros Hf.
  rewrite attr_equal_decide.
  { apply bool_decide_ext. split; [|by intros ->].
    destruct (fld_DBDefault f), (fld_DBDefault g); simpl; congruence. }
  intros x y Hx Hy. destruct (fld_DBDefault f) as [[v e]|]; [|done].
  destruct (fld_DBDefault g) as [[w e']|]; [|done]. simpl in *. simplify_eq.
  unfold kv_value_equal, DeepEqual, DBDefault_DeepEqual. rewrite orb_false_r. simpl.
  apply eq_true_iff_eq. rewrite andb_true_iff, !bool_decide_eq_true.
  destruct v as [v|], w as [w|]; simpl.
  - destruct v, w; simpl; rewrite ?bool_decide_eq_true; naive_solver.
  - naive_solver.
  - naive_solver.
  - naive_solver.
Qed.

Lemma attr_equal_tags (a b : option (gmap string string)) :
  attr_equal (VTags <$> a) (VTags <$> b) = bool_decide (a = b).
Proof.
  rewrite attr_equal_decide.
  - apply bool_decide_ext. split; [|by intros ->]. destruct a, b; simpl; congruence.
  - intros x y Hx Hy. destruct a, b; simplify_eq/=.
    unfold kv_value_equal. by rewrite orb_false_r.
Qed.

Lemma attr_equal_foreign_key (a b : option ForeignKey) :
  attr_equal ((fun fk => VForeignKey (fk_set_To (ToLower (fk_To fk)) fk)) <$> a)
             ((fun fk => VForeignKey (fk_set_To (ToLower (fk_To fk)) fk)) <$> b) =
  bool_decide ((fun fk => fk_set_To (ToLower (fk_To fk)) fk) <$> a =
               (fun fk => fk_set_To (ToLower (fk_To fk)) fk) <$> b).
Proof.
  rewrite attr_equal_decide.
  - apply bool_decide_ext. destruct a, b; simpl; split; congruence.
  - intros x y Hx Hy. destruct a, b; simplify_eq/=.
    unfold kv_value_equal. by rewrite orb_false_r.
Qed.

Lemma Field_attributes_NoDup : NoDup Field_attributes.*1.
Proof. by apply (bool_decide_unpack _). Qed.

(** Clone is a copy: it loses and changes no attribute. *)
Lemma Field_Clone_id f : Field_Clone f = f.
Proof. destruct f as [? ? ? ? ? ? ? ? ? [[]|] ? ? ? ? [[]|] ? ? ?]; done. Qed.

(** Field.Equal compares two fields attribute by attribute and ignores
    exactly the case of a foreign key's target, the identity of a function
    default beyond its name, and the package split of a custom type: it holds
    if and only if the two canonical forms are equal. *)
Theorem Field_Equal_canonical f g :
  db_default_comparable f →
  Field_Equal f g = true ↔ Field_canonical f = Field_canonical g.
Proof.
  intros Hf. unfold Field_Equal, Deconstruct.
  rewrite deconstructEqual_iff by apply Field_attributes_NoDup.
  unfold Field_attributes. rewrite !Forall_cons, Forall_nil. cbn [snd].
  rewrite !attr_equal_string, !attr_equal_int, !attr_equal_bool, attr_equal_default,
    attr_equal_custom, attr_equal_dbdefault, attr_equal_tags, attr_equal_foreign_key by done.
  rewrite !bool_decide_eq_true. unfold Field_canonical. split.
  - intros Hall. destruct_and! Hall. f_equal; assumption.
  - intros Heq. injection Heq. intros. split_and!; first [assumption | exact I].
Qed.
