(* ===== verification/Index.v ===== *)
(** * Indexes and constraints: migrations/index.go

    A slice whose nil value and empty value the program tells apart is an
    option of a list; [elems] reads either as a list. *)

From S2P Require Import Prelude GoStd Keys Errors Fields.

Notation slice A := (option (list A)).
Definition elems {A} (s : slice A) : list A := default [] s.

(** ** Indexes *)

Definition SortAsc : string := "ASC".
Definition SortDesc : string := "DESC".
Definition FullText : string := "FULLTEXT".
Definition Spatial : string := "SPATIAL".

(** Columns builds the fields of a plain multi-column index. *)
Definition Columns (names : list string) : list IndexField :=
  map (fun n => mkIndexField n "" "" "" 0) names.

Record Index := mkIndex {
  ix_Name : string;
  ix_Fields : slice IndexField;
  ix_Unique : bool;
  ix_Class : string;
  ix_Type : string;
  ix_Where : string;
  ix_Include : slice string;
  ix_OpClasses : slice string;
  ix_Comment : string;
  ix_Option : string;
}.

#[export] Instance Index_eq_dec : EqDecision Index.
Proof. solve_decision. Defined.

(** slices.Clone: a nil slice stays nil. *)
Definition slice_Clone {A} (s : slice A) : slice A :=
  match s with
  | None => None
  | Some l => Some (map id l)
  end.

(** Index.Clone *)
Definition Index_Clone (ix : Index) : Index :=
  mkIndex (ix_Name ix) (slice_Clone (ix_Fields ix)) (ix_Unique ix) (ix_Class ix) (ix_Type ix)
    (ix_Where ix) (slice_Clone (ix_Include ix)) (slice_Clone (ix_OpClasses ix))
    (ix_Comment ix) (ix_Option ix).

Definition ix_set_Name (n : string) (ix : Index) : Index :=
  mkIndex n (ix_Fields ix) (ix_Unique ix) (ix_Class ix) (ix_Type ix) (ix_Where ix)
    (ix_Include ix) (ix_OpClasses ix) (ix_Comment ix) (ix_Option ix).

(** Index.fieldNames *)
Definition fieldNames (ix : Index) : list string :=
  omap (fun f =>
    if bool_decide (if_Column f = "") then None
    else if EqualFold (if_Sort f) SortDesc then Some ("-" +:+ if_Column f)
    else Some (if_Column f)) (elems (ix_Fields ix)).

(** Index.Columns *)
Definition Index_Columns (ix : Index) : list string :=
  omap (fun f => if bool_decide (if_Column f = "") then None else Some (if_Column f))
    (elems (ix_Fields ix)).

(** Index.HasExpressions *)
Definition HasExpressions (ix : Index) : bool :=
  existsb (fun f => negb (bool_decide (if_Expression f = ""))) (elems (ix_Fields ix)).

Definition at_strings (s : slice string) : option KVValue := VStrings <$> s.

Definition Index_attributes : attributes Index := [
  ("Name", fun ix => at_string (ix_Name ix));
  ("Fields", fun ix => VIndexFields <$> ix_Fields ix);
  ("Unique", fun ix => at_bool (ix_Unique ix));
  ("Class", fun ix => at_string (ix_Class ix));
  ("Type", fun ix => at_string (ix_Type ix));
  ("Where", fun ix => at_string (ix_Where ix));
  ("Include", fun ix => at_strings (ix_Include ix));
  ("OpClasses", fun ix => at_strings (ix_OpClasses ix));
  ("Comment", fun ix => at_string (ix_Comment ix));
  ("Option", fun ix => at_string (ix_Option ix))
].

(** Index.Equal *)
Definition Index_Equal (ix o : Index) : bool :=
  deconstructEqual (deconstruct Index_attributes ix) (deconstruct Index_attributes o).

(** Index.describeFor *)
Definition describeFor (ix : Index) (model : string) : string :=
  if HasExpressions ix then
    let exprs := map (fun f => if bool_decide (if_Expression f = "") then if_Column f
                               else if_Expression f) (elems (ix_Fields ix)) in
    "create index " +:+ ix_Name ix +:+ " on " +:+ Join exprs ", " +:+ " on model " +:+ model
  else
    "create index " +:+ ix_Name ix +:+ " on field(s) " +:+ Join (fieldNames ix) ", " +:+
    " of model " +:+ model.

(** An index as the %#v verb prints it, which the message for an unnamed
    index quotes. *)
Definition go_bool (b : bool) : string := if b then "true" else "false".

Definition go_syntax_strings (s : slice string) : string :=
  match s with
  | None => "[]string(nil)"
  | Some l => "[]string{" +:+ Join (map Quote l) ", " +:+ "}"
  end.

Definition go_syntax_IndexField (f : IndexField) : string :=
  "migrations.IndexField{Column:" +:+ Quote (if_Column f) +:+ ", Expression:" +:+
  Quote (if_Expression f) +:+ ", Sort:" +:+ Quote (if_Sort f) +:+ ", Collate:" +:+
  Quote (if_Collate f) +:+ ", Length:" +:+ itoa (if_Length f) +:+ "}".

Definition go_syntax_Index (ix : Index) : string :=
  "migrations.Index{Name:" +:+ Quote (ix_Name ix) +:+ ", Fields:" +:+
  (match ix_Fields ix with
   | None => "[]migrations.IndexField(nil)"
   | Some l => "[]migrations.IndexField{" +:+ Join (map go_syntax_IndexField l) ", " +:+ "}"
   end) +:+
  ", Unique:" +:+ go_bool (ix_Unique ix) +:+ ", Class:" +:+ Quote (ix_Class ix) +:+
  ", Type:" +:+ Quote (ix_Type ix) +:+ ", Where:" +:+ Quote (ix_Where ix) +:+
  ", Include:" +:+ go_syntax_strings (ix_Include ix) +:+
  ", OpClasses:" +:+ go_syntax_strings (ix_OpClasses ix) +:+
  ", Comment:" +:+ Quote (ix_Comment ix) +:+ ", Option:" +:+ Quote (ix_Option ix) +:+ "}".

(** ** Renaming inside a slice of column names *)

(** renameIn (migrations/state.go); a nil slice stays nil. *)
Definition rename_list (l : list string) (old new : string) : list string :=
  map (fun x => if bool_decide (x = old) then new else x) l.

Definition renameIn (xs : slice string) (old new : string) : slice string :=
  match xs with
  | None => None
  | Some l => Some (rename_list l old new)
  end.

(** ** Constraints *)

Record CheckConstraint := mkCheckConstraint {
  cc_Name : string;
  cc_Check : string;
  cc_ViolationErrorMessage : string;
}.

Definition Deferred : string := "DEFERRED".
Definition Immediate : string := "IMMEDIATE".

Record UniqueConstraint := mkUniqueConstraint {
  uc_Name : string;
  uc_Fields : slice string;
  uc_Condition : string;
  uc_Deferrable : string;
  uc_Include : slice string;
  uc_NullsDistinct : option bool;
  uc_ViolationErrorMessage : string;
}.

Record ForeignKeyConstraint := mkForeignKeyConstraint {
  fkc_Name : string;
  fkc_Fields : slice string;
  fkc_To : string;
  fkc_ToFields : slice string;
  fkc_OnDelete : ReferentialAction;
  fkc_OnUpdate : ReferentialAction;
}.

#[export] Instance CheckConstraint_eq_dec : EqDecision CheckConstraint.
Proof. solve_decision. Defined.
#[export] Instance UniqueConstraint_eq_dec : EqDecision UniqueConstraint.
Proof. solve_decision. Defined.
#[export] Instance ForeignKeyConstraint_eq_dec : EqDecision ForeignKeyConstraint.
Proof. solve_decision. Defined.

(** The sealed interface: these three types are its only implementations. *)
Inductive Constraint :=
| CCheck (c : CheckConstraint)
| CUnique (c : UniqueConstraint)
| CForeignKey (c : ForeignKeyConstraint).

#[export] Instance Constraint_eq_dec : EqDecision Constraint.
Proof. solve_decision. Defined.

Definition ConstraintName (c : Constraint) : string :=
  match c with
  | CCheck c => cc_Name c
  | CUnique c => uc_Name c
  | CForeignKey c => fkc_Name c
  end.

Definition cloneConstraint (c : Constraint) : Constraint :=
  match c with
  | CCheck c => CCheck (mkCheckConstraint (cc_Name c) (cc_Check c) (cc_ViolationErrorMessage c))
  | CUnique c => CUnique (mkUniqueConstraint (uc_Name c) (slice_Clone (uc_Fields c)) (uc_Condition c)
      (uc_Deferrable c) (slice_Clone (uc_Include c))
      (match uc_NullsDistinct c with Some v => Some v | None => None end)
      (uc_ViolationErrorMessage c))
  | CForeignKey c => CForeignKey (mkForeignKeyConstraint (fkc_Name c) (slice_Clone (fkc_Fields c))
      (fkc_To c) (slice_Clone (fkc_ToFields c)) (fkc_OnDelete c) (fkc_OnUpdate c))
  end.

Definition constrainedColumns (c : Constraint) : list string :=
  match c with
  | CCheck _ => []
  | CUnique c => elems (uc_Fields c) ++ elems (uc_Include c)
  | CForeignKey c => elems (fkc_Fields c)
  end.

Definition renameColumn (c : Constraint) (old new : string) : Constraint :=
  match c with
  | CCheck _ => cloneConstraint c
  | CUnique u => CUnique (mkUniqueConstraint (uc_Name u) (renameIn (uc_Fields u) old new)
      (uc_Condition u) (uc_Deferrable u) (renameIn (uc_Include u) old new)
      (uc_NullsDistinct u) (uc_ViolationErrorMessage u))
  | CForeignKey k => CForeignKey (mkForeignKeyConstraint (fkc_Name k) (renameIn (fkc_Fields k) old new)
      (fkc_To k) (fkc_ToFields k) (fkc_OnDelete k) (fkc_OnUpdate k))
  end.

Definition fkc_set_To (to : string) (k : ForeignKeyConstraint) : ForeignKeyConstraint :=
  mkForeignKeyConstraint (fkc_Name k) (fkc_Fields k) to (fkc_ToFields k) (fkc_OnDelete k)
    (fkc_OnUpdate k).

(** ForeignKeyConstraint.Target *)
Definition fkc_Target (k : ForeignKeyConstraint) (appLabel : string) : ModelKey :=
  ResolveRelation (fkc_To k) appLabel.

(** ForeignKeyConstraint.renameTargetColumn *)
Definition renameTargetColumn (k : ForeignKeyConstraint) (old new : string) : ForeignKeyConstraint :=
  mkForeignKeyConstraint (fkc_Name k) (fkc_Fields k) (fkc_To k) (renameIn (fkc_ToFields k) old new)
    (fkc_OnDelete k) (fkc_OnUpdate k).

Definition CheckConstraint_attributes : attributes CheckConstraint := [
  ("Name", fun c => at_string (cc_Name c));
  ("Check", fun c => at_string (cc_Check c));
  ("ViolationErrorMessage", fun c => at_string (cc_ViolationErrorMessage c))
].

Definition UniqueConstraint_attributes : attributes UniqueConstraint := [
  ("Name", fun c => at_string (uc_Name c));
  ("Fields", fun c => at_strings (uc_Fields c));
  ("Condition", fun c => at_string (uc_Condition c));
  ("Deferrable", fun c => at_string (uc_Deferrable c));
  ("Include", fun c => at_strings (uc_Include c));
  ("NullsDistinct", fun c => VBoolPtr <$> uc_NullsDistinct c);
  ("ViolationErrorMessage", fun c => at_string (uc_ViolationErrorMessage c))
].

Definition ForeignKeyConstraint_attributes : attributes ForeignKeyConstraint := [
  ("Name", fun c => at_string (fkc_Name c));
  ("Fields", fun c => at_strings (fkc_Fields c));
  ("To", fun c => at_string (fkc_To c));
  ("ToFields", fun c => at_strings (fkc_ToFields c));
  ("OnDelete", fun c => at_string (fkc_OnDelete c));
  ("OnUpdate", fun c => at_string (fkc_OnUpdate c))
].

Definition Constraint_deconstruct (c : Constraint) : list KV :=
  match c with
  | CCheck c => deconstruct CheckConstraint_attributes c
  | CUnique c => deconstruct UniqueConstraint_attributes c
  | CForeignKey c => deconstruct ForeignKeyConstraint_attributes c
  end.

(** reflect.TypeOf, up to what ConstraintEqual asks of it *)
Definition Constraint_type (c : Constraint) : string :=
  match c with
  | CCheck _ => "*migrations.CheckConstraint"
  | CUnique _ => "*migrations.UniqueConstraint"
  | CForeignKey _ => "*migrations.ForeignKeyConstraint"
  end.

Definition ConstraintEqual (a b : Constraint) : bool :=
  bool_decide (Constraint_type a = Constraint_type b) &&
  deconstructEqual (Constraint_deconstruct a) (Constraint_deconstruct b).

(** strip, inside ConstraintEqualIgnoringNonDB *)
Definition strip_non_db (c : Constraint) : Constraint :=
  match cloneConstraint c with
  | CCheck v => CCheck (mkCheckConstraint (cc_Name v) (cc_Check v) "")
  | CUnique v => CUnique (mkUniqueConstraint (uc_Name v) (uc_Fields v) (uc_Condition v)
      (uc_Deferrable v) (uc_Include v) (uc_NullsDistinct v) "")
  | CForeignKey v => CForeignKey v
  end.

Definition ConstraintEqualIgnoringNonDB (a b : Constraint) : bool :=
  ConstraintEqual (strip_non_db a) (strip_non_db b).

(** ** Lemmas *)

Lemma slice_Clone_id {A} (s : slice A) : slice_Clone s = s.
Proof. destruct s; simpl; [|done]. by rewrite map_id. Qed.

Lemma Index_Clone_id ix : Index_Clone ix = ix.
Proof. destruct ix. unfold Index_Clone. simpl. by rewrite !slice_Clone_id. Qed.

Lemma cloneConstraint_id c : cloneConstraint c = c.
Proof.
  destruct c as [[]|[]|[]]; unfold cloneConstraint; simpl; rewrite ?slice_Clone_id; try done.
  by case_match.
Qed.

Lemma attr_equal_strings (a b : slice string) :
  attr_equal (at_strings a) (at_strings b) = bool_decide (a = b).
Proof.
  unfold at_strings. rewrite attr_equal_decide.
  - apply bool_decide_ext. destruct a, b; simpl; split; congruence.
  - intros x y Hx Hy. destruct a, b; simplify_eq/=.
    unfold kv_value_equal. by rewrite orb_false_r.
Qed.

Lemma attr_equal_index_fields (a b : slice IndexField) :
  attr_equal (VIndexFields <$> a) (VIndexFields <$> b) = bool_decide (a = b).
Proof.
  rewrite attr_equal_decide.
  - apply bool_decide_ext. destruct a, b; simpl; split; congruence.
  - intros x y Hx Hy. destruct a, b; simplify_eq/=.
    unfold kv_value_equal. by rewrite orb_false_r.
Qed.

Lemma attr_equal_bool_ptr (a b : option bool) :
  attr_equal (VBoolPtr <$> a) (VBoolPtr <$> b) = bool_decide (a = b).
Proof. by destruct a as [[]|], b as [[]|]. Qed.

Hint Rewrite attr_equal_strings attr_equal_index_fields attr_equal_bool_ptr attr_equal_string
  attr_equal_bool attr_equal_int @bool_decide_eq_true : attrs.

(** Reduce an equality of deconstructions to the equalities of the fields. *)
Ltac solve_deconstruct :=
  rewrite deconstructEqual_iff by (by apply (bool_decide_unpack _));
  rewrite !Forall_cons, Forall_nil; cbn [snd]; autorewrite with attrs;
  split; [intros ?; destruct_and?; f_equal; assumption
         |intros Heq; injection Heq; intros; split_and!; first [assumption | exact I]].

(** Index.Equal is equality of the two structs, nil and empty slices told
    apart. *)
Lemma Index_Equal_iff ix o : Index_Equal ix o = true ↔ ix = o.
Proof.
  destruct ix, o. unfold Index_Equal, Index_attributes. solve_deconstruct.
Qed.

Lemma CheckConstraint_deconstruct_iff a b :
  deconstructEqual (deconstruct CheckConstraint_attributes a)
    (deconstruct CheckConstraint_attributes b) = true ↔ a = b.
Proof. destruct a, b. unfold CheckConstraint_attributes. solve_deconstruct. Qed.

Lemma UniqueConstraint_deconstruct_iff a b :
  deconstructEqual (deconstruct UniqueConstraint_attributes a)
    (deconstruct UniqueConstraint_attributes b) = true ↔ a = b.
Proof. destruct a, b. unfold UniqueConstraint_attributes. solve_deconstruct. Qed.

Lemma ForeignKeyConstraint_deconstruct_iff a b :
  deconstructEqual (deconstruct ForeignKeyConstraint_attributes a)
    (deconstruct ForeignKeyConstraint_attributes b) = true ↔ a = b.
Proof. destruct a, b. unfold ForeignKeyConstraint_attributes. solve_deconstruct. Qed.

Lemma ConstraintEqual_eq a b : ConstraintEqual a b = true ↔ a = b.
Proof.
  unfold ConstraintEqual. rewrite andb_true_iff, bool_decide_eq_true.
  destruct a as [a|a|a], b as [b|b|b]; cbn [Constraint_type Constraint_deconstruct];
    try (split; [by intros [? _]|done]).
  - rewrite CheckConstraint_deconstruct_iff. naive_solver.
  - rewrite UniqueConstraint_deconstruct_iff. naive_solver.
  - rewrite ForeignKeyConstraint_deconstruct_iff. naive_solver.
Qed.

(** two constraints the autodetector would not drop and recreate differ
    in their violation messages only. *)
Theorem ConstraintEqualIgnoringNonDB_iff a b :
  ConstraintEqualIgnoringNonDB a b = true ↔
  match a, b with
  | CCheck x, CCheck y => cc_Name x = cc_Name y ∧ cc_Check x = cc_Check y
  | CUnique x, CUnique y =>
      uc_Name x = uc_Name y ∧ uc_Fields x = uc_Fields y ∧ uc_Condition x = uc_Condition y ∧
      uc_Deferrable x = uc_Deferrable y ∧ uc_Include x = uc_Include y ∧
      uc_NullsDistinct x = uc_NullsDistinct y
  | CForeignKey x, CForeignKey y => x = y
  | _, _ => False
  end.
Proof.
  unfold ConstraintEqualIgnoringNonDB. rewrite ConstraintEqual_eq.
  unfold strip_non_db. rewrite !cloneConstraint_id.
  destruct a as [x|x|x], b as [y|y|y]; try done; destruct x, y; simpl; naive_solver.
Qed.
