(* ===== verification/ModelState.v ===== *)
(** * Model states: the first half of migrations/state.go

    Options, ModelState, its validation and its notion of equality. *)

From S2P Require Import Prelude GoStd Keys Errors Fields Index.

(** ** Options *)

Record ClickHouseTable := mkClickHouseTable {
  ch_Engine : string;
  ch_OrderBy : string;
  ch_PartitionBy : string;
  ch_PrimaryKey : string;
  ch_Settings : string;
}.

Record Options := mkOptions {
  opt_Managed : option bool;
  opt_DBTableComment : string;
  opt_UniqueTogether : list (list string);
  opt_Indexes : list Index;
  opt_Constraints : list Constraint;
  opt_AutoCreated : bool;
  opt_ClickHouse : option ClickHouseTable;
}.

#[export] Instance ClickHouseTable_eq_dec : EqDecision ClickHouseTable.
Proof. solve_decision. Defined.
#[export] Instance Options_eq_dec : EqDecision Options.
Proof. solve_decision. Defined.

Definition zero_Options : Options := mkOptions None "" [] [] [] false None.

Definition opt_set_Managed (v : option bool) (o : Options) : Options :=
  mkOptions v (opt_DBTableComment o) (opt_UniqueTogether o) (opt_Indexes o)
    (opt_Constraints o) (opt_AutoCreated o) (opt_ClickHouse o).
Definition opt_set_DBTableComment (v : string) (o : Options) : Options :=
  mkOptions (opt_Managed o) v (opt_UniqueTogether o) (opt_Indexes o)
    (opt_Constraints o) (opt_AutoCreated o) (opt_ClickHouse o).
Definition opt_set_UniqueTogether (v : list (list string)) (o : Options) : Options :=
  mkOptions (opt_Managed o) (opt_DBTableComment o) v (opt_Indexes o)
    (opt_Constraints o) (opt_AutoCreated o) (opt_ClickHouse o).
Definition opt_set_Indexes (v : list Index) (o : Options) : Options :=
  mkOptions (opt_Managed o) (opt_DBTableComment o) (opt_UniqueTogether o) v
    (opt_Constraints o) (opt_AutoCreated o) (opt_ClickHouse o).
Definition opt_set_Constraints (v : list Constraint) (o : Options) : Options :=
  mkOptions (opt_Managed o) (opt_DBTableComment o) (opt_UniqueTogether o) (opt_Indexes o)
    v (opt_AutoCreated o) (opt_ClickHouse o).

(** Options.IsManaged *)
Definition IsManaged (o : Options) : bool :=
  match opt_Managed o with None => true | Some b => b end.

(** Options.Clone *)
Definition Options_Clone (o : Options) : Options :=
  mkOptions
    (match opt_Managed o with Some v => Some v | None => None end)
    (opt_DBTableComment o)
    (map (fun t => map id t) (opt_UniqueTogether o))
    (map Index_Clone (opt_Indexes o))
    (map cloneConstraint (opt_Constraints o))
    (opt_AutoCreated o)
    (match opt_ClickHouse o with
     | Some ch => Some (mkClickHouseTable (ch_Engine ch) (ch_OrderBy ch) (ch_PartitionBy ch)
                          (ch_PrimaryKey ch) (ch_Settings ch))
     | None => None
     end).

(** ** Model states *)

Record ModelState := mkModelState {
  ms_App : string;
  ms_Name : string;
  ms_Table : string;
  ms_Fields : Fields;
  ms_Options : Options;
}.

#[export] Instance ModelState_eq_dec : EqDecision ModelState.
Proof. solve_decision. Defined.

Definition ms_set_Name (v : string) (m : ModelState) : ModelState :=
  mkModelState (ms_App m) v (ms_Table m) (ms_Fields m) (ms_Options m).
Definition ms_set_Table (v : string) (m : ModelState) : ModelState :=
  mkModelState (ms_App m) (ms_Name m) v (ms_Fields m) (ms_Options m).
Definition ms_set_Fields (v : Fields) (m : ModelState) : ModelState :=
  mkModelState (ms_App m) (ms_Name m) (ms_Table m) v (ms_Options m).
Definition ms_set_Options (v : Options) (m : ModelState) : ModelState :=
  mkModelState (ms_App m) (ms_Name m) (ms_Table m) (ms_Fields m) v.

(** ModelState.NameLower, ModelState.Key *)
Definition NameLower (m : ModelState) : string := ToLower (ms_Name m).
Definition ModelState_Key (m : ModelState) : ModelKey := mkModelKey (ms_App m) (NameLower m).

(** ModelState.GetField *)
Definition GetField (m : ModelState) (name : string) : outcome Field :=
  match Fields_Get (ms_Fields m) name with
  | Some f => Ok f
  | None => Err (FieldDoesNotExist (ms_App m +:+ "." +:+ NameLower m +:+
                   " has no field named '" +:+ name +:+ "'"))
  end.

(** ModelState.GetIndexByName *)
Definition GetIndexByName (m : ModelState) (name : string) : outcome Index :=
  match List.find (fun ix => bool_decide (ix_Name ix = name)) (opt_Indexes (ms_Options m)) with
  | Some ix => Ok ix
  | None => Err (PlainError ("no index named " +:+ name +:+ " on model " +:+ ms_Name m))
  end.

(** ModelState.GetConstraintByName *)
Definition GetConstraintByName (m : ModelState) (name : string) : outcome Constraint :=
  match List.find (fun c => bool_decide (ConstraintName c = name))
          (opt_Constraints (ms_Options m)) with
  | Some c => Ok c
  | None => Err (PlainError ("no constraint named " +:+ name +:+ " on model " +:+ ms_Name m))
  end.

(** ModelState.Clone *)
Definition ModelState_Clone (m : ModelState) : ModelState :=
  mkModelState (ms_App m) (ms_Name m) (ms_Table m)
    (map (fun f => mkNamedField (nf_Name f) (Field_Clone (nf_Field f))) (ms_Fields m))
    (Options_Clone (ms_Options m)).

(** The first loop of ModelState.Validate: the first name seen before. *)
Fixpoint first_duplicate (seen : gset string) (fs : Fields) : option string :=
  match fs with
  | [] => None
  | f :: fs' =>
      if bool_decide (nf_Name f ∈ seen) then Some (nf_Name f)
      else first_duplicate ({[nf_Name f]} ∪ seen) fs'
  end.

(** The body of the third loop: the checks of one foreign key constraint. *)
Definition validate_constraint (modelName : string) (c : Constraint) : outcome unit :=
  match c with
  | CForeignKey fk =>
      let pre := "foreign key constraint " +:+ fkc_Name fk +:+ " on model " +:+ modelName in
      if bool_decide (length (elems (fkc_Fields fk)) = 0) then
        Err (PlainError (pre +:+ " has no fields"))
      else if negb (bool_decide (length (elems (fkc_Fields fk)) = length (elems (fkc_ToFields fk)))) then
        Err (PlainError (pre +:+ " constrains " +:+ itoa (Z.of_nat (length (elems (fkc_Fields fk)))) +:+
          " field(s) but references " +:+ itoa (Z.of_nat (length (elems (fkc_ToFields fk))))))
      else if bool_decide (fkc_To fk = "") then
        Err (PlainError (pre +:+ " has no target model"))
      else Ok tt
  | _ => Ok tt
  end.

(** ModelState.Validate *)
Definition Validate (m : ModelState) : outcome unit :=
  match first_duplicate ∅ (ms_Fields m) with
  | Some name => Err (PlainError ("found duplicate value " +:+ name +:+ " in CreateModel fields argument"))
  | None =>
    match List.find (fun ix => bool_decide (ix_Name ix = "")) (opt_Indexes (ms_Options m)) with
    | Some ix => Err (PlainError ("indexes passed to ModelState require a name attribute. " +:+
                        go_syntax_Index ix +:+ " doesn't have one"))
    | None => foldM (fun _ c => validate_constraint (ms_Name m) c) tt (opt_Constraints (ms_Options m))
    end
  end.

(** ** unique_together as a set *)

(** containsTogether *)
Definition containsTogether (t : list (list string)) (x : list string) : bool :=
  existsb (fun y => bool_decide (x = y)) t.

(** dedupTogether *)
Definition dedupTogether (t : list (list string)) : list (list string) :=
  fold_left (fun out x => if containsTogether out x then out else out ++ [x]) t [].

(** togetherEqual *)
Definition togetherEqual (a b : list (list string)) : bool :=
  let sa := dedupTogether a in
  let sb := dedupTogether b in
  bool_decide (length sa = length sb) && forallb (containsTogether sb) sa.

(** normalizeTogether *)
Definition normalizeTogether (t : list (list string)) : list (list string) :=
  if bool_decide (length t = 0) then [] else map (fun x => map id x) t.

(** ** Equality *)

Definition ClickHouseTable_attributes : attributes ClickHouseTable := [
  ("Engine", fun c => at_string (ch_Engine c));
  ("OrderBy", fun c => at_string (ch_OrderBy c));
  ("PartitionBy", fun c => at_string (ch_PartitionBy c));
  ("PrimaryKey", fun c => at_string (ch_PrimaryKey c));
  ("Settings", fun c => at_string (ch_Settings c))
].

Definition ClickHouse_deconstruct (c : option ClickHouseTable) : list KV :=
  match c with
  | None => []
  | Some c => deconstruct ClickHouseTable_attributes c
  end.

(** A pairwise loop over two slices of the same length *)
Fixpoint all_pairs {A} (eqb : A → A → bool) (a b : list A) : bool :=
  match a, b with
  | [], [] => true
  | x :: a', y :: b' => eqb x y && all_pairs eqb a' b'
  | _, _ => false
  end.

(** optionsEqual *)
Definition optionsEqual (a b : Options) : bool :=
  bool_decide (IsManaged a = IsManaged b) &&
  bool_decide (opt_DBTableComment a = opt_DBTableComment b) &&
  bool_decide (opt_AutoCreated a = opt_AutoCreated b) &&
  togetherEqual (opt_UniqueTogether a) (opt_UniqueTogether b) &&
  bool_decide (length (opt_Indexes a) = length (opt_Indexes b)) &&
  bool_decide (length (opt_Constraints a) = length (opt_Constraints b)) &&
  all_pairs Index_Equal (opt_Indexes a) (opt_Indexes b) &&
  all_pairs ConstraintEqual (opt_Constraints a) (opt_Constraints b) &&
  deconstructEqual (ClickHouse_deconstruct (opt_ClickHouse a))
    (ClickHouse_deconstruct (opt_ClickHouse b)).

(** The fields in the order of their names *)
Definition nf_le (x y : NamedField) : Prop := str_le (nf_Name x) (nf_Name y).

#[export] Instance nf_le_dec x y : Decision (nf_le x y).
Proof. unfold nf_le. apply _. Defined.

Definition sort_fields (fs : Fields) : Fields := merge_sort nf_le fs.

(** ModelState.Equal *)
Definition ModelState_Equal (m o : ModelState) : bool :=
  bool_decide (ms_App m = ms_App o) && bool_decide (ms_Name m = ms_Name o) &&
  bool_decide (ms_Table m = ms_Table o) &&
  bool_decide (length (ms_Fields m) = length (ms_Fields o)) &&
  all_pairs (fun x y => bool_decide (nf_Name x = nf_Name y) && Field_Equal (nf_Field x) (nf_Field y))
    (sort_fields (ms_Fields m)) (sort_fields (ms_Fields o)) &&
  optionsEqual (ms_Options m) (ms_Options o).

(** ** Lemmas *)

Lemma Options_Clone_id o : Options_Clone o = o.
Proof.
  destruct o as [man c ut ix cs ac ch]. unfold Options_Clone. simpl. f_equal.
  - by destruct man.
  - apply map_fixed. intros t _. by rewrite map_id.
  - apply map_fixed. intros x _. apply Index_Clone_id.
  - apply map_fixed. intros x _. apply cloneConstraint_id.
  - by destruct ch as [[]|].
Qed.

Lemma ModelState_Clone_id m : ModelState_Clone m = m.
Proof.
  destruct m. unfold ModelState_Clone. simpl. rewrite Options_Clone_id. f_equal.
  apply map_fixed. intros [n f] _. simpl. by rewrite Field_Clone_id.
Qed.

Lemma first_duplicate_None seen fs :
  first_duplicate seen fs = None ↔
  NoDup (Fields_Names fs) ∧ ∀ n, n ∈ Fields_Names fs → n ∉ seen.
Proof.
  revert seen. induction fs as [|f fs IH]; intros seen; simpl.
  { split; [intros _; split; [constructor|]|done]. intros n Hn. by apply elem_of_nil in Hn. }
  case_bool_decide as Hin.
  - split; [done|]. intros [_ Hn]. exfalso. apply (Hn (nf_Name f)); [left|done].
  - rewrite IH, NoDup_cons. split.
    + intros [Hnd Hn]. split; [split; [|done]|].
      * intros Hf. apply Hn in Hf. set_solver.
      * intros n [->|Hx]%elem_of_cons; [done|]. apply Hn in Hx. set_solver.
    + intros [[Hf Hnd] Hn]. split; [done|]. intros n Hx.
      apply not_elem_of_union. split; [|apply Hn; by right].
      intros ->%elem_of_singleton. done.
Qed.

Lemma find_None_iff {A} (p : A → bool) (l : list A) :
  List.find p l = None ↔ ∀ x, x ∈ l → p x = false.
Proof.
  split.
  - intros Hf x Hx. apply (List.find_none p l Hf). by apply list_elem_of_In.
  - intros Hall. destruct (List.find p l) eqn:E; [|done].
    apply List.find_some in E as [Hin Hp]. apply list_elem_of_In in Hin.
    rewrite (Hall _ Hin) in Hp. done.
Qed.

(** What makes a foreign key constraint well formed *)
Definition constraint_ok (c : Constraint) : Prop :=
  match c with
  | CForeignKey fk =>
      elems (fkc_Fields fk) ≠ [] ∧
      length (elems (fkc_Fields fk)) = length (elems (fkc_ToFields fk)) ∧
      fkc_To fk ≠ ""
  | _ => True
  end.

(** The invariant Validate enforces *)
Definition model_ok (m : ModelState) : Prop :=
  NoDup (Fields_Names (ms_Fields m)) ∧
  (∀ ix, ix ∈ opt_Indexes (ms_Options m) → ix_Name ix ≠ "") ∧
  (∀ c, c ∈ opt_Constraints (ms_Options m) → constraint_ok c).

Lemma validate_constraint_ok n c : validate_constraint n c = Ok tt ↔ constraint_ok c.
Proof.
  destruct c as [c|c|fk]; simpl; try done.
  destruct (elems (fkc_Fields fk)) as [|x l] eqn:El; simpl.
  { naive_solver. }
  case_bool_decide as Hlen; simpl.
  - case_bool_decide as Hto; naive_solver.
  - naive_solver.
Qed.

Lemma foldM_unit_ok {A} (f : A → outcome unit) (l : list A) :
  foldM (fun _ x => f x) tt l = Ok tt ↔ ∀ x, x ∈ l → f x = Ok tt.
Proof.
  induction l as [|x l IH].
  { split; [|done]. intros _ x Hx. by apply elem_of_nil in Hx. }
  rewrite foldM_cons, bind_Ok. split.
  - intros ([] & Hx & Hl) y [->|Hy]%elem_of_cons; [done|]. by apply IH.
  - intros Hall. exists tt. split; [apply Hall; left|]. apply IH. intros y Hy. apply Hall. by right.
Qed.

(** What Validate accepts *)
Lemma Validate_spec m : Validate m = Ok tt ↔ model_ok m.
Proof.
  unfold Validate, model_ok.
  destruct (first_duplicate _ _) as [n|] eqn:Ed.
  { split; [done|]. intros (Hnd & _).
    assert (first_duplicate ∅ (ms_Fields m) = None) as Hn; [|congruence].
    apply first_duplicate_None. split; [done|]. intros. set_solver. }
  apply first_duplicate_None in Ed as [Hnd _].
  destruct (List.find _ _) as [ix|] eqn:Ei.
  { split; [done|]. intros (_ & Hix & _). apply List.find_some in Ei as [Hin Hb].
    apply list_elem_of_In in Hin. apply bool_decide_eq_true in Hb. by apply Hix in Hin. }
  rewrite find_None_iff in Ei. rewrite foldM_unit_ok. split.
  - intros Hc. split_and!; [done| |].
    + intros ix Hix. specialize (Ei _ Hix). by apply bool_decide_eq_false in Ei.
    + intros c Hin. by eapply validate_constraint_ok, Hc.
  - intros (_ & _ & Hc) c Hin. by apply validate_constraint_ok, Hc.
Qed.

(** C38: ModelState.Validate accepts a model exactly when its field names are
    distinct, its indexes are named, and every foreign key constraint has a
    target, at least one column, and as many target columns as columns. *)
Theorem Validate_ok m : Validate m = Ok tt ↔
  NoDup (Fields_Names (ms_Fields m)) ∧
  (∀ ix, ix ∈ opt_Indexes (ms_Options m) → ix_Name ix ≠ "") ∧
  (∀ fk, CForeignKey fk ∈ opt_Constraints (ms_Options m) →
     fkc_To fk ≠ "" ∧ 0 < length (elems (fkc_Fields fk)) ∧
     length (elems (fkc_ToFields fk)) = length (elems (fkc_Fields fk))).
Proof.
  rewrite Validate_spec. unfold model_ok. do 2 apply and_iff_compat_l. split.
  - intros Hall fk (Hne & Hlen & Hto)%Hall. split_and!; [done| |done]. by destruct (elems (fkc_Fields fk)); [|simpl; lia].
  - intros Hall [c|c|fk] Hc; [done..|]. destruct (Hall fk Hc) as (Hto & Hne & Hlen). simpl. split_and!; [|done|done].
    by destruct (elems (fkc_Fields fk)); [simpl in Hne; lia|].
Qed.

Lemma containsTogether_spec t x : containsTogether t x = true ↔ x ∈ t.
Proof.
  unfold containsTogether. rewrite existsb_exists. setoid_rewrite bool_decide_eq_true.
  setoid_rewrite <- list_elem_of_In. naive_solver.
Qed.

Lemma dedupTogether_aux t out :
  NoDup out →
  let r := fold_left (fun out x => if containsTogether out x then out else out ++ [x]) t out in
  NoDup r ∧ ∀ x, x ∈ r ↔ x ∈ out ∨ x ∈ t.
Proof.
  revert out. induction t as [|y t IH]; intros out Hnd; simpl.
  { split; [done|]. intros x. rewrite elem_of_nil. tauto. }
  destruct (containsTogether out y) eqn:Ec.
  - apply containsTogether_spec in Ec. destruct (IH out Hnd) as [H1 H2].
    split; [done|]. intros x. rewrite H2, elem_of_cons. naive_solver.
  - assert (y ∉ out) as Hy.
    { intros Hy%containsTogether_spec. congruence. }
    destruct (IH (out ++ [y])) as [H1 H2].
    { apply NoDup_app. split_and!; [done| |apply NoDup_singleton].
      intros x Hx ->%list_elem_of_singleton. done. }
    split; [done|]. intros x. rewrite H2, elem_of_app, list_elem_of_singleton, elem_of_cons. tauto.
Qed.

Lemma elem_of_dedupTogether t x : x ∈ dedupTogether t ↔ x ∈ t.
Proof.
  destruct (dedupTogether_aux t [] (NoDup_nil_2)) as [_ H].
  unfold dedupTogether. rewrite H, elem_of_nil. tauto.
Qed.

Lemma NoDup_dedupTogether t : NoDup (dedupTogether t).
Proof. apply (dedupTogether_aux t [] (NoDup_nil_2)). Qed.

(** TogetherEqual compares two unique_together declarations as sets of
    column lists: repetitions and the order of the entries do not matter, the
    order of the columns inside one entry does. *)
Theorem togetherEqual_iff a b : togetherEqual a b = true ↔ ∀ x, x ∈ a ↔ x ∈ b.
Proof.
  unfold togetherEqual. rewrite andb_true_iff, bool_decide_eq_true, forallb_forall.
  setoid_rewrite <- list_elem_of_In. setoid_rewrite containsTogether_spec. split.
  - intros [Hlen Hsub] x. rewrite <- (elem_of_dedupTogether a), <- (elem_of_dedupTogether b).
    split; [apply Hsub|].
    assert (dedupTogether a ≡ₚ dedupTogether b) as Hp.
    { apply submseteq_length_Permutation; [|lia].
      apply NoDup_submseteq; [apply NoDup_dedupTogether|done]. }
    by rewrite Hp.
  - intros Heq.
    assert (dedupTogether a ≡ₚ dedupTogether b) as Hp.
    { apply NoDup_Permutation; [apply NoDup_dedupTogether..|].
      intros x. by rewrite !elem_of_dedupTogether. }
    split; [by rewrite Hp|]. intros x. by rewrite Hp.
Qed.
