(* ===== verification/Apps.v ===== *)
(** * Rendered models: migrations/apps.go

    A rendered registry is a graph of pointers in Go. Here a pointer to a
    model is its key in the registry, and a pointer to a field is the key of
    its model and its position. *)

From S2P Require Import Prelude GoStd Keys Errors Fields Index ModelState.

Record ModelField := mkModelField {
  mf_Model : ModelKey;
  mf_Name : string;
  mf_Field : Field;
  mf_Column : string;
  mf_Remote : option ModelKey;
  mf_RemoteField : option (ModelKey * nat);
}.

Record Model := mkModel {
  m_State : ModelState;
  m_App : string;
  m_Name : string;
  m_Table : string;
  m_Fields : list ModelField;
}.

Record Apps := mkApps {
  apps_models : gmap ModelKey Model;
  apps_order : list ModelKey;
}.

#[export] Instance ModelField_eq_dec : EqDecision ModelField.
Proof. solve_decision. Defined.
#[export] Instance Model_eq_dec : EqDecision Model.
Proof. solve_decision. Defined.
#[export] Instance Apps_eq_dec : EqDecision Apps.
Proof. solve_decision. Defined.

(** Model.Key, Model.Label, Model.Managed, Model.Columns *)
Definition Model_Key (m : Model) : ModelKey := mkModelKey (m_App m) (ToLower (m_Name m)).
Definition Label (m : Model) : string := m_App m +:+ "." +:+ m_Name m.
Definition Managed (m : Model) : bool := IsManaged (ms_Options (m_State m)).
Definition Model_Columns (m : Model) : list string := map mf_Column (m_Fields m).

(** Model.Field: the position and the field *)
Definition Model_Field_Index (m : Model) (name : string) : option nat :=
  index_func (fun f => bool_decide (mf_Name f = name)) (m_Fields m).

Definition Model_Field (m : Model) (name : string) : option ModelField :=
  List.find (fun f => bool_decide (mf_Name f = name)) (m_Fields m).

(** Model.PK *)
Definition PK (m : Model) : list ModelField :=
  filter (fun f => fld_PrimaryKey (mf_Field f) = true) (m_Fields m).

(** ** renderApps *)

(** The add closure: a model with its fields, no relation resolved yet *)
Definition render_model (ms : ModelState) : Model :=
  mkModel ms (ms_App ms) (ms_Name ms) (ms_Table ms)
    (map (fun f => mkModelField (ModelState_Key ms) (nf_Name f) (nf_Field f) (nf_Name f) None None)
       (ms_Fields ms)).

Definition add_rendered (models : gmap ModelKey Model) (ms : ModelState) : gmap ModelKey Model :=
  <[ModelState_Key ms := render_model ms]> models.

(** A real model is added when its app is a real app and no model of the
    state has its key. *)
Definition add_real (realApps : gmap string bool) (models : gmap ModelKey Model) (ms : ModelState)
    : gmap ModelKey Model :=
  match models !! ModelState_Key ms with
  | Some _ => models
  | None => if bool_decide (realApps !! ms_App ms = Some true) then add_rendered models ms else models
  end.

Definition map_keys {V} (m : gmap ModelKey V) : list ModelKey := sortKeys (map fst (map_to_list m)).

Definition registered_models (models : gmap ModelKey ModelState) (realApps : gmap string bool)
    (realModels : list ModelState) : gmap ModelKey Model :=
  fold_left (add_real realApps) realModels
    (fold_left (fun acc k => match models !! k with Some ms => add_rendered acc ms | None => acc end)
       (map_keys models) ∅).

Definition installed_apps (models : gmap ModelKey Model) (realApps : gmap string bool) : gset string :=
  list_to_set (map (fun p => mk_App p.1) (map_to_list models)) ∪ dom realApps.

(** The two messages for a target that is not in the registry *)
Definition lazy_reference (what : string) (target : ModelKey) (installed : gset string) : string :=
  "The " +:+ what +:+ " was declared with a lazy reference to '" +:+ ModelKey_String target +:+
  "', but app '" +:+ mk_App target +:+ "' " +:+
  (if bool_decide (mk_App target ∈ installed)
   then "doesn't provide model '" +:+ mk_Model target +:+ "'."
   else "isn't installed.").

Definition resolve_constraint (models : gmap ModelKey Model) (installed : gset string) (m : Model)
    (c : Constraint) : list string :=
  match c with
  | CForeignKey fk =>
      let target := fkc_Target fk (m_App m) in
      let what := "constraint " +:+ m_App m +:+ "." +:+ m_Name m +:+ "." +:+ fkc_Name fk in
      match models !! target with
      | None => [lazy_reference what target installed]
      | Some remote =>
          omap (fun col => match Model_Field remote col with
            | Some _ => None
            | None => Some ("The " +:+ what +:+ " references '" +:+ ModelKey_String target +:+ "." +:+
                        col +:+ "', which does not exist.")
            end) (elems (fkc_ToFields fk))
      end
  | _ => []
  end.

Definition mf_set_Remote (r : ModelKey) (rf : option (ModelKey * nat)) (f : ModelField) : ModelField :=
  mkModelField (mf_Model f) (mf_Name f) (mf_Field f) (mf_Column f) (Some r) rf.

(** The resolution of one field: the field with its relation, and the
    problems found *)
Definition resolve_field (models : gmap ModelKey Model) (installed : gset string) (m : Model)
    (f : ModelField) : ModelField * list string :=
  match fld_ForeignKey (mf_Field f) with
  | None => (f, [])
  | Some fk =>
      let target := Target fk (m_App m) in
      let what := "field " +:+ m_App m +:+ "." +:+ m_Name m +:+ "." +:+ mf_Name f in
      match models !! target with
      | None => (f, [lazy_reference what target installed])
      | Some remote =>
          if bool_decide (fk_ToField fk = "") then
            match PK remote with
            | [_] => (mf_set_Remote target
                        ((fun i => (target, i)) <$>
                           index_func (fun g => fld_PrimaryKey (mf_Field g)) (m_Fields remote)) f, [])
            | _ => (mf_set_Remote target None f,
                    ["The " +:+ what +:+ " references '" +:+ ModelKey_String target +:+
                     "', which has no single-column primary key."])
            end
          else
            match Model_Field_Index remote (fk_ToField fk) with
            | Some i => (mf_set_Remote target (Some (target, i)) f, [])
            | None => (mf_set_Remote target None f,
                       ["The " +:+ what +:+ " references '" +:+ ModelKey_String target +:+ "." +:+
                        fk_ToField fk +:+ "', which does not exist."])
            end
      end
  end.

Definition resolve_model (models : gmap ModelKey Model) (installed : gset string) (m : Model)
    : Model * list string :=
  let rs := map (resolve_field models installed m) (m_Fields m) in
  (mkModel (m_State m) (m_App m) (m_Name m) (m_Table m) (map fst rs),
   concat (map (resolve_constraint models installed m) (opt_Constraints (ms_Options (m_State m)))) ++
   concat (map snd rs)).

(** renderApps: every unresolved relation of every model is reported, in the
    order of the models. *)
Definition renderApps (models : gmap ModelKey ModelState) (realApps : gmap string bool)
    (realModels : list ModelState) : outcome Apps :=
  let reg := registered_models models realApps realModels in
  let installed := installed_apps reg realApps in
  let order := map_keys reg in
  let errs := concat (map (fun k => match reg !! k with
                | Some m => (resolve_model reg installed m).2
                | None => []
                end) order) in
  match errs with
  | [] => Ok (mkApps (fmap (fun m => (resolve_model reg installed m).1) reg) order)
  | _ => Err (JoinedError errs)
  end.

(** ** The registry *)

(** Apps.GetModel *)
Definition GetModel (a : Apps) (app name : string) : outcome Model :=
  match apps_models a !! mkModelKey app (ToLower name) with
  | Some m => Ok m
  | None => Err (ModelNotFoundError ("app '" +:+ app +:+ "' doesn't have a '" +:+ name +:+ "' model"))
  end.

(** A returned error becomes a panic in the Must functions. *)
Definition must {A} (o : outcome A) : outcome A :=
  match o with
  | Err e => Panic e
  | _ => o
  end.

(** Apps.MustModel *)
Definition MustModel (a : Apps) (app name : string) : outcome Model := must (GetModel a app name).

(** Apps.Models *)
Definition Apps_Models (a : Apps) : list Model :=
  omap (fun k => apps_models a !! k) (apps_order a).

(** Model.RelatedFields *)
Definition RelatedFields (a : Apps) (m : Model) : list ModelField :=
  concat (map (fun other => filter (fun f => mf_Remote f = Some (Model_Key m)) (m_Fields other))
    (Apps_Models a)).

(** Model.RelatedModel *)
Definition RelatedModel (a : Apps) (m : Model) (to : string) : outcome Model :=
  let k := ResolveRelation to (m_App m) in
  GetModel a (mk_App k) (mk_Model k).

(** NewModel: a model of the same registry, without fields *)
Definition NewModel (state : ModelState) : Model :=
  mkModel state (ms_App state) (ms_Name state) (ms_Table state) [].

(** ** Pointers into a registry *)

(** A *Model and a *ModelField as other packages hold them: with the registry
    they are part of, through which their own pointers lead. *)
Record ModelPtr := mkModelPtr { mp_Apps : Apps; mp_Model : Model }.
Record FieldPtr := mkFieldPtr { fp_Apps : Apps; fp_Field : ModelField }.
Coercion mp_Model : ModelPtr >-> Model.
Coercion fp_Field : FieldPtr >-> ModelField.

Definition GetModel_ptr (a : Apps) (app name : string) : outcome ModelPtr := mkModelPtr a <$> GetModel a app name.
Definition MustModel_ptr (a : Apps) (app name : string) : outcome ModelPtr := mkModelPtr a <$> MustModel a app name.
Definition field_ptr (m : ModelPtr) (name : string) : option FieldPtr := mkFieldPtr (mp_Apps m) <$> Model_Field m name.
Definition related_ptrs (m : ModelPtr) : list FieldPtr := map (mkFieldPtr (mp_Apps m)) (RelatedFields (mp_Apps m) m).
