(* ===== verification/ProjectState.v ===== *)
(** * Project states: the second half of migrations/state.go

    A ProjectState is a value here. In Go it is mutated in place, behind a
    pointer its holder owns: Clone copies everything a mutation can reach, so
    an operation that changes one state changes no other. A mutator that
    panics or fails returns no state. *)

From S2P Require Import Prelude GoStd Keys Errors Fields Index ModelState Apps.

Record ProjectState := mkProjectState {
  ps_Models : gmap ModelKey ModelState;
  ps_RealApps : gmap string bool;
  ps_RealModels : list ModelState;
  ps_apps : option Apps;
}.

(** NewProjectState *)
Definition NewProjectState : ProjectState := mkProjectState ∅ ∅ [] None.

Definition ps_set_Models (v : gmap ModelKey ModelState) (s : ProjectState) : ProjectState :=
  mkProjectState v (ps_RealApps s) (ps_RealModels s) (ps_apps s).
Definition ps_set_apps (v : option Apps) (s : ProjectState) : ProjectState :=
  mkProjectState (ps_Models s) (ps_RealApps s) (ps_RealModels s) v.
Definition ps_set_RealApps (v : gmap string bool) (s : ProjectState) : ProjectState :=
  mkProjectState (ps_Models s) v (ps_RealModels s) (ps_apps s).
Definition ps_set_RealModels (v : list ModelState) (s : ProjectState) : ProjectState :=
  mkProjectState (ps_Models s) (ps_RealApps s) v (ps_apps s).

(** ProjectState.invalidate, ProjectState.Rendered *)
Definition invalidate (s : ProjectState) : ProjectState := ps_set_apps None s.
Definition Rendered (s : ProjectState) : bool := bool_decide (is_Some (ps_apps s)).

Definition render_state (s : ProjectState) : outcome Apps :=
  renderApps (ps_Models s) (ps_RealApps s) (ps_RealModels s).

(** ProjectState.Apps: the cached registry or a new one, and the state that
    keeps it *)
Definition ps_Apps (s : ProjectState) : outcome (Apps * ProjectState) :=
  match ps_apps s with
  | Some a => Ok (a, s)
  | None => a ← render_state s; Ok (a, ps_set_apps (Some a) s)
  end.

(** ProjectState.MustApps *)
Definition MustApps (s : ProjectState) : outcome (Apps * ProjectState) := must (ps_Apps s).

(** ProjectState.Clone *)
Definition Clone (s : ProjectState) : ProjectState :=
  let ns := mkProjectState (fmap ModelState_Clone (ps_Models s)) (ps_RealApps s) (ps_RealModels s) None in
  match ps_apps s with
  | None => ns
  | Some _ => match render_state ns with
              | Ok a => ps_set_apps (Some a) ns
              | _ => ns
              end
  end.

(** ProjectState.SortedKeys *)
Definition SortedKeys (s : ProjectState) : list ModelKey := sortKeys (map fst (map_to_list (ps_Models s))).

(** ProjectState.Model *)
Definition ps_Model (s : ProjectState) (app name : string) : outcome ModelState :=
  match ps_Models s !! mkModelKey app (ToLower name) with
  | Some m => Ok m
  | None => Err (ModelNotFoundError ("app '" +:+ app +:+ "' doesn't have a '" +:+ name +:+ "' model"))
  end.

(** ProjectState.mustModel *)
Definition mustModel (s : ProjectState) (app name : string) : outcome ModelState :=
  must (ps_Model s app name).

(** Replace the model mustModel has returned, and drop the cached registry. *)
Definition put_model (s : ProjectState) (app name : string) (m : ModelState) : ProjectState :=
  invalidate (ps_set_Models (<[mkModelKey app (ToLower name) := m]> (ps_Models s)) s).

(** qualifyForeignKey *)
Definition qualifyForeignKey (f : Field) (app : string) : Field :=
  match fld_ForeignKey f with
  | None => f
  | Some fk => if ContainsByte (fk_To fk) dot then f
               else fld_set_ForeignKey (Some (fk_set_To (app +:+ "." +:+ fk_To fk) fk)) f
  end.

(** qualifyConstraints, on one constraint and on a slice of them *)
Definition qualifyConstraint (app : string) (c : Constraint) : Constraint :=
  match c with
  | CForeignKey fk =>
      if bool_decide (fkc_To fk = "") || ContainsByte (fkc_To fk) dot then c
      else CForeignKey (fkc_set_To (app +:+ "." +:+ fkc_To fk) fk)
  | _ => c
  end.

Definition qualifyConstraints (cs : list Constraint) (app : string) : list Constraint :=
  map (qualifyConstraint app) cs.

(** ProjectState.AddModel *)
Definition AddModel (m : ModelState) (s : ProjectState) : ProjectState :=
  let m' := ms_set_Options
              (opt_set_Constraints (qualifyConstraints (opt_Constraints (ms_Options m)) (ms_App m)) (ms_Options m))
              (ms_set_Fields
                (map (fun f => mkNamedField (nf_Name f) (qualifyForeignKey (nf_Field f) (ms_App m))) (ms_Fields m)) m) in
  invalidate (ps_set_Models (<[ModelState_Key m' := m']> (ps_Models s)) s).

(** ProjectState.RemoveModel *)
Definition RemoveModel (app name : string) (s : ProjectState) : ProjectState :=
  invalidate (ps_set_Models (delete (mkModelKey app (ToLower name)) (ps_Models s)) s).

(** ** References *)

(** FieldReferences *)
Definition FieldReferences (modelKey : ModelKey) (f : Field) (refModel : ModelKey) (refField : string) : bool :=
  match fld_ForeignKey f with
  | None => false
  | Some fk =>
      if negb (bool_decide (Target fk (mk_App modelKey) = refModel)) then false
      else bool_decide (refField = "") || bool_decide (fk_ToField fk = "") ||
           bool_decide (fk_ToField fk = refField)
  end.

Record FieldReference := mkFieldReference {
  fr_Model : ModelKey;
  fr_Name : string;
  fr_Field : Field;
}.

(** GetReferences *)
Definition references_of (k : ModelKey) (fs : Fields) (model : ModelKey) (field : string) : list FieldReference :=
  omap (fun f => if FieldReferences k (nf_Field f) model field
                 then Some (mkFieldReference k (nf_Name f) (nf_Field f)) else None) fs.

Definition GetReferences (s : ProjectState) (model : ModelKey) (field : string) : list FieldReference :=
  concat (map (fun k => match ps_Models s !! k with
                        | Some m => references_of k (ms_Fields m) model field
                        | None => []
                        end) (SortedKeys s)).

(** FieldIsReferenced *)
Definition FieldIsReferenced (s : ProjectState) (model : ModelKey) (field : string) : bool :=
  negb (bool_decide (length (GetReferences s model field) = 0)).

(** The body of the loops over references: the field the reference names is
    replaced by one with a changed foreign key. *)
Definition update_reference (upd : ForeignKey → ForeignKey) (s : ProjectState) (ref : FieldReference)
    : outcome ProjectState :=
  match ps_Models s !! fr_Model ref with
  | None => Panic nil_dereference
  | Some ms =>
    match Fields_Index (ms_Fields ms) (fr_Name ref) with
    | None => Panic index_out_of_range
    | Some i =>
      match ms_Fields ms !! i with
      | None => Panic index_out_of_range
      | Some nf =>
        let f := Field_Clone (nf_Field nf) in
        match fld_ForeignKey f with
        | None => Panic nil_dereference
        | Some fk =>
          let nf' := mkNamedField (nf_Name nf) (fld_set_ForeignKey (Some (upd fk)) f) in
          Ok (ps_set_Models (<[fr_Model ref := ms_set_Fields (<[i := nf']> (ms_Fields ms)) ms]> (ps_Models s)) s)
        end
      end
    end
  end.

(** The loops over every model's foreign key constraints that target [key] *)
Definition update_target_constraint (key : ModelKey) (upd : ForeignKeyConstraint → ForeignKeyConstraint)
    (app : string) (c : Constraint) : Constraint :=
  match c with
  | CForeignKey fk => if bool_decide (fkc_Target fk app = key) then CForeignKey (upd fk) else c
  | _ => c
  end.

Definition ms_map_constraints (f : Constraint → Constraint) (m : ModelState) : ModelState :=
  ms_set_Options (opt_set_Constraints (map f (opt_Constraints (ms_Options m))) (ms_Options m)) m.

Definition update_target_constraints (key : ModelKey) (upd : ForeignKeyConstraint → ForeignKeyConstraint)
    (s : ProjectState) : ProjectState :=
  ps_set_Models (map_imap (fun k m => Some (ms_map_constraints (update_target_constraint key upd (mk_App k)) m))
    (ps_Models s)) s.

(** ProjectState.RenameModel *)
Definition RenameModel (app oldName newName : string) (s : ProjectState) : outcome ProjectState :=
  let oldKey := mkModelKey app (ToLower oldName) in
  match ps_Models s !! oldKey with
  | None => Panic nil_dereference
  | Some m =>
    let renamed := ms_set_Name newName (ModelState_Clone m) in
    let newRef := app +:+ "." +:+ newName in
    let s1 := ps_set_Models (<[ModelState_Key renamed := renamed]> (ps_Models s)) s in
    let s2 := update_target_constraints oldKey (fkc_set_To newRef) s1 in
    s3 ← foldM (update_reference (fk_set_To newRef)) s2 (GetReferences s2 oldKey "");
    let s4 := if bool_decide (ModelState_Key renamed = oldKey) then s3
              else ps_set_Models (delete oldKey (ps_Models s3)) s3 in
    Ok (invalidate s4)
  end.

(** ** Model options *)

(** ProjectState.AlterModelOptions *)
Definition AlterModelOptions (app name : string) (managed : option bool) (set : bool) (s : ProjectState)
    : outcome ProjectState :=
  m ← mustModel s app name;
  Ok (put_model s app name
        (if set then ms_set_Options (opt_set_Managed managed (ms_Options m)) m else m)).

(** ProjectState.AlterTable *)
Definition AlterTable (app name table : string) (s : ProjectState) : outcome ProjectState :=
  m ← mustModel s app name;
  Ok (put_model s app name (ms_set_Table table m)).

(** ProjectState.AlterTableComment *)
Definition AlterTableComment (app name comment : string) (s : ProjectState) : outcome ProjectState :=
  m ← mustModel s app name;
  Ok (put_model s app name (ms_set_Options (opt_set_DBTableComment comment (ms_Options m)) m)).

(** ProjectState.AlterUniqueTogether *)
Definition AlterUniqueTogether (app name : string) (ut : list (list string)) (s : ProjectState)
    : outcome ProjectState :=
  m ← mustModel s app name;
  Ok (put_model s app name (ms_set_Options (opt_set_UniqueTogether (normalizeTogether ut) (ms_Options m)) m)).

(** ProjectState.RemoveUniqueTogether *)
Definition RemoveUniqueTogether (app name : string) (value : list string) (s : ProjectState)
    : outcome ProjectState :=
  m ← mustModel s app name;
  Ok (put_model s app name (ms_set_Options
        (opt_set_UniqueTogether (filter (fun t => t ≠ value) (opt_UniqueTogether (ms_Options m))) (ms_Options m)) m)).

(** ProjectState.AddIndex *)
Definition AddIndex (app name : string) (ix : Index) (s : ProjectState) : outcome ProjectState :=
  m ← mustModel s app name;
  Ok (put_model s app name (ms_set_Options
        (opt_set_Indexes (opt_Indexes (ms_Options m) ++ [Index_Clone ix]) (ms_Options m)) m)).

(** ProjectState.RemoveIndex *)
Definition RemoveIndex (app name indexName : string) (s : ProjectState) : outcome ProjectState :=
  m ← mustModel s app name;
  Ok (put_model s app name (ms_set_Options
        (opt_set_Indexes (filter (fun ix => ix_Name ix ≠ indexName) (opt_Indexes (ms_Options m))) (ms_Options m)) m)).

(** ProjectState.RenameIndex *)
Definition RenameIndex (app name oldName newName : string) (s : ProjectState) : outcome ProjectState :=
  m ← mustModel s app name;
  Ok (put_model s app name (ms_set_Options
        (opt_set_Indexes
          (map (fun ix => let ix := Index_Clone ix in
                          if bool_decide (ix_Name ix = oldName) then ix_set_Name newName ix else ix)
             (opt_Indexes (ms_Options m))) (ms_Options m)) m)).

(** ProjectState.AddConstraint *)
Definition AddConstraint (app name : string) (c : Constraint) (s : ProjectState) : outcome ProjectState :=
  m ← mustModel s app name;
  Ok (put_model s app name (ms_set_Options
        (opt_set_Constraints (opt_Constraints (ms_Options m) ++ qualifyConstraints [cloneConstraint c] app)
           (ms_Options m)) m)).

(** ProjectState.RemoveConstraint *)
Definition RemoveConstraint (app name constraintName : string) (s : ProjectState) : outcome ProjectState :=
  m ← mustModel s app name;
  Ok (put_model s app name (ms_set_Options
        (opt_set_Constraints (filter (fun c => ConstraintName c ≠ constraintName) (opt_Constraints (ms_Options m)))
           (ms_Options m)) m)).

(** ProjectState.AlterConstraint *)
Definition AlterConstraint (app name constraintName : string) (c : Constraint) (s : ProjectState)
    : outcome ProjectState :=
  m ← mustModel s app name;
  Ok (put_model s app name (ms_set_Options
        (opt_set_Constraints
          (map (fun x => if bool_decide (ConstraintName x = constraintName)
                         then qualifyConstraint app (cloneConstraint c) else x)
             (opt_Constraints (ms_Options m))) (ms_Options m)) m)).

(** ** Fields *)

(** The field a state stores for the field of an operation *)
Definition stored_field (app : string) (f : Field) (preserveDefault : bool) : Field :=
  let f := qualifyForeignKey (Field_Clone f) app in
  if preserveDefault then f else fld_set_Default None f.

(** ProjectState.AddField *)
Definition AddField (app model name : string) (f : Field) (preserveDefault : bool) (s : ProjectState)
    : outcome ProjectState :=
  m ← mustModel s app model;
  Ok (put_model s app model
        (ms_set_Fields (ms_Fields m ++ [mkNamedField name (stored_field app f preserveDefault)]) m)).

Definition no_such_field (app model name : string) : error :=
  FieldDoesNotExist (app +:+ "." +:+ ToLower model +:+ " has no field named '" +:+ name +:+ "'").

(** ProjectState.RemoveField *)
Definition RemoveField (app model name : string) (s : ProjectState) : outcome ProjectState :=
  m ← mustModel s app model;
  match Fields_Index (ms_Fields m) name with
  | None => Panic (no_such_field app model name)
  | Some i => Ok (put_model s app model (ms_set_Fields (delete i (ms_Fields m)) m))
  end.

(** ProjectState.AlterField *)
Definition AlterField (app model name : string) (f : Field) (preserveDefault : bool) (s : ProjectState)
    : outcome ProjectState :=
  m ← mustModel s app model;
  match Fields_Index (ms_Fields m) name with
  | None => Panic (no_such_field app model name)
  | Some i => Ok (put_model s app model
                (ms_set_Fields (<[i := mkNamedField name (stored_field app f preserveDefault)]> (ms_Fields m)) m))
  end.

(** The renaming of a column inside an index *)
Definition rename_index_column (oldName newName : string) (ix : Index) : Index :=
  mkIndex (ix_Name ix)
    (match ix_Fields ix with
     | None => None
     | Some l => Some (map (fun f => if bool_decide (if_Column f = oldName)
                    then mkIndexField newName (if_Expression f) (if_Sort f) (if_Collate f) (if_Length f)
                    else f) l)
     end)
    (ix_Unique ix) (ix_Class ix) (ix_Type ix) (ix_Where ix)
    (renameIn (ix_Include ix) oldName newName) (ix_OpClasses ix) (ix_Comment ix) (ix_Option ix).

(** The first half of RenameField: the model's own fields, unique_together,
    indexes and constraints *)
Definition rename_own_field (i : nat) (nf : NamedField) (oldName newName : string) (m : ModelState) : ModelState :=
  let o := ms_Options m in
  mkModelState (ms_App m) (ms_Name m) (ms_Table m)
    (<[i := mkNamedField newName (nf_Field nf)]> (ms_Fields m))
    (opt_set_Constraints (map (fun c => renameColumn c oldName newName) (opt_Constraints o))
      (opt_set_Indexes (map (rename_index_column oldName newName) (opt_Indexes o))
        (opt_set_UniqueTogether (map (fun t => rename_list t oldName newName) (opt_UniqueTogether o)) o))).

(** ProjectState.RenameField *)
Definition RenameField (app model oldName newName : string) (s : ProjectState) : outcome ProjectState :=
  let key := mkModelKey app (ToLower model) in
  match ps_Models s !! key with
  | None => Panic nil_dereference
  | Some m =>
    match Fields_Index (ms_Fields m) oldName with
    | None => Err (no_such_field app model oldName)
    | Some i =>
      match ms_Fields m !! i with
      | None => Panic index_out_of_range
      | Some nf =>
        let s1 := ps_set_Models (<[key := rename_own_field i nf oldName newName m]> (ps_Models s)) s in
        let s2 := update_target_constraints key (fun fk => renameTargetColumn fk oldName newName) s1 in
        s3 ← foldM (update_reference (fun fk => if bool_decide (fk_ToField fk = oldName)
                                                then fk_set_ToField newName fk else fk))
               s2 (GetReferences s2 key oldName);
        Ok (invalidate s3)
      end
    end
  end.

(** ** Equality *)

(** ProjectState.Equal *)
Definition ProjectState_Equal (s o : ProjectState) : bool :=
  bool_decide (size (ps_Models s) = size (ps_Models o)) &&
  forallb (fun p => match ps_Models o !! p.1 with
                    | Some m => ModelState_Equal p.2 m
                    | None => false
                    end) (map_to_list (ps_Models s)) &&
  bool_decide (ps_RealApps s = ps_RealApps o).
