(* ===== verification/StateLemmas.v ===== *)
(** * Project states: invariants and the effect of the mutators

    What a ProjectState keeps: every model under its own key, every foreign
    key target in its qualified form, and a cached registry that is the one
    rendering would give. *)

From S2P Require Import Prelude GoStd Keys Errors Fields Index ModelState Apps ProjectState.

(** ** The invariant *)

Definition field_qualified (f : Field) : Prop :=
  match fld_ForeignKey f with
  | None => True
  | Some fk => ContainsByte (fk_To fk) dot = true
  end.

Definition constraint_qualified (c : Constraint) : Prop :=
  match c with
  | CForeignKey fk => fkc_To fk = "" ∨ ContainsByte (fkc_To fk) dot = true
  | _ => True
  end.

Definition model_qualified (m : ModelState) : Prop :=
  (∀ nf, nf ∈ ms_Fields m → field_qualified (nf_Field nf)) ∧
  (∀ c, c ∈ opt_Constraints (ms_Options m) → constraint_qualified c).

Definition models_wf (models : gmap ModelKey ModelState) : Prop :=
  map_Forall (fun k m => k = ModelState_Key m ∧ model_qualified m) models.

Definition cache_ok (s : ProjectState) : Prop :=
  ∀ a, ps_apps s = Some a → render_state s = Ok a.

Definition state_wf (s : ProjectState) : Prop := models_wf (ps_Models s) ∧ cache_ok s.

(** Distinct field names, which CreateModel checks and the renaming of fields
    is exact under *)
Definition names_distinct (s : ProjectState) : Prop :=
  map_Forall (fun _ m => NoDup (Fields_Names (ms_Fields m))) (ps_Models s).

(** ** Basic lemmas *)

Lemma ContainsByte_app_r a b c : ContainsByte (a +:+ String c b) c = true.
Proof.
  induction a as [|d a IH]; simpl; [by rewrite bool_decide_eq_true_2|]. by rewrite IH, orb_true_r.
Qed.

Lemma ContainsByte_qualified app name : ContainsByte (app +:+ "." +:+ name) dot = true.
Proof. change ("." +:+ name) with (String dot name). apply ContainsByte_app_r. Qed.
#[export] Hint Resolve ContainsByte_qualified : gormgate.

Lemma mustModel_Ok s app name m :
  mustModel s app name = Ok m ↔ ps_Models s !! mkModelKey app (ToLower name) = Some m.
Proof. unfold mustModel, must, ps_Model. destruct (_ !! _); naive_solver. Qed.

Lemma ps_Model_Ok s app name m :
  ps_Model s app name = Ok m ↔ ps_Models s !! mkModelKey app (ToLower name) = Some m.
Proof. unfold ps_Model. destruct (_ !! _); naive_solver. Qed.

Lemma mustModel_of_Model s app name m : ps_Model s app name = Ok m → mustModel s app name = Ok m.
Proof. intros Hm%ps_Model_Ok. by apply mustModel_Ok. Qed.

Lemma qualifyForeignKey_qualified f app : field_qualified (qualifyForeignKey f app).
Proof.
  unfold field_qualified, qualifyForeignKey.
  destruct (fld_ForeignKey f) as [fk|] eqn:E; [|by rewrite E].
  destruct (ContainsByte (fk_To fk) dot) eqn:Ed; [by rewrite E|]. simpl.
  apply ContainsByte_qualified.
Qed.

Lemma stored_field_qualified app f p : field_qualified (stored_field app f p).
Proof.
  unfold stored_field. pose proof (qualifyForeignKey_qualified (Field_Clone f) app) as H.
  destruct p; [done|]. unfold field_qualified in *. by destruct (qualifyForeignKey _ _).
Qed.

Lemma qualifyConstraint_qualified app c : constraint_qualified (qualifyConstraint app c).
Proof.
  unfold constraint_qualified, qualifyConstraint. destruct c as [|c|fk]; simpl; try done.
  destruct (bool_decide (fkc_To fk = "")) eqn:E1; simpl; breflect; [by left|].
  destruct (ContainsByte (fkc_To fk) dot) eqn:E2; [by right|].
  right. apply ContainsByte_qualified.
Qed.

(** Qualifying a qualified value changes nothing. *)
Lemma qualifyForeignKey_id f app : field_qualified f → qualifyForeignKey f app = f.
Proof.
  unfold field_qualified, qualifyForeignKey. destruct (fld_ForeignKey f) as [fk|]; [|done].
  by intros ->.
Qed.

Lemma renameColumn_qualified c old new :
  constraint_qualified c → constraint_qualified (renameColumn c old new).
Proof. by destruct c. Qed.

#[export] Hint Resolve qualifyForeignKey_qualified stored_field_qualified
  qualifyConstraint_qualified renameColumn_qualified : gormgate.

Lemma cache_ok_invalidate s : cache_ok (invalidate s).
Proof. by intros a. Qed.
#[export] Hint Resolve cache_ok_invalidate : gormgate.

(** ** The mutators that replace one model *)

Lemma put_model_wf s app name m m' :
  state_wf s →
  ps_Models s !! mkModelKey app (ToLower name) = Some m →
  ModelState_Key m' = ModelState_Key m →
  model_qualified m' →
  state_wf (put_model s app name m').
Proof.
  intros [Hwf _] Hm Hk Hq. split; [|apply cache_ok_invalidate].
  apply map_Forall_insert_2; [|done]. split; [|done].
  destruct (Hwf _ _ Hm) as [-> _]. done.
Qed.

Lemma wf_lookup_qualified s k m :
  state_wf s → ps_Models s !! k = Some m → k = ModelState_Key m ∧ model_qualified m.
Proof. intros [Hwf _] Hm. apply (Hwf _ _ Hm). Qed.

(** Every mutator of this shape is [mustModel] followed by [put_model]. *)
Ltac put_model_tac :=
  intros Hwf Hop; apply bind_Ok in Hop as (m0 & Hm0 & Hop);
  apply mustModel_Ok in Hm0;
  pose proof (wf_lookup_qualified _ _ _ Hwf Hm0) as [_ [Hqf Hqc]];
  try case_match; simplify_eq;
  (eapply put_model_wf; [exact Hwf|exact Hm0|reflexivity|split; simpl]).

Lemma AlterModelOptions_wf s app name managed set s' :
  state_wf s → AlterModelOptions app name managed set s = Ok s' → state_wf s'.
Proof. unfold AlterModelOptions. put_model_tac; auto. Qed.

Lemma AlterTable_wf s app name table s' :
  state_wf s → AlterTable app name table s = Ok s' → state_wf s'.
Proof. unfold AlterTable. put_model_tac; auto. Qed.

Lemma AlterTableComment_wf s app name comment s' :
  state_wf s → AlterTableComment app name comment s = Ok s' → state_wf s'.
Proof. unfold AlterTableComment. put_model_tac; auto. Qed.

Lemma AlterUniqueTogether_wf s app name ut s' :
  state_wf s → AlterUniqueTogether app name ut s = Ok s' → state_wf s'.
Proof. unfold AlterUniqueTogether. put_model_tac; auto. Qed.

Lemma AddIndex_wf s app name ix s' :
  state_wf s → AddIndex app name ix s = Ok s' → state_wf s'.
Proof. unfold AddIndex. put_model_tac; auto. Qed.

Lemma RemoveIndex_wf s app name ix s' :
  state_wf s → RemoveIndex app name ix s = Ok s' → state_wf s'.
Proof. unfold RemoveIndex. put_model_tac; auto. Qed.

Lemma RenameIndex_wf s app name old new s' :
  state_wf s → RenameIndex app name old new s = Ok s' → state_wf s'.
Proof. unfold RenameIndex. put_model_tac; auto. Qed.

Lemma AddConstraint_wf s app name c s' :
  state_wf s → AddConstraint app name c s = Ok s' → state_wf s'.
Proof.
  unfold AddConstraint. put_model_tac; [done|].
  intros x [Hx|Hx]%elem_of_app; [auto|].
  apply list_elem_of_singleton in Hx as ->. auto with gormgate.
Qed.

Lemma RemoveConstraint_wf s app name n s' :
  state_wf s → RemoveConstraint app name n s = Ok s' → state_wf s'.
Proof.
  unfold RemoveConstraint. put_model_tac; [done|].
  intros x [_ Hx]%list_elem_of_filter. auto.
Qed.

Lemma AlterConstraint_wf s app name n c s' :
  state_wf s → AlterConstraint app name n c s = Ok s' → state_wf s'.
Proof.
  unfold AlterConstraint. put_model_tac; [done|].
  intros x Hx. apply list_elem_of_fmap in Hx as (y & -> & Hy).
  case_bool_decide; auto with gormgate.
Qed.

Lemma AddField_wf s app model name f p s' :
  state_wf s → AddField app model name f p s = Ok s' → state_wf s'.
Proof.
  unfold AddField. put_model_tac; [|done].
  intros x [Hx|Hx]%elem_of_app; [auto|].
  apply list_elem_of_singleton in Hx as ->. apply stored_field_qualified.
Qed.

Lemma RemoveField_wf s app model name s' :
  state_wf s → RemoveField app model name s = Ok s' → state_wf s'.
Proof.
  unfold RemoveField. put_model_tac; [|done].
  intros x Hx%list_elem_of_delete_inv. auto.
Qed.

Lemma AlterField_wf s app model name f p s' :
  state_wf s → AlterField app model name f p s = Ok s' → state_wf s'.
Proof.
  unfold AlterField. put_model_tac; [|done].
  intros x Hx. apply list_elem_of_lookup in Hx as [j Hj].
  apply list_lookup_insert_Some in Hj as [(-> & <- & _)|[_ Hj]]; [apply stored_field_qualified|].
  apply Hqf. by eapply list_elem_of_lookup_2.
Qed.

(** ** Models added and removed *)

Lemma AddModel_wf m s : state_wf s → state_wf (AddModel m s).
Proof.
  intros [Hwf _]. split; [|apply cache_ok_invalidate].
  apply map_Forall_insert_2; [|done]. split; [done|]. split; simpl.
  - intros nf Hx. apply list_elem_of_fmap in Hx as (y & -> & _). simpl. auto with gormgate.
  - intros c Hx. apply list_elem_of_fmap in Hx as (y & -> & _). auto with gormgate.
Qed.

Lemma RemoveModel_wf app name s : state_wf s → state_wf (RemoveModel app name s).
Proof.
  intros [Hwf _]. split; [|apply cache_ok_invalidate]. by apply map_Forall_delete.
Qed.

(** ** Updating every reference to a model *)

(** What the loop over GetReferences does to one field *)
Definition update_field (upd : ForeignKey → ForeignKey) (k key : ModelKey) (field : string) (nf : NamedField)
    : NamedField :=
  if FieldReferences k (nf_Field nf) key field then
    mkNamedField (nf_Name nf) (fld_set_ForeignKey (upd <$> fld_ForeignKey (nf_Field nf)) (nf_Field nf))
  else nf.

Definition update_fields (upd : ForeignKey → ForeignKey) (key : ModelKey) (field : string)
    (models : gmap ModelKey ModelState) : gmap ModelKey ModelState :=
  map_imap (fun k m => Some (ms_set_Fields (map (update_field upd k key field) (ms_Fields m)) m)) models.

Lemma ms_set_Fields_set fs fs' m : ms_set_Fields fs (ms_set_Fields fs' m) = ms_set_Fields fs m.
Proof. done. Qed.

Lemma ms_set_Fields_id m : ms_set_Fields (ms_Fields m) m = m.
Proof. by destruct m. Qed.

Lemma ps_set_Models_set v w s : ps_set_Models v (ps_set_Models w s) = ps_set_Models v s.
Proof. done. Qed.

Lemma ps_set_Models_id s : ps_set_Models (ps_Models s) s = s.
Proof. by destruct s. Qed.

Lemma FieldReferences_fk k f key field :
  FieldReferences k f key field = true → ∃ fk, fld_ForeignKey f = Some fk.
Proof. unfold FieldReferences. destruct (fld_ForeignKey f); [eauto|done]. Qed.

Lemma Fields_Index_middle (pre : Fields) nf suf :
  NoDup (Fields_Names (pre ++ nf :: suf)) →
  Fields_Index (pre ++ nf :: suf) (nf_Name nf) = Some (length pre).
Proof.
  unfold Fields_Names. rewrite map_app. intros (_ & Hpre & _)%NoDup_app.
  apply index_func_Some. exists nf. split_and!.
  - by apply list_lookup_middle.
  - by apply bool_decide_eq_true.
  - intros j y Hj Hy. apply bool_decide_eq_false. intros Heq.
    rewrite lookup_app_l in Hy by done.
    apply (Hpre (nf_Name y)).
    + apply list_elem_of_fmap. exists y. split; [done|]. by eapply list_elem_of_lookup_2.
    + rewrite Heq. left.
Qed.

(** One iteration, when the field is the one at position [length pre] *)
Lemma update_reference_middle upd k m pre nf suf f fk s :
  ps_Models s !! k = Some (ms_set_Fields (pre ++ nf :: suf) m) →
  NoDup (Fields_Names (pre ++ nf :: suf)) →
  fld_ForeignKey (nf_Field nf) = Some fk →
  update_reference upd s (mkFieldReference k (nf_Name nf) f) =
  Ok (ps_set_Models
        (<[k := ms_set_Fields (pre ++ mkNamedField (nf_Name nf)
                  (fld_set_ForeignKey (Some (upd fk)) (nf_Field nf)) :: suf) m]> (ps_Models s)) s).
Proof.
  intros Hm Hnd Hfk. unfold update_reference. cbn [fr_Model fr_Name].
  rewrite Hm. cbn [ms_Fields ms_set_Fields].
  rewrite Fields_Index_middle, list_lookup_middle by done. cbv zeta.
  rewrite Field_Clone_id, Hfk, insert_app_r_alt, Nat.sub_diag by lia. done.
Qed.

(** The inner loop: the references inside one model, once the fields before
    position [length pre] have been dealt with. *)
Lemma update_references_model upd key field k m pre suf s :
  ps_Models s !! k = Some (ms_set_Fields (pre ++ suf) m) →
  NoDup (Fields_Names (pre ++ suf)) →
  foldM (update_reference upd) s (references_of k suf key field) =
  Ok (ps_set_Models
        (<[k := ms_set_Fields (pre ++ map (update_field upd k key field) suf) m]> (ps_Models s)) s).
Proof.
  revert pre s. induction suf as [|nf suf IH]; intros pre s Hm Hnd; simpl.
  { f_equal. rewrite insert_id by done. by rewrite ps_set_Models_id. }
  unfold references_of in *. simpl. unfold update_field at 1.
  destruct (FieldReferences k (nf_Field nf) key field) eqn:Er; simpl.
  - destruct (FieldReferences_fk _ _ _ _ Er) as [fk Hfk].
    rewrite (update_reference_middle upd k m pre nf suf _ fk) by done. simpl. rewrite Hfk. simpl.
    rewrite (IH (pre ++ [mkNamedField (nf_Name nf) (fld_set_ForeignKey (Some (upd fk)) (nf_Field nf))])).
    + simpl. rewrite ps_set_Models_set, insert_insert_eq. by rewrite <- app_assoc.
    + simpl. rewrite lookup_insert_eq. by rewrite <- app_assoc.
    + unfold Fields_Names in *. rewrite !map_app in *. simpl in *. by rewrite <- app_assoc.
  - rewrite cons_middle, app_assoc in Hm, Hnd. rewrite (IH _ _ Hm Hnd).
    by rewrite <- app_assoc.
Qed.

(** The outer loop, over the sorted keys *)
Lemma update_references_keys upd key field ks s s0 :
  NoDup ks →
  (∀ k m, ps_Models s0 !! k = Some m → NoDup (Fields_Names (ms_Fields m))) →
  (∀ k, k ∈ ks → ps_Models s !! k = ps_Models s0 !! k) →
  foldM (update_reference upd) s
    (concat (map (fun k => match ps_Models s0 !! k with
                           | Some m => references_of k (ms_Fields m) key field
                           | None => []
                           end) ks)) =
  Ok (ps_set_Models (map_imap (fun k m => Some (if bool_decide (k ∈ ks) then
        ms_set_Fields (map (update_field upd k key field) (ms_Fields m)) m else m)) (ps_Models s)) s).
Proof.
  intros Hnd Hnames. revert s. induction ks as [|k ks IH]; intros s Hs; simpl.
  { f_equal. rewrite <- (ps_set_Models_id s) at 1. f_equal.
    apply map_eq. intros i. rewrite map_lookup_imap. by destruct (_ !! i). }
  apply NoDup_cons in Hnd as [Hk Hnd]. specialize (IH Hnd).
  rewrite foldM_app. destruct (ps_Models s0 !! k) as [m|] eqn:Em.
  - rewrite (update_references_model _ _ _ k m []); simpl.
    + rewrite IH; simpl.
      * rewrite ps_set_Models_set. do 2 f_equal. apply map_eq. intros i.
        rewrite !map_lookup_imap. destruct (decide (i = k)) as [->|Hne].
        -- rewrite lookup_insert_eq, Hs by left. rewrite Em. simpl.
           rewrite bool_decide_eq_false_2 by done. by rewrite bool_decide_eq_true_2 by left.
        -- rewrite lookup_insert_ne by done. destruct (ps_Models s !! i); simpl; [|done].
           repeat case_bool_decide; set_solver.
      * intros i Hi. rewrite lookup_insert_ne; [|set_solver]. apply Hs. by right.
    + rewrite ms_set_Fields_id, Hs by left. done.
    + eauto.
  - simpl. rewrite IH by (intros; apply Hs; by right). do 2 f_equal. apply map_eq. intros i.
    rewrite !map_lookup_imap. destruct (ps_Models s !! i) eqn:Ei; simpl; [|done].
    destruct (decide (i = k)) as [->|Hne].
    { rewrite Hs in Ei by left. congruence. }
    repeat case_bool_decide; set_solver.
Qed.

Lemma elem_of_SortedKeys s k : k ∈ SortedKeys s ↔ is_Some (ps_Models s !! k).
Proof.
  unfold SortedKeys. rewrite elem_of_sortKeys, list_elem_of_fmap. split.
  - intros ([k' m] & -> & Hm%elem_of_map_to_list). by exists m.
  - intros [m Hm]. exists (k, m). split; [done|]. by apply elem_of_map_to_list.
Qed.

Lemma NoDup_SortedKeys s : NoDup (SortedKeys s).
Proof. unfold SortedKeys. apply NoDup_sortKeys, NoDup_fst_map_to_list. Qed.

(** With distinct field names, the loop over GetReferences changes exactly
    the fields that refer to the model, in every model. *)
Lemma update_references_spec upd key field s :
  names_distinct s →
  foldM (update_reference upd) s (GetReferences s key field) =
  Ok (ps_set_Models (update_fields upd key field (ps_Models s)) s).
Proof.
  intros Hnd. unfold GetReferences.
  rewrite (update_references_keys upd key field _ s s (NoDup_SortedKeys s)); [|exact Hnd|done].
  do 2 f_equal. unfold update_fields. apply map_eq. intros k. rewrite !map_lookup_imap.
  destruct (ps_Models s !! k) eqn:Ek; simpl; [|done].
  rewrite bool_decide_eq_true_2; [done|]. apply elem_of_SortedKeys. eauto.
Qed.

(** ** The invariant under the loops *)

Lemma update_reference_wf upd s ref s' :
  (∀ fk, ContainsByte (fk_To fk) dot = true → ContainsByte (fk_To (upd fk)) dot = true) →
  models_wf (ps_Models s) →
  update_reference upd s ref = Ok s' →
  models_wf (ps_Models s').
Proof.
  intros Hupd Hwf. unfold update_reference. cbv zeta.
  destruct (ps_Models s !! fr_Model ref) as [ms|] eqn:Em; [|done].
  destruct (Fields_Index _ _) as [i|]; [|done].
  destruct (ms_Fields ms !! i) as [nf|] eqn:Ei; [|done]. rewrite Field_Clone_id.
  destruct (fld_ForeignKey (nf_Field nf)) as [fk|] eqn:Efk; [|done].
  intros [= <-]. destruct (Hwf _ _ Em) as [Hk [Hqf Hqc]].
  apply map_Forall_insert_2; [|done]. split; [done|]. split; [|done].
  intros x Hx. apply list_elem_of_lookup in Hx as [j Hj].
  apply list_lookup_insert_Some in Hj as [(-> & <- & _)|[_ Hj]].
  - unfold field_qualified. simpl. apply Hupd.
    specialize (Hqf nf ltac:(by eapply list_elem_of_lookup_2)).
    unfold field_qualified in Hqf. by rewrite Efk in Hqf.
  - apply Hqf. by eapply list_elem_of_lookup_2.
Qed.

Lemma update_target_constraints_wf key upd s :
  (∀ fk, constraint_qualified (CForeignKey fk) → constraint_qualified (CForeignKey (upd fk))) →
  models_wf (ps_Models s) → models_wf (ps_Models (update_target_constraints key upd s)).
Proof.
  intros Hupd Hwf k m Hm. simpl in Hm. rewrite map_lookup_imap in Hm.
  destruct (ps_Models s !! k) as [m0|] eqn:E; simplify_eq/=.
  destruct (Hwf _ _ E) as [Hk [Hqf Hqc]]. split; [done|]. split; [done|].
  intros c Hc. apply list_elem_of_fmap in Hc as (y & -> & Hy). apply Hqc in Hy.
  unfold update_target_constraint. destruct y as [|y|fk]; try done.
  case_bool_decide; [by apply Hupd|done].
Qed.

Lemma RenameModel_wf app old new s s' :
  state_wf s → RenameModel app old new s = Ok s' → state_wf s'.
Proof.
  intros [Hwf _]. unfold RenameModel. cbv zeta.
  destruct (ps_Models s !! _) as [m|] eqn:Em; [|done]. rewrite ModelState_Clone_id.
  intros Hop. apply bind_Ok in Hop as (s3 & Hfold & Hs'). simplify_eq.
  split; [|apply cache_ok_invalidate].
  assert (models_wf (ps_Models s3)) as Hwf3.
  { revert Hfold. apply (foldM_ind _ (fun s => models_wf (ps_Models s))).
    - intros s1 x s2 _ H1. apply update_reference_wf; [|done].
      intros. apply ContainsByte_qualified.
    - apply update_target_constraints_wf; [right; apply ContainsByte_qualified|].
      apply map_Forall_insert_2; [|done]. destruct (Hwf _ _ Em) as [_ Hq]. by split. }
  case_bool_decide; simpl; [done|]. by apply map_Forall_delete.
Qed.

Lemma rename_own_field_qualified i nf old new m :
  ms_Fields m !! i = Some nf → model_qualified m → model_qualified (rename_own_field i nf old new m).
Proof.
  intros Hi [Hqf Hqc]. split; simpl.
  - intros x Hx. apply list_elem_of_lookup in Hx as [j Hj].
    apply list_lookup_insert_Some in Hj as [(-> & <- & _)|[_ Hj]].
    + apply (Hqf nf). by eapply list_elem_of_lookup_2.
    + apply Hqf. by eapply list_elem_of_lookup_2.
  - intros c Hc. apply list_elem_of_fmap in Hc as (y & -> & Hy). auto with gormgate.
Qed.

Lemma RenameField_wf app model old new s s' :
  state_wf s → RenameField app model old new s = Ok s' → state_wf s'.
Proof.
  intros [Hwf _]. unfold RenameField. cbv zeta.
  destruct (ps_Models s !! _) as [m|] eqn:Em; [|done].
  destruct (Fields_Index _ _) as [i|]; [|done].
  destruct (ms_Fields m !! i) as [nf|] eqn:Ei; [|done].
  intros Hop. apply bind_Ok in Hop as (s3 & Hfold & Hs'). simplify_eq.
  split; [|apply cache_ok_invalidate]. simpl.
  revert Hfold. apply (foldM_ind _ (fun s => models_wf (ps_Models s))).
  - intros s1 x s2 _ H1. apply update_reference_wf; [|done]. intros fk Hfk.
    case_bool_decide; by destruct fk.
  - apply update_target_constraints_wf; [done|].
    apply map_Forall_insert_2; [|done]. destruct (Hwf _ _ Em) as [Hk Hq].
    split; [done|]. by apply rename_own_field_qualified.
Qed.

(** ** What RenameModel does to references *)

Lemma FieldReferences_spec k f key :
  FieldReferences k f key "" = true ↔
  ∃ fk, fld_ForeignKey f = Some fk ∧ Target fk (mk_App k) = key.
Proof.
  unfold FieldReferences. destruct (fld_ForeignKey f) as [fk|]; [|naive_solver].
  case_bool_decide; simpl; naive_solver.
Qed.

Lemma GetReferences_nil s key field :
  GetReferences s key field = [] ↔
  ∀ k m nf, ps_Models s !! k = Some m → nf ∈ ms_Fields m →
            FieldReferences k (nf_Field nf) key field = false.
Proof.
  unfold GetReferences. split.
  - intros Hnil k m nf Hm Hnf.
    destruct (FieldReferences k (nf_Field nf) key field) eqn:Er; [|done]. exfalso.
    assert (mkFieldReference k (nf_Name nf) (nf_Field nf) ∈ @nil FieldReference) as Hx;
      [|by apply elem_of_nil in Hx].
    rewrite <- Hnil. apply list_elem_of_In, in_concat.
    exists (references_of k (ms_Fields m) key field). split.
    + apply in_map_iff. exists k. rewrite Hm. split; [done|].
      apply list_elem_of_In, elem_of_SortedKeys. eauto.
    + apply list_elem_of_In, list_elem_of_omap. exists nf. split; [done|]. by rewrite Er.
  - intros Hall. induction (SortedKeys s) as [|k ks IH]; simpl; [done|]. rewrite IH, app_nil_r.
    destruct (ps_Models s !! k) as [m|] eqn:Em; [|done]. specialize (Hall k m).
    unfold references_of. induction (ms_Fields m) as [|nf fs IHf]; simpl; [done|].
    rewrite (Hall nf) by (done || left). apply IHf. intros x ??. apply Hall; [done|by right].
Qed.

Lemma update_field_set_To newRef app newName k key nf :
  newRef = app +:+ "." +:+ newName →
  ContainsByte app dot = false →
  mkModelKey app (ToLower newName) ≠ key →
  FieldReferences k (nf_Field (update_field (fk_set_To newRef) k key "" nf)) key "" = false.
Proof.
  intros -> Happ Hne. unfold update_field.
  destruct (FieldReferences k (nf_Field nf) key "") eqn:Er; [|done].
  apply FieldReferences_spec in Er as (fk & Hfk & _). rewrite Hfk.
  apply not_true_iff_false. rewrite FieldReferences_spec. intros (fk' & Hfk' & Ht).
  cbn in Hfk'. injection Hfk' as <-. apply Hne. rewrite <- Ht. unfold Target.
  cbn [fk_To fk_set_To]. by rewrite ResolveRelation_qualified.
Qed.

(** The constraints after the repointing *)
Lemma update_target_constraint_target newRef app newName k key c fk :
  newRef = app +:+ "." +:+ newName →
  ContainsByte app dot = false →
  mkModelKey app (ToLower newName) ≠ key →
  update_target_constraint key (fkc_set_To newRef) k c = CForeignKey fk →
  fkc_Target fk k ≠ key.
Proof.
  intros -> Happ Hne Hc Ht. unfold update_target_constraint in Hc.
  destruct c as [|c|fk0]; try done. case_bool_decide as Hd; injection Hc as <-; [|done].
  apply Hne. rewrite <- Ht. unfold fkc_Target. cbn [fkc_To fkc_set_To].
  by rewrite ResolveRelation_qualified.
Qed.

(** RenameModel as one equation: what the models are afterwards *)
Lemma RenameModel_models app old new s m :
  names_distinct s →
  ps_Models s !! mkModelKey app (ToLower old) = Some m →
  let oldKey := mkModelKey app (ToLower old) in
  let newRef := app +:+ "." +:+ new in
  let renamed := ms_set_Name new m in
  let s2 := update_target_constraints oldKey (fkc_set_To newRef)
              (ps_set_Models (<[ModelState_Key renamed := renamed]> (ps_Models s)) s) in
  let models := update_fields (fk_set_To newRef) oldKey "" (ps_Models s2) in
  RenameModel app old new s =
  Ok (invalidate (ps_set_Models
        (if bool_decide (ModelState_Key renamed = oldKey) then models else delete oldKey models) s)).
Proof.
  intros Hnd Hm oldKey newRef renamed s2 models. unfold RenameModel. cbv zeta.
  fold oldKey newRef. unfold oldKey at 1. rewrite Hm, ModelState_Clone_id. fold renamed s2.
  rewrite update_references_spec.
  - simpl. fold models. case_bool_decide; done.
  - intros k m' Hk. simpl in Hk. rewrite map_lookup_imap in Hk.
    destruct (<[_:=_]> _ !! k) as [m0|] eqn:E; simplify_eq/=.
    apply lookup_insert_Some in E as [[_ <-]|[_ E]]; simpl; by eapply Hnd.
Qed.

(** The old key is free and nothing points at it any more. *)
Lemma RenameModel_no_reference app old new s s' :
  names_distinct s →
  ContainsByte app dot = false →
  ms_App <$> ps_Models s !! mkModelKey app (ToLower old) = Some app →
  ToLower new ≠ ToLower old →
  RenameModel app old new s = Ok s' →
  let oldKey := mkModelKey app (ToLower old) in
  ps_Models s' !! oldKey = None ∧
  GetReferences s' oldKey "" = [] ∧
  (∀ k m fk, ps_Models s' !! k = Some m → CForeignKey fk ∈ opt_Constraints (ms_Options m) →
             fkc_Target fk (mk_App k) ≠ oldKey).
Proof.
  intros Hnd Happ Hm Hne Hop oldKey. fold oldKey in Hm.
  apply fmap_Some in Hm as (m & Hm & Hma).
  rewrite (RenameModel_models _ _ _ _ m) in Hop by done. fold oldKey in Hop.
  assert (ModelState_Key (ms_set_Name new m) ≠ oldKey) as Hkey.
  { unfold ModelState_Key, NameLower, oldKey. simpl. intros [=]. congruence. }
  rewrite bool_decide_eq_false_2 in Hop by done. injection Hop as <-.
  assert (mkModelKey app (ToLower new) ≠ oldKey) as Hkey'.
  { unfold oldKey. intros [=]. congruence. }
  split_and!.
  - apply lookup_delete_eq.
  - apply GetReferences_nil. intros k m' nf Hk Hnf. cbn in Hk.
    apply lookup_delete_Some in Hk as [_ Hk]. unfold update_fields in Hk.
    apply lookup_map_imap_Some in Hk as (m1 & _ & Hm'). simplify_eq/=.
    apply list_elem_of_fmap in Hnf as (nf0 & -> & _).
    by eapply update_field_set_To.
  - intros k m' fk Hk Hc. cbn in Hk. apply lookup_delete_Some in Hk as [_ Hk]. unfold update_fields in Hk.
    apply lookup_map_imap_Some in Hk as (m1 & Hk & Hm').
    apply lookup_map_imap_Some in Hk as (m2 & _ & Hm2). simplify_eq/=.
    apply list_elem_of_fmap in Hc as (c & Hc & _). symmetry in Hc.
    by eapply update_target_constraint_target.
Qed.
