(* ===== verification/Operation.v ===== *)
(** * Operations: migrations/operation.go, op_models.go, op_fields.go,
    op_special.go and the operations of migrations/postgres

    Every operation type of the repository is a constructor, its struct
    fields in the order of the Go declaration. The Operation interface's
    methods are functions by cases on it. *)

From S2P Require Import Prelude GoStd Keys Errors Fields Index ModelState Apps ProjectState.

(** ** Categories *)

Definition Category := string.
Definition CategoryAddition : Category := "+".
Definition CategoryRemoval : Category := "-".
Definition CategoryAlteration : Category := "~".
Definition CategoryCode : Category := "p".
Definition CategorySQL : Category := "s".
Definition CategoryMixed : Category := "?".

(** ** What RunSQL and RunGo run *)

Record SQLParams := mkSQLParams { sqlp_SQL : string; sqlp_Params : list any }.

Inductive SQL :=
| Script (s : string)
| Statements (l : list string)
| Parameterized (l : list SQLParams).

Definition NoSQL : SQL := Statements [].

(** A Go function compiled into the command, by its qualified name *)
Definition RunGoFunc := string.
Definition RunGoNoop : RunGoFunc := "github.com/ctolon/gormgate/migrations.RunGoNoop".

Definition HintMap := gmap string any.

(** ** The operations *)

Inductive Operation :=
| CreateModel (Name Table : string) (fields : list NamedField) (options : Options)
| DeleteModel (Name : string)
| RenameModel (OldName NewName : string)
| AlterModelTable (Name Table : string)
| AlterModelTableComment (Name TableComment : string)
| AlterUniqueTogether (Name : string) (UniqueTogether : list (list string))
| AlterModelOptions (Name : string) (managed : option bool)
| AddIndex (ModelName : string) (index : Index)
| RemoveIndex (ModelName Name : string)
| RenameIndex (ModelName NewName OldName : string)
| AddConstraint (ModelName : string) (constraint : Constraint)
| RemoveConstraint (ModelName Name : string)
| AlterConstraint (ModelName Name : string) (constraint : Constraint)
| AddField (ModelName Name : string) (field : Field) (PreserveDefault : option bool)
| RemoveField (ModelName Name : string)
| AlterField (ModelName Name : string) (field : Field) (PreserveDefault : option bool)
| RenameField (ModelName OldName NewName : string)
| SeparateDatabaseAndState (DatabaseOperations StateOperations : list Operation)
| RunSQL (sql ReverseSQL : option SQL) (StateOperations : list Operation) (hints : HintMap) (IsElidable : bool)
| RunGo (code ReverseCode : option RunGoFunc) (IsAtomic : option bool) (hints : HintMap) (IsElidable : bool)
| CreateExtension (Name : string) (hints : HintMap)
| CreateCollation (Name Locale Provider : string) (deterministic : option bool)
| RemoveCollation (Name Locale Provider : string) (deterministic : option bool)
| AddIndexConcurrently (ModelName : string) (index : Index)
| RemoveIndexConcurrently (ModelName Name : string)
| AddConstraintNotValid (ModelName : string) (constraint : Constraint)
| ValidateConstraint (ModelName Name : string).

(** preserve reads PreserveDefault. *)
Definition preserve (p : option bool) : bool := match p with None => true | Some b => b end.

(** ** StateForwards *)

Definition require_model {A} (s : ProjectState) (app name : string) (k : ModelState → outcome A) : outcome A :=
  m ← ps_Model s app name; k m.

(** valueError around a returned error *)
Definition wrap_value_error {A} (o : outcome A) : outcome A :=
  match o with
  | Err e => Err (valueError e)
  | _ => o
  end.

Definition unnamed_index (ix : Index) : error :=
  ValueError ("indexes passed to AddIndex operations require a name argument. " +:+
    go_syntax_Index ix +:+ " doesn't have one") None.

(** CreateModel.StateForwards *)
Definition CreateModel_StateForwards (app Name Table : string) (fields : list NamedField) (options : Options)
    (s : ProjectState) : outcome ProjectState :=
  let ms := mkModelState app Name Table
              (map (fun f => mkNamedField (nf_Name f) (Field_Clone (nf_Field f))) fields)
              (Options_Clone options) in
  _ ← wrap_value_error (Validate ms);
  Ok (AddModel ms s).

(** AddIndex.StateForwards *)
Definition AddIndex_StateForwards (app ModelName : string) (ix : Index) (s : ProjectState) : outcome ProjectState :=
  if bool_decide (ix_Name ix = "") then Err (unnamed_index ix)
  else require_model s app ModelName (fun _ => ProjectState.AddIndex app ModelName ix s).

(** RemoveIndex.StateForwards *)
Definition RemoveIndex_StateForwards (app ModelName Name : string) (s : ProjectState) : outcome ProjectState :=
  require_model s app ModelName (fun ms =>
    _ ← wrap_value_error (GetIndexByName ms Name);
    ProjectState.RemoveIndex app ModelName Name s).

(** RenameIndex.StateForwards *)
Definition RenameIndex_StateForwards (app ModelName NewName OldName : string) (s : ProjectState)
    : outcome ProjectState :=
  if bool_decide (OldName = "") then
    Err (ValueError "RenameIndex requires one of old_name and old_fields arguments to be set" None)
  else require_model s app ModelName (fun _ => ProjectState.RenameIndex app ModelName OldName NewName s).

(** AddConstraintNotValid.checkConstraint *)
Definition checkConstraint (c : Constraint) : outcome unit :=
  match c with
  | CCheck _ => Ok tt
  | _ => Err (ValueError "AddConstraintNotValid.Constraint must be a check constraint" None)
  end.

(** The StateForwards method of each other operation *)
Definition DeleteModel_StateForwards (app Name : string) (s : ProjectState) : outcome ProjectState :=
  require_model s app Name (fun _ => Ok (RemoveModel app Name s)).

Definition RenameModel_StateForwards (app OldName NewName : string) (s : ProjectState) : outcome ProjectState :=
  require_model s app OldName (fun _ => ProjectState.RenameModel app OldName NewName s).

Definition AlterModelTable_StateForwards (app Name Table : string) (s : ProjectState) : outcome ProjectState :=
  require_model s app Name (fun _ => AlterTable app Name Table s).

Definition AlterModelTableComment_StateForwards (app Name TableComment : string) (s : ProjectState)
    : outcome ProjectState :=
  require_model s app Name (fun _ => AlterTableComment app Name TableComment s).

Definition AlterUniqueTogether_StateForwards (app Name : string) (ut : list (list string)) (s : ProjectState)
    : outcome ProjectState :=
  require_model s app Name (fun _ => ProjectState.AlterUniqueTogether app Name ut s).

Definition AlterModelOptions_StateForwards (app Name : string) (managed : option bool) (s : ProjectState)
    : outcome ProjectState :=
  require_model s app Name (fun _ => ProjectState.AlterModelOptions app Name managed true s).

Definition AddConstraint_StateForwards (app ModelName : string) (c : Constraint) (s : ProjectState)
    : outcome ProjectState :=
  require_model s app ModelName (fun _ => ProjectState.AddConstraint app ModelName c s).

Definition RemoveConstraint_StateForwards (app ModelName Name : string) (s : ProjectState) : outcome ProjectState :=
  require_model s app ModelName (fun _ => ProjectState.RemoveConstraint app ModelName Name s).

Definition AlterConstraint_StateForwards (app ModelName Name : string) (c : Constraint) (s : ProjectState)
    : outcome ProjectState :=
  require_model s app ModelName (fun _ => ProjectState.AlterConstraint app ModelName Name c s).

Definition AddField_StateForwards (app ModelName Name : string) (f : Field) (p : option bool) (s : ProjectState)
    : outcome ProjectState :=
  require_model s app ModelName (fun _ => ProjectState.AddField app (ToLower ModelName) Name f (preserve p) s).

Definition RemoveField_StateForwards (app ModelName Name : string) (s : ProjectState) : outcome ProjectState :=
  require_model s app ModelName (fun ms =>
    _ ← GetField ms Name; ProjectState.RemoveField app ModelName Name s).

Definition AlterField_StateForwards (app ModelName Name : string) (f : Field) (p : option bool) (s : ProjectState)
    : outcome ProjectState :=
  require_model s app ModelName (fun ms =>
    _ ← GetField ms Name; ProjectState.AlterField app ModelName Name f (preserve p) s).

Definition RenameField_StateForwards (app ModelName OldName NewName : string) (s : ProjectState)
    : outcome ProjectState :=
  require_model s app ModelName (fun _ => ProjectState.RenameField app ModelName OldName NewName s).

Definition AddConstraintNotValid_StateForwards (app ModelName : string) (c : Constraint) (s : ProjectState)
    : outcome ProjectState :=
  _ ← checkConstraint c;
  require_model s app ModelName (fun _ => ProjectState.AddConstraint app ModelName c s).

Arguments DeleteModel_StateForwards app Name s /.
Arguments RenameModel_StateForwards app OldName NewName s /.
Arguments AlterModelTable_StateForwards app Name Table s /.
Arguments AlterModelTableComment_StateForwards app Name TableComment s /.
Arguments AlterUniqueTogether_StateForwards app Name ut s /.
Arguments AlterModelOptions_StateForwards app Name managed s /.
Arguments AddConstraint_StateForwards app ModelName c s /.
Arguments RemoveConstraint_StateForwards app ModelName Name s /.
Arguments AlterConstraint_StateForwards app ModelName Name c s /.
Arguments AddField_StateForwards app ModelName Name f p s /.
Arguments RemoveField_StateForwards app ModelName Name s /.
Arguments AlterField_StateForwards app ModelName Name f p s /.
Arguments RenameField_StateForwards app ModelName OldName NewName s /.
Arguments AddConstraintNotValid_StateForwards app ModelName c s /.

(** Operation.StateForwards; a composite operation runs its state operations
    in order. *)
Fixpoint StateForwards (op : Operation) (app : string) (s : ProjectState) {struct op} : outcome ProjectState :=
  match op with
  | CreateModel Name Table fields options => CreateModel_StateForwards app Name Table fields options s
  | DeleteModel Name => DeleteModel_StateForwards app Name s
  | RenameModel OldName NewName => RenameModel_StateForwards app OldName NewName s
  | AlterModelTable Name Table => AlterModelTable_StateForwards app Name Table s
  | AlterModelTableComment Name c => AlterModelTableComment_StateForwards app Name c s
  | AlterUniqueTogether Name ut => AlterUniqueTogether_StateForwards app Name ut s
  | AlterModelOptions Name managed => AlterModelOptions_StateForwards app Name managed s
  | AddIndex ModelName ix => AddIndex_StateForwards app ModelName ix s
  | RemoveIndex ModelName Name => RemoveIndex_StateForwards app ModelName Name s
  | RenameIndex ModelName NewName OldName => RenameIndex_StateForwards app ModelName NewName OldName s
  | AddConstraint ModelName c => AddConstraint_StateForwards app ModelName c s
  | RemoveConstraint ModelName Name => RemoveConstraint_StateForwards app ModelName Name s
  | AlterConstraint ModelName Name c => AlterConstraint_StateForwards app ModelName Name c s
  | AddField ModelName Name f p => AddField_StateForwards app ModelName Name f p s
  | RemoveField ModelName Name => RemoveField_StateForwards app ModelName Name s
  | AlterField ModelName Name f p => AlterField_StateForwards app ModelName Name f p s
  | RenameField ModelName OldName NewName => RenameField_StateForwards app ModelName OldName NewName s
  | SeparateDatabaseAndState _ stateOps => foldM (fun s o => StateForwards o app s) s stateOps
  | RunSQL _ _ stateOps _ _ => foldM (fun s o => StateForwards o app s) s stateOps
  | RunGo _ _ _ _ _ => Ok s
  | CreateExtension _ _ | CreateCollation _ _ _ _ | RemoveCollation _ _ _ _ => Ok s
  | AddIndexConcurrently ModelName ix => AddIndex_StateForwards app ModelName ix s
  | RemoveIndexConcurrently ModelName Name => RemoveIndex_StateForwards app ModelName Name s
  | AddConstraintNotValid ModelName c => AddConstraintNotValid_StateForwards app ModelName c s
  | ValidateConstraint _ _ => Ok s
  end.

(** A sequence of operations on one state *)
Definition run_state (app : string) (ops : list Operation) (s : ProjectState) : outcome ProjectState :=
  foldM (fun s o => StateForwards o app s) s ops.

(** ** Descriptions *)

Definition op_Category (op : Operation) : Category :=
  match op with
  | CreateModel _ _ _ _ | AddIndex _ _ | AddConstraint _ _ | AddField _ _ _ _ | CreateExtension _ _
  | CreateCollation _ _ _ _ | AddIndexConcurrently _ _ | AddConstraintNotValid _ _ => CategoryAddition
  | DeleteModel _ | RemoveIndex _ _ | RemoveConstraint _ _ | RemoveField _ _ | RemoveCollation _ _ _ _
  | RemoveIndexConcurrently _ _ => CategoryRemoval
  | RenameModel _ _ | AlterModelTable _ _ | AlterModelTableComment _ _ | AlterUniqueTogether _ _
  | AlterModelOptions _ _ | RenameIndex _ _ _ | AlterConstraint _ _ _ | AlterField _ _ _ _
  | RenameField _ _ _ | ValidateConstraint _ _ => CategoryAlteration
  | SeparateDatabaseAndState _ _ => CategoryMixed
  | RunSQL _ _ _ _ _ => CategorySQL
  | RunGo _ _ _ _ _ => CategoryCode
  end.

Definition Describe (op : Operation) : string :=
  match op with
  | CreateModel Name _ _ _ => "create model " +:+ Name
  | DeleteModel Name => "delete model " +:+ Name
  | RenameModel o n => "rename model " +:+ o +:+ " to " +:+ n
  | AlterModelTable Name Table => "rename table for " +:+ Name +:+ " to " +:+ Table
  | AlterModelTableComment Name _ => "alter " +:+ Name +:+ " table comment"
  | AlterUniqueTogether Name ut =>
      "alter unique_together for " +:+ Name +:+ " (" +:+ itoa (Z.of_nat (length (dedupTogether ut))) +:+
      " constraint(s))"
  | AlterModelOptions Name _ => "change meta options on " +:+ Name
  | AddIndex ModelName ix => describeFor ix ModelName
  | RemoveIndex ModelName Name => "remove index " +:+ Name +:+ " from " +:+ ModelName
  | RenameIndex ModelName n o => "rename index " +:+ o +:+ " on " +:+ ModelName +:+ " to " +:+ n
  | AddConstraint ModelName c => "create constraint " +:+ ConstraintName c +:+ " on model " +:+ ModelName
  | RemoveConstraint ModelName Name => "remove constraint " +:+ Name +:+ " from model " +:+ ModelName
  | AlterConstraint ModelName Name _ => "alter constraint " +:+ Name +:+ " on " +:+ ModelName
  | AddField ModelName Name _ _ => "add field " +:+ Name +:+ " to " +:+ ModelName
  | RemoveField ModelName Name => "remove field " +:+ Name +:+ " from " +:+ ModelName
  | AlterField ModelName Name _ _ => "alter field " +:+ Name +:+ " on " +:+ ModelName
  | RenameField ModelName o n => "rename field " +:+ o +:+ " on " +:+ ModelName +:+ " to " +:+ n
  | SeparateDatabaseAndState _ _ => "custom state/database change combination"
  | RunSQL _ _ _ _ _ => "raw SQL operation"
  | RunGo _ _ _ _ _ => "raw Go operation"
  | CreateExtension Name _ => "Creates extension " +:+ Name
  | CreateCollation Name _ _ _ => "Create collation " +:+ Name
  | RemoveCollation Name _ _ _ => "Remove collation " +:+ Name
  | AddIndexConcurrently ModelName ix =>
      "Concurrently create index " +:+ ix_Name ix +:+ " on field(s) " +:+ Join (fieldNames ix) ", " +:+
      " of model " +:+ ModelName
  | RemoveIndexConcurrently ModelName Name => "Concurrently remove index " +:+ Name +:+ " from " +:+ ModelName
  | AddConstraintNotValid ModelName c =>
      "Create not valid constraint " +:+ ConstraintName c +:+ " on model " +:+ ModelName
  | ValidateConstraint ModelName Name => "Validate constraint " +:+ Name +:+ " on model " +:+ ModelName
  end.

(** FormattedDescription *)
Definition FormattedDescription (op : Operation) : string :=
  let c := op_Category op in
  (if bool_decide (c = "") then CategoryMixed else c) +:+ " " +:+ Describe op.

Definition MigrationNameFragment (op : Operation) : string :=
  match op with
  | CreateModel Name _ _ _ => ToLower Name
  | DeleteModel Name => "delete_" +:+ ToLower Name
  | RenameModel o n => "rename_" +:+ ToLower o +:+ "_" +:+ ToLower n
  | AlterModelTable Name _ => "alter_" +:+ ToLower Name +:+ "_table"
  | AlterModelTableComment Name _ => "alter_" +:+ ToLower Name +:+ "_table_comment"
  | AlterUniqueTogether Name _ => "alter_" +:+ ToLower Name +:+ "_unique_together"
  | AlterModelOptions Name _ => "alter_" +:+ ToLower Name +:+ "_options"
  | AddIndex ModelName ix | AddIndexConcurrently ModelName ix =>
      ToLower ModelName +:+ "_" +:+ ToLower (ix_Name ix)
  | RemoveIndex ModelName Name | RemoveIndexConcurrently ModelName Name =>
      "remove_" +:+ ToLower ModelName +:+ "_" +:+ ToLower Name
  | RenameIndex _ n o => "rename_" +:+ ToLower o +:+ "_" +:+ ToLower n
  | AddConstraint ModelName c => ToLower ModelName +:+ "_" +:+ ToLower (ConstraintName c)
  | RemoveConstraint ModelName Name => "remove_" +:+ ToLower ModelName +:+ "_" +:+ ToLower Name
  | AlterConstraint ModelName _ c => "alter_" +:+ ToLower ModelName +:+ "_" +:+ ToLower (ConstraintName c)
  | AddField ModelName Name _ _ => ToLower ModelName +:+ "_" +:+ ToLower Name
  | RemoveField ModelName Name => "remove_" +:+ ToLower ModelName +:+ "_" +:+ ToLower Name
  | AlterField ModelName Name _ _ => "alter_" +:+ ToLower ModelName +:+ "_" +:+ ToLower Name
  | RenameField ModelName o n => "rename_" +:+ ToLower o +:+ "_" +:+ ToLower ModelName +:+ "_" +:+ ToLower n
  | SeparateDatabaseAndState _ _ | RunSQL _ _ _ _ _ | RunGo _ _ _ _ _ => ""
  | CreateExtension Name _ => "create_extension_" +:+ Name
  | CreateCollation Name _ _ _ => "create_collation_" +:+ ToLower Name
  | RemoveCollation Name _ _ _ => "remove_collation_" +:+ ToLower Name
  | AddConstraintNotValid ModelName c => ToLower ModelName +:+ "_" +:+ ToLower (ConstraintName c) +:+ "_not_valid"
  | ValidateConstraint ModelName Name => ToLower ModelName +:+ "_validate_" +:+ ToLower Name
  end.

(** OpName *)
Definition OpName (op : Operation) : string :=
  match op with
  | CreateModel _ _ _ _ => "CreateModel"
  | DeleteModel _ => "DeleteModel"
  | RenameModel _ _ => "RenameModel"
  | AlterModelTable _ _ => "AlterModelTable"
  | AlterModelTableComment _ _ => "AlterModelTableComment"
  | AlterUniqueTogether _ _ => "AlterUniqueTogether"
  | AlterModelOptions _ _ => "AlterModelOptions"
  | AddIndex _ _ => "AddIndex"
  | RemoveIndex _ _ => "RemoveIndex"
  | RenameIndex _ _ _ => "RenameIndex"
  | AddConstraint _ _ => "AddConstraint"
  | RemoveConstraint _ _ => "RemoveConstraint"
  | AlterConstraint _ _ _ => "AlterConstraint"
  | AddField _ _ _ _ => "AddField"
  | RemoveField _ _ => "RemoveField"
  | AlterField _ _ _ _ => "AlterField"
  | RenameField _ _ _ => "RenameField"
  | SeparateDatabaseAndState _ _ => "SeparateDatabaseAndState"
  | RunSQL _ _ _ _ _ => "RunSQL"
  | RunGo _ _ _ _ _ => "RunGo"
  | CreateExtension _ _ => "CreateExtension"
  | CreateCollation _ _ _ _ => "CreateCollation"
  | RemoveCollation _ _ _ _ => "RemoveCollation"
  | AddIndexConcurrently _ _ => "AddIndexConcurrently"
  | RemoveIndexConcurrently _ _ => "RemoveIndexConcurrently"
  | AddConstraintNotValid _ _ => "AddConstraintNotValid"
  | ValidateConstraint _ _ => "ValidateConstraint"
  end.

(** ** Attributes *)

Definition Reversible (op : Operation) : bool :=
  match op with
  | RunSQL _ r _ _ _ => bool_decide (is_Some r)
  | RunGo _ r _ _ _ => bool_decide (is_Some r)
  | _ => true
  end.

Definition ReducesToSQL (op : Operation) : bool :=
  match op with RunGo _ _ _ _ _ => false | _ => true end.

Definition op_Atomic (op : Operation) : option bool :=
  match op with RunGo _ _ a _ _ => a | _ => Some false end.

Definition Elidable (op : Operation) : bool :=
  match op with
  | RunSQL _ _ _ _ e => e
  | RunGo _ _ _ _ e => e
  | _ => false
  end.

(** ** References *)

(** fieldOpReferencesModel *)
Definition fieldOpReferencesModel (modelName : string) (field : option Field) (name app : string) : bool :=
  if EqualFold name modelName then true
  else match field with
       | Some f => FieldReferences (mkModelKey app (ToLower modelName)) f (mkModelKey app (ToLower name)) ""
       | None => false
       end.

(** fieldOpReferencesField *)
Definition fieldOpReferencesField (modelName fieldName : string) (field : option Field)
    (model name app : string) : bool :=
  if EqualFold model modelName && bool_decide (name = fieldName) then true
  else match field with
       | None => false
       | Some f => FieldReferences (mkModelKey app (ToLower modelName)) f (mkModelKey app (ToLower model)) name
       end.

Definition ReferencesModel (op : Operation) (name app : string) : bool :=
  match op with
  | CreateModel Name _ fields _ =>
      if EqualFold name Name then true
      else existsb (fun f => FieldReferences (mkModelKey app (ToLower Name)) (nf_Field f)
                               (mkModelKey app (ToLower name)) "") fields
  | DeleteModel _ => true
  | RenameModel o n => EqualFold name o || EqualFold name n
  | AlterModelTable Name _ | AlterModelTableComment Name _ | AlterUniqueTogether Name _
  | AlterModelOptions Name _ => EqualFold name Name
  | AddField ModelName _ f _ | AlterField ModelName _ f _ => fieldOpReferencesModel ModelName (Some f) name app
  | RemoveField ModelName _ | RenameField ModelName _ _ => fieldOpReferencesModel ModelName None name app
  | _ => true
  end.

Definition ReferencesField (op : Operation) (model name app : string) : bool :=
  match op with
  | AlterUniqueTogether Name ut =>
      if negb (ReferencesModel op model app) then false
      else if bool_decide (length ut = 0) then true
      else existsb (fun t => existsb (fun f => bool_decide (f = name)) t) ut
  | AddField ModelName Name f _ | AlterField ModelName Name f _ =>
      fieldOpReferencesField ModelName Name (Some f) model name app
  | RemoveField ModelName Name => fieldOpReferencesField ModelName Name None model name app
  | RenameField _ o n => ReferencesModel op model app && (EqualFold name o || EqualFold name n)
  | SeparateDatabaseAndState _ _ | RunSQL _ _ _ _ _ | RunGo _ _ _ _ _ | CreateExtension _ _
  | CreateCollation _ _ _ _ | RemoveCollation _ _ _ _ => true
  | _ => ReferencesModel op model app
  end.

(** ** Validation at registration *)

(** validateOperation, and validateOperations on a list *)
Fixpoint validateOperation (op : Operation) : outcome unit :=
  match op with
  | RunSQL sql _ stateOps _ _ =>
      match sql with
      | None => Err (ValueError "RunSQL requires SQL" None)
      | Some _ => foldM (fun _ o => validateOperation o) tt stateOps
      end
  | SeparateDatabaseAndState dbOps stateOps =>
      _ ← foldM (fun _ o => validateOperation o) tt dbOps;
      foldM (fun _ o => validateOperation o) tt stateOps
  | CreateModel Name _ fields _ =>
      foldM (fun _ f => checkDefault (Name +:+ "." +:+ nf_Name f) (nf_Field f)) tt fields
  | AddField ModelName Name f _ => checkDefault (ModelName +:+ "." +:+ Name) f
  | AlterField ModelName Name f _ => checkDefault (ModelName +:+ "." +:+ Name) f
  | _ => Ok tt
  end.

Definition validateOperations (ops : list Operation) : outcome unit :=
  foldM (fun _ o => validateOperation o) tt ops.
