(* ===== verification/OperationLemmas.v ===== *)
(** * Operations: what StateForwards keeps and when it fails *)

From S2P Require Import Prelude GoStd Keys Errors Fields Index ModelState Apps ProjectState StateLemmas Operation.

(** ** Induction over operations and the operations inside them *)

Section ind.
Context (P : Operation → Prop).
Context (Hleaf : ∀ op,
  match op with SeparateDatabaseAndState _ _ | RunSQL _ _ _ _ _ => False | _ => True end → P op).
Context (Hsep : ∀ d s, Forall P d → Forall P s → P (SeparateDatabaseAndState d s)).
Context (Hsql : ∀ q r s h e, Forall P s → P (RunSQL q r s h e)).

Fixpoint Operation_nested_ind (op : Operation) : P op :=
  let fix all (l : list Operation) : Forall P l :=
    match l with
    | [] => Forall_nil_2 P
    | x :: l' => Forall_cons_2 P x l' (Operation_nested_ind x) (all l')
    end in
  match op as o return (match o with SeparateDatabaseAndState _ _ | RunSQL _ _ _ _ _ => False | _ => True end → P o) → P o with
  | SeparateDatabaseAndState d s => fun _ => Hsep d s (all d) (all s)
  | RunSQL q r s h e => fun _ => Hsql q r s h e (all s)
  | _ => fun H => H I
  end (Hleaf op).
End ind.

(** ** Failing early *)

Lemma require_model_Ok {A} s app name (k : ModelState → outcome A) a :
  require_model s app name k = Ok a ↔
  ∃ m, ps_Models s !! mkModelKey app (ToLower name) = Some m ∧ k m = Ok a.
Proof.
  unfold require_model. rewrite bind_Ok. setoid_rewrite ps_Model_Ok. done.
Qed.

Lemma wrap_value_error_Ok {A} (o : outcome A) a : wrap_value_error o = Ok a ↔ o = Ok a.
Proof. by destruct o. Qed.

Ltac open_op H :=
  repeat match type of H with
  | require_model _ _ _ _ = Ok _ =>
      let m := fresh "m" in let Hm := fresh "Hm" in
      apply require_model_Ok in H as (m & Hm & H)
  | (_ ≫= _) = Ok _ =>
      let a := fresh "a" in let Ha := fresh "Ha" in
      apply bind_Ok in H as (a & Ha & H)
  | (if ?b then _ else _) = Ok _ => destruct b; try discriminate H
  end.

Lemma CreateModel_StateForwards_wf app n t fs o s s' :
  state_wf s → CreateModel_StateForwards app n t fs o s = Ok s' → state_wf s'.
Proof.
  intros Hwf Hop. unfold CreateModel_StateForwards in Hop. cbv zeta in Hop.
  open_op Hop. simplify_eq. by apply AddModel_wf.
Qed.

Lemma AddIndex_StateForwards_wf app n ix s s' :
  state_wf s → AddIndex_StateForwards app n ix s = Ok s' → state_wf s'.
Proof. intros Hwf Hop. unfold AddIndex_StateForwards in Hop. open_op Hop. by eapply AddIndex_wf. Qed.

Lemma RemoveIndex_StateForwards_wf app n ix s s' :
  state_wf s → RemoveIndex_StateForwards app n ix s = Ok s' → state_wf s'.
Proof. intros Hwf Hop. unfold RemoveIndex_StateForwards in Hop. open_op Hop. by eapply RemoveIndex_wf. Qed.

Lemma RenameIndex_StateForwards_wf app m n o s s' :
  state_wf s → RenameIndex_StateForwards app m n o s = Ok s' → state_wf s'.
Proof. intros Hwf Hop. unfold RenameIndex_StateForwards in Hop. open_op Hop. by eapply RenameIndex_wf. Qed.

(** The preservation lemma of the mutator a case ends with *)
Ltac mutator_wf Hwf Hop :=
  first
  [ injection Hop as <-; first [exact Hwf | apply RemoveModel_wf; exact Hwf]
  | lazymatch type of Hop with
    | ProjectState.RenameModel _ _ _ _ = _ => eapply RenameModel_wf
    | AlterTable _ _ _ _ = _ => eapply AlterTable_wf
    | AlterTableComment _ _ _ _ = _ => eapply AlterTableComment_wf
    | ProjectState.AlterUniqueTogether _ _ _ _ = _ => eapply AlterUniqueTogether_wf
    | ProjectState.AlterModelOptions _ _ _ _ _ = _ => eapply AlterModelOptions_wf
    | ProjectState.AddConstraint _ _ _ _ = _ => eapply AddConstraint_wf
    | ProjectState.RemoveConstraint _ _ _ _ = _ => eapply RemoveConstraint_wf
    | ProjectState.AlterConstraint _ _ _ _ _ = _ => eapply AlterConstraint_wf
    | ProjectState.AddField _ _ _ _ _ _ = _ => eapply AddField_wf
    | ProjectState.RemoveField _ _ _ _ = _ => eapply RemoveField_wf
    | ProjectState.AlterField _ _ _ _ _ _ = _ => eapply AlterField_wf
    | ProjectState.RenameField _ _ _ _ _ = _ => eapply RenameField_wf
    | CreateModel_StateForwards _ _ _ _ _ _ = _ => eapply CreateModel_StateForwards_wf
    | AddIndex_StateForwards _ _ _ _ = _ => eapply AddIndex_StateForwards_wf
    | RemoveIndex_StateForwards _ _ _ _ = _ => eapply RemoveIndex_StateForwards_wf
    | RenameIndex_StateForwards _ _ _ _ _ = _ => eapply RenameIndex_StateForwards_wf
    end; [exact Hwf|exact Hop] ].

Lemma StateForwards_wf op : ∀ app s s',
  state_wf s → StateForwards op app s = Ok s' → state_wf s'.
Proof.
  induction op as [op Hleaf|d ops Hd Hs|q r ops h e Hs] using Operation_nested_ind; intros app s s' Hwf Hop.
  - destruct op; try done; simpl in Hop; open_op Hop; mutator_wf Hwf Hop.
  - simpl in Hop. revert Hop. apply (foldM_ind _ state_wf); [|done].
    intros s1 x s2 Hx. rewrite Forall_forall in Hs. by apply Hs.
  - simpl in Hop. revert Hop. apply (foldM_ind _ state_wf); [|done].
    intros s1 x s2 Hx. rewrite Forall_forall in Hs. by apply Hs.
Qed.

(** C34: the well-formedness of a project state (each model under its own key,
    every foreign key target in its qualified form, and a cached registry
    that is the one rendering would give) is kept by every sequence of
    operations, composite ones included. *)
Theorem run_state_wf app ops s s' :
  state_wf s → run_state app ops s = Ok s' → state_wf s'.
Proof.
  intros Hwf. apply (foldM_ind _ state_wf); [|done].
  intros s1 op s2 _. apply StateForwards_wf.
Qed.

(** ** No panic *)

Definition panics {A} (o : outcome A) : Prop := match o with Panic _ => True | _ => False end.

(** A step is safe when it does not panic and ends in a state whose models
    have distinct field names. *)
Definition safe_step (o : outcome ProjectState) : Prop :=
  match o with
  | Ok s' => names_distinct s'
  | Err _ => True
  | Panic _ => False
  end.

Lemma safe_require_model s app name (k : ModelState → outcome ProjectState) :
  (∀ m, ps_Models s !! mkModelKey app (ToLower name) = Some m → safe_step (k m)) →
  safe_step (require_model s app name k).
Proof.
  unfold require_model, ps_Model. intros Hk.
  destruct (ps_Models s !! _) as [m|] eqn:E; simpl; [by apply Hk|done].
Qed.

Lemma safe_mustModel s app name m (k : ModelState → outcome ProjectState) :
  ps_Models s !! mkModelKey app (ToLower name) = Some m →
  safe_step (k m) → safe_step (mustModel s app name ≫= k).
Proof. intros Hm Hk. by rewrite (proj2 (mustModel_Ok _ _ _ _) Hm). Qed.

Lemma safe_bind {A} (o : outcome A) (k : A → outcome ProjectState) :
  ¬ panics o → (∀ a, o = Ok a → safe_step (k a)) → safe_step (o ≫= k).
Proof. destruct o; simpl; [auto|done|by intros []]. Qed.

Lemma names_distinct_insert s k m :
  names_distinct s → NoDup (Fields_Names (ms_Fields m)) →
  names_distinct (ps_set_Models (<[k := m]> (ps_Models s)) s).
Proof.
  intros Hs Hm k' m' Hk. simpl in Hk. apply lookup_insert_Some in Hk as [[_ <-]|[_ Hk]]; [done|].
  by apply (Hs _ _ Hk).
Qed.

Lemma names_distinct_put s app name m :
  names_distinct s → NoDup (Fields_Names (ms_Fields m)) → names_distinct (put_model s app name m).
Proof. apply names_distinct_insert. Qed.

Lemma names_distinct_targets key upd s :
  names_distinct s → names_distinct (update_target_constraints key upd s).
Proof.
  intros Hs k m Hm. apply lookup_map_imap_Some in Hm as (m0 & Hm0 & [= <-]). by apply (Hs _ _ Hm0).
Qed.

Lemma update_field_name upd k key field nf : nf_Name (update_field upd k key field nf) = nf_Name nf.
Proof. unfold update_field. by destruct (FieldReferences _ _ _ _). Qed.

Lemma names_distinct_update_fields upd key field s :
  names_distinct s → names_distinct (ps_set_Models (update_fields upd key field (ps_Models s)) s).
Proof.
  intros Hs k m Hm. apply lookup_map_imap_Some in Hm as (m0 & Hm0 & [= <-]).
  unfold Fields_Names. simpl. rewrite map_map. erewrite map_ext; [by apply (Hs _ _ Hm0)|].
  intros nf. apply update_field_name.
Qed.

Lemma RenameModel_safe app old new s m :
  names_distinct s → ps_Models s !! mkModelKey app (ToLower old) = Some m →
  safe_step (ProjectState.RenameModel app old new s).
Proof.
  intros Hnd Hm. rewrite (RenameModel_models _ _ _ _ m) by done. cbv zeta. cbn [safe_step].
  match goal with |- context [update_target_constraints ?k ?u ?t] =>
    set (s2 := update_target_constraints k u t) end.
  assert (names_distinct s2) as Hs2.
  { apply names_distinct_targets, names_distinct_insert; [done|]. by apply (Hnd _ _ Hm). }
  apply (names_distinct_update_fields (fk_set_To (app +:+ "." +:+ new)) (mkModelKey app (ToLower old)) "") in Hs2.
  case_bool_decide; [exact Hs2|]. intros k m' Hk. apply (Hs2 k m'). cbn in Hk.
  by apply lookup_delete_Some in Hk as [_ Hk].
Qed.

Lemma Fields_Names_insert fs i nf new :
  fs !! i = Some nf → NoDup (Fields_Names fs) → new ∉ Fields_Names fs ∨ new = nf_Name nf →
  ∀ f, NoDup (Fields_Names (<[i := mkNamedField new f]> fs)).
Proof.
  intros Hi Hnd Hnew f. unfold Fields_Names in *. rewrite <- (take_drop_middle _ _ _ Hi) in *.
  assert (length (take i fs) = i) as Hlen by (rewrite length_take; apply lookup_lt_Some in Hi; lia).
  rewrite insert_app_r_alt by lia. rewrite Hlen, Nat.sub_diag. simpl.
  rewrite !map_app in *. simpl in *.
  rewrite !NoDup_app, !NoDup_cons in *. destruct Hnew as [Hnew| ->]; [|done].
  rewrite elem_of_app, elem_of_cons in Hnew. set_solver.
Qed.

Lemma Fields_Index_lookup fs name i :
  Fields_Index fs name = Some i → ∃ nf, fs !! i = Some nf ∧ nf_Name nf = name.
Proof.
  intros (nf & Hi & Hp & _)%index_func_Some. exists nf. by apply bool_decide_eq_true in Hp.
Qed.

Lemma GetField_Index m name f : GetField m name = Ok f → ∃ i, Fields_Index (ms_Fields m) name = Some i.
Proof. unfold GetField, Fields_Get. destruct (Fields_Index _ _); [eauto|done]. Qed.

Lemma RenameField_safe app model old new s m :
  names_distinct s → ps_Models s !! mkModelKey app (ToLower model) = Some m →
  new ∉ Fields_Names (ms_Fields m) ∨ new = old →
  safe_step (ProjectState.RenameField app model old new s).
Proof.
  intros Hnd Hm Hnew. unfold ProjectState.RenameField. cbv zeta. rewrite Hm.
  destruct (Fields_Index _ old) as [i|] eqn:Ei; [|done].
  apply Fields_Index_lookup in Ei as (nf & Hi & <-). rewrite Hi.
  match goal with |- context [update_target_constraints ?k ?u ?t] =>
    set (s2 := update_target_constraints k u t) end.
  assert (names_distinct s2) as Hs2.
  { apply names_distinct_targets, names_distinct_insert; [done|].
    eapply Fields_Names_insert; [done| |done]. by apply (Hnd _ _ Hm). }
  rewrite update_references_spec by done. simpl.
  exact (names_distinct_update_fields _ _ _ _ Hs2).
Qed.

(** The names an operation gives to a model's fields are new to it; so are
    those of the operations inside it, each in the state it runs from. *)
Fixpoint fresh_names (op : Operation) (app : string) (s : ProjectState) : Prop :=
  let fields model := default [] (ms_Fields <$> ps_Models s !! mkModelKey app (ToLower model)) in
  let fix all (ops : list Operation) (s : ProjectState) : Prop :=
    match ops with
    | [] => True
    | o :: ops => fresh_names o app s ∧ ∀ s', StateForwards o app s = Ok s' → all ops s'
    end in
  match op with
  | AddField model name _ _ => name ∉ Fields_Names (fields model)
  | RenameField model old new => new ∉ Fields_Names (fields model) ∨ new = old
  | SeparateDatabaseAndState _ ops | RunSQL _ _ ops _ _ => all ops s
  | _ => True
  end.

(** The operations that have no operations of their own *)
Definition simple_op (op : Operation) : bool :=
  match op with
  | SeparateDatabaseAndState _ _ | RunSQL _ _ _ _ _ => false
  | _ => true
  end.

Lemma CreateModel_safe app n t fs o s :
  names_distinct s → safe_step (CreateModel_StateForwards app n t fs o s).
Proof.
  intros Hnd. unfold CreateModel_StateForwards. cbv zeta.
  set (m := mkModelState _ _ _ _ _).
  destruct (Validate m) as [[]|e|e] eqn:Ev; simpl; [|done|].
  - apply Validate_spec in Ev as [Hm _]. apply names_distinct_insert; [done|].
    revert Hm. unfold Fields_Names. simpl. by rewrite !map_map.
  - exfalso. revert Ev. unfold Validate. repeat case_goal; try done.
    intros Hp. revert Hp. apply foldM_no_panic. intros [] c _.
    destruct c; simpl; repeat case_goal; done.
Qed.

(** The mutators that look the model up and leave its fields alone *)
Lemma put_model_safe s app name m m' :
  names_distinct s → ps_Models s !! mkModelKey app (ToLower name) = Some m →
  ms_Fields m' = ms_Fields m → safe_step (Ok (put_model s app name m')).
Proof.
  intros Hnd Hm Heq. apply names_distinct_put; [done|]. rewrite Heq. by apply (Hnd _ _ Hm).
Qed.

Ltac mutator_safe Hnd Hm :=
  eapply safe_mustModel; [exact Hm|]; eapply put_model_safe; [exact Hnd|exact Hm|reflexivity].

Lemma AddIndex_safe app n ix s :
  names_distinct s → safe_step (AddIndex_StateForwards app n ix s).
Proof.
  intros Hnd. unfold AddIndex_StateForwards. case_bool_decide; [done|].
  apply safe_require_model. intros m Hm. unfold ProjectState.AddIndex. mutator_safe Hnd Hm.
Qed.

Lemma RemoveIndex_safe app n ix s :
  names_distinct s → safe_step (RemoveIndex_StateForwards app n ix s).
Proof.
  intros Hnd. unfold RemoveIndex_StateForwards.
  apply safe_require_model. intros m Hm. apply safe_bind.
  - unfold GetIndexByName, wrap_value_error. intros Hp. by destruct (List.find _ _).
  - intros _ _. unfold ProjectState.RemoveIndex. mutator_safe Hnd Hm.
Qed.

Lemma RenameIndex_safe app n new old s :
  names_distinct s → safe_step (RenameIndex_StateForwards app n new old s).
Proof.
  intros Hnd. unfold RenameIndex_StateForwards. case_bool_decide; [done|].
  apply safe_require_model. intros m Hm. unfold ProjectState.RenameIndex. mutator_safe Hnd Hm.
Qed.

Lemma AddConstraint_safe app n c s :
  names_distinct s → safe_step (require_model s app n (fun _ => ProjectState.AddConstraint app n c s)).
Proof.
  intros Hnd. apply safe_require_model. intros m Hm. unfold ProjectState.AddConstraint. mutator_safe Hnd Hm.
Qed.

Lemma AddField_safe app model name f p s m :
  names_distinct s → ps_Models s !! mkModelKey app (ToLower model) = Some m →
  name ∉ Fields_Names (ms_Fields m) →
  safe_step (ProjectState.AddField app (ToLower model) name f p s).
Proof.
  intros Hnd Hm Hname. unfold ProjectState.AddField.
  eapply safe_mustModel; [by rewrite ToLower_idem|]. apply names_distinct_put; [done|].
  unfold Fields_Names in *. simpl. rewrite map_app. simpl. apply NoDup_app. split_and!.
  - by apply (Hnd _ _ Hm).
  - set_solver.
  - apply NoDup_singleton.
Qed.

Lemma GetField_no_panic m name : ¬ panics (GetField m name).
Proof. intros Hp. unfold GetField in Hp. by destruct (Fields_Get _ _). Qed.

Lemma RemoveField_safe app model name s m :
  names_distinct s → ps_Models s !! mkModelKey app (ToLower model) = Some m →
  is_ok (GetField m name) = true →
  safe_step (ProjectState.RemoveField app model name s).
Proof.
  intros Hnd Hm Hf. destruct (GetField m name) as [f| |] eqn:Hg; try done.
  apply GetField_Index in Hg as [i Hi].
  unfold ProjectState.RemoveField. eapply safe_mustModel; [exact Hm|]. rewrite Hi.
  apply names_distinct_put; [done|]. unfold Fields_Names. simpl.
  specialize (Hnd _ _ Hm). simpl in Hnd. apply Fields_Index_lookup in Hi as (nf & Hi & _).
  unfold Fields_Names in Hnd. rewrite <- (take_drop_middle _ _ _ Hi), map_app in Hnd. simpl in Hnd.
  rewrite delete_take_drop, map_app. rewrite !NoDup_app, NoDup_cons in *. set_solver.
Qed.

Lemma AlterField_safe app model name f p s m :
  names_distinct s → ps_Models s !! mkModelKey app (ToLower model) = Some m →
  is_ok (GetField m name) = true →
  safe_step (ProjectState.AlterField app model name f p s).
Proof.
  intros Hnd Hm Hf. destruct (GetField m name) as [f0| |] eqn:Hg; try done.
  apply GetField_Index in Hg as [i Hi].
  unfold ProjectState.AlterField. eapply safe_mustModel; [exact Hm|]. rewrite Hi.
  apply Fields_Index_lookup in Hi as (nf & Hi & <-).
  apply names_distinct_put; [done|]. simpl. eapply Fields_Names_insert; [done| |by right].
  by apply (Hnd _ _ Hm).
Qed.

(** An operation without operations of its own *)
Lemma StateForwards_safe_leaf op app s :
  simple_op op = true → names_distinct s → fresh_names op app s → safe_step (StateForwards op app s).
Proof.
  intros Hop Hnd Hfresh.
  destruct op; try discriminate Hop; simpl in Hfresh |- *; try exact Hnd.
  all: try lazymatch goal with
    | |- safe_step (CreateModel_StateForwards _ _ _ _ _ _) => by apply CreateModel_safe
    | |- safe_step (AddIndex_StateForwards _ _ _ _) => by apply AddIndex_safe
    | |- safe_step (RemoveIndex_StateForwards _ _ _ _) => by apply RemoveIndex_safe
    | |- safe_step (RenameIndex_StateForwards _ _ _ _ _) => by apply RenameIndex_safe
    | |- safe_step (require_model _ _ _ (fun _ => ProjectState.AddConstraint _ _ _ _)) => by apply AddConstraint_safe
    | |- safe_step (require_model _ _ _ _) =>
        apply safe_require_model; intros m Hm; rewrite ?Hm in Hfresh; simpl in Hfresh
    end.
  all: try lazymatch goal with
    | |- safe_step (Ok (RemoveModel _ _ _)) => intros k m' Hk; cbn in Hk; apply (Hnd k m');
        by apply lookup_delete_Some in Hk as [_ Hk]
    | |- safe_step (ProjectState.RenameModel _ _ _ _) => by eapply RenameModel_safe
    | |- safe_step (ProjectState.AddField _ _ _ _ _ _) => by eapply AddField_safe
    | |- safe_step (ProjectState.RenameField _ _ _ _ _) => by eapply RenameField_safe
    | |- safe_step (GetField _ _ ≫= _) => apply safe_bind; [apply GetField_no_panic|intros f Hf]
    | |- safe_step (AlterTable _ _ _ _) => unfold AlterTable; mutator_safe Hnd Hm
    | |- safe_step (AlterTableComment _ _ _ _) => unfold AlterTableComment; mutator_safe Hnd Hm
    | |- safe_step (ProjectState.AlterUniqueTogether _ _ _ _) =>
        unfold ProjectState.AlterUniqueTogether; mutator_safe Hnd Hm
    | |- safe_step (ProjectState.AlterModelOptions _ _ _ _ _) =>
        unfold ProjectState.AlterModelOptions; mutator_safe Hnd Hm
    | |- safe_step (ProjectState.RemoveConstraint _ _ _ _) =>
        unfold ProjectState.RemoveConstraint; mutator_safe Hnd Hm
    | |- safe_step (ProjectState.AlterConstraint _ _ _ _ _) =>
        unfold ProjectState.AlterConstraint; mutator_safe Hnd Hm
    end.
  - eapply RemoveField_safe; [done..|by rewrite Hf].
  - eapply AlterField_safe; [done..|by rewrite Hf].
  - apply safe_bind; [by destruct constraint; intros []|intros _ _; by apply AddConstraint_safe].
Qed.

(** A list of operations, when each of them is safe *)
Lemma run_ops_safe app ops s :
  Forall (fun op => ∀ s, names_distinct s → fresh_names op app s → safe_step (StateForwards op app s)) ops →
  names_distinct s → fresh_names (SeparateDatabaseAndState [] ops) app s →
  safe_step (foldM (fun s o => StateForwards o app s) s ops).
Proof.
  intros Hops. revert s. induction Hops as [|op ops Hop _ IH]; intros s Hnd; [done|]. intros [Hf Hrest].
  rewrite foldM_cons. specialize (Hop s Hnd Hf). destruct (StateForwards op app s) as [s'|e|e] eqn:Hs; [|done|done].
  apply IH; [done|]. by apply Hrest.
Qed.

(** C35: on a state whose models have distinct field names, no operation
    panics, composite ones included, whatever the names, types and values in
    it are, as long as an AddField or RenameField in it does not give a model
    a field name it has; and the field names are still distinct afterwards.
    Every index lookup and pointer dereference inside the state mutators is
    guarded by the checks StateForwards makes. An operation that has a field
    or a constraint has one here: the nil of Go is not among the values of
    the model, and AddConstraint with a nil Constraint panics when it clones
    it. *)
Theorem StateForwards_safe op app s :
  names_distinct s → fresh_names op app s → safe_step (StateForwards op app s).
Proof.
  revert s. induction op as [op Hleaf|d ops Hd Hs|q r ops h e Hs] using Operation_nested_ind; intros s.
  - apply StateForwards_safe_leaf. by destruct op.
  - intros Hnd Hf. apply run_ops_safe; [done..|exact Hf].
  - intros Hnd Hf. apply run_ops_safe; [done..|exact Hf].
Qed.
