(* ===== verification/Optimizer.v ===== *)
(** * The optimizer: internal/optimizer/optimizer.go

    Optimize works on the Operation interface: of an operation it only uses
    Reduce. Here that interface is the class [Reducible], and what the
    optimizer keeps of the meaning of a list is proved against the laws of
    [ReducerLaws], which OptimizerSound.v proves for the operations of this
    repository. *)

From S2P Require Import Prelude Errors.

(** ReduceKind, with the list a Replace comes with *)
Inductive Reduction (O : Type) :=
| ReduceBlock
| ReduceThrough
| ReduceReplace (ops : list O).
Arguments ReduceBlock {O}.
Arguments ReduceThrough {O}.
Arguments ReduceReplace {O} ops.

(** The Reduce method of Operation, for a fixed app *)
Class Reducible (O : Type) := reduce : O → O → Reduction O.

Section optimizer.
Context {O : Type} `{Reducible O}.

(** allReduceThrough *)
Definition allReduceThrough (ops : list O) (other : O) : bool :=
  forallb (fun op => match reduce op other with ReduceThrough => true | _ => false end) ops.

(** The inner loop of optimizeInner: [op] against each later operation, with
    the operations between them so far. The result is what replaces [op] and
    everything after it, or None when op stays where it is. *)
Fixpoint scan (op : O) (inBetween : list O) (right : bool) (rest : list O) : option (list O) :=
  match rest with
  | [] => None
  | other :: rest' =>
      match reduce op other with
      | ReduceReplace result =>
          if right then Some (inBetween ++ result ++ rest')
          else if allReduceThrough inBetween other then Some (result ++ inBetween ++ rest')
          else None
      | ReduceBlock => scan op (inBetween ++ [other]) false rest'
      | ReduceThrough => scan op (inBetween ++ [other]) right rest'
      end
  end.

(** optimizeInner *)
Fixpoint optimizeInner (operations : list O) : list O * bool :=
  match operations with
  | [] => ([], false)
  | op :: rest =>
      match scan op [] true rest with
      | Some tail => (tail, true)
      | None => let '(newOps, reduced) := optimizeInner rest in (op :: newOps, reduced)
      end
  end.

(** The loop of Optimize. None: more than [fuel] passes. *)
Fixpoint optimize_loop (fuel : nat) (operations : list O) : option (list O) :=
  match fuel with
  | 0 => None
  | S fuel =>
      let '(result, reduced) := optimizeInner operations in
      if reduced then optimize_loop fuel result else Some result
  end.

(** ** What one pass does *)

(** One reduction: the list before it and the list after it. *)
Inductive reduction : list O → list O → Prop :=
| reduce_right pre op mid other post result :
    Forall (fun x => reduce op x = ReduceThrough) mid →
    reduce op other = ReduceReplace result →
    reduction (pre ++ op :: mid ++ other :: post) (pre ++ mid ++ result ++ post)
| reduce_left pre op mid other post result :
    Forall (fun x => reduce x other = ReduceThrough) mid →
    reduce op other = ReduceReplace result →
    reduction (pre ++ op :: mid ++ other :: post) (pre ++ result ++ mid ++ post).

Lemma allReduceThrough_spec ops other :
  allReduceThrough ops other = true ↔ Forall (fun x => reduce x other = ReduceThrough) ops.
Proof.
  unfold allReduceThrough. rewrite forallb_forall, Forall_forall. setoid_rewrite list_elem_of_In.
  apply forall_proper. intros x. destruct (reduce x other); naive_solver.
Qed.

Lemma reduction_cons x l l' : reduction l l' → reduction (x :: l) (x :: l').
Proof.
  intros [pre op mid other post result Hm Hr|pre op mid other post result Hm Hr].
  - exact (reduce_right (x :: pre) op mid other post result Hm Hr).
  - exact (reduce_left (x :: pre) op mid other post result Hm Hr).
Qed.

Lemma scan_Some op inBetween right rest tail :
  (right = true → Forall (fun x => reduce op x = ReduceThrough) inBetween) →
  scan op inBetween right rest = Some tail →
  reduction (op :: inBetween ++ rest) tail.
Proof.
  revert inBetween right. induction rest as [|other rest IH]; intros mid right Hmid; simpl; [done|].
  destruct (reduce op other) as [| |result] eqn:Er.
  - intros Hs. rewrite (cons_middle other). rewrite app_assoc. by apply (IH _ false).
  - intros Hs. rewrite (cons_middle other). rewrite app_assoc. apply (IH _ right); [|done].
    intros Hr. apply Forall_app. split; [by apply Hmid|]. by constructor.
  - destruct right.
    + intros [= <-]. by apply (reduce_right [] op mid other rest result); [apply Hmid|].
    + destruct (allReduceThrough mid other) eqn:Ea; [|done]. intros [= <-].
      by apply (reduce_left [] op mid other rest result); [apply allReduceThrough_spec|].
Qed.

Lemma optimizeInner_true l l' : optimizeInner l = (l', true) → reduction l l'.
Proof.
  revert l'. induction l as [|op rest IH]; intros l'; simpl; [done|].
  destruct (scan op [] true rest) as [tail|] eqn:Es.
  - intros [= <-]. by apply (scan_Some op [] true rest tail).
  - destruct (optimizeInner rest) as [r b]. intros [= <- ->]. by apply reduction_cons, IH.
Qed.

Lemma optimizeInner_false l l' : optimizeInner l = (l', false) → l' = l.
Proof.
  revert l'. induction l as [|op rest IH]; intros l'; simpl; [congruence|].
  destruct (scan op [] true rest); [done|]. destruct (optimizeInner rest) as [r b].
  intros [= <- ->]. by rewrite (IH r).
Qed.

(** A finished loop has made reductions only, and no pass reduces its result. *)
Lemma optimize_loop_Some fuel l l' :
  optimize_loop fuel l = Some l' → rtc reduction l l' ∧ optimizeInner l' = (l', false).
Proof.
  revert l. induction fuel as [|fuel IH]; intros l; simpl; [done|].
  destruct (optimizeInner l) as [r b] eqn:Ei. destruct b.
  - intros Hl. apply IH in Hl as [Hr Hf]. split; [|done].
    eapply rtc_l; [|done]. by apply optimizeInner_true.
  - intros [= <-]. pose proof (optimizeInner_false _ _ Ei) as ->. split; [constructor|done].
Qed.

(** A measure that every reduction lowers bounds the passes. *)
Lemma optimize_loop_fuel (measure : list O → nat) :
  (∀ l l', reduction l l' → measure l' < measure l) →
  ∀ fuel l, measure l < fuel → is_Some (optimize_loop fuel l).
Proof.
  intros Hdec. induction fuel as [|fuel IH]; intros l Hl; [lia|]. simpl.
  destruct (optimizeInner l) as [r b] eqn:Ei. destruct b; [|eauto].
  apply IH. apply optimizeInner_true, Hdec in Ei. lia.
Qed.

End optimizer.

(** ** Meaning *)

(** What an operation means: a step on some state, which may fail; states
    are compared up to an equivalence; the laws are only asked of good
    operations on states with an invariant. *)
Class ReducerSemantics (O S : Type) := {
  sem_step : O → S → outcome S;
  sem_equiv : relation S;
  sem_inv : S → Prop;
  sem_good : O → Prop;
}.

Section run.
Context {O S : Type} `{ReducerSemantics O S}.

Definition sem_run (ops : list O) (s : S) : outcome S := foldM (fun s op => sem_step op s) s ops.

(** [o2] succeeds whenever [o1] does, with an equivalent state. *)
Definition refined (o1 o2 : outcome S) : Prop :=
  ∀ s1, o1 = Ok s1 → ∃ s2, o2 = Ok s2 ∧ sem_equiv s1 s2.

End run.

(** The laws of Reduce *)
Class ReducerLaws (O S : Type) `{Reducible O} `{ReducerSemantics O S} := {
  law_equiv : Equivalence (sem_equiv (O:=O) (S:=S));
  law_inv op s s' : sem_good op → sem_inv s → sem_step op s = Ok s' → sem_inv s';
  law_proper op s t : sem_good op → sem_inv s → sem_inv t → sem_equiv s t →
    refined (sem_step op s) (sem_step op t);
  law_good op other ops :
    sem_good op → sem_good other → reduce op other = ReduceReplace ops → Forall sem_good ops;
  law_replace op other ops s :
    sem_good op → sem_good other → sem_inv s → reduce op other = ReduceReplace ops →
    refined (sem_run [op; other] s) (sem_run ops s);
  law_through op other s :
    sem_good op → sem_good other → sem_inv s → reduce op other = ReduceThrough →
    refined (sem_run [op; other] s) (sem_run [other; op] s);
}.

Section soundness.
Context {O S : Type} `{HL : ReducerLaws O S}.

#[local] Instance sem_equiv_equivalence : Equivalence (sem_equiv (O:=O) (S:=S)) := law_equiv.

Lemma refined_refl (o : outcome S) : refined o o.
Proof. intros s1 ->. exists s1. by split. Qed.

Lemma refined_trans (o1 o2 o3 : outcome S) : refined o1 o2 → refined o2 o3 → refined o1 o3.
Proof.
  intros H12 H23 s1 Hs1. destruct (H12 s1 Hs1) as (s2 & Hs2 & He2).
  destruct (H23 s2 Hs2) as (s3 & Hs3 & He3). exists s3. split; [done|]. by trans s2.
Qed.

Lemma sem_run_inv ops s s' :
  Forall sem_good ops → sem_inv s → sem_run ops s = Ok s' → sem_inv s'.
Proof.
  intros Hg Hs. apply (foldM_ind _ sem_inv); [|done].
  intros s1 op s2 Hop. rewrite Forall_forall in Hg. by apply law_inv, Hg.
Qed.

Lemma sem_run_proper ops s t :
  Forall sem_good ops → sem_inv s → sem_inv t → sem_equiv s t → refined (sem_run ops s) (sem_run ops t).
Proof.
  revert s t. induction ops as [|op ops IH]; intros s t Hg Hs Ht He.
  { intros s1 [= <-]. by exists t. }
  apply Forall_cons in Hg as [Hop Hg]. intros s2. unfold sem_run. rewrite !foldM_cons.
  intros (s1 & Hs1 & Hs2)%bind_Ok. destruct (law_proper op s t Hop Hs Ht He s1 Hs1) as (t1 & Ht1 & He1).
  rewrite Ht1. simpl. eapply (IH s1 t1); [done|by eapply (law_inv op s)|by eapply (law_inv op t)|done|done].
Qed.

(** Refinement of a part of a list refines the list. *)
Lemma refined_context pre l1 l2 post s :
  Forall sem_good pre → Forall sem_good l1 → Forall sem_good l2 → Forall sem_good post → sem_inv s →
  (∀ s, sem_inv s → refined (sem_run l1 s) (sem_run l2 s)) →
  refined (sem_run (pre ++ l1 ++ post) s) (sem_run (pre ++ l2 ++ post) s).
Proof.
  intros Hpre H1 H2 Hpost Hs Hl s3. unfold sem_run. rewrite !foldM_app.
  intros (sa & Ha & Hrest)%bind_Ok. rewrite foldM_app in Hrest. apply bind_Ok in Hrest as (sb & Hb & Hc).
  assert (sem_inv sa) as Hia by exact (sem_run_inv pre s sa Hpre Hs Ha).
  destruct (Hl sa Hia sb Hb) as (tb & Htb & He). rewrite Ha. simpl. unfold sem_run in Htb.
  rewrite foldM_app, Htb. simpl. eapply (sem_run_proper post sb tb); [done| | |done|done].
  - by eapply (sem_run_inv l1).
  - by eapply (sem_run_inv l2).
Qed.

Lemma refined_swap_right op mid s :
  sem_good op → Forall sem_good mid → sem_inv s → Forall (fun x => reduce op x = ReduceThrough) mid →
  refined (sem_run (op :: mid) s) (sem_run (mid ++ [op]) s).
Proof.
  revert s. induction mid as [|x mid IH]; intros s Hop Hmid Hs Hth; [apply refined_refl|].
  apply Forall_cons in Hmid as [Hx Hmid]. apply Forall_cons in Hth as [Ht Hth].
  apply (refined_trans _ (sem_run (x :: op :: mid) s)).
  - apply (refined_context [] [op; x] [x; op] mid); repeat constructor; try done.
    intros s1 Hs1. by apply law_through.
  - replace (x :: op :: mid) with ([x] ++ (op :: mid) ++ []) by (simpl; by rewrite app_nil_r).
    replace ((x :: mid) ++ [op]) with ([x] ++ (mid ++ [op]) ++ []) by (simpl; by rewrite app_nil_r).
    apply refined_context; try done; try (by repeat constructor).
    + apply Forall_app. split; [done|]. by constructor.
    + intros s1 Hs1. by apply IH.
Qed.

Lemma refined_swap_left other mid s :
  sem_good other → Forall sem_good mid → sem_inv s → Forall (fun x => reduce x other = ReduceThrough) mid →
  refined (sem_run (mid ++ [other]) s) (sem_run (other :: mid) s).
Proof.
  revert s. induction mid as [|x mid IH]; intros s Hop Hmid Hs Hth; [apply refined_refl|].
  apply Forall_cons in Hmid as [Hx Hmid]. apply Forall_cons in Hth as [Ht Hth].
  apply (refined_trans _ (sem_run (x :: other :: mid) s)).
  - replace (x :: other :: mid) with ([x] ++ (other :: mid) ++ []) by (simpl; by rewrite app_nil_r).
    replace ((x :: mid) ++ [other]) with ([x] ++ (mid ++ [other]) ++ []) by (simpl; by rewrite app_nil_r).
    apply refined_context; try done; try (by repeat constructor).
    + apply Forall_app. split; [done|]. by constructor.
    + intros s1 Hs1. by apply IH.
  - apply (refined_context [] [x; other] [other; x] mid); repeat constructor; try done.
    intros s1 Hs1. by apply law_through.
Qed.

Lemma reduction_good l l' : reduction l l' → Forall sem_good l → Forall sem_good l'.
Proof.
  intros [pre op mid other post result Hm Hr|pre op mid other post result Hm Hr];
    rewrite !Forall_app, !Forall_cons, !Forall_app, !Forall_cons;
    intros (Hpre & Hop & Hmid & Hother & Hpost);
    pose proof (law_good op other result Hop Hother Hr); tauto.
Qed.

Lemma reduction_sound l l' s :
  reduction l l' → Forall sem_good l → sem_inv s → refined (sem_run l s) (sem_run l' s).
Proof.
  intros Hred Hg Hs. pose proof (reduction_good _ _ Hred Hg) as Hg'.
  destruct Hred as [pre op mid other post result Hm Hr|pre op mid other post result Hm Hr];
    rewrite ?Forall_app, ?Forall_cons, ?Forall_app, ?Forall_cons in Hg;
    destruct Hg as (Hpre & Hop & Hmid & Hother & Hpost);
    pose proof (law_good op other result Hop Hother Hr) as Hres.
  - apply (refined_trans _ (sem_run (pre ++ (mid ++ [op; other]) ++ post) s)).
    + replace (pre ++ op :: mid ++ other :: post) with (pre ++ (op :: mid) ++ other :: post) by done.
      replace (pre ++ (mid ++ [op; other]) ++ post) with (pre ++ (mid ++ [op]) ++ other :: post)
        by (by rewrite <- !app_assoc).
      apply refined_context; rewrite ?Forall_app, ?Forall_cons; auto.
      intros s1 Hs1. by apply refined_swap_right.
    + replace (pre ++ (mid ++ [op; other]) ++ post) with ((pre ++ mid) ++ [op; other] ++ post)
        by (by rewrite <- !app_assoc).
      replace (pre ++ mid ++ result ++ post) with ((pre ++ mid) ++ result ++ post) by (by rewrite <- !app_assoc).
      apply refined_context; rewrite ?Forall_app, ?Forall_cons; auto.
      intros s1 Hs1. by apply law_replace.
  - apply (refined_trans _ (sem_run (pre ++ ([op; other] ++ mid) ++ post) s)).
    + replace (pre ++ op :: mid ++ other :: post) with ((pre ++ [op]) ++ (mid ++ [other]) ++ post)
        by (by rewrite <- !app_assoc).
      replace (pre ++ ([op; other] ++ mid) ++ post) with ((pre ++ [op]) ++ (other :: mid) ++ post)
        by (by rewrite <- !app_assoc).
      apply refined_context; rewrite ?Forall_app, ?Forall_cons; auto.
      intros s1 Hs1. by apply refined_swap_left.
    + replace (pre ++ ([op; other] ++ mid) ++ post) with (pre ++ [op; other] ++ (mid ++ post))
        by (by rewrite <- !app_assoc).
      apply refined_context; rewrite ?Forall_app, ?Forall_cons; auto.
      intros s1 Hs1. by apply law_replace.
Qed.

(** A list the optimizer returns does what the list it was given does. *)
Lemma optimize_loop_sound fuel l l' s :
  Forall sem_good l → sem_inv s → optimize_loop fuel l = Some l' → refined (sem_run l s) (sem_run l' s).
Proof.
  intros Hg Hs [Hr _]%optimize_loop_Some. revert Hg.
  induction Hr as [l|l1 l2 l3 H12 H23 IH]; intros Hg; [apply refined_refl|].
  eapply refined_trans; [by apply reduction_sound|]. apply IH. by eapply reduction_good.
Qed.

End soundness.
