(* ===== verification/Reduce.v ===== *)
(** * Reduction of adjacent operations: Operation.Reduce

    The Reduce methods of migrations/op_models.go, op_fields.go,
    op_special.go and migrations/postgres, and the helpers they fall back to.
    A Go Reduce returns a list and a ReduceKind, the list being nil unless the
    kind is ReduceReplace: here the list is an argument of that kind. *)

From S2P Require Import Prelude GoStd Keys Errors Fields Index ModelState Apps ProjectState Operation Optimizer.

(** ** Fallbacks *)

(** baseReduce, of both packages *)
Definition baseReduce (op other : Operation) : Reduction Operation :=
  if Elidable op then ReduceReplace [other]
  else if Elidable other then ReduceReplace [op]
  else ReduceBlock.

(** The fallbacks that look at references: modelOpReduce, fieldOpReduce and
    the ends of AlterUniqueTogether.Reduce, RenameModel.Reduce and
    RenameField.Reduce *)
Definition reduce_unless (op other : Operation) (references : bool) : Reduction Operation :=
  match baseReduce op other with
  | ReduceReplace ops => ReduceReplace ops
  | _ => if references then ReduceBlock else ReduceThrough
  end.

Definition modelOpReduce (op : Operation) (name : string) (other : Operation) (app : string) : Reduction Operation :=
  reduce_unless op other (ReferencesModel other name app).

Definition fieldOpReduce (op : Operation) (modelName fieldName : string) (other : Operation) (app : string)
    : Reduction Operation :=
  reduce_unless op other (ReferencesField other modelName fieldName app).

(** modelOpName *)
Definition modelOpName (op : Operation) : string :=
  match op with
  | DeleteModel Name | AlterModelTable Name _ | AlterModelTableComment Name _ | AlterUniqueTogether Name _
  | AlterModelOptions Name _ => Name
  | _ => ""
  end.

Definition is_DeleteModel (op : Operation) : bool := match op with DeleteModel _ => true | _ => false end.

(** modelOptionReduce *)
Definition modelOptionReduce (op : Operation) (name : string) (other : Operation) (app : string)
    (sameType : bool) : Reduction Operation :=
  if (sameType || is_DeleteModel other) && EqualFold name (modelOpName other)
  then ReduceReplace [other]
  else modelOpReduce op name other app.

(** isSameFieldOperation, for a field operation on [model].[field] *)
Definition fieldOp (op : Operation) : option (string * string) :=
  match op with
  | AddField ModelName Name _ _ | RemoveField ModelName Name | AlterField ModelName Name _ _ =>
      Some (ModelName, Name)
  | RenameField ModelName OldName _ => Some (ModelName, OldName)
  | _ => None
  end.

Definition isSameFieldOperation (a b : string * string) : bool :=
  EqualFold a.1 b.1 && EqualFold a.2 b.2.

(** IndexRemoval, and its RemovedIndex *)
Definition RemovedIndex (op : Operation) : option (string * string) :=
  match op with
  | RemoveIndex ModelName Name | RemoveIndexConcurrently ModelName Name => Some (ModelName, Name)
  | _ => None
  end.

(** ** CreateModel *)

(** The change CreateModel.Reduce makes for a RemoveField: columns leave
    unique_together, and a group left empty goes too. *)
Definition drop_from_together (name : string) (ut : list (list string)) : list (list string) :=
  filter (fun t => t ≠ []) (map (filter (fun f => f ≠ ToLower name)) ut).

(** CreateModel.Reduce *)
Definition CreateModel_Reduce (Name Table : string) (fields : list NamedField) (options : Options)
    (other : Operation) (app : string) : Reduction Operation :=
  let lower := ToLower Name in
  let same n := bool_decide (ToLower n = lower) in
  let c := Options_Clone options in
  let default := modelOpReduce (CreateModel Name Table fields options) Name other app in
  let replace n ops := if same n then ReduceReplace ops else default in
  match other with
  | DeleteModel n => replace n []
  | RenameModel o n => replace o [CreateModel n Table fields c]
  | AlterModelOptions n managed => replace n [CreateModel Name Table fields (opt_set_Managed managed c)]
  | AlterModelTable n t => replace n [CreateModel Name t fields c]
  | AlterModelTableComment n v => replace n [CreateModel Name Table fields (opt_set_DBTableComment v c)]
  | AlterUniqueTogether n ut =>
      replace n [CreateModel Name Table fields (opt_set_UniqueTogether (normalizeTogether ut) c)]
  | AddField n fn f _ => replace n [CreateModel Name Table (fields ++ [mkNamedField fn f]) c]
  | AlterField n fn f _ =>
      replace n [CreateModel Name Table
        (map (fun nf => if bool_decide (nf_Name nf = fn) then mkNamedField (nf_Name nf) f else nf) fields) c]
  | RemoveField n fn =>
      replace n [CreateModel Name Table
        (filter (fun nf => EqualFold (nf_Name nf) fn = false) fields)
        (opt_set_UniqueTogether (drop_from_together fn (opt_UniqueTogether c)) c)]
  | RenameField n old new =>
      replace n [CreateModel Name Table
        (map (fun nf => if bool_decide (nf_Name nf = old) then mkNamedField new (nf_Field nf) else nf) fields)
        (opt_set_UniqueTogether (map (fun t => rename_list t old new) (opt_UniqueTogether c)) c)]
  | AddIndex n ix =>
      replace n [CreateModel Name Table fields (opt_set_Indexes (opt_Indexes c ++ [Index_Clone ix]) c)]
  | RemoveIndex n name =>
      replace n [CreateModel Name Table fields
        (opt_set_Indexes (filter (fun ix => ix_Name ix ≠ name) (opt_Indexes c)) c)]
  | AddConstraint n k =>
      replace n [CreateModel Name Table fields
        (opt_set_Constraints (opt_Constraints c ++ [cloneConstraint k]) c)]
  | AlterConstraint n name k =>
      replace n [CreateModel Name Table fields
        (opt_set_Constraints
          (filter (fun k => ConstraintName k ≠ name) (opt_Constraints c) ++ [cloneConstraint k]) c)]
  | RemoveConstraint n name =>
      replace n [CreateModel Name Table fields
        (opt_set_Constraints (filter (fun k => ConstraintName k ≠ name) (opt_Constraints c)) c)]
  | _ => default
  end.

(** ** Model operations *)

(** RenameModel.Reduce *)
Definition RenameModel_Reduce (OldName NewName : string) (other : Operation) (app : string) : Reduction Operation :=
  let op := RenameModel OldName NewName in
  let fallback := reduce_unless op other (ReferencesModel other NewName app) in
  match other with
  | RenameModel o n => if EqualFold NewName o then ReduceReplace [RenameModel OldName n] else fallback
  | _ => fallback
  end.

(** AlterUniqueTogether.Reduce *)
Definition AlterUniqueTogether_Reduce (Name : string) (ut : list (list string)) (other : Operation) (app : string)
    : Reduction Operation :=
  let same := match other with AlterUniqueTogether _ _ => true | _ => false end in
  if (same || is_DeleteModel other) && EqualFold Name (modelOpName other) then ReduceReplace [other]
  else reduce_unless (AlterUniqueTogether Name ut) other (ReferencesModel other Name app).

(** AddIndex.Reduce and AddIndexConcurrently.Reduce: [mk] rebuilds the
    operation around a renamed index. *)
Definition AddIndex_Reduce (mk : Index → Operation) (ix : Index) (other : Operation) : Reduction Operation :=
  let base := baseReduce (mk ix) other in
  match RemovedIndex other with
  | Some (_, name) => if bool_decide (ix_Name ix = name) then ReduceReplace [] else base
  | None =>
      match other with
      | RenameIndex _ n o =>
          if bool_decide (ix_Name ix = o) then ReduceReplace [mk (ix_set_Name n (Index_Clone ix))] else base
      | _ => base
      end
  end.

(** RenameIndex.Reduce *)
Definition RenameIndex_Reduce (ModelName NewName OldName : string) (other : Operation) : Reduction Operation :=
  let base := baseReduce (RenameIndex ModelName NewName OldName) other in
  match other with
  | RenameIndex m n o =>
      if EqualFold ModelName m && negb (bool_decide (o = "")) && EqualFold NewName o
      then ReduceReplace [RenameIndex ModelName n OldName] else base
  | _ => base
  end.

(** AddConstraint.Reduce and AddConstraintNotValid.Reduce *)
Definition AddConstraint_Reduce (mk : Constraint → Operation) (ModelName : string) (c : Constraint)
    (other : Operation) : Reduction Operation :=
  let base := baseReduce (mk c) other in
  let same m name := EqualFold ModelName m && bool_decide (ConstraintName c = name) in
  match other with
  | RemoveConstraint m name => if same m name then ReduceReplace [] else base
  | AlterConstraint m name c' => if same m name then ReduceReplace [mk c'] else base
  | _ => base
  end.

(** AlterConstraint.Reduce *)
Definition AlterConstraint_Reduce (ModelName Name : string) (c : Constraint) (other : Operation) : Reduction Operation :=
  let base := baseReduce (AlterConstraint ModelName Name c) other in
  match other with
  | AlterConstraint m name _ | RemoveConstraint m name =>
      if EqualFold ModelName m && bool_decide (Name = name) then ReduceReplace [other] else base
  | _ => base
  end.

(** ** Field operations *)

(** AddField.Reduce *)
Definition AddField_Reduce (ModelName Name : string) (f : Field) (p : option bool) (other : Operation)
    (app : string) : Reduction Operation :=
  let fallback := fieldOpReduce (AddField ModelName Name f p) ModelName Name other app in
  match fieldOp other with
  | Some fo =>
      if isSameFieldOperation (ModelName, Name) fo then
        match other with
        | AlterField _ n f' _ => ReduceReplace [AddField ModelName n f' p]
        | RemoveField _ _ => ReduceReplace []
        | RenameField _ _ n => ReduceReplace [AddField ModelName n f p]
        | _ => fallback
        end
      else fallback
  | None => fallback
  end.

(** RemoveField.Reduce *)
Definition RemoveField_Reduce (ModelName Name : string) (other : Operation) (app : string) : Reduction Operation :=
  let fallback := fieldOpReduce (RemoveField ModelName Name) ModelName Name other app in
  match other with
  | DeleteModel n => if EqualFold n ModelName then ReduceReplace [other] else fallback
  | _ => fallback
  end.

(** AlterField.Reduce *)
Definition AlterField_Reduce (ModelName Name : string) (f : Field) (p : option bool) (other : Operation)
    (app : string) : Reduction Operation :=
  let fallback := fieldOpReduce (AlterField ModelName Name f p) ModelName Name other app in
  let same fo := isSameFieldOperation (ModelName, Name) fo in
  match other with
  | AlterField m n _ _ | RemoveField m n => if same (m, n) then ReduceReplace [other] else fallback
  | RenameField m o n => if same (m, o) then ReduceReplace [other; AlterField ModelName n f p] else fallback
  | _ => fallback
  end.

(** RenameField.Reduce *)
Definition RenameField_Reduce (ModelName OldName NewName : string) (other : Operation) (app : string) : Reduction Operation :=
  let fallback := reduce_unless (RenameField ModelName OldName NewName) other
                    (ReferencesField other ModelName OldName app || ReferencesField other ModelName NewName app) in
  match other with
  | RenameField m o n =>
      if EqualFold ModelName m && EqualFold NewName o then ReduceReplace [RenameField ModelName OldName n]
      else fallback
  | _ => fallback
  end.

(** CreateCollation.Reduce *)
Definition CreateCollation_Reduce (op : Operation) (Name : string) (other : Operation) : Reduction Operation :=
  match other with
  | RemoveCollation n _ _ _ => if bool_decide (Name = n) then ReduceReplace [] else baseReduce op other
  | _ => baseReduce op other
  end.

(** ** Operation.Reduce *)

Definition Reduce (op other : Operation) (app : string) : Reduction Operation :=
  match op with
  | CreateModel Name Table fields options => CreateModel_Reduce Name Table fields options other app
  | DeleteModel Name => modelOpReduce op Name other app
  | RenameModel OldName NewName => RenameModel_Reduce OldName NewName other app
  | AlterModelTable Name _ =>
      modelOptionReduce op Name other app (match other with AlterModelTable _ _ => true | _ => false end)
  | AlterModelTableComment Name _ =>
      modelOptionReduce op Name other app (match other with AlterModelTableComment _ _ => true | _ => false end)
  | AlterUniqueTogether Name ut => AlterUniqueTogether_Reduce Name ut other app
  | AlterModelOptions Name _ =>
      modelOptionReduce op Name other app (match other with AlterModelOptions _ _ => true | _ => false end)
  | AddIndex ModelName ix => AddIndex_Reduce (AddIndex ModelName) ix other
  | RenameIndex ModelName NewName OldName => RenameIndex_Reduce ModelName NewName OldName other
  | AddConstraint ModelName c => AddConstraint_Reduce (AddConstraint ModelName) ModelName c other
  | AlterConstraint ModelName Name c => AlterConstraint_Reduce ModelName Name c other
  | AddField ModelName Name f p => AddField_Reduce ModelName Name f p other app
  | RemoveField ModelName Name => RemoveField_Reduce ModelName Name other app
  | AlterField ModelName Name f p => AlterField_Reduce ModelName Name f p other app
  | RenameField ModelName OldName NewName => RenameField_Reduce ModelName OldName NewName other app
  | CreateCollation Name _ _ _ => CreateCollation_Reduce op Name other
  | AddIndexConcurrently ModelName ix => AddIndex_Reduce (AddIndexConcurrently ModelName) ix other
  | AddConstraintNotValid ModelName c => AddConstraint_Reduce (AddConstraintNotValid ModelName) ModelName c other
  | RemoveIndex _ _ | RemoveConstraint _ _ | SeparateDatabaseAndState _ _ | RunSQL _ _ _ _ _ | RunGo _ _ _ _ _
  | CreateExtension _ _ | RemoveCollation _ _ _ _ | RemoveIndexConcurrently _ _ | ValidateConstraint _ _ =>
      baseReduce op other
  end.

(** The operations of an app, as the optimizer sees them *)
Definition app_Reducible (app : string) : Reducible Operation := fun op other => Reduce op other app.
