(* ===== verification/OptimizerTermination.v ===== *)
(** * Optimize returns

    A pass of the optimizer may leave the list as long as it was: an
    AlterField followed by a RenameField of its column becomes the RenameField
    and the AlterField of the new name. What every pass lowers is the length,
    and next to it the number of RenameFields that come after an AlterField. *)

From S2P Require Import Prelude GoStd Keys Errors Fields Index ModelState Apps ProjectState Operation.
From S2P Require Import Optimizer Reduce.

Definition is_AlterField (op : Operation) : bool := match op with AlterField _ _ _ _ => true | _ => false end.
Definition is_RenameField (op : Operation) : bool := match op with RenameField _ _ _ => true | _ => false end.

Fixpoint count (p : Operation → bool) (l : list Operation) : nat :=
  match l with
  | [] => 0
  | x :: l => (if p x then 1 else 0) + count p l
  end.

(** The pairs of an AlterField and a RenameField after it *)
Fixpoint inversions (l : list Operation) : nat :=
  match l with
  | [] => 0
  | x :: l => (if is_AlterField x then count is_RenameField l else 0) + inversions l
  end.

Definition measure (l : list Operation) : nat :=
  let n := length l in n * n * n + n + inversions l.

Lemma count_app p l1 l2 : count p (l1 ++ l2) = count p l1 + count p l2.
Proof. induction l1 as [|x l1 IH]; simpl; [done|]. lia. Qed.

Lemma inversions_app l1 l2 :
  inversions (l1 ++ l2) = inversions l1 + inversions l2 + count is_AlterField l1 * count is_RenameField l2.
Proof.
  induction l1 as [|x l1 IH]; simpl; [lia|]. rewrite IH, count_app. destruct (is_AlterField x); lia.
Qed.

Lemma count_le p l : count p l ≤ length l.
Proof. induction l as [|x l IH]; simpl; [done|]. destruct (p x); lia. Qed.

Lemma inversions_le l : inversions l ≤ length l * length l.
Proof.
  induction l as [|x l IH]; simpl; [done|].
  pose proof (count_le is_RenameField l). destruct (is_AlterField x); nia.
Qed.

(** A shorter list has a smaller measure, whatever its inversions. *)
Lemma measure_shorter l l' : length l' < length l → measure l' < measure l.
Proof.
  intros Hl. unfold measure. pose proof (inversions_le l') as Hi. pose proof (Nat.le_exists_sub _ _ Hl) as (d & -> & _).
  revert Hi. generalize (length l') (inversions l') (inversions l). intros n i j Hi.
  assert (S n * S n * S n ≤ (d + S n) * (d + S n) * (d + S n)) by (repeat apply Nat.mul_le_mono; lia). lia.
Qed.

Lemma measure_reordered l l' : length l' = length l → inversions l' < inversions l → measure l' < measure l.
Proof. intros Hl Hi. unfold measure. rewrite Hl. lia. Qed.

(** A replacement is shorter than the pair it replaces, unless the pair is
    an AlterField and a RenameField. *)
Lemma Reduce_length op other app ops :
  Reduce op other app = ReduceReplace ops →
  length ops ≤ 1 ∨
  is_AlterField op = true ∧ is_RenameField other = true ∧
  ∃ op', is_AlterField op' = true ∧ is_RenameField op' = false ∧ is_AlterField other = false ∧
         is_RenameField op = false ∧ ops = [other; op'].
Proof.
  assert (∀ a b r, reduce_unless a other b = ReduceReplace r → length r ≤ 1) as Hu.
  { intros a b r. unfold reduce_unless, baseReduce. intros Hr. repeat case_match; simplify_eq/=; lia. }
  assert (∀ a r, baseReduce a other = ReduceReplace r → length r ≤ 1) as Hb.
  { intros a r. unfold baseReduce. intros Hr. repeat case_match; simplify_eq/=; lia. }
  intros Hr. destruct op; simpl in Hr;
    unfold CreateModel_Reduce, modelOpReduce, RenameModel_Reduce, modelOptionReduce, modelOpReduce,
      AlterUniqueTogether_Reduce, AddIndex_Reduce, RenameIndex_Reduce, AddConstraint_Reduce,
      AlterConstraint_Reduce, AddField_Reduce, RemoveField_Reduce, AlterField_Reduce, RenameField_Reduce,
      CreateCollation_Reduce, fieldOpReduce in Hr; cbv zeta in Hr;
    try (left; exact (Hb _ _ Hr)); try (left; exact (Hu _ _ _ Hr)).
  all: destruct other; repeat case_match; try (left; exact (Hb _ _ Hr)); try (left; exact (Hu _ _ _ Hr)); simplify_eq/=;
    try (left; lia).
  right. split_and!; [done|done|]. exists (AlterField ModelName NewName field PreserveDefault). by split_and!.
Qed.

#[local] Instance app_operations (app : string) : Reducible Operation := app_Reducible app.

Lemma reduction_measure app l l' :
  @reduction Operation (app_operations app) l l' → measure l' < measure l.
Proof.
  intros [pre op mid other post result _ Hr|pre op mid other post result _ Hr];
    apply Reduce_length in Hr as [Hlen|(Ha & Hre & op' & Ha' & Hn' & Hna & Hnr & ->)].
  - apply measure_shorter. repeat (rewrite length_app || simpl). lia.
  - apply measure_reordered; [repeat (rewrite length_app || simpl); lia|].
    repeat (rewrite inversions_app || rewrite count_app || rewrite Ha || rewrite Hre || rewrite Ha' ||
            rewrite Hn' || rewrite Hna || rewrite Hnr || simpl). lia.
  - apply measure_shorter. repeat (rewrite length_app || simpl). lia.
  - apply measure_reordered; [repeat (rewrite length_app || simpl); lia|].
    repeat (rewrite inversions_app || rewrite count_app || rewrite Ha || rewrite Hre || rewrite Ha' ||
            rewrite Hn' || rewrite Hna || rewrite Hnr || simpl). lia.
Qed.

(** ** Optimize *)

Definition optimize_fuel (operations : list Operation) : nat := S (measure operations).

Definition Optimize (operations : list Operation) (app : string) : list Operation :=
  default operations (@optimize_loop Operation (app_operations app) (optimize_fuel operations) operations).

Lemma Optimize_loop operations app :
  @optimize_loop Operation (app_operations app) (optimize_fuel operations) operations = Some (Optimize operations app).
Proof.
  unfold Optimize.
  destruct (@optimize_loop_fuel Operation (app_operations app) measure (reduction_measure app)
              (optimize_fuel operations) operations) as [l ->]; [unfold optimize_fuel; lia|done].
Qed.

(** C36: Optimize returns for every list of operations, on a list no pass
    reduces any further, and which is no longer than its argument. *)
Theorem Optimize_terminates operations app :
  @optimize_loop Operation (app_operations app) (optimize_fuel operations) operations
    = Some (Optimize operations app) ∧
  @optimizeInner Operation (app_operations app) (Optimize operations app) = (Optimize operations app, false) ∧
  length (Optimize operations app) ≤ length operations.
Proof.
  pose proof (Optimize_loop operations app) as Hl. split; [done|].
  apply optimize_loop_Some in Hl as [Hr Hf]. split; [done|].
  clear Hf. generalize dependent (Optimize operations app). intros l Hr.
  induction Hr as [l|l1 l2 l3 H12 _ IH]; [done|]. etrans; [exact IH|].
  destruct H12 as [pre op mid other post result _ Hr|pre op mid other post result _ Hr];
    apply Reduce_length in Hr as [Hlen|(Ha & Hre & op' & Ha' & Hn' & Hna & Hnr & ->)];
    repeat (rewrite length_app || simpl); lia.
Qed.
