(* ===== verification/OptimizerSound.v ===== *)
(** * The optimizer keeps the state of a history

    The laws of Optimizer.v for the operations of this repository. The
    meaning of an operation here is its effect on the models of a project
    state, one model at a time: a slot is what the state holds under the key
    of the operation's model, and every operation but RenameModel,
    RenameField and the composite ones changes one slot only. States are
    compared up to the order of the fields inside a model, as
    ModelState.Equal does. *)

From S2P Require Import Prelude GoStd Keys Errors Fields Index ModelState Apps ProjectState StateLemmas.
From S2P Require Import Operation OperationLemmas Optimizer Reduce OptimizerTermination.

(** ** Slots *)

Notation slot := (option ModelState).
Notation models := (gmap ModelKey ModelState).

(** The model an operation acts on; None for those that do not change a
    state *)
Definition op_model (op : Operation) : option string :=
  match op with
  | CreateModel n _ _ _ | DeleteModel n | RenameModel n _ | AlterModelTable n _ | AlterModelTableComment n _
  | AlterUniqueTogether n _ | AlterModelOptions n _ | AddIndex n _ | RemoveIndex n _ | RenameIndex n _ _
  | AddConstraint n _ | RemoveConstraint n _ | AlterConstraint n _ _ | AddField n _ _ _ | RemoveField n _
  | AlterField n _ _ _ | RenameField n _ _ | AddIndexConcurrently n _ | RemoveIndexConcurrently n _
  | AddConstraintNotValid n _ => Some n
  | _ => None
  end.

Definition op_key (app : string) (op : Operation) : option ModelKey :=
  (fun n => mkModelKey app (ToLower n)) <$> op_model op.

(** The model AddModel stores *)
Definition qualified_model (m : ModelState) : ModelState :=
  ms_set_Options
    (opt_set_Constraints (qualifyConstraints (opt_Constraints (ms_Options m)) (ms_App m)) (ms_Options m))
    (ms_set_Fields
      (map (fun f => mkNamedField (nf_Name f) (qualifyForeignKey (nf_Field f) (ms_App m))) (ms_Fields m)) m).

Definition set_options (f : Options → Options) (m : ModelState) : ModelState :=
  ms_set_Options (f (ms_Options m)) m.

Definition index_names (m : ModelState) : list string := map ix_Name (opt_Indexes (ms_Options m)).
Definition constraint_names (m : ModelState) : list string := map ConstraintName (opt_Constraints (ms_Options m)).

(** A field dropped, and a field replaced, by name *)
Definition drop_field (name : string) (fs : Fields) : Fields := filter (fun nf => nf_Name nf ≠ name) fs.
Definition replace_field (name : string) (f : Field) (fs : Fields) : Fields :=
  map (fun nf => if bool_decide (nf_Name nf = name) then mkNamedField name f else nf) fs.

Definition rename_indexes (old new : string) (ixs : list Index) : list Index :=
  map (fun ix => if bool_decide (ix_Name ix = old) then ix_set_Name new ix else ix) ixs.

Definition add_index (ix : Index) (m : ModelState) : option ModelState :=
  guard (ix_Name ix ≠ "" ∧ ix_Name ix ∉ index_names m);;
  Some (set_options (fun o => opt_set_Indexes (opt_Indexes o ++ [ix]) o) m).

Definition remove_index (name : string) (m : ModelState) : option ModelState :=
  guard (name ∈ index_names m);;
  Some (set_options (fun o => opt_set_Indexes (filter (fun ix => ix_Name ix ≠ name) (opt_Indexes o)) o) m).

Definition add_constraint (app : string) (c : Constraint) (m : ModelState) : option ModelState :=
  guard (ConstraintName c ∉ constraint_names m);;
  Some (set_options (fun o => opt_set_Constraints (opt_Constraints o ++ [qualifyConstraint app c]) o) m).

(** The effect of an operation on a model that exists. The guards are what a
    well-formed history respects: names added are new, names changed exist,
    and a column leaves unique_together before it leaves the model. *)
Definition model_step (app : string) (op : Operation) (m : ModelState) : option ModelState :=
  match op with
  | AlterModelTable _ t => Some (ms_set_Table t m)
  | AlterModelTableComment _ c => Some (set_options (opt_set_DBTableComment c) m)
  | AlterUniqueTogether _ ut => Some (set_options (opt_set_UniqueTogether (normalizeTogether ut)) m)
  | AlterModelOptions _ managed => Some (set_options (opt_set_Managed managed) m)
  | AddIndex _ ix | AddIndexConcurrently _ ix => add_index ix m
  | RemoveIndex _ n | RemoveIndexConcurrently _ n => remove_index n m
  | RenameIndex _ new old =>
      guard (old ≠ "" ∧ old ∈ index_names m ∧ (new ∉ index_names m ∨ new = old));;
      Some (set_options (fun o => opt_set_Indexes (rename_indexes old new (opt_Indexes o)) o) m)
  | AddConstraint _ c | AddConstraintNotValid _ c => add_constraint app c m
  | RemoveConstraint _ n =>
      Some (set_options
        (fun o => opt_set_Constraints (filter (fun c => ConstraintName c ≠ n) (opt_Constraints o)) o) m)
  | AddField _ n f p =>
      guard (n ∉ Fields_Names (ms_Fields m));;
      Some (ms_set_Fields (ms_Fields m ++ [mkNamedField n (stored_field app f (preserve p))]) m)
  | RemoveField _ n =>
      guard (n ∈ Fields_Names (ms_Fields m) ∧ Forall (fun t => n ∉ t ∧ t ≠ []) (opt_UniqueTogether (ms_Options m)));;
      Some (ms_set_Fields (drop_field n (ms_Fields m)) m)
  | AlterField _ n f p =>
      guard (n ∈ Fields_Names (ms_Fields m));;
      Some (ms_set_Fields (replace_field n (stored_field app f (preserve p)) (ms_Fields m)) m)
  | _ => None
  end.

Definition slot_step (app : string) (op : Operation) (sl : slot) : option slot :=
  match op with
  | CreateModel n t fs o =>
      let m := mkModelState app n t fs o in
      guard (sl = None ∧ is_ok (Validate m) = true);; Some (Some (qualified_model m))
  | DeleteModel _ => _ ← sl; Some None
  | _ => match op_model op with
         | Some _ => m ← sl; Some <$> model_step app op m
         | None => Some sl
         end
  end.

(** ** Equality up to the order of fields *)

Definition model_equiv (a b : ModelState) : Prop :=
  ∃ fs, ms_Fields a ≡ₚ fs ∧ b = ms_set_Fields fs a.

#[export] Instance model_equiv_equivalence : Equivalence model_equiv.
Proof.
  split.
  - intros a. exists (ms_Fields a). by rewrite ms_set_Fields_id.
  - intros a b (fs & Hp & ->). exists (ms_Fields a). split; [done|].
    by rewrite ms_set_Fields_set, ms_set_Fields_id.
  - intros a b c (fs & Hp & ->) (fs' & Hp' & ->). exists fs'. split; [|done]. by rewrite Hp.
Qed.

Definition slot_equiv : relation slot := option_Forall2 model_equiv.

#[export] Instance slot_equiv_equivalence : Equivalence slot_equiv.
Proof. apply _. Qed.

Definition slot_inv (sl : slot) : Prop :=
  match sl with Some m => NoDup (Fields_Names (ms_Fields m)) | None => True end.

Lemma model_equiv_fields a fs : ms_Fields a ≡ₚ fs → model_equiv a (ms_set_Fields fs a).
Proof. intros Hp. by exists fs. Qed.

#[export] Instance Fields_Names_perm : Proper ((≡ₚ) ==> (≡ₚ)) Fields_Names.
Proof. intros fs fs' Hp. by apply Permutation_map. Qed.

#[export] Instance drop_field_perm n : Proper ((≡ₚ) ==> (≡ₚ)) (drop_field n).
Proof. intros fs fs' Hp. unfold drop_field. by rewrite Hp. Qed.

#[export] Instance replace_field_perm n f : Proper ((≡ₚ) ==> (≡ₚ)) (replace_field n f).
Proof. intros fs fs' Hp. by apply Permutation_map. Qed.

Lemma Fields_Names_replace n f fs : Fields_Names (replace_field n f fs) = Fields_Names fs.
Proof.
  unfold Fields_Names, replace_field. rewrite map_map. apply map_ext. intros nf.
  by case_bool_decide as Hn.
Qed.

Lemma Fields_Names_drop n fs : Fields_Names (drop_field n fs) = filter (fun x => x ≠ n) (Fields_Names fs).
Proof.
  unfold Fields_Names, drop_field. induction fs as [|nf fs IH]; [done|].
  rewrite filter_cons. simpl. rewrite filter_cons. repeat case_decide; simpl; congruence.
Qed.

(** Guards of an option computation *)
Ltac guards H :=
  repeat match type of H with
  | (guard ?P;; _) = Some _ =>
      let HP := fresh "HP" in destruct (decide P) as [HP|HP];
      [rewrite (option_guard_True P) in H by exact HP|rewrite (option_guard_False P) in H by exact HP; discriminate H]
  | (?m ≫= _) = Some _ =>
      let x := fresh "x" in let Hx := fresh "Hx" in
      apply bind_Some in H as (x & Hx & H)
  end.

Lemma model_step_proper app op a b a' :
  model_equiv a b → model_step app op a = Some a' →
  ∃ b', model_step app op b = Some b' ∧ model_equiv a' b'.
Proof.
  intros (fs & Hp & ->).
  destruct op; simpl; try done; unfold add_index, remove_index, add_constraint; intros Ha; guards Ha;
    injection Ha as <-;
    unfold index_names, constraint_names in *; simpl; rewrite ?option_guard_True by (by rewrite <- ?Hp);
    eexists; (split; [reflexivity|]);
    (eexists; split; [|reflexivity]); simpl; by rewrite Hp.
Qed.

Lemma Validate_is_ok m : is_ok (Validate m) = true ↔ model_ok m.
Proof.
  rewrite <- Validate_spec. split; [|by intros ->]. by destruct (Validate m) as [[]| |].
Qed.

Lemma Fields_Names_qualified m : Fields_Names (ms_Fields (qualified_model m)) = Fields_Names (ms_Fields m).
Proof. unfold Fields_Names. simpl. by rewrite map_map. Qed.

(** The operations that slot_step sends to model_step *)
Definition changes_model (op : Operation) : bool :=
  match op with
  | CreateModel _ _ _ _ | DeleteModel _ => false
  | _ => bool_decide (is_Some (op_model op))
  end.

Lemma slot_step_model app op sl :
  changes_model op = true → slot_step app op sl = (m ← sl; Some <$> model_step app op m).
Proof. by destruct op. Qed.

(** Case analysis on an operation's kind: it creates, it deletes, it changes,
    or it does nothing. *)
Lemma op_cases (P : Operation → Prop) op :
  (∀ n t fs o, op = CreateModel n t fs o → P op) →
  (∀ n, op = DeleteModel n → P op) →
  (changes_model op = true → P op) →
  (op_model op = None → P op) → P op.
Proof. intros H1 H2 H3 H4. destruct op; eauto. Qed.

Lemma slot_step_none app op sl : op_model op = None → slot_step app op sl = Some sl.
Proof. by destruct op. Qed.

Lemma slot_step_proper app op a b a' :
  slot_equiv a b → slot_step app op a = Some a' →
  ∃ b', slot_step app op b = Some b' ∧ slot_equiv a' b'.
Proof.
  intros He. apply (op_cases (fun op => slot_step app op a = Some a' → _)) with (op := op).
  - intros n t fs o ->. simpl. intros Ha. guards Ha. simplify_eq.
    destruct HP as [-> Hv]. inversion He; subst.
    rewrite option_guard_True by done. eexists. split; [done|]. by constructor.
  - intros n ->. simpl. intros Ha. destruct He; simplify_eq/=. eexists. split; [done|]. constructor.
  - intros Hc. rewrite !slot_step_model by done. destruct He as [x y Hxy|]; [|done]. simpl.
    intros (a1 & Ha1 & ->)%fmap_Some. destruct (model_step_proper _ _ _ _ _ Hxy Ha1) as (b1 & -> & Hb).
    simpl. eexists. split; [done|]. by constructor.
  - intros Hn. rewrite !slot_step_none by done. intros [= <-]. by exists b.
Qed.

Lemma NoDup_snoc {A} (l : list A) x : NoDup (l ++ [x]) ↔ x ∉ l ∧ NoDup l.
Proof.
  rewrite NoDup_app. split.
  - intros (Hl & Hx & _). split; [|done]. intros Hin. apply (Hx x Hin). left.
  - intros [Hx Hl]. split_and!; [done| |apply NoDup_singleton]. intros y Hy ->%list_elem_of_singleton. done.
Qed.

Lemma Fields_Names_snoc fs n f : Fields_Names (fs ++ [mkNamedField n f]) = Fields_Names fs ++ [n].
Proof. unfold Fields_Names. by rewrite map_app. Qed.

Lemma model_step_inv app op m m' :
  NoDup (Fields_Names (ms_Fields m)) → model_step app op m = Some m' → NoDup (Fields_Names (ms_Fields m')).
Proof.
  intros Hm. destruct op; simpl; try done; unfold add_index, remove_index, add_constraint; intros Ha; guards Ha;
    injection Ha as <-; simpl; try done.
  - rewrite Fields_Names_snoc. by apply NoDup_snoc.
  - rewrite Fields_Names_drop. by apply NoDup_filter.
  - by rewrite Fields_Names_replace.
Qed.

Lemma slot_step_inv app op a a' : slot_inv a → slot_step app op a = Some a' → slot_inv a'.
Proof.
  intros Hi. apply (op_cases (fun op => slot_step app op a = Some a' → _)) with (op := op).
  - intros n t fs o ->. simpl. intros Ha. guards Ha. simplify_eq. destruct HP as [_ Hv].
    apply Validate_is_ok in Hv as [Hnd _]. cbn [slot_inv]. by rewrite Fields_Names_qualified.
  - intros n ->. simpl. intros Ha. by destruct a; simplify_eq/=.
  - intros Hc. rewrite slot_step_model by done. destruct a as [m|]; [|done]. simpl.
    intros (m' & Hm & ->)%fmap_Some. by eapply model_step_inv.
  - intros Hn. rewrite slot_step_none by done. by intros [= <-].
Qed.

(** A sequence of operations on one slot *)
Fixpoint slot_run (app : string) (ops : list Operation) (sl : slot) : option slot :=
  match ops with
  | [] => Some sl
  | op :: ops => sl' ← slot_step app op sl; slot_run app ops sl'
  end.

(** ** The operations the optimizer is sound for *)

Section good.
Context (app : string) (owner : string → ModelKey).

Definition lower (s : string) : Prop := ToLower s = s.

(** Names of columns and of renamed indexes are lower case, an index name
    belongs to one model, one-off defaults are kept, and no operation renames
    a model or a field, alters a constraint or has operations of its own. *)
Definition good_op (op : Operation) : Prop :=
  let owned n name := owner name = mkModelKey app (ToLower n) in
  match op with
  | CreateModel _ _ fs _ => Forall lower (Fields_Names fs)
  | AddField _ n _ p | AlterField _ n _ p => lower n ∧ preserve p = true
  | RemoveField _ n => lower n
  | AlterUniqueTogether _ ut => [] ∉ ut
  | AddIndex m ix | AddIndexConcurrently m ix => owned m (ix_Name ix)
  | RemoveIndex m n | RemoveIndexConcurrently m n => owned m n
  | RenameIndex m new old => owned m new ∧ owned m old ∧ lower new ∧ lower old ∧ new ≠ ""
  | AddConstraint _ c => constraint_ok c
  | AddConstraintNotValid _ c => ∃ k, c = CCheck k
  | RunSQL _ _ ops _ _ => ops = []
  | SeparateDatabaseAndState _ ops => ops = []
  | RenameModel _ _ | RenameField _ _ _ | AlterConstraint _ _ _ => False
  | _ => True
  end.

(** ** Reduce, inverted *)

Lemma reduce_unless_inv op other b r :
  reduce_unless op other b = r →
  (Elidable op = true ∧ r = ReduceReplace [other]) ∨
  (Elidable other = true ∧ r = ReduceReplace [op]) ∨
  (b = true ∧ r = ReduceBlock) ∨ (b = false ∧ r = ReduceThrough).
Proof.
  intros <-. unfold reduce_unless, baseReduce. destruct (Elidable op), (Elidable other), b; auto 10.
Qed.

Lemma baseReduce_through op other : baseReduce op other ≠ ReduceThrough.
Proof. unfold baseReduce. by destruct (Elidable op), (Elidable other). Qed.

(** ReferencesModel holds of the operation's own model. *)
Lemma ReferencesModel_own op n k :
  op_key app op = Some k → k = mkModelKey app (ToLower n) → ReferencesModel op n app = true.
Proof.
  intros Hk ->. assert (∀ m, op_model op = Some m → EqualFold n m = true) as Hm.
  { intros m Hm. unfold op_key in Hk. rewrite Hm in Hk. simpl in Hk. apply EqualFold_spec. congruence. }
  destruct op; simpl in Hm |- *; try done; unfold fieldOpReferencesModel;
    try (by rewrite Hm by done); by rewrite ?Hm, ?orb_true_r by done.
Qed.

(** The field operations on a column, of those a good operation can be *)
Definition column_of (op : Operation) : option string :=
  match op with
  | AddField _ n _ _ | AlterField _ n _ _ | RemoveField _ n => Some n
  | _ => None
  end.

(** When an operation does not touch the column [n] of a model *)
Definition leaves_column (op : Operation) (n : string) : Prop :=
  match op with
  | AddField _ g _ _ | AlterField _ g _ _ | RemoveField _ g => g ≠ n
  | AlterUniqueTogether _ ut => Forall (fun t => n ∉ t) ut
  | _ => False
  end.

Lemma ReferencesField_own op m n k :
  good_op op → op_key app op = Some k → k = mkModelKey app (ToLower m) →
  ReferencesField op m n app = false → leaves_column op n.
Proof.
  intros Hg Hk Hm. pose proof (ReferencesModel_own op m k Hk Hm) as Href.
  assert (∀ m', op_model op = Some m' → EqualFold m m' = true) as Hfold.
  { intros m' Hm'. unfold op_key in Hk. rewrite Hm' in Hk. simpl in Hk. apply EqualFold_spec. congruence. }
  destruct op; try (rewrite Href; done); try done; simpl in Href, Hfold |- *; try congruence;
    unfold fieldOpReferencesField; rewrite ?Hfold by done; simpl; try case_bool_decide; try congruence; try done.
  - intros Hex. apply Forall_forall. intros t Ht Hn.
    apply not_true_iff_false in Hex. apply Hex, existsb_exists. exists t.
    split; [by apply list_elem_of_In|]. apply existsb_exists. exists n.
    split; [by apply list_elem_of_In|]. by apply bool_decide_eq_true.
Qed.

(** What a Through means: the two operations act on different models, or on
    different columns. *)
Definition independent (op other : Operation) : Prop :=
  op_key app op = None ∨ op_key app other = None ∨ op_key app op ≠ op_key app other ∨
  (op_key app op = op_key app other ∧ ∃ n, column_of op = Some n ∧ leaves_column other n).

Lemma independent_model op other n :
  op_model op = Some n → ReferencesModel other n app = false → independent op other.
Proof.
  intros Hm Href. right; right; left. intros Heq. symmetry in Heq.
  unfold op_key in Heq at 2. rewrite Hm in Heq. simpl in Heq.
  by rewrite (ReferencesModel_own _ n _ Heq eq_refl) in Href.
Qed.

Lemma independent_column op other m n :
  good_op other → op_model op = Some m → column_of op = Some n → ReferencesField other m n app = false →
  independent op other.
Proof.
  intros Hg Hm Hc Href. destruct (op_key app other) as [k|] eqn:Hk; [|unfold independent; tauto].
  destruct (decide (op_key app op = Some k)) as [Heq|Hne].
  - right; right; right. split; [congruence|]. exists n. split; [done|].
    eapply ReferencesField_own; [done|done| |done]. unfold op_key in Heq. rewrite Hm in Heq. by simplify_eq/=.
  - right; right; left. congruence.
Qed.

Lemma modelOpReduce_through op n other :
  op_model op = Some n → modelOpReduce op n other app = ReduceThrough → independent op other.
Proof.
  intros Hm [[_ ?]|[[_ ?]|[[_ ?]|[Href _]]]]%reduce_unless_inv; try done. by eapply independent_model.
Qed.

Lemma fieldOpReduce_through op m n other :
  good_op other → op_model op = Some m → column_of op = Some n →
  fieldOpReduce op m n other app = ReduceThrough → independent op other.
Proof.
  intros Hg Hm Hc [[_ ?]|[[_ ?]|[[_ ?]|[Href _]]]]%reduce_unless_inv; try done. by eapply independent_column.
Qed.

Lemma CreateModel_Reduce_default n t fs o other r :
  CreateModel_Reduce n t fs o other app = r →
  (∃ ops, r = ReduceReplace ops ∧ op_key app other = Some (mkModelKey app (ToLower n))) ∨
  r = modelOpReduce (CreateModel n t fs o) n other app.
Proof.
  intros <-. unfold CreateModel_Reduce, op_key.
  destruct other; simpl; try (by right);
    (case_bool_decide as Hn; [|by right]); left; eexists; (split; [reflexivity|]); by rewrite Hn.
Qed.

Lemma modelOptionReduce_through op n other b :
  op_model op = Some n → modelOptionReduce op n other app b = ReduceThrough → independent op other.
Proof.
  intros Hm. unfold modelOptionReduce. case_match; [done|]. by apply modelOpReduce_through.
Qed.

Lemma Reduce_through op other :
  good_op op → good_op other → Reduce op other app = ReduceThrough → independent op other.
Proof.
  intros Hg Hgo. destruct op; simpl; intros Hr; try done;
    try (by apply baseReduce_through in Hr);
    try (by eapply modelOpReduce_through);
    try (by eapply modelOptionReduce_through).
  - apply CreateModel_Reduce_default in Hr as [(ops & ? & _)|Hr]; [done|]. by eapply modelOpReduce_through.
  - unfold AddIndex_Reduce in Hr. by repeat case_match; try (apply baseReduce_through in Hr).
  - unfold RenameIndex_Reduce in Hr. by repeat case_match; try (apply baseReduce_through in Hr).
  - unfold AddConstraint_Reduce in Hr. by repeat case_match; try (apply baseReduce_through in Hr).
  - unfold AddField_Reduce in Hr. repeat (case_match; try done); by eapply fieldOpReduce_through.
  - unfold RemoveField_Reduce in Hr. repeat (case_match; try done); by eapply fieldOpReduce_through.
  - unfold AlterField_Reduce in Hr. repeat (case_match; try done); by eapply fieldOpReduce_through.
  - unfold CreateCollation_Reduce in Hr. by repeat case_match; try (apply baseReduce_through in Hr).
  - unfold AddIndex_Reduce in Hr. by repeat case_match; try (apply baseReduce_through in Hr).
  - unfold AddConstraint_Reduce in Hr. by repeat case_match; try (apply baseReduce_through in Hr).
Qed.
End good.

(** ** Operations on different columns commute *)

Lemma elem_of_drop n x fs : x ∈ Fields_Names (drop_field n fs) ↔ x ≠ n ∧ x ∈ Fields_Names fs.
Proof. rewrite Fields_Names_drop. by rewrite list_elem_of_filter. Qed.

Lemma elem_of_snoc n f x fs : x ∈ Fields_Names (fs ++ [mkNamedField n f]) ↔ x ∈ Fields_Names fs ∨ x = n.
Proof. rewrite Fields_Names_snoc, elem_of_app, list_elem_of_singleton. done. Qed.

Lemma drop_field_snoc n g f fs :
  g ≠ n → drop_field n (fs ++ [mkNamedField g f]) = drop_field n fs ++ [mkNamedField g f].
Proof. intros Hne. unfold drop_field. by rewrite filter_app, filter_cons_True. Qed.

Lemma drop_field_comm n g fs : drop_field n (drop_field g fs) = drop_field g (drop_field n fs).
Proof.
  unfold drop_field. induction fs as [|nf fs IH]; [done|]. rewrite !filter_cons.
  repeat case_decide; rewrite ?filter_cons; repeat case_decide; try done; by rewrite IH.
Qed.

Lemma replace_field_snoc n f g h fs :
  g ≠ n → replace_field n f (fs ++ [mkNamedField g h]) = replace_field n f fs ++ [mkNamedField g h].
Proof. intros Hne. unfold replace_field. rewrite map_app. simpl. by rewrite bool_decide_eq_false_2. Qed.

Lemma replace_drop_comm n f g fs :
  g ≠ n → replace_field n f (drop_field g fs) = drop_field g (replace_field n f fs).
Proof.
  intros Hne. unfold replace_field, drop_field. induction fs as [|nf fs IH]; [done|].
  rewrite filter_cons. simpl. case_decide as Hd; simpl; rewrite IH;
    case_bool_decide; rewrite filter_cons; simpl; case_decide; congruence.
Qed.

Lemma replace_field_comm n f g h fs :
  g ≠ n → replace_field n f (replace_field g h fs) = replace_field g h (replace_field n f fs).
Proof.
  intros Hne. unfold replace_field. rewrite !map_map. apply map_ext. intros nf.
  repeat (case_bool_decide; simpl in *; try congruence).
Qed.

Lemma elem_of_normalizeTogether ut x : x ∈ normalizeTogether ut ↔ x ∈ ut.
Proof.
  unfold normalizeTogether. case_bool_decide as Hl.
  - apply length_zero_iff_nil in Hl as ->. done.
  - rewrite (map_fixed (map id)); [done|]. intros t _. apply map_id.
Qed.

Ltac guard_ok := rewrite option_guard_True by
  (unfold index_names, constraint_names in *; simpl; rewrite ?elem_of_snoc, ?elem_of_drop, ?Fields_Names_replace in *;
   naive_solver).

Lemma column_commute app op other n m m1 m2 :
  column_of op = Some n → leaves_column other n →
  (∀ k ut, other = AlterUniqueTogether k ut → [] ∉ ut) →
  model_step app op m = Some m1 → model_step app other m1 = Some m2 →
  ∃ m1' m2', model_step app other m = Some m1' ∧ model_step app op m1' = Some m2' ∧ model_equiv m2 m2'.
Proof.
  intros Hcol Hleave Hut H1 H2.
  destruct op; try discriminate Hcol; injection Hcol as ->; simpl in H1; guards H1; injection H1 as <-;
  destruct other; try done; simpl in Hleave, H2 |- *; guards H2; injection H2 as <-.
  all: simpl in *; rewrite ?elem_of_snoc, ?elem_of_drop, ?Fields_Names_replace in *.
  all: try (rewrite option_guard_True by naive_solver).
  all: eexists; eexists; (split; [reflexivity|]); simpl.
  all: try (rewrite option_guard_True by (simpl; rewrite ?elem_of_snoc, ?elem_of_drop, ?Fields_Names_replace; naive_solver)).
  all: try ((split; [reflexivity|]); eexists; split; [|reflexivity]; simpl).
  all: rewrite ?drop_field_snoc, ?replace_field_snoc by done; try reflexivity.
  all: try (rewrite <- !app_assoc; by apply Permutation_app_head, perm_swap).
  all: try (by rewrite drop_field_comm).
  all: try (by rewrite replace_drop_comm).
  all: try (by rewrite replace_field_comm).
  rewrite option_guard_True.
  - split; [reflexivity|]. by exists (drop_field n (ms_Fields m)).
  - split; [tauto|]. apply Forall_forall. intros t Ht. rewrite elem_of_normalizeTogether in Ht.
    rewrite Forall_forall in Hleave. split; [by apply Hleave|]. intros ->. exact (Hut _ _ eq_refl Ht).
Qed.

(** ** Folding an operation into the CreateModel before it *)

Lemma ConstraintName_qualify app c : ConstraintName (qualifyConstraint app c) = ConstraintName c.
Proof. destruct c as [c|c|fk]; simpl; try done. by case_match. Qed.

Lemma Fields_Names_filter (P : NamedField → Prop) `{∀ x, Decision (P x)} fs :
  NoDup (Fields_Names fs) → NoDup (Fields_Names (filter P fs)).
Proof.
  unfold Fields_Names. induction fs as [|nf fs IH]; [done|]. simpl. rewrite NoDup_cons, filter_cons.
  intros [Hn Hnd]. case_decide; simpl; [|by apply IH]. apply NoDup_cons. split; [|by apply IH].
  intros (y & Hy & Hin)%list_elem_of_fmap. apply list_elem_of_filter in Hin as [_ Hin].
  apply Hn, list_elem_of_fmap. eauto.
Qed.

(** The CreateModel that Reduce makes of a CreateModel and an operation on
    the same model *)
Definition fold_model (m : ModelState) (op : Operation) : ModelState :=
  match op with
  | AlterModelOptions _ managed => set_options (opt_set_Managed managed) m
  | AlterModelTable _ t => ms_set_Table t m
  | AlterModelTableComment _ v => set_options (opt_set_DBTableComment v) m
  | AlterUniqueTogether _ ut => set_options (opt_set_UniqueTogether (normalizeTogether ut)) m
  | AddField _ fn f _ => ms_set_Fields (ms_Fields m ++ [mkNamedField fn f]) m
  | AlterField _ fn f _ =>
      ms_set_Fields
        (map (fun nf => if bool_decide (nf_Name nf = fn) then mkNamedField (nf_Name nf) f else nf) (ms_Fields m)) m
  | RemoveField _ fn =>
      ms_set_Fields (filter (fun nf => EqualFold (nf_Name nf) fn = false) (ms_Fields m))
        (set_options (fun c => opt_set_UniqueTogether (drop_from_together fn (opt_UniqueTogether c)) c) m)
  | AddIndex _ ix => set_options (fun c => opt_set_Indexes (opt_Indexes c ++ [ix]) c) m
  | RemoveIndex _ n => set_options (fun c => opt_set_Indexes (filter (fun ix => ix_Name ix ≠ n) (opt_Indexes c)) c) m
  | AddConstraint _ k => set_options (fun c => opt_set_Constraints (opt_Constraints c ++ [k]) c) m
  | RemoveConstraint _ n =>
      set_options (fun c => opt_set_Constraints (filter (fun k => ConstraintName k ≠ n) (opt_Constraints c)) c) m
  | _ => m
  end.

Definition folds (op : Operation) : bool :=
  match op with
  | AlterModelOptions _ _ | AlterModelTable _ _ | AlterModelTableComment _ _ | AlterUniqueTogether _ _
  | AddField _ _ _ _ | AlterField _ _ _ _ | RemoveField _ _ | AddIndex _ _ | RemoveIndex _ _
  | AddConstraint _ _ | RemoveConstraint _ _ => true
  | _ => false
  end.

Lemma drop_from_together_id n ut :
  lower n → Forall (fun t => n ∉ t ∧ t ≠ []) ut → drop_from_together n ut = ut.
Proof.
  intros Hl Hut. unfold drop_from_together. rewrite Forall_forall in Hut.
  rewrite (map_fixed (filter (fun f => f ≠ ToLower n))).
  - apply filter_all. intros t Ht. by apply Hut.
  - intros t Ht. apply filter_all. intros f Hf. rewrite Hl. intros ->. exact (proj1 (Hut t Ht) Hf).
Qed.

Lemma fold_model_ok app owner m op m2 :
  good_op app owner op → folds op = true → model_ok m → model_step app op (qualified_model m) = Some m2 →
  model_ok (fold_model m op).
Proof.
  intros Hg Hf (Hnd & Hix & Hc) Hstep. pose proof (Fields_Names_qualified m) as Hq. simpl in Hq.
  destruct op; try discriminate Hf; simpl in Hstep; unfold add_index, remove_index in Hstep; guards Hstep;
    unfold model_ok; simpl; rewrite ?Hq in *; split_and!; try done.
  - intros ix [Hin| ->%list_elem_of_singleton]%elem_of_app; [by apply Hix|]. tauto.
  - intros ix [_ Hin]%list_elem_of_filter. by apply Hix.
  - intros c [Hin| ->%list_elem_of_singleton]%elem_of_app; [by apply Hc|done].
  - intros c [_ Hin]%list_elem_of_filter. by apply Hc.
  - rewrite Fields_Names_snoc. by apply NoDup_snoc.
  - by apply Fields_Names_filter.
  - unfold Fields_Names in *. rewrite map_map. erewrite map_ext; [exact Hnd|].
    intros nf. by case_bool_decide.
Qed.

Lemma replace_qualified app n f fs :
  replace_field n (stored_field app f true)
    (map (fun nf => mkNamedField (nf_Name nf) (qualifyForeignKey (nf_Field nf) app)) fs) =
  map (fun nf => mkNamedField (nf_Name nf) (qualifyForeignKey (nf_Field nf) app))
    (map (fun nf => if bool_decide (nf_Name nf = n) then mkNamedField (nf_Name nf) f else nf) fs).
Proof.
  unfold replace_field. rewrite !map_map. apply map_ext. intros nf. simpl. case_bool_decide as Hn; [|done].
  rewrite <- Hn. unfold stored_field. by rewrite Field_Clone_id.
Qed.

Lemma fold_model_step app owner m op m2 :
  good_op app owner op → folds op = true → ms_App m = app →
  Forall lower (Fields_Names (ms_Fields m)) →
  model_step app op (qualified_model m) = Some m2 → m2 = qualified_model (fold_model m op).
Proof.
  intros Hg Hf Happ Hlow Hstep.
  destruct op; try discriminate Hf; simpl in Hstep; unfold add_index, remove_index, add_constraint in Hstep;
    guards Hstep; injection Hstep as <-; try reflexivity; unfold qualified_model, set_options; simpl; rewrite ?Happ.
  - unfold qualifyConstraints. by rewrite map_app.
  - unfold qualifyConstraints.
    rewrite (filter_map (qualifyConstraint app) _ (fun c => ConstraintName c ≠ Name)); [done|].
    intros c _. by rewrite ConstraintName_qualify.
  - destruct Hg as [_ Hp]. rewrite Hp, map_app. simpl. unfold stored_field. by rewrite Field_Clone_id.
  - destruct HP as [_ Hut]. simpl in Hut. rewrite drop_from_together_id by done.
    unfold drop_field.
    rewrite (filter_map _ _ (fun nf => EqualFold (nf_Name nf) Name = false)); [by destruct m as [???? []]|].
    intros nf Hnf. simpl. rewrite EqualFold_decide, bool_decide_eq_false. rewrite Forall_forall in Hlow.
    rewrite (Hlow (nf_Name nf)) by (apply list_elem_of_fmap; eauto). by rewrite Hg.
  - destruct Hg as [_ Hp]. rewrite Hp. by rewrite replace_qualified.
Qed.

(** ** What a Replace means *)

Section replace.
Context (app : string) (owner : string → ModelKey).
Notation good := (good_op app owner).
Notation key n := (mkModelKey app (ToLower n)).

(** The pair and its replacement act on one model, where they come to the
    same. *)
Definition folded (op other : Operation) (ops : list Operation) : Prop :=
  ∃ k, op_key app op = Some k ∧ op_key app other = Some k ∧
       Forall (fun o => op_key app o = Some k ∧ good o) ops ∧
       ∀ a r, slot_inv a → slot_run app [op; other] a = Some r → slot_run app ops a = Some r.

(** One of the two, or both, do nothing to a state. *)
Definition dropped (op other : Operation) (ops : list Operation) : Prop :=
  (op_model op = None ∧ ops = [other]) ∨ (op_model other = None ∧ ops = [op]) ∨
  (op_model op = None ∧ op_model other = None ∧ ops = []).

Lemma good_elidable op : good op → Elidable op = true → op_model op = None.
Proof. by destruct op. Qed.

Lemma reduce_unless_replace op other b ops :
  good op → good other → reduce_unless op other b = ReduceReplace ops → dropped op other ops.
Proof.
  intros Hg Hgo [[He Hr]|[[He Hr]|[[_ Hr]|[_ Hr]]]]%reduce_unless_inv; simplify_eq.
  - left. split; [by apply good_elidable|done].
  - right; left. split; [by apply good_elidable|done].
Qed.

Lemma baseReduce_replace op other ops :
  good op → good other → baseReduce op other = ReduceReplace ops → dropped op other ops.
Proof.
  intros Hg Hgo Hr. apply (reduce_unless_replace op other true); [done..|]. unfold reduce_unless. by rewrite Hr.
Qed.

(** A pair on one model, from what it does to a model that exists *)
Lemma folded_changes op other ops k :
  changes_model op = true → changes_model other = true →
  op_key app op = Some k → op_key app other = Some k →
  Forall (fun o => op_key app o = Some k ∧ good o) ops →
  (∀ m m1 m2, NoDup (Fields_Names (ms_Fields m)) → model_step app op m = Some m1 →
     model_step app other m1 = Some m2 → slot_run app ops (Some m) = Some (Some m2)) →
  folded op other ops.
Proof.
  intros Hc Hc' Hk Hk' Hops Hrun. exists k. split_and!; [done..|].
  intros a r Ha. cbn [slot_run]. rewrite slot_step_model by done.
  destruct a as [m|]; [|done]. simpl. intros (sl & (m1 & Hm1 & ->)%fmap_Some & Hr)%bind_Some.
  rewrite slot_step_model in Hr by done. simpl in Hr.
  destruct (model_step app other m1) as [m2|] eqn:Hm2; [|done]. simpl in Hr. injection Hr as <-.
  by eapply Hrun.
Qed.

(** An operation that the next one supersedes *)
Lemma folded_superseded op other k :
  good other → changes_model op = true → changes_model other = true →
  op_key app op = Some k → op_key app other = Some k →
  (∀ m m1 m2, NoDup (Fields_Names (ms_Fields m)) → model_step app op m = Some m1 →
     model_step app other m1 = Some m2 → model_step app other m = Some m2) →
  folded op other [other].
Proof.
  intros Hg Hc Hc' Hk Hk' Hrun. eapply folded_changes; [done..|by repeat constructor|].
  intros m m1 m2 Hm H1 H2. cbn [slot_run]. rewrite slot_step_model by done. simpl.
  by rewrite (Hrun m m1 m2).
Qed.

Lemma folded_deleted op n k :
  changes_model op = true → op_key app op = Some k → key n = k → folded op (DeleteModel n) [DeleteModel n].
Proof.
  intros Hc Hk Hn. exists k. unfold op_key at 2. simpl. split_and!; [done|by rewrite Hn| |].
  - repeat constructor. unfold op_key. simpl. by rewrite Hn.
  - intros a r Ha. cbn [slot_run]. rewrite slot_step_model by done. destruct a as [m|]; simpl; [|done]. by destruct (model_step app op m).
Qed.

Lemma EqualFold_key n m : EqualFold n m = true → key n = key m.
Proof. intros ->%EqualFold_spec. done. Qed.

Lemma modelOptionReduce_replace op n other b ops :
  good op → good other → op_model op = Some n → changes_model op = true →
  modelOptionReduce op n other app b = ReduceReplace ops →
  (b = true → EqualFold n (modelOpName other) = true → folded op other [other]) →
  folded op other ops ∨ dropped op other ops.
Proof.
  intros Hg Hgo Hn Hc Hr Hsame. unfold modelOptionReduce in Hr.
  destruct ((b || is_DeleteModel other) && EqualFold n (modelOpName other)) eqn:Hb.
  - injection Hr as <-. left. apply andb_true_iff in Hb as [[->|Hd]%orb_true_iff Hf]; [by apply Hsame|].
    destruct other; try discriminate Hd. simpl in Hf. apply (folded_deleted op Name (key n)); [done| |].
    + unfold op_key. by rewrite Hn.
    + by rewrite (EqualFold_key _ _ Hf).
  - right. by apply (reduce_unless_replace op other (ReferencesModel other n app)).
Qed.

Lemma fold_model_lower m op :
  good op → Forall lower (Fields_Names (ms_Fields m)) → Forall lower (Fields_Names (ms_Fields (fold_model m op))).
Proof.
  intros Hg Hm. destruct op; simpl; try done.
  - destruct Hg as [Hn _]. rewrite Fields_Names_snoc. apply Forall_app. by repeat constructor.
  - rewrite Forall_forall in Hm |- *. intros x (nf & -> & Hin)%list_elem_of_fmap. apply Hm.
    apply list_elem_of_filter in Hin as [_ Hin]. apply list_elem_of_fmap. eauto.
  - unfold Fields_Names in *. rewrite map_map. erewrite map_ext; [exact Hm|]. intros nf. by case_bool_decide.
Qed.

Lemma folds_changes op : folds op = true → changes_model op = true.
Proof. by destruct op. Qed.

Lemma folded_create n t fs o other t' fs' o' :
  good (CreateModel n t fs o) → good other → folds other = true → op_key app other = Some (key n) →
  mkModelState app n t' fs' o' = fold_model (mkModelState app n t fs o) other →
  folded (CreateModel n t fs o) other [CreateModel n t' fs' o'].
Proof.
  intros Hg Hgo Hf Hk Heq. exists (key n). split_and!; [done|done| |].
  - repeat constructor. simpl. change fs' with (ms_Fields (mkModelState app n t' fs' o')). rewrite Heq.
    by apply fold_model_lower.
  - intros a r Ha. cbn [slot_run]. pose proof (slot_step_model app other) as Hstep.
    cbn [slot_step]. cbv zeta. rewrite Heq. clear Heq. set (m := mkModelState app n t fs o).
    intros (sl & H1 & H2)%bind_Some. guards H1. injection H1 as <-. destruct HP as [-> Hv%Validate_is_ok].
    rewrite Hstep in H2 by exact (folds_changes _ Hf). simpl in H2. rewrite bind_Some in H2. destruct H2 as (sl & (m2 & Hm2 & ->)%fmap_Some & [= <-]).
    rewrite option_guard_True.
    + simpl. do 2 f_equal. symmetry. by eapply (fold_model_step app owner m other).
    + split; [done|]. apply Validate_is_ok. by eapply fold_model_ok.
Qed.

Lemma CreateModel_replace n t fs o other ops :
  good (CreateModel n t fs o) → good other → CreateModel_Reduce n t fs o other app = ReduceReplace ops →
  folded (CreateModel n t fs o) other ops ∨ dropped (CreateModel n t fs o) other ops.
Proof.
  intros Hg Hgo Hr. unfold CreateModel_Reduce in Hr. cbv zeta in Hr. rewrite Options_Clone_id in Hr.
  destruct other; try done; try (right; by eapply reduce_unless_replace);
    (case_bool_decide as Hn; [|right; by eapply reduce_unless_replace]); injection Hr as <-; left;
    try (apply folded_create; [done|done|done|unfold op_key; simpl; by rewrite Hn|
           simpl; rewrite ?Index_Clone_id, ?cloneConstraint_id; reflexivity]).
  exists (key n). split_and!; [done|unfold op_key; simpl; by rewrite Hn|done|].
  intros a r Ha. simpl. intros (sl & H1 & H2)%bind_Some. guards H1. destruct HP as [-> _].
  by injection H1 as <-.
Qed.

(** ** Field operations *)

Lemma drop_snoc n f fs : n ∉ Fields_Names fs → drop_field n (fs ++ [mkNamedField n f]) = fs.
Proof.
  intros Hn. unfold drop_field. rewrite filter_app, filter_cons_False by (simpl; naive_solver).
  rewrite filter_nil, app_nil_r. apply filter_all. intros nf Hin Hc. apply Hn. rewrite <- Hc.
  apply list_elem_of_fmap. eauto.
Qed.

Lemma replace_snoc n f g fs :
  n ∉ Fields_Names fs → replace_field n g (fs ++ [mkNamedField n f]) = fs ++ [mkNamedField n g].
Proof.
  intros Hn. unfold replace_field. rewrite map_app. simpl. rewrite bool_decide_eq_true_2 by done. f_equal.
  apply map_fixed. intros nf Hin. case_bool_decide as Hc; [|done]. exfalso. apply Hn. rewrite <- Hc.
  apply list_elem_of_fmap. eauto.
Qed.

Lemma replace_replace n f g fs : replace_field n g (replace_field n f fs) = replace_field n g fs.
Proof.
  unfold replace_field. rewrite map_map. apply map_ext. intros nf.
  by repeat (case_bool_decide; simpl in *; try congruence).
Qed.

Lemma drop_replace n f fs : drop_field n (replace_field n f fs) = drop_field n fs.
Proof.
  unfold drop_field, replace_field. induction fs as [|nf fs IH]; [done|]. simpl. rewrite !filter_cons.
  case_bool_decide; simpl; repeat case_decide; congruence.
Qed.

(** Two field operations on the same column *)
Lemma isSame_key m n m' n' :
  isSameFieldOperation (m, n) (m', n') = true → lower n → lower n' → key m = key m' ∧ n = n'.
Proof.
  unfold isSameFieldOperation. simpl. intros [Hm Hn]%andb_true_iff Hl Hl'. split; [by apply EqualFold_key|].
  apply EqualFold_spec in Hn. congruence.
Qed.

Lemma AddField_replace m n f p other ops :
  good (AddField m n f p) → good other → AddField_Reduce m n f p other app = ReduceReplace ops →
  folded (AddField m n f p) other ops ∨ dropped (AddField m n f p) other ops.
Proof.
  intros Hg Hgo Hr. unfold AddField_Reduce in Hr. cbv zeta in Hr.
  destruct (fieldOp other) as [[m' n']|] eqn:Hfo; [|right; by eapply reduce_unless_replace].
  destruct (isSameFieldOperation (m, n) (m', n')) eqn:Hs; [|right; by eapply reduce_unless_replace].
  destruct other; try done; try (right; by eapply reduce_unless_replace); injection Hfo as -> ->;
    simpl in Hr; injection Hr as <-; left; simpl in Hgo.
  - apply isSame_key in Hs as [Hk <-]; [|apply Hg|apply Hgo].
    apply (folded_changes _ _ _ (key m)); [done|done|done|by rewrite Hk|done|].
    intros x m1 m2 Hx H1 H2. simpl in H1, H2. guards H1. injection H1 as <-. guards H2. injection H2 as <-.
    simpl. rewrite drop_snoc by done. by rewrite ms_set_Fields_set, ms_set_Fields_id.
  - apply isSame_key in Hs as [Hk <-]; [|apply Hg|apply Hgo].
    apply (folded_changes _ _ _ (key m)); [done|done|done|by rewrite Hk|by repeat constructor; apply Hg|].
    intros x m1 m2 Hx H1 H2. simpl in H1, H2. guards H1. injection H1 as <-. guards H2. injection H2 as <-.
    simpl. rewrite option_guard_True by done. simpl. rewrite replace_snoc by done.
    destruct Hg as [_ Hp], Hgo as [_ Hp']. by rewrite ms_set_Fields_set, Hp, Hp'.
Qed.

Lemma RemoveField_replace m n other ops :
  good (RemoveField m n) → good other → RemoveField_Reduce m n other app = ReduceReplace ops →
  folded (RemoveField m n) other ops ∨ dropped (RemoveField m n) other ops.
Proof.
  intros Hg Hgo Hr. unfold RemoveField_Reduce in Hr. cbv zeta in Hr.
  destruct other; try (right; by eapply reduce_unless_replace).
  destruct (EqualFold Name m) eqn:Hf; [|right; by eapply reduce_unless_replace].
  injection Hr as <-. left. apply (folded_deleted _ _ (key m)); [done|done|by apply EqualFold_key].
Qed.

Lemma AlterField_replace m n f p other ops :
  good (AlterField m n f p) → good other → AlterField_Reduce m n f p other app = ReduceReplace ops →
  folded (AlterField m n f p) other ops ∨ dropped (AlterField m n f p) other ops.
Proof.
  intros Hg Hgo Hr. unfold AlterField_Reduce in Hr. cbv zeta in Hr.
  destruct other; try done; try (right; by eapply reduce_unless_replace);
    (case_match eqn:Hs; [|right; by eapply reduce_unless_replace]); injection Hr as <-; left;
    (apply isSame_key in Hs as [Hk <-]; [|apply Hg|apply Hgo]);
    apply (folded_superseded _ _ (key m)); try done; try (unfold op_key; simpl; by rewrite Hk);
    intros x m1 m2 Hx H1 H2; simpl in H1, H2; guards H1; injection H1 as <-; guards H2; injection H2 as <-; simpl in *;
    rewrite ?Fields_Names_replace in HP0; rewrite option_guard_True by done; simpl;
    by rewrite ?drop_replace, ?replace_replace.
Qed.

(** ** Indexes *)

Lemma filter_snoc_drop {A} (f : A → string) n (l : list A) x :
  n ∉ map f l → f x = n → filter (fun y => f y ≠ n) (l ++ [x]) = l.
Proof.
  intros Hn Hx. rewrite filter_app, filter_cons_False by (by intros []). rewrite filter_nil, app_nil_r.
  apply filter_all. intros y Hy Hc. apply Hn. rewrite <- Hc. by apply (list_elem_of_fmap_2 f).
Qed.

Lemma rename_indexes_fresh old new ixs : old ∉ map ix_Name ixs → rename_indexes old new ixs = ixs.
Proof.
  intros Hn. apply map_fixed. intros ix Hin. case_bool_decide as Hc; [|done]. exfalso. apply Hn.
  rewrite <- Hc. by apply (list_elem_of_fmap_2 ix_Name).
Qed.

Lemma names_rename_indexes old new ixs :
  map ix_Name (rename_indexes old new ixs) = map (fun x => if bool_decide (x = old) then new else x) (map ix_Name ixs).
Proof. unfold rename_indexes. rewrite !map_map. apply map_ext. intros ix. by case_bool_decide. Qed.

Lemma rename_indexes_twice a b c ixs :
  b ∉ map ix_Name ixs ∨ b = a →
  rename_indexes b c (rename_indexes a b ixs) = rename_indexes a c ixs.
Proof.
  intros Hb. unfold rename_indexes. rewrite map_map. apply map_ext_in. intros ix Hin%list_elem_of_In.
  destruct (decide (ix_Name ix = a)) as [->|Hne].
  - rewrite !(bool_decide_eq_true_2 (a = a)) by done. simpl. by rewrite bool_decide_eq_true_2.
  - rewrite !(bool_decide_eq_false_2 (ix_Name ix = a)) by done. rewrite bool_decide_eq_false_2; [done|].
    intros Hc. destruct Hb as [Hb| ->]; [|done]. apply Hb. rewrite <- Hc. by apply (list_elem_of_fmap_2 ix_Name).
Qed.

Lemma set_options_id f m : f (ms_Options m) = ms_Options m → set_options f m = m.
Proof. unfold set_options. intros ->. by destruct m. Qed.

Lemma opt_set_Indexes_id o : opt_set_Indexes (opt_Indexes o) o = o.
Proof. by destruct o. Qed.

Lemma opt_set_Constraints_id o : opt_set_Constraints (opt_Constraints o) o = o.
Proof. by destruct o. Qed.

(** AddIndex, AddIndexConcurrently *)
Definition adds_index (mk : Index → Operation) (m : string) : Prop :=
  ∀ ix, changes_model (mk ix) = true ∧ op_key app (mk ix) = Some (key m) ∧
        (good (mk ix) ↔ owner (ix_Name ix) = key m) ∧ ∀ x, model_step app (mk ix) x = add_index ix x.

Lemma AddIndex_adds m : adds_index (AddIndex m) m.
Proof. done. Qed.

Lemma AddIndexConcurrently_adds m : adds_index (AddIndexConcurrently m) m.
Proof. done. Qed.

Lemma add_index_remove ix m m1 m2 :
  add_index ix m = Some m1 → remove_index (ix_Name ix) m1 = Some m2 → m2 = m.
Proof.
  intros H1 H2. unfold add_index in H1. guards H1. injection H1 as <-.
  unfold remove_index in H2. guards H2. injection H2 as <-.
  unfold set_options. simpl. rewrite filter_snoc_drop by (done || apply HP). by destruct m as [???? []].
Qed.

Lemma AddIndex_replace mk m ix other ops :
  adds_index mk m → good (mk ix) → good other → AddIndex_Reduce mk ix other = ReduceReplace ops →
  folded (mk ix) other ops ∨ dropped (mk ix) other ops.
Proof.
  intros Hmk Hg Hgo Hr. destruct (Hmk ix) as (Hc & Hk & Hgood & Hstep). apply Hgood in Hg as Ho.
  unfold AddIndex_Reduce in Hr. cbv zeta in Hr.
  destruct other; simpl in Hr; try (right; by eapply baseReduce_replace);
    (case_bool_decide as Hn; [|right; by eapply baseReduce_replace]); injection Hr as <-; left; simpl in Hgo.
  - apply (folded_changes _ _ _ (key m)); [done|done|done|unfold op_key; simpl; congruence|done|].
    intros x m1 m2 Hx H1 H2. rewrite Hstep in H1. simpl in H2. rewrite <- Hn in H2.
    by rewrite (add_index_remove _ _ _ _ H1 H2).
  - rewrite Index_Clone_id. set (ix' := ix_set_Name NewName ix). destruct (Hmk ix') as (Hc' & Hk' & Hgood' & Hstep').
    destruct Hgo as (Hnew & Hold & _ & _ & Hne).
    apply (folded_changes _ _ _ (key m)); [done|done|done|unfold op_key; simpl; congruence| |].
    + repeat constructor; [done|]. apply Hgood'. simpl. congruence.
    + intros x m1 m2 Hx H1 H2. rewrite Hstep in H1. unfold add_index in H1. guards H1. injection H1 as <-.
      simpl in H2. guards H2. injection H2 as <-. cbn [slot_run]. rewrite slot_step_model by done. simpl.
      rewrite Hstep'. unfold add_index. destruct HP0 as (_ & _ & Hfresh).
      unfold index_names in *. simpl in *. rewrite map_app in Hfresh. simpl in Hfresh.
      rewrite option_guard_True by set_solver. simpl. do 2 f_equal. unfold set_options. simpl.
      unfold rename_indexes at 1. rewrite map_app. simpl. rewrite bool_decide_eq_true_2 by done.
      fold (rename_indexes OldName NewName (opt_Indexes (ms_Options x))). rewrite rename_indexes_fresh; [done|].
      rewrite <- Hn. tauto.
  - apply (folded_changes _ _ _ (key m)); [done|done|done|unfold op_key; simpl; congruence|done|].
    intros x m1 m2 Hx H1 H2. rewrite Hstep in H1. simpl in H2. rewrite <- Hn in H2.
    by rewrite (add_index_remove _ _ _ _ H1 H2).
Qed.

Lemma RenameIndex_replace m new old other ops :
  good (RenameIndex m new old) → good other → RenameIndex_Reduce m new old other = ReduceReplace ops →
  folded (RenameIndex m new old) other ops ∨ dropped (RenameIndex m new old) other ops.
Proof.
  intros Hg Hgo Hr. unfold RenameIndex_Reduce in Hr. cbv zeta in Hr.
  destruct other; try (right; by eapply baseReduce_replace).
  destruct (_ && _ && _) eqn:Hb; [|right; by eapply baseReduce_replace]. injection Hr as <-. left.
  apply andb_true_iff in Hb as [[Hm _]%andb_true_iff Hn]. apply EqualFold_key in Hm. apply EqualFold_spec in Hn.
  destruct Hg as (Ho1 & Ho2 & Hl1 & Hl2 & Hne), Hgo as (Ho1' & Ho2' & Hl1' & Hl2' & Hne').
  assert (OldName = new) as -> by (unfold lower in *; congruence). rename NewName into c.
  apply (folded_changes _ _ _ (key m)); [done|done|done|unfold op_key; simpl; by rewrite Hm| |].
  - apply Forall_singleton. split; [done|]. simpl. rewrite Hm in *. by split_and!.
  - intros x m1 m2 Hx H1 H2. simpl in H1. guards H1. injection H1 as <-.
    simpl in H2. guards H2. injection H2 as <-. simpl. destruct HP as (Hold & Hin & Hfresh), HP0 as (_ & _ & Hfresh').
    rewrite option_guard_True.
    + simpl. do 2 f_equal. unfold set_options. simpl. by rewrite rename_indexes_twice.
    + split_and!; [done|done|]. unfold index_names in *. simpl in Hfresh'. rewrite names_rename_indexes in Hfresh'.
      destruct Hfresh' as [Hc| ->]; [|done]. destruct (decide (c = old)) as [->|Hco]; [by right|]. left. intros Hin'.
      apply Hc. apply list_elem_of_fmap. exists c. split; [|done]. by rewrite bool_decide_eq_false_2.
Qed.

(** ** Constraints *)

Definition adds_constraint (mk : Constraint → Operation) (m : string) : Prop :=
  ∀ c, changes_model (mk c) = true ∧ op_key app (mk c) = Some (key m) ∧
       ∀ x, model_step app (mk c) x = add_constraint app c x.

Lemma AddConstraint_replace mk m c other ops :
  adds_constraint mk m → good (mk c) → good other → AddConstraint_Reduce mk m c other = ReduceReplace ops →
  folded (mk c) other ops ∨ dropped (mk c) other ops.
Proof.
  intros Hmk Hg Hgo Hr. destruct (Hmk c) as (Hc & Hk & Hstep).
  unfold AddConstraint_Reduce in Hr. cbv zeta in Hr.
  destruct other; try done; try (right; by eapply baseReduce_replace).
  destruct (_ && _) eqn:Hb; [|right; by eapply baseReduce_replace]. injection Hr as <-. left.
  apply andb_true_iff in Hb as [Hm%EqualFold_key Hn%bool_decide_eq_true].
  apply (folded_changes _ _ _ (key m)); [done|done|done|unfold op_key; simpl; by rewrite Hm|done|].
  intros x m1 m2 Hx H1 H2. rewrite Hstep in H1. unfold add_constraint in H1. guards H1. injection H1 as <-.
  injection H2 as <-. simpl. do 2 f_equal. unfold set_options. simpl.
  rewrite (filter_snoc_drop ConstraintName); [|by rewrite <- Hn|by rewrite ConstraintName_qualify].
  by destruct x as [???? []].
Qed.

(** ** Every pair *)

Ltac superseded :=
  intros; eapply (folded_superseded _ _ (key _)); [done|done|done|done|
    unfold op_key; simpl; by f_equal; symmetry; apply EqualFold_key|
    intros x m1 m2 Hx H1 H2; simpl in H1, H2; by simplify_eq].

Lemma Reduce_replace op other ops :
  good op → good other → Reduce op other app = ReduceReplace ops →
  folded op other ops ∨ dropped op other ops.
Proof.
  intros Hg Hgo Hr. destruct op; simpl in Hr; try done; try (right; by eapply baseReduce_replace).
  - by apply CreateModel_replace.
  - right. by eapply reduce_unless_replace.
  - eapply modelOptionReduce_replace; [done..|]. destruct other; try done; superseded.
  - eapply modelOptionReduce_replace; [done..|]. destruct other; try done; superseded.
  - apply (modelOptionReduce_replace _ Name other (match other with AlterUniqueTogether _ _ => true | _ => false end));
      [done..|]. destruct other; try done; superseded.
  - eapply modelOptionReduce_replace; [done..|]. destruct other; try done; superseded.
  - eapply AddIndex_replace; [apply AddIndex_adds|done..].
  - by apply RenameIndex_replace.
  - by eapply AddConstraint_replace.
  - by apply AddField_replace.
  - by apply RemoveField_replace.
  - by apply AlterField_replace.
  - unfold CreateCollation_Reduce in Hr. destruct other; try (right; by eapply baseReduce_replace).
    case_match; [|right; by eapply baseReduce_replace]. injection Hr as <-. right. unfold dropped. tauto.
  - eapply AddIndex_replace; [apply AddIndexConcurrently_adds|done..].
  - by eapply AddConstraint_replace.
Qed.
End replace.

(** ** The laws *)

Section laws.
Context (app : string) (owner : string → ModelKey).
Notation good := (good_op app owner).

(** The effect of an operation on the models of a state: on its slot *)
Definition models_step (op : Operation) (ms : models) : outcome models :=
  match op_key app op with
  | None => Ok ms
  | Some k =>
      match slot_step app op (ms !! k) with
      | Some sl => Ok (partial_alter (fun _ => sl) k ms)
      | None => Err (PlainError "not a well-formed history")
      end
  end.

Definition models_equiv (a b : models) : Prop := ∀ k, slot_equiv (a !! k) (b !! k).
Definition models_inv (a : models) : Prop := ∀ k, slot_inv (a !! k).

#[export] Instance models_equiv_equivalence : Equivalence models_equiv.
Proof.
  split.
  - by intros a k.
  - intros a b Hab k. by symmetry.
  - intros a b c Hab Hbc k. by trans (b !! k).
Qed.

#[export] Instance models_semantics : ReducerSemantics Operation models := {|
  sem_step := models_step;
  sem_equiv := models_equiv;
  sem_inv := models_inv;
  sem_good := good;
|}.

#[local] Instance operations_reducible : Reducible Operation := app_Reducible app.

Lemma partial_alter_lookup (ms : models) k sl k' :
  partial_alter (fun _ => sl) k ms !! k' = if decide (k = k') then sl else ms !! k'.
Proof.
  case_decide as Hd; [subst; apply lookup_partial_alter_eq|by apply lookup_partial_alter_ne].
Qed.

Lemma partial_alter_id (ms : models) k sl : ms !! k = sl → partial_alter (fun _ => sl) k ms = ms.
Proof.
  intros Hk. apply map_eq. intros k'. rewrite partial_alter_lookup. case_decide; congruence.
Qed.

Lemma partial_alter_twice (ms : models) k sl sl' :
  partial_alter (fun _ => sl) k (partial_alter (fun _ => sl') k ms) = partial_alter (fun _ => sl) k ms.
Proof. apply map_eq. intros k'. rewrite !partial_alter_lookup. by case_decide. Qed.

Lemma partial_alter_swap (ms : models) k k' sl sl' :
  k ≠ k' →
  partial_alter (fun _ => sl) k (partial_alter (fun _ => sl') k' ms) =
  partial_alter (fun _ => sl') k' (partial_alter (fun _ => sl) k ms).
Proof. intros Hne. apply map_eq. intros i. rewrite !partial_alter_lookup. repeat case_decide; congruence. Qed.

Lemma models_step_key op k ms :
  op_key app op = Some k →
  models_step op ms = match slot_step app op (ms !! k) with
                      | Some sl => Ok (partial_alter (fun _ => sl) k ms)
                      | None => Err (PlainError "not a well-formed history")
                      end.
Proof. intros Hk. unfold models_step. by rewrite Hk. Qed.

Lemma models_step_none op ms : op_model op = None → models_step op ms = Ok ms.
Proof. intros Hn. unfold models_step, op_key. by rewrite Hn. Qed.

(** Operations on one model run in its slot. *)
Lemma models_run_slot ops k ms :
  Forall (fun o => op_key app o = Some k) ops →
  sem_run ops ms = match slot_run app ops (ms !! k) with
                   | Some sl => Ok (partial_alter (fun _ => sl) k ms)
                   | None => Err (PlainError "not a well-formed history")
                   end.
Proof.
  revert ms. induction ops as [|op ops IH]; intros ms Hops.
  { simpl. unfold sem_run. simpl. by rewrite partial_alter_id. }
  apply Forall_cons in Hops as [Hk Hops]. unfold sem_run in *. rewrite foldM_cons. simpl.
  rewrite (models_step_key op k) by done. destruct (slot_step app op (ms !! k)) as [sl|]; simpl; [|done].
  simpl in IH. rewrite IH by done. rewrite lookup_partial_alter_eq. destruct (slot_run app ops sl); [|done].
  by rewrite partial_alter_twice.
Qed.

Lemma models_run_refined ops ops' k ms :
  Forall (fun o => op_key app o = Some k) ops → Forall (fun o => op_key app o = Some k) ops' →
  (∀ r, slot_run app ops (ms !! k) = Some r → ∃ r', slot_run app ops' (ms !! k) = Some r' ∧ slot_equiv r r') →
  refined (sem_run ops ms) (sem_run ops' ms).
Proof.
  intros Hk Hk' Hr s1. rewrite (models_run_slot ops k) by done. rewrite (models_run_slot ops' k) by done.
  destruct (slot_run app ops _) as [r|]; [|done]. intros [= <-]. destruct (Hr r eq_refl) as (r' & -> & He).
  eexists. split; [done|]. intros k'. rewrite !partial_alter_lookup. by case_decide.
Qed.

Lemma models_run_none op ops ms :
  op_model op = None → sem_run (op :: ops) ms = sem_run ops ms.
Proof.
  intros Hn. unfold sem_run. rewrite foldM_cons. simpl. by rewrite models_step_none.
Qed.

Lemma models_run_none_last op op' ms :
  op_model op' = None → sem_run [op; op'] ms = sem_run [op] ms.
Proof.
  intros Hn. unfold sem_run. simpl. destruct (models_step op ms); [|done..]. by rewrite models_step_none.
Qed.

Lemma op_key_none op : op_key app op = None → op_model op = None.
Proof. unfold op_key. by destruct (op_model op). Qed.

Lemma refined_eq (o1 o2 : outcome models) : o1 = o2 → refined o1 o2.
Proof. intros <- s1 Hs1. by exists s1. Qed.

Lemma models_law_through op other ms :
  good op → good other → independent app op other →
  refined (sem_run [op; other] ms) (sem_run [other; op] ms).
Proof.
  intros Hg Hgo Hind.
  destruct (op_key app op) as [k|] eqn:Hk; [|].
  2:{ apply op_key_none in Hk. apply refined_eq. by rewrite (models_run_none op [other]), (models_run_none_last other op). }
  destruct (op_key app other) as [k'|] eqn:Hk'; [|].
  2:{ apply op_key_none in Hk'. apply refined_eq. by rewrite (models_run_none_last op other), (models_run_none other [op]). }
  destruct (decide (k = k')) as [->|Hne].
  - destruct Hind as [?|[?|[?|(_ & n & Hc & Hl)]]]; [congruence..|].
    apply (models_run_refined _ _ k'); [by repeat constructor..|]. cbn [slot_run]. intros r.
    assert (changes_model op = true) as Hco by (by destruct op).
    assert (changes_model other = true) as Hco' by (by destruct other).
    rewrite !slot_step_model by done. destruct (ms !! k') as [m|]; [|done]. simpl.
    destruct (model_step app op m) as [m1|] eqn:H1; [|done]. simpl. rewrite slot_step_model by done. simpl.
    destruct (model_step app other m1) as [m2|] eqn:H2; [|done]. simpl. intros [= <-].
    assert (∀ l ut, other = AlterUniqueTogether l ut → [] ∉ ut) as Hut by (intros ? ut ->; exact Hgo).
    destruct (column_commute app op other n m m1 m2 Hc Hl Hut H1 H2) as (m1' & m2' & H1' & H2' & He).
    rewrite H1'. simpl. rewrite slot_step_model by done. simpl. rewrite H2'. simpl. eexists. split; [done|].
    by constructor.
  - apply refined_eq. unfold sem_run. simpl. unfold models_step. rewrite Hk, Hk'.
    destruct (slot_step app op (ms !! k)) as [sl|] eqn:E1; simpl.
    + rewrite lookup_partial_alter_ne by done. destruct (slot_step app other (ms !! k')) as [sl'|] eqn:E2; [|done].
      simpl. rewrite lookup_partial_alter_ne, E1 by done. by rewrite partial_alter_swap.
    + destruct (slot_step app other (ms !! k')) as [sl'|] eqn:E2; [|done].
      simpl. by rewrite lookup_partial_alter_ne, E1 by done.
Qed.

Lemma models_law_replace op other ops ms :
  good op → good other → models_inv ms → Reduce op other app = ReduceReplace ops →
  refined (sem_run [op; other] ms) (sem_run ops ms).
Proof.
  intros Hg Hgo Hinv Hr. destruct (Reduce_replace app owner op other ops Hg Hgo Hr) as [(k & Hk & Hk' & Hops & Hrun)|Hd].
  - apply (models_run_refined _ _ k).
    + by repeat constructor.
    + eapply Forall_impl; [exact Hops|]. by intros o [? _].
    + intros r Hslot. exists r. split; [|done]. by apply Hrun.
  - apply refined_eq. destruct Hd as [[Hn ->]|[[Hn ->]|(Hn & Hn' & ->)]].
    + by rewrite models_run_none.
    + by rewrite models_run_none_last.
    + by rewrite !models_run_none.
Qed.

#[export] Instance models_laws : ReducerLaws Operation models.
Proof.
  split.
  - apply _.
  - intros op s s' _ Hs. unfold sem_step; simpl. unfold models_step.
    destruct (op_key app op) as [k|]; [|by intros [= <-]].
    destruct (slot_step app op (s !! k)) as [sl|] eqn:E; [|done]. intros [= <-] k'.
    rewrite partial_alter_lookup. case_decide; [|by apply Hs]. eapply slot_step_inv; [|exact E]. apply Hs.
  - intros op s t _ _ _ He s'. simpl. unfold models_step.
    destruct (op_key app op) as [k|]; [|intros [= <-]; by exists t].
    destruct (slot_step app op (s !! k)) as [sl|] eqn:E; [|done]. intros [= <-].
    destruct (slot_step_proper app op _ _ _ (He k) E) as (sl' & -> & Hsl).
    eexists. split; [done|]. intros k'. rewrite !partial_alter_lookup. case_decide; [done|apply He].
  - intros op other ops Hg Hgo Hr. destruct (Reduce_replace app owner op other ops Hg Hgo Hr) as [(k & _ & _ & Hops & _)|Hd].
    + eapply Forall_impl; [exact Hops|]. by intros o [_ ?].
    + destruct Hd as [[_ ->]|[[_ ->]|(_ & _ & ->)]]; [by apply Forall_singleton..|constructor].
  - intros op other ops s Hg Hgo Hs Hr. by apply models_law_replace.
  - intros op other s Hg Hgo Hs Hr. apply models_law_through; [done..|].
    exact (Reduce_through app owner op other Hg Hgo Hr).
Qed.

(** ** The step of a slot is the step of the state *)

Lemma Fields_Index_split n fs :
  n ∈ Fields_Names fs → NoDup (Fields_Names fs) →
  ∃ pre f post, fs = pre ++ mkNamedField n f :: post ∧ Fields_Index fs n = Some (length pre) ∧
                n ∉ Fields_Names pre ∧ n ∉ Fields_Names post.
Proof.
  intros (nf & -> & Hin)%list_elem_of_fmap Hnd. apply list_elem_of_split in Hin as (pre & post & ->).
  exists pre, (nf_Field nf), post. split_and!; [by destruct nf|by apply Fields_Index_middle|..];
    unfold Fields_Names in *; rewrite map_app in Hnd; simpl in Hnd; rewrite NoDup_app, NoDup_cons in Hnd; set_solver.
Qed.

Lemma drop_field_fresh n fs : n ∉ Fields_Names fs → drop_field n fs = fs.
Proof.
  intros Hn. apply filter_all. intros nf Hin Hc. apply Hn. rewrite <- Hc. by apply (list_elem_of_fmap_2 nf_Name).
Qed.

Lemma replace_field_fresh n f fs : n ∉ Fields_Names fs → replace_field n f fs = fs.
Proof.
  intros Hn. apply map_fixed. intros nf Hin. case_bool_decide as Hc; [|done]. exfalso. apply Hn.
  rewrite <- Hc. by apply (list_elem_of_fmap_2 nf_Name).
Qed.

Lemma drop_field_delete n fs :
  n ∈ Fields_Names fs → NoDup (Fields_Names fs) →
  ∃ i, Fields_Index fs n = Some i ∧ delete i fs = drop_field n fs.
Proof.
  intros Hn Hnd. destruct (Fields_Index_split n fs Hn Hnd) as (pre & f & post & -> & Hi & Hpre & Hpost).
  exists (length pre). split; [done|]. rewrite delete_middle.
  pose proof (drop_field_fresh n pre Hpre) as Hp. pose proof (drop_field_fresh n post Hpost) as Hq.
  unfold drop_field in *. rewrite filter_app, filter_cons_False by (simpl; naive_solver). by rewrite Hp, Hq.
Qed.

Lemma replace_field_insert n f fs :
  n ∈ Fields_Names fs → NoDup (Fields_Names fs) →
  ∃ i, Fields_Index fs n = Some i ∧ <[i := mkNamedField n f]> fs = replace_field n f fs.
Proof.
  intros Hn Hnd. destruct (Fields_Index_split n fs Hn Hnd) as (pre & g & post & -> & Hi & Hpre & Hpost).
  exists (length pre). split; [done|]. rewrite insert_app_r_alt, Nat.sub_diag by lia. simpl.
  pose proof (replace_field_fresh n f pre Hpre) as Hp. pose proof (replace_field_fresh n f post Hpost) as Hq.
  unfold replace_field in *. rewrite map_app. simpl. rewrite bool_decide_eq_true_2 by done. by rewrite Hp, Hq.
Qed.

Lemma Fields_Index_GetField m n i : Fields_Index (ms_Fields m) n = Some i → is_ok (GetField m n) = true.
Proof.
  intros Hi. unfold GetField, Fields_Get. rewrite Hi.
  apply index_func_Some in Hi as (nf & -> & _). done.
Qed.

Lemma find_index_name n ixs : n ∈ map ix_Name ixs → is_Some (List.find (fun ix => bool_decide (ix_Name ix = n)) ixs).
Proof.
  intros (ix & -> & Hin)%list_elem_of_fmap. destruct (List.find _ ixs) eqn:E; [eauto|].
  rewrite find_None_iff in E. specialize (E ix Hin). by apply bool_decide_eq_false in E.
Qed.

(** A mutator that changes one model *)
Definition one_model (s : ProjectState) (k : ModelKey) (o : outcome ProjectState) (m : ModelState) : Prop :=
  ∃ s', o = Ok s' ∧ ps_Models s' = <[k := m]> (ps_Models s).

Lemma one_model_put s n m m' :
  ps_Models s !! mkModelKey app (ToLower n) = Some m →
  one_model s (mkModelKey app (ToLower n)) (m ← mustModel s app n; Ok (put_model s app n (m' m))) (m' m).
Proof. intros Hm. rewrite (proj2 (mustModel_Ok _ _ _ _) Hm). by eexists. Qed.

Lemma require_model_found {A} s n m (k : ModelState → outcome A) :
  ps_Models s !! mkModelKey app (ToLower n) = Some m → require_model s app n k = k m.
Proof. intros Hm. unfold require_model. by rewrite (proj2 (ps_Model_Ok _ _ _ _) Hm). Qed.

Lemma AddIndex_one s n m ix m' :
  ps_Models s !! mkModelKey app (ToLower n) = Some m → add_index ix m = Some m' →
  one_model s (mkModelKey app (ToLower n)) (AddIndex_StateForwards app n ix s) m'.
Proof.
  intros Hm H. unfold add_index in H. guards H. injection H as <-. unfold AddIndex_StateForwards.
  rewrite bool_decide_eq_false_2 by tauto. rewrite (require_model_found _ _ _ _ Hm).
  unfold ProjectState.AddIndex. rewrite (proj2 (mustModel_Ok _ _ _ _) Hm). simpl. rewrite Index_Clone_id.
  by eexists.
Qed.

Lemma RemoveIndex_one s n m name m' :
  ps_Models s !! mkModelKey app (ToLower n) = Some m → remove_index name m = Some m' →
  one_model s (mkModelKey app (ToLower n)) (RemoveIndex_StateForwards app n name s) m'.
Proof.
  intros Hm H. unfold remove_index in H. guards H. injection H as <-. unfold RemoveIndex_StateForwards.
  rewrite (require_model_found _ _ _ _ Hm). apply find_index_name in HP as [ix Hix].
  unfold GetIndexByName. rewrite Hix. simpl. unfold ProjectState.RemoveIndex.
  rewrite (proj2 (mustModel_Ok _ _ _ _) Hm). by eexists.
Qed.

Lemma AddConstraint_one s n m c m' :
  ps_Models s !! mkModelKey app (ToLower n) = Some m → add_constraint app c m = Some m' →
  one_model s (mkModelKey app (ToLower n))
    (require_model s app n (fun _ => ProjectState.AddConstraint app n c s)) m'.
Proof.
  intros Hm H. unfold add_constraint in H. guards H. injection H as <-.
  rewrite (require_model_found _ _ _ _ Hm). unfold ProjectState.AddConstraint.
  rewrite (proj2 (mustModel_Ok _ _ _ _) Hm). simpl. rewrite cloneConstraint_id. by eexists.
Qed.

Lemma model_step_forwards op s k m m' :
  good op → names_distinct s → op_key app op = Some k → ps_Models s !! k = Some m →
  model_step app op m = Some m' → one_model s k (StateForwards op app s) m'.
Proof.
  intros Hg Hnd Hk Hm Hstep. assert (NoDup (Fields_Names (ms_Fields m))) as Hnm by exact (Hnd _ _ Hm).
  destruct op; try discriminate Hstep; try (exfalso; exact Hg); unfold op_key in Hk; simpl in Hk; injection Hk as <-;
    simpl in Hstep |- *.
  all: try lazymatch type of Hstep with
    | add_index _ _ = _ => by eapply AddIndex_one
    | remove_index _ _ = _ => by eapply RemoveIndex_one
    | add_constraint _ _ _ = _ => first [destruct Hg as [ck ->]|idtac]; by eapply AddConstraint_one
    end.
  all: guards Hstep; injection Hstep as <-.
  all: try lazymatch goal with
    | |- one_model _ _ (require_model _ _ ?n _) _ => rewrite (require_model_found s n m _ Hm)
    end.
  all: try lazymatch goal with
    | |- one_model _ _ (AlterTable _ _ _ _) _ => by apply (one_model_put s Name m _ Hm)
    | |- one_model _ _ (AlterTableComment _ _ _ _) _ => by apply (one_model_put s Name m _ Hm)
    | |- one_model _ _ (ProjectState.AlterUniqueTogether _ _ _ _) _ => by apply (one_model_put s Name m _ Hm)
    | |- one_model _ _ (ProjectState.AlterModelOptions _ _ _ _ _) _ => by apply (one_model_put s Name m _ Hm)
    | |- one_model _ _ (ProjectState.RemoveConstraint _ _ _ _) _ => by apply (one_model_put s ModelName m _ Hm)
    end.
  - unfold RenameIndex_StateForwards. rewrite bool_decide_eq_false_2 by tauto.
    rewrite (require_model_found _ _ _ _ Hm). unfold ProjectState.RenameIndex.
    rewrite (proj2 (mustModel_Ok _ _ _ _) Hm). eexists. split; [done|]. simpl. unfold set_options, rename_indexes.
    do 3 f_equal. apply map_ext. intros ix. by rewrite Index_Clone_id.
  - unfold ProjectState.AddField.
    rewrite (proj2 (mustModel_Ok s app (ToLower ModelName) m)) by by rewrite ToLower_idem.
    eexists. split; [done|]. simpl. by rewrite ToLower_idem.
  - destruct HP as [Hin _].
    destruct (drop_field_delete _ _ Hin Hnm) as (i & Hi & Hd). pose proof (Fields_Index_GetField _ _ _ Hi) as Hget.
    destruct (GetField m Name); try done. simpl. unfold ProjectState.RemoveField.
    rewrite (proj2 (mustModel_Ok _ _ _ _) Hm). simpl. rewrite Hi, Hd. by eexists.
  - destruct (replace_field_insert Name (stored_field app field (preserve PreserveDefault)) _ HP Hnm) as (i & Hi & Hd).
    pose proof (Fields_Index_GetField _ _ _ Hi) as Hget.
    destruct (GetField m Name); try done. simpl. unfold ProjectState.AlterField.
    rewrite (proj2 (mustModel_Ok _ _ _ _) Hm). simpl. rewrite Hi, Hd. by eexists.
Qed.

Lemma StateForwards_step op s ms :
  good op → names_distinct s → models_step op (ps_Models s) = Ok ms →
  ∃ s', StateForwards op app s = Ok s' ∧ ps_Models s' = ms.
Proof.
  intros Hg Hnd.
  apply (op_cases (fun op => models_step op (ps_Models s) = Ok ms → ∃ s', StateForwards op app s = Ok s' ∧ _))
    with (op := op).
  - intros n t fs o ->. rewrite (models_step_key _ (mkModelKey app (ToLower n))) by done. cbn [slot_step]. cbv zeta.
    destruct (decide (ps_Models s !! mkModelKey app (ToLower n) = None ∧
                      is_ok (Validate (mkModelState app n t fs o)) = true)) as [[Hnone Hv]|E].
    + rewrite option_guard_True by done. simpl. intros [= <-]. unfold CreateModel_StateForwards. rewrite Options_Clone_id.
      rewrite (map_fixed (fun f => _)) by (intros [] _; simpl; by rewrite Field_Clone_id). simpl.
      destruct (Validate _) as [[]| |]; try discriminate Hv. by eexists.
    + rewrite option_guard_False by done. done.
  - intros n ->. rewrite (models_step_key _ (mkModelKey app (ToLower n))) by done. simpl.
    destruct (ps_Models s !! _) as [m|] eqn:Hm; [|done]. simpl. intros [= <-].
    rewrite (require_model_found _ _ _ _ Hm). by eexists.
  - intros Hc. destruct (op_key app op) as [k|] eqn:Hk; [|destruct op; done].
    rewrite (models_step_key _ k) by done. rewrite slot_step_model by done.
    destruct (ps_Models s !! k) as [m|] eqn:Hm; [|done]. simpl.
    destruct (model_step app op m) as [m'|] eqn:Hs; [|done]. simpl. intros [= <-].
    by eapply model_step_forwards.
  - intros Hn. rewrite models_step_none by done. intros [= <-]. exists s. split; [|done].
    destruct op; try done; simpl in Hg; by subst.
Qed.

Lemma names_distinct_models s : names_distinct s ↔ models_inv (ps_Models s).
Proof.
  split.
  - intros Hs k. destruct (ps_Models s !! k) as [m|] eqn:Hm; [exact (Hs _ _ Hm)|done].
  - intros Hs k m Hm. specialize (Hs k). by rewrite Hm in Hs.
Qed.

Lemma run_state_models ops s ms :
  Forall good ops → names_distinct s → sem_run ops (ps_Models s) = Ok ms →
  ∃ s', run_state app ops s = Ok s' ∧ ps_Models s' = ms.
Proof.
  revert s. induction ops as [|op ops IH]; intros s Hg Hnd.
  { intros [= <-]. by exists s. }
  apply Forall_cons in Hg as [Hop Hg]. unfold sem_run, run_state. rewrite !foldM_cons.
  intros (ms1 & H1 & H2)%bind_Ok.
  destruct (StateForwards_step op s ms1 Hop Hnd H1) as (s1 & Hs1 & <-). rewrite Hs1. simpl.
  apply IH; [done| |done]. apply names_distinct_models.
  exact (law_inv (ReducerLaws:=models_laws) op _ _ Hop (proj1 (names_distinct_models s) Hnd) H1).
Qed.
End laws.

(** A history that respects the guards of model_step from a given state on *)
Definition well_formed_history (app : string) (owner : string → ModelKey) (ops : list Operation) (s : ProjectState)
    : Prop :=
  names_distinct s ∧ Forall (good_op app owner) ops ∧
  is_ok (@sem_run Operation models (models_semantics app owner) ops (ps_Models s)) = true.

Lemma Optimize_spec app owner ops s :
  well_formed_history app owner ops s →
  ∃ s1 s2, run_state app ops s = Ok s1 ∧ run_state app (Optimize ops app) s = Ok s2 ∧
           models_equiv (ps_Models s1) (ps_Models s2).
Proof.
  intros (Hnd & Hg & Hrun).
  destruct (sem_run ops (ps_Models s)) as [ms| |] eqn:Hms; try discriminate Hrun.
  destruct (run_state_models app owner ops s ms Hg Hnd Hms) as (s1 & Hs1 & Hm1).
  pose proof (models_laws app owner) as Hlaws. pose proof (Optimize_loop ops app) as Hopt.
  assert (models_inv (ps_Models s)) as Hinv by (by apply names_distinct_models).
  assert (Forall (good_op app owner) (Optimize ops app)) as Hg'.
  { apply optimize_loop_Some in Hopt as [Hr _]. clear Hms Hs1 Hrun. induction Hr as [l|l1 l2 l3 H12 _ IH]; [done|].
    apply IH. by apply (reduction_good (HL:=Hlaws) l1 l2). }
  destruct (optimize_loop_sound (HL:=Hlaws) _ ops _ (ps_Models s) Hg Hinv Hopt ms Hms) as (ms2 & Hms2 & He).
  destruct (run_state_models app owner _ s ms2 Hg' Hnd Hms2) as (s2 & Hs2 & Hm2).
  exists s1, s2. split_and!; [done|done|]. by rewrite Hm1, Hm2.
Qed.

(** C1: Optimize keeps the meaning of the histories it is sound for: the
    optimized list of operations runs from the state the history runs from,
    and the models it ends with are those the history itself ends with, up to
    the order of the fields inside a model. Such a history starts from a state
    whose models have distinct field names, and from there only adds names
    that are new and changes or removes names that exist; a field is in no set
    of unique_together, and no such set is empty, when it is removed. It has
    no RenameModel, RenameField or AlterConstraint, and RunSQL and
    SeparateDatabaseAndState have no state operations. AddField and AlterField
    keep their defaults (PreserveDefault). The names of fields, and those a
    RenameIndex takes and gives, are lower case; the name of an index is used
    for one model only, and is not empty where RenameIndex gives it; added
    constraints are valid ones, and those added NOT VALID are checks. Without
    PreserveDefault, with an index name of two models, or with a rename it is
    false ([Findings.default_kept], [Findings.other_index_lost],
    [Findings.renamed_target_lost]). *)
Theorem Optimize_sound app owner ops s :
  well_formed_history app owner ops s →
  ∃ s1 s2, run_state app ops s = Ok s1 ∧ run_state app (Optimize ops app) s = Ok s2 ∧
           models_equiv (ps_Models s1) (ps_Models s2).
Proof. apply Optimize_spec. Qed.
