(* ===== verification/SchemaEditor.v ===== *)
(** * What operations need from a database: migrations/operation.go

    Connection, Hints and SchemaEditor are interfaces in the source, which
    the backends implement. Here they are one class over the type of the
    world the editor acts on; migrations/postgres.Editor, ScriptSplitter and
    AtomicBlockReporter, which an editor may or may not implement, are
    optional parts of it. *)

From S2P Require Import Prelude GoStd Keys Errors Fields Index ModelState Apps ProjectState Operation.

(** ** Effects *)

(** A computation that acts on a world and may fail; what it did before it
    failed stays done. *)
Definition io (W A : Type) : Type := W → W * outcome A.

#[export] Instance io_ret {W} : MRet (io W) := fun A a w => (w, Ok a).
#[export] Instance io_bind {W} : MBind (io W) := fun A B f m w =>
  match m w with
  | (w', Ok a) => f a w'
  | (w', Err e) => (w', Err e)
  | (w', Panic e) => (w', Panic e)
  end.

(** A computation without effect *)
Definition lift {W A} (o : outcome A) : io W A := fun w => (w, o).

Section fold.
Context {W A S : Type} (f : S → A → io W S).
Fixpoint fold_io (s : S) (l : list A) : io W S :=
  match l with
  | [] => mret s
  | x :: l' => s' ← f s x; fold_io s' l'
  end.
End fold.

(** A loop over a list for its effects *)
Definition for_io {W A} (l : list A) (f : A → io W unit) : io W unit := fold_io (fun _ x => f x) tt l.

(** ** Hints *)

Record Hints := mkHints {
  h_Model : option Model;
  h_ModelName : string;
  h_Extra : HintMap;
}.

(** ** The PostgreSQL steps of an editor: migrations/postgres/operations.go *)

Record PgEditor (W : Type) := mkPgEditor {
  pg_QuoteName : string → string;
  pg_AddIndexConcurrently : ModelPtr → Index → io W unit;
  pg_RemoveIndexConcurrently : ModelPtr → Index → io W unit;
  pg_AddConstraintNotValid : ModelPtr → Constraint → io W unit;
  pg_ValidateConstraint : ModelPtr → string → io W unit;
  pg_HasExtensions : bool;
  pg_HasCollations : bool;
}.
Arguments pg_QuoteName {W}.
Arguments pg_AddIndexConcurrently {W}.
Arguments pg_RemoveIndexConcurrently {W}.
Arguments pg_AddConstraintNotValid {W}.
Arguments pg_ValidateConstraint {W}.
Arguments pg_HasExtensions {W}.
Arguments pg_HasCollations {W}.

(** ** Connection and SchemaEditor *)

Class SchemaEditor (W : Type) := {
  (* Connection *)
  Vendor : string;
  AllowMigrate : string → Hints → bool;
  (** InAtomicBlock, when the connection reports it *)
  InAtomicBlock : option (W → bool);
  (** How many extensions of that name pg_extension lists, read through gorm *)
  count_extension : string → io W Z;
  (* SchemaEditor *)
  AtomicMigration : bool;
  Atomic : io W unit → io W unit;
  CollectSQL : bool;
  CollectedSQL : W → list string;
  AddCollected : list string → io W unit;
  Execute : string → list any → io W unit;
  (** ScriptSplitter, when the editor implements it *)
  PrepareSQLScript : option (string → list string);
  ed_CreateModel : ModelPtr → io W unit;
  ed_DeleteModel : ModelPtr → io W unit;
  ed_AddField : ModelPtr → option FieldPtr → io W unit;
  ed_RemoveField : ModelPtr → option FieldPtr → io W unit;
  ed_AlterField : ModelPtr → option FieldPtr → option FieldPtr → bool → io W unit;
  ed_AlterDBTable : ModelPtr → string → string → io W unit;
  ed_AlterDBTableComment : ModelPtr → string → string → io W unit;
  ed_AlterUniqueTogether : ModelPtr → list (list string) → list (list string) → io W unit;
  ed_AddIndex : ModelPtr → Index → io W unit;
  ed_RemoveIndex : ModelPtr → Index → io W unit;
  ed_RenameIndex : ModelPtr → Index → Index → io W unit;
  ed_AddConstraint : ModelPtr → Constraint → io W unit;
  ed_RemoveConstraint : ModelPtr → Constraint → io W unit;
  (** migrations/postgres.Editor, when the editor implements it *)
  pg_Editor : option (PgEditor W);
  (** The code of a RunGo operation, compiled into the command *)
  run_code : RunGoFunc → Apps → io W unit;
}.

(** ** Lemmas *)

Section lemmas.
Context {W : Type}.

Lemma io_bind_ret {A B} (a : A) (f : A → io W B) w : (mret a ≫= f) w = f a w.
Proof. done. Qed.

Lemma io_bind_lift_ok {A B} (o : outcome A) (f : A → io W B) a w : o = Ok a → (lift o ≫= f) w = f a w.
Proof. by intros ->. Qed.

(** A computation that leaves the world as it was, whatever its result *)
Definition quiet {A} (m : io W A) : Prop := ∀ w, (m w).1 = w.

Lemma quiet_ret {A} (a : A) : quiet (mret a).
Proof. done. Qed.

Lemma quiet_lift {A} (o : outcome A) : quiet (lift o).
Proof. done. Qed.

Lemma quiet_bind {A B} (m : io W A) (f : A → io W B) : quiet m → (∀ a, quiet (f a)) → quiet (m ≫= f).
Proof.
  intros Hm Hf w. unfold mbind, io_bind. specialize (Hm w). destruct (m w) as [w' [a|e|e]]; simpl in *; subst; [|done..].
  apply Hf.
Qed.

Lemma quiet_fold {A S} (f : S → A → io W S) s l : (∀ s x, x ∈ l → quiet (f s x)) → quiet (fold_io f s l).
Proof.
  revert s. induction l as [|x l IH]; intros s Hf; [apply quiet_ret|]. simpl. apply quiet_bind; [apply Hf; left|].
  intros s'. apply IH. intros s1 y Hy. apply Hf. by right.
Qed.
End lemmas.
#[export] Hint Resolve quiet_ret quiet_lift : gormgate.
