(* ===== verification/Effects.v ===== *)
(** * Reasoning about effects

    What the recorder and the executor add to the computations of
    [SchemaEditor]: running on a part of a larger state, catching an error,
    and triples that say what a computation does to its state when it
    succeeds and when it fails. *)

From S2P Require Import Prelude Errors SchemaEditor.

(** ** Combinators *)

Definition get_state {S} : io S S := fun s => (s, Ok s).
Definition modify {S} (f : S → S) : io S unit := fun s => (f s, Ok tt).

(** A sequence that returns: both parts do. *)
Lemma io_bind_Ok {W A B} (m : io W A) (f : A → io W B) w w' b :
  (m ≫= f) w = (w', Ok b) ↔ ∃ w1 a, m w = (w1, Ok a) ∧ f a w1 = (w', Ok b).
Proof.
  unfold mbind, io_bind. destruct (m w) as [w1 [a|e|e]]; [|naive_solver..].
  split; [intros H; by exists w1, a|]. by intros (? & ? & [= <- <-] & H).
Qed.

(** Run on a part of the state *)
Definition zoom {S T A} (get : S → T) (set : T → S → S) (m : io T A) : io S A := fun s =>
  let '(t, r) := m (get s) in (set t s, r).

(** An error as a value: [err := f()]. A panic goes on. *)
Definition attempt {W A} (m : io W A) : io W (A + error) := fun w =>
  match m w with
  | (w', Ok a) => (w', Ok (inl a))
  | (w', Err e) => (w', Ok (inr e))
  | (w', Panic e) => (w', Panic e)
  end.

(** The error a result stands for, None for nil *)
Definition error_of {A} (r : A + error) : option error :=
  match r with inl _ => None | inr e => Some e end.

(** ** Triples *)

(** From a state that satisfies P the computation does not panic; it succeeds
    with Q, or fails with E. *)
Definition triple {W A} (P : W → Prop) (m : io W A) (Q : A → W → Prop) (E : W → Prop) : Prop :=
  ∀ w, P w → match m w with
             | (w', Ok a) => Q a w'
             | (w', Err _) => E w'
             | (_, Panic _) => False
             end.

Section triples.
Context {W A B : Type}.
Implicit Types (P : W → Prop).

Lemma triple_ret P (a : A) E : triple P (mret a) (fun x w => x = a ∧ P w) E.
Proof. by intros w Hw. Qed.

Lemma triple_skip P (a : A) E : triple P (mret a) (fun _ => P) E.
Proof. by intros w Hw. Qed.

Lemma triple_lift P (o : outcome A) (R : A → Prop) :
  fine R o → triple P (lift o) (fun x w => R x ∧ P w) P.
Proof. intros Ho w Hw. unfold lift. by destruct o. Qed.

Lemma triple_bind P (m : io W A) Q (f : A → io W B) R E :
  triple P m Q E → (∀ a, triple (Q a) (f a) R E) → triple P (m ≫= f) R E.
Proof.
  intros Hm Hf w Hw. specialize (Hm w Hw). unfold mbind, io_bind.
  destruct (m w) as [w' [a|e|e]]; [|done|done]. by apply Hf.
Qed.

Lemma triple_weaken P P' (m : io W A) (Q Q' : A → W → Prop) (E E' : W → Prop) :
  triple P' m Q' E' → (∀ w, P w → P' w) → (∀ a w, Q' a w → Q a w) → (∀ w, E' w → E w) → triple P m Q E.
Proof.
  intros Hm HP HQ HE w Hw. specialize (Hm w (HP w Hw)). destruct (m w) as [w' [a|e|e]]; auto.
Qed.

Lemma triple_attempt P (m : io W A) Q E E' :
  triple P m Q E → triple P (attempt m) (fun r w => match r with inl a => Q a w | inr _ => E w end) E'.
Proof.
  intros Hm w Hw. specialize (Hm w Hw). unfold attempt. by destruct (m w) as [w' [a|e|e]].
Qed.

Lemma triple_pull P (X : Prop) (m : io W A) Q E :
  (X → triple P m Q E) → triple (fun w => X ∧ P w) m Q E.
Proof. intros Hm w [Hx Hw]. by apply Hm. Qed.

Lemma triple_modify P f E : triple P (modify f) (fun _ w => ∃ w0, P w0 ∧ w = f w0) E.
Proof. intros w Hw. simpl. eauto. Qed.

Lemma triple_get P E : triple P get_state (fun x w => x = w ∧ P w) E.
Proof. by intros w Hw. Qed.
End triples.

Lemma triple_zoom {S T A} (get : S → T) (set : T → S → S) (m : io T A) (P : S → Prop) (PT : S → T → Prop)
    (QT : S → A → T → Prop) (ET : S → T → Prop) (Q : A → S → Prop) (E : S → Prop) :
  (∀ s, P s → triple (PT s) m (QT s) (ET s)) → (∀ s, P s → PT s (get s)) →
  (∀ s a t, P s → QT s a t → Q a (set t s)) → (∀ s t, P s → ET s t → E (set t s)) →
  triple P (zoom get set m) Q E.
Proof.
  intros Hm HP HQ HE s Hs. specialize (Hm s Hs (get s) (HP s Hs)). unfold zoom.
  destruct (m (get s)) as [t [a|e|e]]; [by eapply HQ|by eapply HE|done].
Qed.

(** An invariant kept by every step of a loop, over what it has done *)
Lemma triple_fold {W A S} (I : list A → S → W → Prop) (E : W → Prop) (f : S → A → io W S) l s :
  (∀ done s x rest, l = done ++ x :: rest → triple (I done s) (f s x) (I (done ++ [x])) E) →
  triple (I [] s) (fold_io f s l) (I l) E.
Proof.
  intros Hf.
  cut (∀ rest done s, l = done ++ rest → triple (I done s) (fold_io f s rest) (I l) E); [intros H; by apply (H l [])|].
  clear s. induction rest as [|x rest IH]; intros done s Hl; simpl.
  - rewrite app_nil_r in Hl. subst done. by intros w Hw.
  - eapply triple_bind; [by eapply Hf|]. intros s'. apply (IH (done ++ [x])). by rewrite <- app_assoc.
Qed.

(** ** What holds when a computation succeeds *)

Definition ensures {W A} (P : W → Prop) (m : io W A) (Q : A → W → Prop) : Prop :=
  ∀ w w' a, P w → m w = (w', Ok a) → Q a w'.

Section ensures.
Context {W A B : Type}.
Implicit Types (P : W → Prop).

Lemma triple_ensures P (m : io W A) Q E : triple P m Q E → ensures P m Q.
Proof. intros Hm w w' a Hw Hr. specialize (Hm w Hw). by rewrite Hr in Hm. Qed.

Lemma ensures_bind P (m : io W A) Q (f : A → io W B) R :
  ensures P m Q → (∀ a, ensures (Q a) (f a) R) → ensures P (m ≫= f) R.
Proof.
  intros Hm Hf w w' b Hw. unfold mbind, io_bind. destruct (m w) as [w1 [a|e|e]] eqn:Hr; [|done|done].
  apply Hf. by eapply Hm.
Qed.

Lemma ensures_weaken P P' (m : io W A) (Q Q' : A → W → Prop) :
  ensures P' m Q' → (∀ w, P w → P' w) → (∀ a w, Q' a w → Q a w) → ensures P m Q.
Proof. intros Hm HP HQ w w' a Hw Hr. eauto. Qed.

Lemma ensures_ret P (a : A) : ensures P (mret a) (fun x w => x = a ∧ P w).
Proof. by intros w w' x Hw [= <- <-]. Qed.

Lemma ensures_skip P (a : A) : ensures P (mret a) (fun _ => P).
Proof. by intros w w' x Hw [= <- _]. Qed.

Lemma ensures_lift P (o : outcome A) : ensures P (lift o) (fun x w => o = Ok x ∧ P w).
Proof. by intros w w' x Hw [= <- ->]. Qed.

(** Whatever the value is *)
Lemma ensures_lift_any P (o : outcome A) : ensures P (lift o) (fun _ => P).
Proof. by intros w w' x Hw [= <- _]. Qed.

Lemma ensures_never P (m : io W A) Q : ensures P m (fun _ _ => False) → ensures P m Q.
Proof. intros Hm w w' a Hw Hr. by destruct (Hm w w' a Hw Hr). Qed.

Lemma ensures_pull P (X : Prop) (m : io W A) Q : (X → ensures P m Q) → ensures (fun w => X ∧ P w) m Q.
Proof. intros Hm w w' a [Hx Hw]. by apply Hm. Qed.

Lemma ensures_exist {X} (P : X → W → Prop) (m : io W A) Q :
  (∀ x, ensures (P x) m Q) → ensures (fun w => ∃ x, P x w) m Q.
Proof. intros Hm w w' a [x Hx]. by apply (Hm x). Qed.

Lemma ensures_keep P (X : Prop) (m : io W A) Q : X → ensures P m Q → ensures P m (fun a w => X ∧ Q a w).
Proof. intros Hx Hm w w' a Hw Hr. eauto. Qed.

Lemma ensures_modify P f : (∀ w, P w → P (f w)) → ensures P (modify f) (fun _ => P).
Proof. intros Hf w w' [] Hw [= <-]. by apply Hf. Qed.

Lemma ensures_get_any P : ensures P get_state (fun _ => P).
Proof. by intros w w' x Hw [= <- _]. Qed.

Lemma ensures_get P : ensures P get_state (fun x w => x = w ∧ P w).
Proof. by intros w w' x Hw [= <- <-]. Qed.

(** The result of a computation that may fail, as a value *)
Lemma ensures_attempt P (m : io W A) Q :
  ensures P m Q → ensures P (attempt m) (fun r w => match r with inl a => Q a w | inr _ => True end).
Proof.
  intros Hm w w' r Hw. unfold attempt. destruct (m w) as [w1 [a|e|e]] eqn:Hr; intros [= <- <-]; [by eapply Hm|done].
Qed.

Lemma ensures_zoom {S T} (get : S → T) (set : T → S → S) (m : io T A) (P : S → Prop) (PT : T → Prop)
    (QT : A → T → Prop) (Q : A → S → Prop) :
  ensures PT m QT → (∀ s, P s → PT (get s)) → (∀ s a t, P s → QT a t → Q a (set t s)) →
  ensures P (zoom get set m) Q.
Proof.
  intros Hm HP HQ s s' a Hs. unfold zoom. destruct (m (get s)) as [t r] eqn:Hr. intros [= <- ->]. eauto.
Qed.
End ensures.

Lemma ensures_fold {W A S} (I : list A → S → W → Prop) (f : S → A → io W S) l s :
  (∀ done s x rest, l = done ++ x :: rest → ensures (I done s) (f s x) (I (done ++ [x]))) →
  ensures (I [] s) (fold_io f s l) (I l).
Proof.
  intros Hf.
  cut (∀ rest done s, l = done ++ rest → ensures (I done s) (fold_io f s rest) (I l)); [intros H; by apply (H l [])|].
  clear s. induction rest as [|x rest IH]; intros done s Hl; simpl.
  - rewrite app_nil_r in Hl. subst done. by intros w w' a Hw [= <- <-].
  - eapply ensures_bind; [by eapply Hf|]. intros s'. apply (IH (done ++ [x])). by rewrite <- app_assoc.
Qed.

(** ** What holds however a computation ends *)

(** From a state that satisfies P: Q when it succeeds, E when it fails or
    panics. *)
Definition always {W A} (P : W → Prop) (m : io W A) (Q : A → W → Prop) (E : W → Prop) : Prop :=
  ∀ w, P w → match m w with
             | (w', Ok a) => Q a w'
             | (w', _) => E w'
             end.

Section always.
Context {W A B : Type}.
Implicit Types (P : W → Prop).

Lemma always_bind P (m : io W A) Q (f : A → io W B) R E :
  always P m Q E → (∀ a, always (Q a) (f a) R E) → always P (m ≫= f) R E.
Proof.
  intros Hm Hf w Hw. specialize (Hm w Hw). unfold mbind, io_bind.
  destruct (m w) as [w' [a|e|e]]; [|done|done]. by apply Hf.
Qed.

Lemma always_weaken P (m : io W A) (Q Q' : A → W → Prop) (E E' : W → Prop) :
  always P m Q' E' → (∀ a w, Q' a w → Q a w) → (∀ w, E' w → E w) → always P m Q E.
Proof. intros Hm HQ HE w Hw. specialize (Hm w Hw). destruct (m w) as [w' [a|e|e]]; auto. Qed.

Lemma always_step P (m : io W A) Q : (∀ w, P w → Q (m w).1) → always P m (fun _ => Q) Q.
Proof. intros Hm w Hw. specialize (Hm w Hw). by destruct (m w) as [w' [a|e|e]]. Qed.

Lemma always_ret P (a : A) E : always P (mret a) (fun _ => P) E.
Proof. by intros w Hw. Qed.

Lemma always_pull P (X : Prop) (m : io W A) Q E : (X → always P m Q E) → always (fun w => X ∧ P w) m Q E.
Proof. intros Hm w [Hx Hw]. by apply Hm. Qed.

Lemma always_exist {X} (P : X → W → Prop) (m : io W A) Q E :
  (∀ x, always (P x) m Q E) → always (fun w => ∃ x, P x w) m Q E.
Proof. intros Hm w [x Hx]. by apply (Hm x). Qed.

Lemma always_final P (m : io W A) Q w : always P m (fun _ => Q) Q → P w → Q (m w).1.
Proof. intros Hm Hw. specialize (Hm w Hw). by destruct (m w) as [w' [a|e|e]]. Qed.
End always.

(** ** What holds when a computation fails *)

Definition fails {W A} (P : W → Prop) (m : io W A) (E : W → Prop) : Prop :=
  ∀ w w' x, P w → m w = (w', Err x) → E w'.

Lemma fails_bind {W A B} (P : W → Prop) (m : io W A) Q (f : A → io W B) E :
  ensures P m Q → fails P m E → (∀ a, fails (Q a) (f a) E) → fails P (m ≫= f) E.
Proof.
  intros Hm Hfail Hf w w' x Hw. unfold mbind, io_bind. destruct (m w) as [w1 [a|e|e]] eqn:Hr; [|intros [= <- _]; by eapply Hfail|done].
  apply Hf. by eapply Hm.
Qed.

Lemma fails_ret {W A} (P : W → Prop) (a : A) E : fails P (mret a) E.
Proof. by intros w w' x Hw [=]. Qed.

(** An error caught is a value. *)
Lemma fails_attempt {W A} (P : W → Prop) (m : io W A) E : fails P (attempt m) E.
Proof. intros w w' x Hw. unfold attempt. by destruct (m w) as [w1 [a|e|e]]. Qed.

Lemma fails_get {W} (P : W → Prop) E : fails P get_state E.
Proof. by intros w w' x Hw [=]. Qed.

Lemma ensures_true {W A} (P : W → Prop) (m : io W A) : ensures P m (fun _ _ => True).
Proof. by intros w w' a Hw _. Qed.
