(* ===== verification/Recorder.v ===== *)
(** * The recorder: internal/recorder/recorder.go

    The table of applied migrations, read and written through a connection.
    What backends/base.Conn and its backend offer is the class [Conn], over
    the type of the world a connection acts on; the statements the recorder
    sends are the strings of the source. *)

From S2P Require Import Prelude GoStd Keys Errors Fields Index ModelState Apps ProjectState Operation SchemaEditor.
From S2P Require Import Effects.

(** ** Connections: backends/base/conn.go, backend.go, features.go *)

(** base.SchemaEditor: a schema editor with its lifecycle. [med_Finish] is
    given the error the migration ended with, and [med_Deferred] counts the
    statements Finish still has to run. *)
Record MigrationEditor (W : Type) := mkMigrationEditor {
  med_Editor : SchemaEditor W;
  med_Begin : io W unit;
  med_Finish : option error → io W unit;
  med_Deferred : W → nat;
}.
Arguments med_Editor {W}.
Arguments med_Begin {W}.
Arguments med_Finish {W}.
Arguments med_Deferred {W}.

(** Record: a row of the migrations table *)
Record Record_ := mkRecord { rec_ID : Z; rec_App : string; rec_Name : string; rec_Applied : any }.

Class Conn (W : Type) := {
  (* Features *)
  PadsSizedStrings : bool;
  NoAutoIncrementOnInsert : bool;
  IgnoresTableNameCase : bool;
  (* Backend *)
  RecorderDeleteSettings : string;
  QuoteName : string → string;
  (** NewEditor, with its arguments collectSQL and atomic *)
  NewEditor : bool → bool → W → W * MigrationEditor W;
  (* Introspection: the names of the tables, and of the columns of a table *)
  IdentifierConverter : string → string;
  TableNames : io W (list string);
  TableDescription : string → io W (list string);
  (* Conn *)
  conn_AllowMigrate : string → Hints → bool;
  Exec : string → list any → io W unit;
  (** A query for migration records, with the loop that scans its rows *)
  Rows : string → io W (list Record_);
  (** time.Now().UTC() *)
  Now : io W any;
}.

(** ** The recorder *)

Definition Table : string := "gormgate_migrations".

(** Recorder, with the world its connection acts on *)
Record Recorder (W : Type) := mkRecorder { rc_world : W; rc_hasTable : bool }.
Arguments mkRecorder {W}.
Arguments rc_world {W}.
Arguments rc_hasTable {W}.

Definition rc_set_world {W} (w : W) (r : Recorder W) : Recorder W := mkRecorder w (rc_hasTable r).
Definition rc_set_hasTable {W} (b : bool) (r : Recorder W) : Recorder W := mkRecorder (rc_world r) b.

(** What the connection does *)
Definition on_conn {W A} (m : io W A) : io (Recorder W) A := zoom rc_world rc_set_world m.

Section recorder.
Context {W : Type} `{Conn W}.

(** recorder.ModelState *)
Definition column (t : DataType) (size : Z) (primary : bool) : Field :=
  mkField t size 0 0 primary primary 0 false false None None "" None None None false false "".

Definition recorder_ModelState : ModelState :=
  let size := if PadsSizedStrings then 0%Z else 255%Z in
  mkModelState "migrations" "Migration" Table
    [mkNamedField "id" (column Int_ 64 true);
     mkNamedField "app" (column String_ size false);
     mkNamedField "name" (column String_ size false);
     mkNamedField "applied" (column Time_ 0 false)]
    (mkOptions None "" [] [] [] false (Some (mkClickHouseTable "MergeTree()" "(app, name)" "" "" ""))).

(** recorder.Model *)
Definition recorder_Model : outcome ModelPtr :=
  r ← MustApps (AddModel recorder_ModelState NewProjectState);
  MustModel_ptr r.1 "migrations" "migration".

(** Recorder.HasTable *)
Definition is_recorder_table (t : string) : bool :=
  bool_decide (t = IdentifierConverter Table) || bool_decide (t = Table).

Definition HasTable : io (Recorder W) bool :=
  r ← get_state;
  if rc_hasTable r then mret true
  else
    tables ← on_conn TableNames;
    _ ← modify (rc_set_hasTable (existsb is_recorder_table tables));
    mret (existsb is_recorder_table tables).

(** A new editor, as a computation *)
Definition new_editor (collectSQL atomic : bool) : io W (MigrationEditor W) := fun w =>
  let '(w', ed) := NewEditor collectSQL atomic w in (w', Ok ed).

(** The editor that creates the table: Begin, CreateModel and Finish *)
Definition create_table : io W unit :=
  ed ← new_editor false true;
  r ← attempt (_ ← med_Begin ed; m ← lift recorder_Model; @ed_CreateModel _ (med_Editor ed) m);
  med_Finish ed (error_of r).

(** Recorder.EnsureSchema *)
Definition EnsureSchema : io (Recorder W) unit :=
  ok ← HasTable;
  if (ok : bool) then mret tt
  else
    r ← attempt (on_conn create_table);
    match r with
    | inr e => lift (Err (MigrationSchemaMissing ("unable to create the " +:+ Table +:+ " table (" +:+ Error e +:+ ")")))
    | inl _ => modify (rc_set_hasTable true)
    end.

(** Recorder.Records *)
Definition select_sql : string :=
  "SELECT " +:+ Join (map QuoteName ["id"; "app"; "name"; "applied"]) ", " +:+ " FROM " +:+ QuoteName Table +:+
  " ORDER BY " +:+ QuoteName "id".

Definition Records : io (Recorder W) (list Record_) :=
  ok ← HasTable;
  if (ok : bool) then on_conn (Rows select_sql) else mret [].

Definition row_key (r : Record_) : Key := mkKey (rec_App r) (rec_Name r).

(** Recorder.AppliedMigrations *)
Definition AppliedMigrations : io (Recorder W) (list Key) :=
  recs ← Records; mret (map row_key recs).

(** Recorder.RecordApplied *)
Definition insert_sql : string :=
  if NoAutoIncrementOnInsert then
    "INSERT INTO " +:+ QuoteName Table +:+ " (" +:+ Join (map QuoteName ["id"; "app"; "name"; "applied"]) ", " +:+
    ") SELECT coalesce(max(" +:+ QuoteName "id" +:+ "), 0) + 1, ?, ?, ? FROM " +:+ QuoteName Table
  else
    "INSERT INTO " +:+ QuoteName Table +:+ " (" +:+ Join (map QuoteName ["app"; "name"; "applied"]) ", " +:+
    ") VALUES (?, ?, ?)".

Definition insert_row (app name : string) : io W unit :=
  now ← Now; Exec insert_sql [AnyString app; AnyString name; now].

Definition RecordApplied (app name : string) : io (Recorder W) unit :=
  _ ← EnsureSchema; on_conn (insert_row app name).

(** Recorder.RecordUnapplied *)
Definition delete_sql : string :=
  "DELETE FROM " +:+ QuoteName Table +:+ " WHERE " +:+ QuoteName "app" +:+ " = ? AND " +:+ QuoteName "name" +:+ " = ?" +:+
  RecorderDeleteSettings.

Definition RecordUnapplied (app name : string) : io (Recorder W) unit :=
  _ ← EnsureSchema; on_conn (Exec delete_sql [AnyString app; AnyString name]).
End recorder.
