(* ===== verification/RecorderLemmas.v ===== *)
(** * What the recorder promises

    A recorder keeps a list of migrations: RecordApplied appends to it,
    RecordUnapplied removes from it, and AppliedMigrations reads it. What this
    asks of the database is the class [ConnLaws]: that it gives INSERT, DELETE
    and SELECT statements on the table the meaning they have in SQL. The
    theorems show that the texts the recorder sends are the right ones of
    these. *)

From S2P Require Import Prelude GoStd Keys Errors Fields Index ModelState Apps ProjectState Operation SchemaEditor.
From S2P Require Import Effects Recorder.

(** ** A little SQL *)

(** A row: its cells by the names of their columns *)
Notation db_row := (gmap string any) (only parsing).

(** The columns of the migrations table, the first of which is its key *)
Definition table_columns : list string := ["id"; "app"; "name"; "applied"].

(** Statements that change a table: rows given by the cells of some columns,
    with the key left to the database, or with the one after the largest
    there is; and the rows deleted that have the given cells *)
Inductive sql_statement :=
| InsertValues (columns : list string)
| InsertNext (columns : list string)
| DeleteWhere (columns : list string).

Definition stmt_columns (st : sql_statement) : list string :=
  match st with InsertValues cols | InsertNext cols | DeleteWhere cols => cols end.

Section text.
Context (quote : string → string) (table settings : string).

Definition column_list (cols : list string) : string := Join (map quote cols) ", ".
Definition placeholders (cols : list string) : string := Join (map (fun _ => "?") cols) ", ".

Definition stmt_text (st : sql_statement) : string :=
  match st with
  | InsertValues cols =>
      "INSERT INTO " +:+ quote table +:+ " (" +:+ column_list cols +:+ ") VALUES (" +:+ placeholders cols +:+ ")"
  | InsertNext cols =>
      "INSERT INTO " +:+ quote table +:+ " (" +:+ column_list ("id" :: cols) +:+ ") SELECT coalesce(max(" +:+ quote "id" +:+
      "), 0) + 1, " +:+ placeholders cols +:+ " FROM " +:+ quote table
  | DeleteWhere cols =>
      "DELETE FROM " +:+ quote table +:+ " WHERE " +:+ Join (map (fun c => quote c +:+ " = ?") cols) " AND " +:+ settings
  end.

Definition select_text (cols : list string) : string :=
  "SELECT " +:+ column_list cols +:+ " FROM " +:+ quote table +:+ " ORDER BY " +:+ quote "id".
End text.

Definition cells (cols : list string) (args : list any) : db_row := list_to_map (zip cols args).
Definition row_id (r : db_row) : Z := match r !! "id" with Some (AnyInt z) => z | _ => 0 end.
Definition row_text (c : string) (r : db_row) : string := match r !! c with Some (AnyString s) => s | _ => "" end.

(** coalesce(max(id), 0) + 1 *)
Definition max_id (rs : list db_row) : option Z :=
  foldr (fun r m => Some match m with Some m => Z.max (row_id r) m | None => row_id r end) None rs.
Definition next_id (rs : list db_row) : Z := default 0%Z (max_id rs) + 1.

(** The row has the given cells. *)
Definition has_cells (cols : list string) (args : list any) (r : db_row) : Prop := Forall2 (fun c a => r !! c = Some a) cols args.
#[export] Instance has_cells_dec cols args r : Decision (has_cells cols args r).
Proof. unfold has_cells. apply _. Defined.

(** What a statement makes of the rows of the table *)
Definition stmt_effect (st : sql_statement) (args : list any) (rs rs' : list db_row) : Prop :=
  match st with
  | InsertValues cols => ∃ id, (∀ r, r ∈ rs → (row_id r < id)%Z) ∧ rs' ≡ₚ rs ++ [<["id" := AnyInt id]> (cells cols args)]
  | InsertNext cols => rs' ≡ₚ rs ++ [<["id" := AnyInt (next_id rs)]> (cells cols args)]
  | DeleteWhere cols => rs' ≡ₚ filter (fun r => ¬ has_cells cols args r) rs
  end.

(** Columns of the table, each once *)
Definition stmt_wf (st : sql_statement) : Prop :=
  stmt_columns st ≠ [] ∧ NoDup (stmt_columns st) ∧ stmt_columns st ⊆ table_columns ∧
  match st with DeleteWhere _ => True | _ => "id" ∉ stmt_columns st end.

(** A record that is scanned from the columns of a row, in their order *)
Definition scanned (cols : list string) (r : db_row) (rec : Record_) : Prop :=
  map (fun c => r !! c) cols =
  [Some (AnyInt (rec_ID rec)); Some (AnyString (rec_App rec)); Some (AnyString (rec_Name rec)); Some (rec_Applied rec)].

(** What the constraints of the table keep: ids, texts for app and name *)
Definition typed_row (r : db_row) : Prop :=
  ∃ id app name, r !! "id" = Some (AnyInt id) ∧ r !! "app" = Some (AnyString app) ∧ r !! "name" = Some (AnyString name).

(** ** The database *)

(** An editor of its own around one step: Begin, the step and Finish *)
Definition session {W} `{Conn W} (f : MigrationEditor W → io W unit) : io W unit :=
  ed ← new_editor false true;
  r ← attempt (_ ← med_Begin ed; f ed);
  med_Finish ed (error_of r).

(** A model that describes the migrations table: a key the database counts,
    two texts and a time, none of them NULL *)
Definition describes_table (m : ModelPtr) : Prop :=
  m_Table m = Table ∧
  map (fun f => (mf_Column f, fld_Type (mf_Field f), fld_PrimaryKey (mf_Field f), fld_AutoIncrement (mf_Field f),
                 fld_Null (mf_Field f))) (m_Fields m) =
  [("id", Int_, true, true, false); ("app", String_, false, false, false); ("name", String_, false, false, false);
   ("applied", Time_, false, false, false)].

(** What is asked of a database with a migrations table, whose rows are
    [table_rows], [None] when there is no such table. A statement that fails
    leaves it as it was. *)
Class ConnLaws (W : Type) `{Conn W} := {
  table_rows : W → option (list db_row);
  table_law w rs : table_rows w = Some rs → NoDup (map row_id rs) ∧ Forall typed_row rs;
  names_law t :
    triple (fun w => table_rows w = t) TableNames
      (fun l w => (IdentifierConverter Table ∈ l ∨ Table ∈ l ↔ is_Some t) ∧ table_rows w = t) (fun w => table_rows w = t);
  create_law m : describes_table m →
    triple (fun w => table_rows w = None) (session (fun ed => @ed_CreateModel _ (med_Editor ed) m))
      (fun _ w => table_rows w = Some []) (fun w => table_rows w = None);
  description_law t table :
    triple (fun w => table_rows w = t) (TableDescription table) (fun _ w => table_rows w = t) (fun w => table_rows w = t);
  clock_law t : triple (fun w => table_rows w = t) Now (fun _ w => table_rows w = t) (fun w => table_rows w = t);
  select_law cols rs : NoDup cols → cols ⊆ table_columns →
    triple (fun w => table_rows w = Some rs) (Rows (select_text QuoteName Table cols))
      (fun l w => (∃ sorted, sorted ≡ₚ rs ∧ Sorted (fun r1 r2 => (row_id r1 ≤ row_id r2)%Z) sorted ∧
                             Forall2 (scanned cols) sorted l) ∧ table_rows w = Some rs)
      (fun w => table_rows w = Some rs);
  exec_law st args rs :
    stmt_wf st → length args = length (stmt_columns st) →
    match st with InsertValues _ => NoAutoIncrementOnInsert = false | _ => True end →
    triple (fun w => table_rows w = Some rs) (Exec (stmt_text QuoteName Table RecorderDeleteSettings st) args)
      (fun _ w => ∃ rs', stmt_effect st args rs rs' ∧ table_rows w = Some rs') (fun w => table_rows w = Some rs);
}.

(** *** Rows by their ids *)

Definition id_le : relation db_row := fun r1 r2 => (row_id r1 ≤ row_id r2)%Z.
#[export] Instance id_le_dec r1 r2 : Decision (id_le r1 r2).
Proof. unfold id_le. apply _. Defined.
#[export] Instance id_le_trans : Transitive id_le.
Proof. intros r1 r2 r3. unfold id_le. lia. Qed.
#[export] Instance id_le_total : Total id_le.
Proof. intros r1 r2. unfold id_le. lia. Qed.

Definition by_id (rs : list db_row) : list db_row := merge_sort id_le rs.
Definition key_of (r : db_row) : Key := mkKey (row_text "app" r) (row_text "name" r).

Lemma same_id_same (rs : list db_row) r1 r2 :
  NoDup (map row_id rs) → r1 ∈ rs → r2 ∈ rs → row_id r1 = row_id r2 → r1 = r2.
Proof.
  induction rs as [|r rs IH]; [intros _ ?%elem_of_nil; done|]. intros [Hr Hnd]%NoDup_cons.
  intros [->|H1]%elem_of_cons [->|H2]%elem_of_cons Heq; [done| | |by apply IH];
    destruct Hr; first [rewrite Heq | rewrite <- Heq]; by apply list_elem_of_fmap_2.
Qed.

(** Distinct ids leave one order. *)
Lemma by_id_unique rs l : NoDup (map row_id rs) → l ≡ₚ rs → Sorted id_le l → l = by_id rs.
Proof.
  intros Hnd Hp Hs. apply (Sorted_unique_strong id_le); [|done|apply Sorted_merge_sort, _|].
  - intros r1 r2 H1 H2 H12 H21. unfold by_id in H2. rewrite merge_sort_Permutation in H2. rewrite Hp in H1.
    apply (same_id_same rs); [done..|]. unfold id_le in *. lia.
  - unfold by_id. by rewrite merge_sort_Permutation.
Qed.

Lemma by_id_last rs rs' r :
  NoDup (map row_id rs) → (∀ x, x ∈ rs → (row_id x < row_id r)%Z) → rs' ≡ₚ rs ++ [r] → by_id rs' = by_id rs ++ [r].
Proof.
  intros Hnd Hmax Hp. symmetry. apply by_id_unique.
  - rewrite Hp, map_app. apply NoDup_app. split_and!; [done| |apply NoDup_singleton].
    intros i (x & -> & Hx)%list_elem_of_fmap Hi%list_elem_of_singleton. specialize (Hmax x Hx). lia.
  - unfold by_id. by rewrite merge_sort_Permutation, Hp.
  - apply StronglySorted_Sorted. apply StronglySorted_app. split_and!.
    + intros x1 x2 Hx1 ->%list_elem_of_singleton. unfold by_id in Hx1. rewrite merge_sort_Permutation in Hx1.
      specialize (Hmax x1 Hx1). unfold id_le. lia.
    + apply StronglySorted_merge_sort; apply _.
    + repeat constructor.
Qed.

Lemma StronglySorted_filter {A} (R : relation A) (P : A → Prop) `{!∀ x, Decision (P x)} l :
  StronglySorted R l → StronglySorted R (filter P l).
Proof.
  induction 1 as [|x l Hl IH Hx]; [constructor|]. rewrite filter_cons. case_decide; [|done]. constructor; [done|].
  rewrite Forall_forall in Hx |- *. intros y [_ Hy]%list_elem_of_filter. by apply Hx.
Qed.

Lemma by_id_filter rs rs' (P : db_row → Prop) `{!∀ r, Decision (P r)} :
  NoDup (map row_id rs) → rs' ≡ₚ filter P rs → by_id rs' = filter P (by_id rs).
Proof.
  intros Hnd Hp. symmetry. apply by_id_unique.
  - rewrite Hp. eapply sublist_NoDup; [exact Hnd|]. apply fmap_sublist, sublist_filter.
  - rewrite Hp. unfold by_id. by rewrite merge_sort_Permutation.
  - apply StronglySorted_Sorted, StronglySorted_filter, StronglySorted_merge_sort; apply _.
Qed.

Lemma below_next_id rs r : r ∈ rs → (row_id r < next_id rs)%Z.
Proof.
  unfold next_id. intros Hr. cut (∃ m, max_id rs = Some m ∧ (row_id r ≤ m)%Z); [intros (m & -> & Hm); simpl; lia|].
  induction rs as [|x rs IH]; [by apply elem_of_nil in Hr|]. simpl. apply elem_of_cons in Hr as [->|Hr].
  - destruct (max_id rs) as [m|]; eexists; (split; [done|lia]).
  - destruct (IH Hr) as (m & -> & Hm). eexists. split; [done|lia].
Qed.

(** *** The statements of the recorder, among those of SQL *)

Section statements.
Context {W : Type} `{Conn W}.

Lemma insert_statement : insert_sql = stmt_text QuoteName Table RecorderDeleteSettings
  (if NoAutoIncrementOnInsert then InsertNext ["app"; "name"; "applied"] else InsertValues ["app"; "name"; "applied"]).
Proof. unfold insert_sql. by destruct NoAutoIncrementOnInsert. Qed.

Lemma delete_statement : delete_sql = stmt_text QuoteName Table RecorderDeleteSettings (DeleteWhere ["app"; "name"]).
Proof. unfold delete_sql. cbn [stmt_text map Join]. by rewrite !str_app_assoc. Qed.

Lemma select_statement : select_sql = select_text QuoteName Table ["id"; "app"; "name"; "applied"].
Proof. done. Qed.

Lemma recorder_Model_describes : ∃ m, recorder_Model = Ok m ∧ describes_table m.
Proof.
  unfold recorder_Model, recorder_ModelState.
  destruct PadsSizedStrings; (eexists; split; [vm_compute; reflexivity|split; vm_compute; reflexivity]).
Qed.
End statements.

(** *** What is recorded, and what the statements of the recorder do to it *)

Section laws.
Context {W : Type} `{ConnLaws W}.

(** The migrations of the table, in the order they were recorded in *)
Definition rows (w : W) : option (list Key) := (fun rs => map key_of (by_id rs)) <$> table_rows w.

Lemma rows_some w ks : rows w = Some ks →
  ∃ rs, table_rows w = Some rs ∧ ks = map key_of (by_id rs) ∧ NoDup (map row_id rs) ∧ Forall typed_row rs.
Proof.
  unfold rows. destruct (table_rows w) as [rs|] eqn:Hw; [|done]. intros [= <-]. exists rs.
  destruct (table_law w rs Hw). done.
Qed.

(** A computation that leaves the table alone leaves the list alone. *)
Lemma rows_kept {A} (m : io W A) (R : A → Prop) t :
  (∀ t, triple (fun w => table_rows w = t) m (fun a w => R a ∧ table_rows w = t) (fun w => table_rows w = t)) →
  triple (fun w => rows w = t) m (fun a w => R a ∧ rows w = t) (fun w => rows w = t).
Proof.
  intros Hm w Hw. specialize (Hm (table_rows w) w eq_refl). unfold rows in *.
  destruct (m w) as [w' [a|e|e]]; [|by rewrite Hm|done]. destruct Hm as [Ha Hm]. by rewrite Hm.
Qed.

Lemma TableNames_law t :
  triple (fun w => rows w = t) TableNames
    (fun l w => existsb is_recorder_table l = bool_decide (is_Some t) ∧ rows w = t) (fun w => rows w = t).
Proof.
  intros w Hw. pose proof (names_law (table_rows w) w eq_refl) as Hn.
  assert (is_Some (table_rows w) ↔ is_Some t) as Hsome by (rewrite <- Hw; unfold rows; by rewrite fmap_is_Some).
  unfold rows in *. destruct (TableNames w) as [w' [l|e|e]]; [|by rewrite Hn|done]. destruct Hn as [Hl Hn].
  split; [|by rewrite Hn]. apply Bool.eq_true_iff_eq. rewrite bool_decide_eq_true, <- Hsome, <- Hl, existsb_exists.
  unfold is_recorder_table. setoid_rewrite orb_true_iff. setoid_rewrite bool_decide_eq_true.
  setoid_rewrite <- list_elem_of_In. naive_solver.
Qed.

Lemma TableDescription_law t table :
  triple (fun w => rows w = t) (TableDescription table) (fun _ w => rows w = t) (fun w => rows w = t).
Proof.
  eapply triple_weaken; [apply (rows_kept _ (fun _ => True) t)|intros w Hw; exact Hw|by intros a w []|intros w Hw; exact Hw].
  intros t'. eapply triple_weaken; [apply (description_law t')|intros w Hw; exact Hw|by intros a w Hw|intros w Hw; exact Hw].
Qed.

Lemma Now_law t : triple (fun w => rows w = t) Now (fun _ w => rows w = t) (fun w => rows w = t).
Proof.
  eapply triple_weaken; [apply (rows_kept _ (fun _ => True) t)|intros w Hw; exact Hw|by intros a w []|intros w Hw; exact Hw].
  intros t'. eapply triple_weaken; [apply (clock_law t')|intros w Hw; exact Hw|by intros a w Hw|intros w Hw; exact Hw].
Qed.

Lemma create_table_law :
  triple (fun w => rows w = None) create_table (fun _ w => rows w = Some []) (fun w => rows w = None).
Proof.
  destruct recorder_Model_describes as (m & Hm & Hd). intros w Hw.
  assert (table_rows w = None) as Hnone by (by unfold rows in Hw; destruct (table_rows w)).
  pose proof (create_law m Hd w Hnone) as Hc.
  assert (create_table w = session (fun ed => @ed_CreateModel _ (med_Editor ed) m) w) as ->
    by (unfold create_table; by rewrite Hm).
  unfold rows. destruct (session _ w) as [w' [a|e|e]]; [by rewrite Hc|by rewrite Hc|done].
Qed.

Lemma scanned_key rs l : Forall typed_row rs → Forall2 (scanned ["id"; "app"; "name"; "applied"]) rs l →
  map row_key l = map key_of rs.
Proof.
  intros _ Hl. induction Hl as [|r rec rs l Hr _ IH]; [done|]. simpl. rewrite IH. f_equal.
  injection Hr as _ Happ Hname _. unfold row_key, key_of, row_text. by rewrite Happ, Hname.
Qed.

Lemma Rows_law ks :
  triple (fun w => rows w = Some ks) (Rows select_sql)
    (fun l w => map row_key l = ks ∧ rows w = Some ks) (fun w => rows w = Some ks).
Proof.
  intros w (rs & Hw & -> & Hnd & Ht)%rows_some. rewrite select_statement.
  pose proof (select_law ["id"; "app"; "name"; "applied"] rs ltac:(apply (bool_decide_unpack _); vm_compute; exact I)
    ltac:(by intros x Hx) w Hw) as Hs.
  unfold rows. destruct (Rows _ w) as [w' [l|e|e]]; [|by rewrite Hs|done].
  destruct Hs as [(sorted & Hp & Hsort & Hl) ->]. split; [|done].
  rewrite <- (by_id_unique rs sorted Hnd Hp Hsort). apply scanned_key; [by rewrite Hp|done].
Qed.

(** A row that is inserted stands for its migration, after all the others. *)
Lemma inserted_row rs id app name now :
  NoDup (map row_id rs) → (∀ r, r ∈ rs → (row_id r < id)%Z) →
  ∀ rs', rs' ≡ₚ rs ++ [<["id" := AnyInt id]> (cells ["app"; "name"; "applied"] [AnyString app; AnyString name; now])] →
  map key_of (by_id rs') = map key_of (by_id rs) ++ [mkKey app name].
Proof.
  intros Hnd Hid rs' Hp. set (r := <["id" := AnyInt id]> _) in Hp.
  assert (by_id rs' = by_id rs ++ [r]) as -> by (apply by_id_last; done). by rewrite map_app.
Qed.

Lemma insert_law ks app name now :
  triple (fun w => rows w = Some ks) (Exec insert_sql [AnyString app; AnyString name; now])
    (fun _ w => rows w = Some (ks ++ [mkKey app name])) (fun w => rows w = Some ks).
Proof.
  intros w (rs & Hw & -> & Hnd & Ht)%rows_some. rewrite insert_statement.
  assert (∀ st, stmt_columns st = ["app"; "name"; "applied"] → match st with DeleteWhere _ => False | _ => True end → stmt_wf st)
    as Hwf.
  { intros st Hcols Hst. unfold stmt_wf. rewrite Hcols. split_and!; [done| |set_solver|].
    - apply (bool_decide_unpack _). vm_compute. exact I.
    - destruct st; [|..|done]; set_solver. }
  unfold rows. destruct NoAutoIncrementOnInsert eqn:Hauto.
  - pose proof (exec_law (InsertNext ["app"; "name"; "applied"]) [AnyString app; AnyString name; now] rs
      ltac:(by apply Hwf) eq_refl I w Hw) as Hx.
    destruct (Exec _ _ w) as [w' [a|e|e]]; [|by rewrite Hx|done]. destruct Hx as (rs' & Heff & ->). simpl.
    f_equal. eapply inserted_row; [done| |exact Heff]. intros r Hr. by apply below_next_id.
  - pose proof (exec_law (InsertValues ["app"; "name"; "applied"]) [AnyString app; AnyString name; now] rs
      ltac:(by apply Hwf) eq_refl Hauto w Hw) as Hx.
    destruct (Exec _ _ w) as [w' [a|e|e]]; [|by rewrite Hx|done]. destruct Hx as (rs' & (id & Hid & Heff) & ->). simpl.
    f_equal. by eapply inserted_row.
Qed.

Lemma delete_law ks app name :
  triple (fun w => rows w = Some ks) (Exec delete_sql [AnyString app; AnyString name])
    (fun _ w => rows w = Some (filter (fun k => k ≠ mkKey app name) ks)) (fun w => rows w = Some ks).
Proof.
  intros w (rs & Hw & -> & Hnd & Ht)%rows_some. rewrite delete_statement.
  assert (stmt_wf (DeleteWhere ["app"; "name"])) as Hwf.
  { split_and!; [done| |set_solver|done]. apply (bool_decide_unpack _). vm_compute. exact I. }
  pose proof (exec_law _ [AnyString app; AnyString name] rs Hwf eq_refl I w Hw) as Hx.
  unfold rows. destruct (Exec _ _ w) as [w' [a|e|e]]; [|by rewrite Hx|done]. destruct Hx as (rs' & Heff & ->).
  simpl. f_equal. rewrite (by_id_filter rs rs' _ Hnd Heff). symmetry. apply filter_map. intros r Hr.
  unfold by_id in Hr. rewrite merge_sort_Permutation in Hr. rewrite Forall_forall in Ht.
  destruct (Ht r Hr) as (id & app' & name' & _ & Ha & Hn). unfold has_cells, key_of, row_text. rewrite Ha, Hn.
  rewrite !Forall2_cons, Ha, Hn.
  split; [intros Hno ([= ->] & [= ->] & _); by apply Hno|intros Hno [= -> ->]; by apply Hno].
Qed.
End laws.

Section lemmas.
Context {W : Type} `{ConnLaws W}.

(** The recorder holds [t], and does not believe in a table that is not
    there. *)
Definition recorder_at (t : option (list Key)) (r : Recorder W) : Prop :=
  rows (rc_world r) = t ∧ (rc_hasTable r = true → is_Some t).

(** What is recorded, whether or not there is a table *)
Definition records (ks : list Key) (r : Recorder W) : Prop := ∃ t, default [] t = ks ∧ recorder_at t r.

(** One statement of the connection *)
Lemma triple_conn {A} (m : io W A) t (R : A → option (list Key) → Prop) (E : option (list Key)) :
  triple (fun w => rows w = t) m (fun a w => R a (rows w)) (fun w => rows w = E) →
  (∀ a t', R a t' → is_Some t → is_Some t') → (is_Some t → is_Some E) →
  triple (recorder_at t) (on_conn m) (fun a r => ∃ t', R a t' ∧ recorder_at t' r) (recorder_at E).
Proof.
  intros Hm HR HE [w c] [Hw Hc]. specialize (Hm w Hw). unfold on_conn, zoom. simpl in *.
  destruct (m w) as [w' [a|e|e]]; [exists (rows w'); unfold recorder_at|unfold recorder_at|done]; simpl; eauto.
Qed.

Lemma HasTable_spec t :
  triple (recorder_at t) HasTable (fun b r => b = bool_decide (is_Some t) ∧ recorder_at t r) (recorder_at t).
Proof.
  intros [w [|]] [Hw Hc]; cbn.
  - split; [|done]. symmetry. apply bool_decide_eq_true. by apply Hc.
  - pose proof (TableNames_law t w Hw) as Ht. unfold HasTable, mbind, io_bind, on_conn, zoom. cbn.
    destruct (TableNames w) as [w' [l|e|e]]; cbn in *; [|done|done]. destruct Ht as [Hl Hw']. split; [done|].
    split; [done|]. cbn. rewrite Hl. apply bool_decide_eq_true.
Qed.

Lemma EnsureSchema_spec t :
  triple (recorder_at t) EnsureSchema (fun _ r => recorder_at (Some (default [] t)) r) (recorder_at t).
Proof.
  eapply triple_bind; [apply HasTable_spec|]. intros ok. apply triple_pull. intros ->. destruct t as [ks|].
  { rewrite bool_decide_eq_true_2 by eauto. intros r Hr. exact Hr. }
  rewrite bool_decide_eq_false_2 by by intros []. intros [w c] [Hw Hc]. cbn.
  pose proof (create_table_law w Hw) as Hcreate. unfold mbind, io_bind, attempt, on_conn, zoom. cbn.
  destruct (create_table w) as [w' [a|e|e]]; cbn; [|split; [done|exact Hc]|done]. split; [done|]. by eexists.
Qed.

Lemma AppliedMigrations_spec t :
  triple (recorder_at t) AppliedMigrations (fun ks r => ks = default [] t ∧ recorder_at t r) (recorder_at t).
Proof.
  unfold AppliedMigrations, Records.
  eapply (triple_bind _ _ (fun l r => map row_key l = default [] t ∧ recorder_at t r)).
  - eapply triple_bind; [apply HasTable_spec|]. intros ok. apply triple_pull. intros ->. destruct t as [ks|].
    + rewrite bool_decide_eq_true_2 by eauto.
      eapply triple_weaken; [apply (triple_conn _ (Some ks) (fun l t' => map row_key l = ks ∧ t' = Some ks) (Some ks));
        [apply Rows_law|intros a t' [_ ->]; done|done]|done| |done].
      intros l r (t' & [Hl ->] & Hr). done.
    + rewrite bool_decide_eq_false_2 by by intros []. intros r Hr. done.
  - intros l r [Hl Hr]. done.
Qed.

(** A change of the table, which is created if it was not there *)
Lemma change_spec t (m : io W unit) (f : list Key → list Key) :
  (∀ ks, triple (fun w => rows w = Some ks) m (fun _ w => rows w = Some (f ks)) (fun w => rows w = Some ks)) →
  triple (recorder_at t) (_ ← EnsureSchema; on_conn m) (fun _ r => recorder_at (Some (f (default [] t))) r)
    (records (default [] t)).
Proof.
  intros Hm. eapply (triple_bind _ _ (fun _ r => recorder_at (Some (default [] t)) r)).
  - eapply triple_weaken; [apply EnsureSchema_spec|done|done|]. intros r Hr. by exists t.
  - intros _. eapply triple_weaken; [apply (triple_conn m (Some (default [] t))
      (fun _ t' => t' = Some (f (default [] t))) (Some (default [] t))); [apply Hm|intros _ t' ->; done|done]|done| |].
    + intros [] r (t' & Ht & Hr). by subst t'.
    + intros r Hr. by exists (Some (default [] t)).
Qed.

Lemma RecordApplied_spec t app name :
  triple (recorder_at t) (RecordApplied app name) (fun _ r => recorder_at (Some (default [] t ++ [mkKey app name])) r)
    (records (default [] t)).
Proof.
  apply (change_spec t (insert_row app name) (fun ks => ks ++ [mkKey app name])). intros ks.
  eapply triple_bind; [eapply triple_weaken; [apply (Now_law (Some ks))|done|intros a w Hw; exact Hw|done]|].
  intros now. apply insert_law.
Qed.

Lemma RecordUnapplied_spec t app name :
  triple (recorder_at t) (RecordUnapplied app name)
    (fun _ r => recorder_at (Some (filter (fun k => k ≠ mkKey app name) (default [] t))) r)
    (records (default [] t)).
Proof.
  apply (change_spec t (Exec delete_sql [AnyString app; AnyString name]) (filter (fun k => k ≠ mkKey app name))).
  intros ks. apply delete_law.
Qed.

Lemma records_some ks r : recorder_at (Some ks) r → records ks r.
Proof. intros Hr. by exists (Some ks). Qed.

Lemma records_eq ks ks' r : records ks r → ks = ks' → records ks' r.
Proof. by intros ? <-. Qed.

(** In terms of what is recorded alone *)
Lemma from_records {A} (ks : list Key) (m : io (Recorder W) A) Q E :
  (∀ t, default [] t = ks → triple (recorder_at t) m Q E) → triple (records ks) m Q E.
Proof. intros Hm r (t & Ht & Hr). by apply (Hm t). Qed.

Lemma record_applied ks app name :
  triple (records ks) (RecordApplied app name) (fun _ r => records (ks ++ [mkKey app name]) r) (records ks).
Proof.
  apply from_records. intros t <-. eapply triple_weaken; [apply RecordApplied_spec|done| |done].
  by intros [] r Hr%records_some.
Qed.

Lemma record_unapplied ks app name :
  triple (records ks) (RecordUnapplied app name) (fun _ r => records (filter (fun k => k ≠ mkKey app name) ks) r)
    (records ks).
Proof.
  apply from_records. intros t <-. eapply triple_weaken; [apply RecordUnapplied_spec|done| |done].
  by intros [] r Hr%records_some.
Qed.

Lemma applied_migrations ks :
  triple (records ks) AppliedMigrations (fun l r => l = ks ∧ records ks r) (records ks).
Proof.
  apply from_records. intros t <-. eapply triple_weaken; [apply AppliedMigrations_spec|done| |].
  - intros l r [-> Hr]. split; [done|]. by exists t.
  - intros r Hr. by exists t.
Qed.

Lemma ensure_schema ks : triple (records ks) EnsureSchema (fun _ => records ks) (records ks).
Proof.
  apply from_records. intros t <-. eapply triple_weaken; [apply EnsureSchema_spec|done|..].
  - by intros [] r Hr%records_some.
  - intros r Hr. by exists t.
Qed.

(** ** Properties *)

(** C26: the recorder refines a list of migrations, on a database that does
    with its table what SQL says: an INSERT adds a row with the cells it gives
    to the columns it names, under an id above all the others; a DELETE
    removes the rows that have the cells it names; a SELECT gives the cells of
    the columns it names, in the order of the ids; and an editor that creates
    the model of the table makes it, empty, or fails and makes none
    ([ConnLaws]). Whether or not there is a table yet, AppliedMigrations reads
    the list and leaves it, RecordApplied appends to it, and RecordUnapplied
    removes every entry of the migration and no other; a call that fails
    leaves the list as it was, and none of them panics. *)
Theorem Recorder_refines ks app name :
  triple (records ks) AppliedMigrations (fun l r => l = ks ∧ records ks r) (records ks) ∧
  triple (records ks) (RecordApplied app name) (fun _ r => records (ks ++ [mkKey app name]) r) (records ks) ∧
  triple (records ks) (RecordUnapplied app name) (fun _ r => records (filter (fun k => k ≠ mkKey app name) ks) r)
    (records ks).
Proof. split_and!; [apply applied_migrations|apply record_applied|apply record_unapplied]. Qed.

(** recording a migration and unrecording it gives back the list there
    was, unless the migration was recorded before: then that entry is lost
    too. *)
Theorem Recorder_roundtrip ks app name :
  triple (records ks) (_ ← RecordApplied app name; _ ← RecordUnapplied app name; AppliedMigrations)
    (fun l _ => l = filter (fun k => k ≠ mkKey app name) ks ∧ (mkKey app name ∉ ks → l = ks))
    (fun r => records ks r ∨ records (ks ++ [mkKey app name]) r ∨ records (filter (fun k => k ≠ mkKey app name) ks) r).
Proof.
  eapply triple_bind; [eapply triple_weaken; [apply record_applied|done|done|by left]|]. intros []. cbn beta.
  eapply triple_bind; [eapply triple_weaken; [apply record_unapplied|done|done|by right; left]|]. intros []. cbn beta.
  rewrite filter_app, filter_cons_False, filter_nil, app_nil_r by tauto.
  eapply triple_weaken; [apply applied_migrations|done| |by right; right].
  intros l r [-> _]. split; [done|]. intros Hk. apply filter_all. by intros x Hx ->.
Qed.
End lemmas.

(** The table itself can always be described to an editor. *)
Lemma recorder_Model_ok {W} `{Conn W} : is_ok recorder_Model = true.
Proof. unfold recorder_Model, recorder_ModelState. destruct PadsSizedStrings; by vm_compute. Qed.
