(* ===== verification/OpDatabase.v ===== *)
(** * DatabaseForwards and DatabaseBackwards

    The effect of each operation on a database, of migrations/op_models.go,
    op_fields.go, op_special.go and migrations/postgres: which calls it makes
    on the schema editor, with which model, field or index of which of the
    two states it runs between. *)

From S2P Require Import Prelude GoStd Keys Errors Fields Index ModelState Apps ProjectState Operation SchemaEditor.

Section database.
Context {W : Type} `{SchemaEditor W}.
Notation IO := (io W unit).

(** ** Helpers *)

(** getModel, of both packages. Apps keeps the registry it renders in the
    state; the kept registry is the one the state renders to (cache_ok of
    StateLemmas.v), so that reading it again gives the same. *)
Definition getModel (s : ProjectState) (app name : string) : outcome ModelPtr :=
  a ← ps_Apps s; GetModel_ptr a.1 app name.

(** allowMigrateModel, of both packages *)
Definition allowMigrateModel (m : Model) : bool :=
  if negb (Managed m) then false
  else AllowMigrate (m_App m) (mkHints (Some m) (ToLower (m_Name m)) ∅).

(** routerAllowMigrate, and routerAllows of migrations/postgres *)
Definition routerAllowMigrate (app : string) (hints : HintMap) : bool :=
  AllowMigrate app (mkHints None "" hints).

(** The opening most operations share: the model of a state, and nothing at
    all when it may not be migrated. *)
Definition with_model (s : ProjectState) (app name : string) (k : ModelPtr → IO) : IO :=
  m ← lift (getModel s app name);
  if negb (allowMigrateModel (mp_Model m)) then mret tt else k m.

(** GetIndexByName and GetConstraintByName on the model of a state *)
Definition state_index (s : ProjectState) (app model name : string) : outcome Index :=
  ms ← mustModel s app model; wrap_value_error (GetIndexByName ms name).
Definition state_constraint (s : ProjectState) (app model name : string) : outcome Constraint :=
  ms ← mustModel s app model; wrap_value_error (GetConstraintByName ms name).

(** ** Models *)

Definition CreateModel_DatabaseForwards (app Name : string) (from to : ProjectState) : IO :=
  with_model to app Name (fun m => ed_CreateModel m).

Definition CreateModel_DatabaseBackwards (app Name : string) (from to : ProjectState) : IO :=
  with_model from app Name (fun m => ed_DeleteModel m).

Definition DeleteModel_DatabaseForwards (app Name : string) (from to : ProjectState) : IO :=
  with_model from app Name (fun m => ed_DeleteModel m).

Definition DeleteModel_DatabaseBackwards (app Name : string) (from to : ProjectState) : IO :=
  with_model to app Name (fun m => ed_CreateModel m).

(** renameModelDB *)
Definition renameModelDB (app : string) (from to : ProjectState) (oldName newName : string) : IO :=
  newModel ← lift (getModel to app newName);
  if negb (allowMigrateModel (mp_Model newModel)) then mret tt
  else
    oldModel ← lift (getModel from app oldName);
    _ ← ed_AlterDBTable newModel (m_Table (mp_Model oldModel)) (m_Table newModel);
    toApps ← lift (MustApps to);
    fromApps ← lift (ps_Apps from);
    for_io (map (mkFieldPtr fromApps.1) (RelatedFields fromApps.1 (mp_Model oldModel))) (fun rel =>
      let own := bool_decide (mf_Model (fp_Field rel) = Model_Key oldModel) in
      let relatedKey := if own then mkModelKey app (ToLower newName) else mf_Model (fp_Field rel) in
      model ← (if own then mret newModel else lift (MustModel_ptr toApps.1 (mk_App relatedKey) (mk_Model relatedKey)));
      related ← lift (MustModel_ptr toApps.1 (mk_App relatedKey) (mk_Model relatedKey));
      ed_AlterField model (Some rel) (field_ptr related (mf_Name (fp_Field rel))) false).

Definition RenameModel_DatabaseForwards (app OldName NewName : string) (from to : ProjectState) : IO :=
  renameModelDB app from to OldName NewName.

Definition RenameModel_DatabaseBackwards (app OldName NewName : string) (from to : ProjectState) : IO :=
  renameModelDB app from to NewName OldName.

Definition AlterModelTable_DatabaseForwards (app Name : string) (from to : ProjectState) : IO :=
  with_model to app Name (fun newModel =>
    oldModel ← lift (getModel from app Name);
    ed_AlterDBTable newModel (m_Table (mp_Model oldModel)) (m_Table newModel)).

Definition AlterModelTableComment_DatabaseForwards (app Name : string) (from to : ProjectState) : IO :=
  with_model to app Name (fun newModel =>
    oldModel ← lift (getModel from app Name);
    ed_AlterDBTableComment newModel (opt_DBTableComment (ms_Options (m_State (mp_Model oldModel))))
      (opt_DBTableComment (ms_Options (m_State newModel)))).

Definition AlterUniqueTogether_DatabaseForwards (app Name : string) (from to : ProjectState) : IO :=
  with_model to app Name (fun newModel =>
    fromMS ← lift (mustModel from app Name);
    toMS ← lift (mustModel to app Name);
    ed_AlterUniqueTogether newModel (opt_UniqueTogether (ms_Options fromMS)) (opt_UniqueTogether (ms_Options toMS))).

(** ** Indexes and constraints *)

Definition AddIndex_DatabaseForwards (app ModelName : string) (ix : Index) (from to : ProjectState) : IO :=
  with_model to app ModelName (fun m => ed_AddIndex m ix).

Definition AddIndex_DatabaseBackwards (app ModelName : string) (ix : Index) (from to : ProjectState) : IO :=
  with_model from app ModelName (fun m => ed_RemoveIndex m ix).

Definition RemoveIndex_DatabaseForwards (app ModelName Name : string) (from to : ProjectState) : IO :=
  with_model from app ModelName (fun m =>
    ix ← lift (state_index from app ModelName Name); ed_RemoveIndex m ix).

Definition RemoveIndex_DatabaseBackwards (app ModelName Name : string) (from to : ProjectState) : IO :=
  with_model to app ModelName (fun m =>
    ix ← lift (state_index to app ModelName Name); ed_AddIndex m ix).

(** renameIndexDB *)
Definition renameIndexDB (app : string) (from to : ProjectState) (modelName oldName newName : string) : IO :=
  with_model to app modelName (fun m =>
    oldIndex ← lift (state_index from app modelName oldName);
    if bool_decide (ix_Name oldIndex = newName) then mret tt
    else
      newIndex ← lift (state_index to app modelName newName);
      ed_RenameIndex m oldIndex newIndex).

Definition RenameIndex_DatabaseForwards (app ModelName NewName OldName : string) (from to : ProjectState) : IO :=
  renameIndexDB app from to ModelName OldName NewName.

Definition RenameIndex_DatabaseBackwards (app ModelName NewName OldName : string) (from to : ProjectState) : IO :=
  renameIndexDB app from to ModelName NewName OldName.

Definition AddConstraint_DatabaseForwards (app ModelName : string) (c : Constraint) (from to : ProjectState) : IO :=
  with_model to app ModelName (fun m => ed_AddConstraint m c).

Definition AddConstraint_DatabaseBackwards (app ModelName : string) (c : Constraint) (from to : ProjectState) : IO :=
  with_model to app ModelName (fun m => ed_RemoveConstraint m c).

Definition RemoveConstraint_DatabaseForwards (app ModelName Name : string) (from to : ProjectState) : IO :=
  with_model to app ModelName (fun m =>
    c ← lift (state_constraint from app ModelName Name); ed_RemoveConstraint m c).

Definition RemoveConstraint_DatabaseBackwards (app ModelName Name : string) (from to : ProjectState) : IO :=
  with_model to app ModelName (fun m =>
    c ← lift (state_constraint to app ModelName Name); ed_AddConstraint m c).

(** ** Fields *)

Definition mf_set_Default (d : option any) (f : ModelField) : ModelField :=
  mkModelField (mf_Model f) (mf_Name f) (fld_set_Default d (mf_Field f)) (mf_Column f) (mf_Remote f) (mf_RemoteField f).

(** The copy of a model's field, with the operation's own default when that
    default is for the existing rows only *)
Definition field_with_default (m : ModelPtr) (name : string) (f : Field) (p : option bool) : outcome FieldPtr :=
  match field_ptr m name with
  | None => Panic nil_dereference
  | Some mf => Ok (if preserve p then mf else mkFieldPtr (fp_Apps mf) (mf_set_Default (fld_Default f) mf))
  end.

Definition AddField_DatabaseForwards (app ModelName Name : string) (f : Field) (p : option bool)
    (from to : ProjectState) : IO :=
  with_model to app ModelName (fun toModel =>
    fromModel ← lift (getModel from app ModelName);
    field ← lift (field_with_default toModel Name f p);
    ed_AddField fromModel (Some field)).

Definition AddField_DatabaseBackwards (app ModelName Name : string) (from to : ProjectState) : IO :=
  with_model from app ModelName (fun fromModel => ed_RemoveField fromModel (field_ptr fromModel Name)).

Definition RemoveField_DatabaseForwards (app ModelName Name : string) (from to : ProjectState) : IO :=
  with_model from app ModelName (fun fromModel => ed_RemoveField fromModel (field_ptr fromModel Name)).

Definition RemoveField_DatabaseBackwards (app ModelName Name : string) (from to : ProjectState) : IO :=
  with_model to app ModelName (fun toModel =>
    fromModel ← lift (getModel from app ModelName);
    ed_AddField fromModel (field_ptr toModel Name)).

Definition AlterField_DatabaseForwards (app ModelName Name : string) (f : Field) (p : option bool)
    (from to : ProjectState) : IO :=
  with_model to app ModelName (fun toModel =>
    fromModel ← lift (getModel from app ModelName);
    toField ← lift (field_with_default toModel Name f p);
    ed_AlterField fromModel (field_ptr fromModel Name) (Some toField) false).

Definition RenameField_DatabaseForwards (app ModelName OldName NewName : string) (from to : ProjectState) : IO :=
  with_model to app ModelName (fun toModel =>
    fromModel ← lift (getModel from app ModelName);
    ed_AlterField fromModel (field_ptr fromModel OldName) (field_ptr toModel NewName) false).

Definition RenameField_DatabaseBackwards (app ModelName OldName NewName : string) (from to : ProjectState) : IO :=
  with_model to app ModelName (fun toModel =>
    fromModel ← lift (getModel from app ModelName);
    ed_AlterField fromModel (field_ptr fromModel NewName) (field_ptr toModel OldName) false).

(** ** RunSQL and RunGo *)

(** runSQL *)
Definition runSQL (sqls : option SQL) : IO :=
  match sqls with
  | None => mret tt
  | Some (Statements l) => for_io l (fun s => Execute s [])
  | Some (Parameterized l) => for_io l (fun s => Execute (sqlp_SQL s) (sqlp_Params s))
  | Some (Script x) =>
      if bool_decide (x = "") then mret tt
      else for_io (match PrepareSQLScript with Some split => split x | None => [x] end) (fun s => Execute s [])
  end.

Definition irreversible : error := IrreversibleError "you cannot reverse this operation".

Definition RunSQL_DatabaseForwards (app : string) (sql : option SQL) (hints : HintMap) : IO :=
  if routerAllowMigrate app hints then runSQL sql else mret tt.

Definition RunSQL_DatabaseBackwards (app : string) (reverse : option SQL) (hints : HintMap) : IO :=
  match reverse with
  | None => lift (Err irreversible)
  | Some _ => if routerAllowMigrate app hints then runSQL reverse else mret tt
  end.

Definition RunGo_DatabaseForwards (app : string) (code : option RunGoFunc) (hints : HintMap) (from : ProjectState) : IO :=
  match code with
  | None => lift (Err (ValueError "RunGo must be supplied with a callable" None))
  | Some f =>
      if negb (routerAllowMigrate app hints) then mret tt
      else apps ← lift (ps_Apps from); run_code f apps.1
  end.

Definition RunGo_DatabaseBackwards (app : string) (reverse : option RunGoFunc) (hints : HintMap) (from : ProjectState)
    : IO :=
  match reverse with
  | None => lift (Err irreversible)
  | Some f =>
      if negb (routerAllowMigrate app hints) then mret tt
      else apps ← lift (ps_Apps from); run_code f apps.1
  end.

(** ** migrations/postgres *)

(** editorOf *)
Definition editorOf : outcome (PgEditor W) :=
  match pg_Editor with
  | Some pg => Ok pg
  | None => Err (NotSupportedError ("the schema editor of " +:+ Vendor +:+
                  " does not implement the PostgreSQL operations"))
  end.

(** isFamily, hasExtensions, hasCollations *)
Definition isFamily : bool := bool_decide (is_Some (pg_HasExtensions <$> pg_Editor)).
Definition hasExtensions : bool := match pg_Editor with Some pg => pg_HasExtensions pg | None => false end.
Definition hasCollations : bool := match pg_Editor with Some pg => pg_HasCollations pg | None => false end.

(** ensureNotInTransaction *)
Definition ensureNotInTransaction (op : Operation) : IO := fun w =>
  match InAtomicBlock with
  | Some inBlock =>
      if inBlock w then
        (w, Err (NotSupportedError ("the " +:+ OpName op +:+
          " operation cannot be executed inside a transaction (set Atomic: m.Ptr(false) on the migration)")))
      else (w, Ok tt)
  | None => (w, Ok tt)
  end.

(** concurrentIndex *)
Definition concurrentIndex (app : string) (state : ProjectState) (modelName : string) (op : Operation)
    (step : PgEditor W → ModelPtr → IO) : IO :=
  if negb isFamily then mret tt
  else
    _ ← ensureNotInTransaction op;
    with_model state app modelName (fun model => pg ← lift editorOf; step pg model).

(** indexOf *)
Definition indexOf (state : ProjectState) (app modelName name : string) : outcome Index :=
  ms ← ps_Model state app modelName; wrap_value_error (GetIndexByName ms name).

Definition AddIndexConcurrently_DatabaseForwards (app ModelName : string) (ix : Index) (from to : ProjectState) : IO :=
  concurrentIndex app to ModelName (AddIndexConcurrently ModelName ix)
    (fun pg model => pg_AddIndexConcurrently pg model ix).

Definition AddIndexConcurrently_DatabaseBackwards (app ModelName : string) (ix : Index) (from to : ProjectState) : IO :=
  concurrentIndex app from ModelName (AddIndexConcurrently ModelName ix)
    (fun pg model => pg_RemoveIndexConcurrently pg model ix).

Definition RemoveIndexConcurrently_DatabaseForwards (app ModelName Name : string) (from to : ProjectState) : IO :=
  concurrentIndex app from ModelName (RemoveIndexConcurrently ModelName Name)
    (fun pg model => ix ← lift (indexOf from app ModelName Name); pg_RemoveIndexConcurrently pg model ix).

Definition RemoveIndexConcurrently_DatabaseBackwards (app ModelName Name : string) (from to : ProjectState) : IO :=
  concurrentIndex app to ModelName (RemoveIndexConcurrently ModelName Name)
    (fun pg model => ix ← lift (indexOf to app ModelName Name); pg_AddIndexConcurrently pg model ix).

Definition AddConstraintNotValid_DatabaseForwards (app ModelName : string) (c : Constraint) (from to : ProjectState)
    : IO :=
  _ ← lift (checkConstraint c);
  if negb isFamily then mret tt
  else with_model from app ModelName (fun model => pg ← lift editorOf; pg_AddConstraintNotValid pg model c).

Definition AddConstraintNotValid_DatabaseBackwards (app ModelName : string) (c : Constraint) (from to : ProjectState)
    : IO :=
  if negb isFamily then mret tt
  else with_model to app ModelName (fun model => ed_RemoveConstraint model c).

Definition ValidateConstraint_DatabaseForwards (app ModelName Name : string) (from to : ProjectState) : IO :=
  if negb isFamily then mret tt
  else with_model from app ModelName (fun model => pg ← lift editorOf; pg_ValidateConstraint pg model Name).

(** extensionExists *)
Definition extensionExists (name : string) : io W bool :=
  n ← count_extension name; mret (bool_decide (0 < n)%Z).

Definition CreateExtension_DatabaseForwards (app Name : string) (hints : HintMap) : IO :=
  if negb hasExtensions || negb (routerAllowMigrate app hints) then mret tt
  else
    pg ← lift editorOf;
    exists_ ← extensionExists Name;
    if (exists_ : bool) then mret tt
    else Execute ("CREATE EXTENSION IF NOT EXISTS " +:+ pg_QuoteName pg Name) [].

Definition CreateExtension_DatabaseBackwards (app Name : string) (hints : HintMap) : IO :=
  if negb hasExtensions || negb (routerAllowMigrate app hints) then mret tt
  else
    pg ← lift editorOf;
    exists_ ← extensionExists Name;
    if negb (exists_ : bool) then mret tt
    else Execute ("DROP EXTENSION IF EXISTS " +:+ pg_QuoteName pg Name) [].

(** collationArgs, runCollation, createCollation, removeCollation *)
Record collationArgs := mkCollationArgs {
  ca_name : string; ca_locale : string; ca_provider : string; ca_deterministic : option bool;
}.

Definition runCollation (app : string) (step : PgEditor W → collationArgs → IO) (a : collationArgs) : IO :=
  if negb hasCollations || negb (routerAllowMigrate app ∅) then mret tt
  else pg ← lift editorOf; step pg a.

Definition createCollation (pg : PgEditor W) (a : collationArgs) : IO :=
  let args := ["locale=" +:+ pg_QuoteName pg (ca_locale a)]
    ++ (if negb (bool_decide (ca_provider a = "")) && negb (bool_decide (ca_provider a = "libc"))
        then ["provider=" +:+ pg_QuoteName pg (ca_provider a)] else [])
    ++ (match ca_deterministic a with Some false => ["deterministic=false"] | _ => [] end) in
  Execute ("CREATE COLLATION " +:+ pg_QuoteName pg (ca_name a) +:+ " (" +:+ Join args ", " +:+ ")") [].

Definition removeCollation (pg : PgEditor W) (a : collationArgs) : IO :=
  Execute ("DROP COLLATION " +:+ pg_QuoteName pg (ca_name a)) [].

(** ** Every operation *)

Fixpoint DatabaseForwards (op : Operation) (app : string) (from to : ProjectState) : IO :=
  match op with
  | CreateModel Name _ _ _ => CreateModel_DatabaseForwards app Name from to
  | DeleteModel Name => DeleteModel_DatabaseForwards app Name from to
  | RenameModel o n => RenameModel_DatabaseForwards app o n from to
  | AlterModelTable Name _ => AlterModelTable_DatabaseForwards app Name from to
  | AlterModelTableComment Name _ => AlterModelTableComment_DatabaseForwards app Name from to
  | AlterUniqueTogether Name _ => AlterUniqueTogether_DatabaseForwards app Name from to
  | AlterModelOptions _ _ => mret tt
  | AddIndex m ix => AddIndex_DatabaseForwards app m ix from to
  | RemoveIndex m n => RemoveIndex_DatabaseForwards app m n from to
  | RenameIndex m n o => RenameIndex_DatabaseForwards app m n o from to
  | AddConstraint m c => AddConstraint_DatabaseForwards app m c from to
  | RemoveConstraint m n => RemoveConstraint_DatabaseForwards app m n from to
  | AlterConstraint _ _ _ => mret tt
  | AddField m n f p => AddField_DatabaseForwards app m n f p from to
  | RemoveField m n => RemoveField_DatabaseForwards app m n from to
  | AlterField m n f p => AlterField_DatabaseForwards app m n f p from to
  | RenameField m o n => RenameField_DatabaseForwards app m o n from to
  | SeparateDatabaseAndState dbOps _ =>
      _ ← fold_io (fun before op =>
            after ← lift (StateForwards op app (Clone before));
            _ ← DatabaseForwards op app before after;
            mret after) from dbOps;
      mret tt
  | RunSQL sql _ _ hints _ => RunSQL_DatabaseForwards app sql hints
  | RunGo code _ _ hints _ => RunGo_DatabaseForwards app code hints from
  | CreateExtension n hints => CreateExtension_DatabaseForwards app n hints
  | CreateCollation n l p d => runCollation app createCollation (mkCollationArgs n l p d)
  | RemoveCollation n l p d => runCollation app removeCollation (mkCollationArgs n l p d)
  | AddIndexConcurrently m ix => AddIndexConcurrently_DatabaseForwards app m ix from to
  | RemoveIndexConcurrently m n => RemoveIndexConcurrently_DatabaseForwards app m n from to
  | AddConstraintNotValid m c => AddConstraintNotValid_DatabaseForwards app m c from to
  | ValidateConstraint m n => ValidateConstraint_DatabaseForwards app m n from to
  end.

(** The database operations of a SeparateDatabaseAndState are unapplied from
    the last to the first, each between the states it ran between. *)
Fixpoint DatabaseBackwards (op : Operation) (app : string) (from to : ProjectState) : IO :=
  match op with
  | CreateModel Name _ _ _ => CreateModel_DatabaseBackwards app Name from to
  | DeleteModel Name => DeleteModel_DatabaseBackwards app Name from to
  | RenameModel o n => RenameModel_DatabaseBackwards app o n from to
  | AlterModelTable Name _ => AlterModelTable_DatabaseForwards app Name from to
  | AlterModelTableComment Name _ => AlterModelTableComment_DatabaseForwards app Name from to
  | AlterUniqueTogether Name _ => AlterUniqueTogether_DatabaseForwards app Name from to
  | AlterModelOptions _ _ => mret tt
  | AddIndex m ix => AddIndex_DatabaseBackwards app m ix from to
  | RemoveIndex m n => RemoveIndex_DatabaseBackwards app m n from to
  | RenameIndex m n o => RenameIndex_DatabaseBackwards app m n o from to
  | AddConstraint m c => AddConstraint_DatabaseBackwards app m c from to
  | RemoveConstraint m n => RemoveConstraint_DatabaseBackwards app m n from to
  | AlterConstraint _ _ _ => mret tt
  | AddField m n _ _ => AddField_DatabaseBackwards app m n from to
  | RemoveField m n => RemoveField_DatabaseBackwards app m n from to
  | AlterField m n f p => AlterField_DatabaseForwards app m n f p from to
  | RenameField m o n => RenameField_DatabaseBackwards app m o n from to
  | SeparateDatabaseAndState dbOps _ =>
      (fix unapply (ops : list Operation) (before : ProjectState) : IO :=
         match ops with
         | [] => mret tt
         | op :: rest =>
             after ← lift (StateForwards op app (Clone before));
             _ ← unapply rest after;
             DatabaseBackwards op app after before
         end) dbOps to
  | RunSQL _ r _ hints _ => RunSQL_DatabaseBackwards app r hints
  | RunGo _ r _ hints _ => RunGo_DatabaseBackwards app r hints from
  | CreateExtension n hints => CreateExtension_DatabaseBackwards app n hints
  | CreateCollation n l p d => runCollation app removeCollation (mkCollationArgs n l p d)
  | RemoveCollation n l p d => runCollation app createCollation (mkCollationArgs n l p d)
  | AddIndexConcurrently m ix => AddIndexConcurrently_DatabaseBackwards app m ix from to
  | RemoveIndexConcurrently m n => RemoveIndexConcurrently_DatabaseBackwards app m n from to
  | AddConstraintNotValid m c => AddConstraintNotValid_DatabaseBackwards app m c from to
  | ValidateConstraint _ _ => mret tt
  end.
End database.
