(* ===== verification/Migration.v ===== *)
(** * Migrations: migrations/migration.go and migrations/registry.go

    A migration and what running it forwards and backwards does. The text of
    an operation in the message for an irreversible one (FormatOperation,
    which prints a value by reflection) and the clock are arguments of the
    definitions that use them. *)

From S2P Require Import Prelude GoStd Keys Errors Fields Index ModelState Apps ProjectState Operation SchemaEditor.
From S2P Require Import OpDatabase.

Record Migration := mkMigration {
  mig_App : string;
  mig_Name : string;
  mig_Dependencies : list Key;
  mig_RunBefore : list Key;
  mig_Replaces : list Key;
  mig_Initial : option bool;
  mig_Atomic : option bool;
  mig_Operations : list Operation;
  mig_File : string;
}.

(** Migration.Key, Migration.String, Migration.IsAtomic, Migration.IsInitial *)
Definition Migration_Key (m : Migration) : Key := mkKey (mig_App m) (mig_Name m).
Definition Migration_String (m : Migration) : string := mig_App m +:+ "." +:+ mig_Name m.
Definition IsAtomic (m : Migration) : bool := match mig_Atomic m with None => true | Some b => b end.
Definition IsInitial (m : Migration) : bool := match mig_Initial m with None => false | Some b => b end.

Definition mig_set_Dependencies (d : list Key) (m : Migration) : Migration :=
  mkMigration (mig_App m) (mig_Name m) d (mig_RunBefore m) (mig_Replaces m) (mig_Initial m) (mig_Atomic m)
    (mig_Operations m) (mig_File m).
Definition mig_set_File (f : string) (m : Migration) : Migration :=
  mkMigration (mig_App m) (mig_Name m) (mig_Dependencies m) (mig_RunBefore m) (mig_Replaces m) (mig_Initial m)
    (mig_Atomic m) (mig_Operations m) f.

(** Migration.Clone copies the four slices; the values are the same. *)
Definition Migration_Clone (m : Migration) : Migration :=
  mkMigration (mig_App m) (mig_Name m) (map id (mig_Dependencies m)) (map id (mig_RunBefore m))
    (map id (mig_Replaces m)) (mig_Initial m) (mig_Atomic m) (map id (mig_Operations m)) (mig_File m).

(** Migration.MutateState. When [preserve] is false the state passed in is
    mutated, and the state returned is that one. *)
Definition MutateState (m : Migration) (state : ProjectState) (preserve : bool) : outcome ProjectState :=
  run_state (mig_App m) (mig_Operations m) (if preserve then Clone state else state).

(** atomicOperation *)
Definition atomicOperation (m : Migration) (op : Operation) : bool :=
  let a := op_Atomic op in
  if bool_decide (a = Some true) then true
  else IsAtomic m && (match a with None => true | Some b => b end).

(** ** Running *)

Section run.
Context {W : Type} `{SchemaEditor W}.
Context (FormatOperation : Operation → string).

Definition not_sql : list string := ["-- THIS OPERATION CANNOT BE WRITTEN AS SQL"].
Definition no_op : list string := ["-- (no-op)"].
Definition banner (op : Operation) : list string := ["--"; "-- " +:+ Describe op; "--"].

(** The database step of one operation, in a transaction of its own where it
    needs one *)
Definition run_operation (m : Migration) (op : Operation) (run : io W unit) : io W unit :=
  if negb AtomicMigration && atomicOperation m op then Atomic run else run.

(** The comment that follows an operation that collected nothing: [before]
    is how much had been collected when it started. *)
Definition note_no_op (before : nat) : io W unit := fun w =>
  if CollectSQL && bool_decide (before = length (CollectedSQL w)) then AddCollected no_op w else (w, Ok tt).

Definition collected : io W nat := fun w => (w, Ok (if CollectSQL then length (CollectedSQL w) else 0)).

(** The body of both loops: the comments around the collected SQL, and
    [skipped] for an operation that has no SQL to collect. *)
Definition with_comments {S} (op : Operation) (skipped : S) (body : io W S) : io W S :=
  if CollectSQL then
    _ ← AddCollected (banner op);
    if negb (ReducesToSQL op) then _ ← AddCollected not_sql; mret skipped
    else before ← collected; s ← body; _ ← note_no_op before; mret s
  else body.

(** One iteration of Apply *)
Definition apply_operation (m : Migration) (state : ProjectState) (op : Operation) : io W ProjectState :=
  with_comments op state (
    state' ← lift (StateForwards op (mig_App m) state);
    _ ← run_operation m op (DatabaseForwards op (mig_App m) (Clone state) state');
    mret state').

(** Migration.Apply *)
Definition Apply (m : Migration) (state : ProjectState) : io W ProjectState :=
  fold_io (apply_operation m) state (mig_Operations m).

(** The first loop of Unapply: every operation with the state before it and
    the state after it, the last operation first. *)
Record unapply_step := mkUnapplyStep { us_op : Operation; us_to : ProjectState; us_from : ProjectState }.

Definition unapply_collect (m : Migration) (acc : list unapply_step * ProjectState) (op : Operation)
    : outcome (list unapply_step * ProjectState) :=
  if negb (Reversible op) then
    Err (IrreversibleError ("operation " +:+ FormatOperation op +:+ " in " +:+ Migration_String m +:+
           " is not reversible"))
  else
    let newState := Clone acc.2 in
    let oldState := Clone newState in
    newState' ← StateForwards op (mig_App m) newState;
    Ok (mkUnapplyStep op oldState newState' :: acc.1, newState').

Definition unapply_steps (m : Migration) (state : ProjectState) : outcome (list unapply_step * ProjectState) :=
  foldM (unapply_collect m) ([], state) (mig_Operations m).

(** One iteration of the second loop *)
Definition unapply_operation (m : Migration) (s : unapply_step) : io W unit :=
  with_comments (us_op s) tt (
    run_operation m (us_op s) (DatabaseBackwards (us_op s) (mig_App m) (us_from s) (us_to s))).

(** Migration.Unapply *)
Definition Unapply (m : Migration) (state : ProjectState) : io W ProjectState :=
  steps ← lift (unapply_steps m state);
  _ ← for_io steps.1 (unapply_operation m);
  mret state.
End run.

(** ** Names *)

(** nonWord: a run of characters outside [0-9A-Za-z_] *)
Definition word_char (c : ascii) : bool :=
  byte_is_upper c || byte_is_lower c || byte_is_digit c || bool_decide (c = "_"%char).

(** ReplaceAllString(f, "_"): [skipping] is true inside a run. *)
Fixpoint replace_non_word (skipping : bool) (s : string) : string :=
  match s with
  | EmptyString => EmptyString
  | String c s' =>
      if word_char c then String c (replace_non_word false s')
      else if skipping then replace_non_word true s'
      else String "_"%char (replace_non_word true s')
  end.

Definition maxSuggestedNameLen : nat := 52.

(** The loop over the fragments after the first *)
Fixpoint join_fragments (name : string) (fragments : list string) : string :=
  match fragments with
  | [] => name
  | fragment :: rest =>
      let newName := name +:+ "_" +:+ fragment in
      if bool_decide (maxSuggestedNameLen < String.length newName) then name +:+ "_and_more"
      else join_fragments newName rest
  end.

Definition name_fragments (m : Migration) : list string :=
  omap (fun op => let f := MigrationNameFragment op in
                  if bool_decide (f = "") then None else Some (replace_non_word false f)) (mig_Operations m).

(** Migration.SuggestName; [timestamp] is MigrationNameTimestamp(). *)
Definition SuggestName (timestamp : string) (m : Migration) : string :=
  if IsInitial m then "initial"
  else
    let fragments := name_fragments m in
    match fragments with
    | [] => "auto_" +:+ timestamp
    | first :: rest =>
        if negb (bool_decide (length fragments = length (mig_Operations m))) then "auto_" +:+ timestamp
        else join_fragments first rest
    end.

(** ** Plans *)

Record PlanStep := mkPlanStep { pst_Migration : Migration; pst_Backwards : bool }.

(** ** The registry *)

Record Registry := mkRegistry {
  reg_migrations : gmap Key Migration;
  reg_packages : gmap string string;
}.

(** Register; [caller] is the file of the caller, when runtime.Caller knows
    it. *)
Definition Register (caller : option string) (m : Migration) (r : Registry) : outcome Registry :=
  if bool_decide (mig_App m = "") || bool_decide (mig_Name m = "") then
    Panic (PlainError "gormgate: migrations.Register requires App and Name")
  else
    match validateOperations (mig_Operations m) with
    | Err e => Panic (PlainError ("gormgate: migration " +:+ Key_String (Migration_Key m) +:+ ": " +:+ Error e))
    | Panic e => Panic e
    | Ok _ =>
        let m := match caller with
                 | Some file => if bool_decide (mig_File m = "") then mig_set_File file m else m
                 | None => m
                 end in
        match reg_migrations r !! Migration_Key m with
        | Some prev => Panic (PlainError ("gormgate: migration " +:+ Key_String (Migration_Key m) +:+
                         " registered twice (" +:+ mig_File prev +:+ " and " +:+ mig_File m +:+ ")"))
        | None => Ok (mkRegistry (<[Migration_Key m := m]> (reg_migrations r)) (reg_packages r))
        end
    end.

(** RegisterPackage; [dir] is filepath.Dir of the caller's file. *)
Definition RegisterPackage (app : string) (dir : option string) (r : Registry) : Registry :=
  match dir with
  | Some d => mkRegistry (reg_migrations r) (<[app := d]> (reg_packages r))
  | None => r
  end.

(** Registered *)
Definition mig_name_le (a b : Migration) : Prop := str_le (mig_Name a) (mig_Name b).
#[export] Instance mig_name_le_dec a b : Decision (mig_name_le a b).
Proof. unfold mig_name_le. apply _. Defined.

Definition Registered (app : string) (r : Registry) : list Migration :=
  merge_sort mig_name_le
    (map snd (filter (fun p => key_App p.1 = app) (map_to_list (reg_migrations r)))).

(** RegisteredPackageDir *)
Definition RegisteredPackageDir (app : string) (r : Registry) : option string := reg_packages r !! app.
