(* ===== verification/MigrationLemmas.v ===== *)
(** * What running operations and migrations does

    The guards in front of every database step, the state a migration ends
    in, the order a migration is unapplied in, and suggested names. *)

From S2P Require Import Prelude GoStd Keys Errors Fields Index ModelState Apps ProjectState StateLemmas.
From S2P Require Import Operation OperationLemmas SchemaEditor OpDatabase Migration Effects.

(** ** A router that allows nothing *)

Section denied.
Context {W : Type} `{SchemaEditor W}.
Context (Hdeny : ∀ app h, AllowMigrate app h = false).

Lemma allowMigrateModel_denied m : allowMigrateModel m = false.
Proof. unfold allowMigrateModel. by case_match. Qed.

Lemma with_model_denied s app n k : quiet (with_model s app n k).
Proof.
  unfold with_model. apply quiet_bind; [apply quiet_lift|]. intros m. by rewrite allowMigrateModel_denied.
Qed.

Lemma renameModelDB_denied app from to o n : quiet (renameModelDB app from to o n).
Proof.
  unfold renameModelDB. apply quiet_bind; [apply quiet_lift|]. intros m. by rewrite allowMigrateModel_denied.
Qed.

Lemma ensureNotInTransaction_quiet op : quiet (ensureNotInTransaction op).
Proof. intros w. unfold ensureNotInTransaction. by repeat case_match. Qed.

Lemma concurrentIndex_denied app s n op step : quiet (concurrentIndex app s n op step).
Proof.
  unfold concurrentIndex. destruct (negb isFamily); [apply quiet_ret|].
  apply quiet_bind; [apply ensureNotInTransaction_quiet|]. intros _. apply with_model_denied.
Qed.

Lemma runCollation_denied app step a : quiet (runCollation app step a).
Proof. unfold runCollation, routerAllowMigrate. rewrite Hdeny. simpl. by rewrite orb_true_r. Qed.

Lemma family_denied s app n k : quiet (if negb isFamily then mret tt else with_model s app n k).
Proof. destruct (negb isFamily); [apply quiet_ret|apply with_model_denied]. Qed.

Ltac denied :=
  first
  [ apply with_model_denied | apply renameModelDB_denied | apply concurrentIndex_denied | apply runCollation_denied
  | apply family_denied | apply quiet_ret | apply quiet_lift ].

Lemma runs_denied app op from to :
  simple_op op = true → quiet (DatabaseForwards op app from to) ∧ quiet (DatabaseBackwards op app from to).
Proof.
  intros Hop. destruct op; try discriminate Hop; simpl; split; try denied;
    unfold RunGo_DatabaseForwards, RunGo_DatabaseBackwards, CreateExtension_DatabaseForwards,
      CreateExtension_DatabaseBackwards, AddConstraintNotValid_DatabaseForwards, routerAllowMigrate;
    rewrite ?Hdeny, ?orb_true_r; try denied; try (case_match; denied).
  apply quiet_bind; [apply quiet_lift|]. intros _. apply family_denied.
Qed.

Lemma operations_denied op : ∀ app from to,
  quiet (DatabaseForwards op app from to) ∧ quiet (DatabaseBackwards op app from to).
Proof.
  induction op as [op Hleaf|d ops Hd Hs|q r ops h e Hs] using Operation_nested_ind; intros app from to.
  - apply runs_denied. by destruct op.
  - rewrite Forall_forall in Hd. split; simpl.
    + apply quiet_bind; [|intros; apply quiet_ret]. apply quiet_fold. intros s op Hop.
      apply quiet_bind; [apply quiet_lift|]. intros s'. apply quiet_bind; [by apply Hd|intros; apply quiet_ret].
    + clear Hs. revert to. induction d as [|op d IH]; intros to; [apply quiet_ret|].
      apply quiet_bind; [apply quiet_lift|]. intros s'. apply quiet_bind.
      * apply IH. intros x Hx. apply Hd. by right.
      * intros _. apply Hd. left.
  - simpl. unfold RunSQL_DatabaseForwards, RunSQL_DatabaseBackwards, routerAllowMigrate. rewrite Hdeny.
    split; [apply quiet_ret|]. case_match; [apply quiet_ret|apply quiet_lift].
Qed.
End denied.

(** The routers have the last word. On a connection whose routers allow
    nothing, no operation touches the database in either direction: it does
    nothing, or it fails before its first step. *)
Theorem DatabaseForwards_denied {W} `{SchemaEditor W} op app from to w :
  (∀ app h, AllowMigrate app h = false) →
  (DatabaseForwards op app from to w).1 = w ∧ (DatabaseBackwards op app from to w).1 = w.
Proof. intros Hdeny. destruct (operations_denied Hdeny op app from to) as [Hf Hb]. by split. Qed.

(** ** Copies of a state *)

(** A copy of a state whose cached registry is the one it renders to is that
    state. *)
Lemma Clone_id s : cache_ok s → Clone s = s.
Proof.
  intros Hc. unfold Clone. destruct s as [ms ra rm a]. simpl.
  assert (ModelState_Clone <$> ms = ms) as ->.
  { apply map_eq. intros k. rewrite lookup_fmap. destruct (ms !! k) as [m|]; simpl; [|done].
    by rewrite ModelState_Clone_id. }
  destruct a as [a|]; [|done]. specialize (Hc a eq_refl).
  unfold render_state in *. simpl in *. by rewrite Hc.
Qed.

(** ** Running a migration *)

(** The operations of a migration with the states each runs between *)
Fixpoint trace (app : string) (ops : list Operation) (s : ProjectState)
    : outcome (list (Operation * ProjectState * ProjectState)) :=
  match ops with
  | [] => Ok []
  | op :: rest =>
      s' ← StateForwards op app s;
      tr ← trace app rest s';
      Ok ((op, s, s') :: tr)
  end.

Section migration.
Context {W : Type} `{SchemaEditor W}.
Context (FormatOperation : Operation → string).

Lemma ReducesToSQL_false op app s : ReducesToSQL op = false → StateForwards op app s = Ok s.
Proof. by destruct op. Qed.

Lemma apply_operation_state m s op w w' s' :
  apply_operation m s op w = (w', Ok s') → StateForwards op (mig_App m) s = Ok s'.
Proof.
  assert (∀ w w' s', (state' ← lift (StateForwards op (mig_App m) s);
    _ ← run_operation m op (DatabaseForwards op (mig_App m) (Clone s) state'); mret state') w = (w', Ok s') →
    StateForwards op (mig_App m) s = Ok s') as Hbody.
  { intros w1 w2 s2 (w3 & s3 & H3 & H4)%io_bind_Ok. unfold lift in H3. injection H3 as _ ->.
    apply io_bind_Ok in H4 as (w4 & ? & _ & H4). by injection H4 as _ <-. }
  unfold apply_operation, with_comments. destruct CollectSQL; [|by apply Hbody].
  intros (w1 & ? & _ & Hrest)%io_bind_Ok. destruct (ReducesToSQL op) eqn:Hr; simpl in Hrest.
  - apply io_bind_Ok in Hrest as (w2 & before & _ & Hrest). apply io_bind_Ok in Hrest as (w3 & s3 & Hb & Hrest).
    apply io_bind_Ok in Hrest as (w4 & ? & _ & Hrest). injection Hrest as _ <-. by eapply Hbody.
  - apply io_bind_Ok in Hrest as (w2 & ? & _ & Hrest). injection Hrest as _ <-. by apply ReducesToSQL_false.
Qed.

Lemma apply_loop_state m ops s w w' s' :
  fold_io (apply_operation m) s ops w = (w', Ok s') → run_state (mig_App m) ops s = Ok s'.
Proof.
  revert s w. induction ops as [|op ops IH]; intros s w; cbn [fold_io].
  { by intros [= _ <-]. }
  intros (w1 & s1 & H1 & H2)%io_bind_Ok. apply apply_operation_state in H1.
  unfold run_state. rewrite foldM_cons, H1. simpl. by eapply IH.
Qed.

(** C18: applying a migration and replaying it agree. When Apply succeeds, on
    whatever database and whether or not it only collects SQL, the state it
    returns is the one MutateState computes. *)
Theorem Apply_MutateState m s w w' s' :
  Apply m s w = (w', Ok s') → MutateState m s false = Ok s'.
Proof. apply apply_loop_state. Qed.

Lemma unapply_steps_acc m ops acc s tr :
  forallb Reversible ops = true → state_wf s → trace (mig_App m) ops s = Ok tr →
  ∃ s', foldM (unapply_collect FormatOperation m) (acc, s) ops =
  Ok (rev (map (fun t => mkUnapplyStep t.1.1 t.1.2 t.2) tr) ++ acc, s').
Proof.
  revert acc s tr. induction ops as [|op ops IH]; intros acc s tr Hr Hwf Htr.
  { injection Htr as <-. by eexists. }
  simpl in Hr. apply andb_true_iff in Hr as [Hop Hr]. simpl in Htr.
  apply bind_Ok in Htr as (s1 & H1 & Htr). apply bind_Ok in Htr as (tr' & Htr & [= <-]).
  rewrite foldM_cons. unfold unapply_collect at 2. rewrite Hop. cbn [negb fst snd]. cbv zeta. rewrite !Clone_id by (rewrite ?Clone_id; apply Hwf).
  rewrite H1. simpl. destruct (IH (mkUnapplyStep op s s1 :: acc) s1 tr' Hr) as (s' & Hs'); [|done|].
  { by eapply StateForwards_wf. }
  exists s'. simpl in Hs'. rewrite Hs'. by rewrite <- app_assoc.
Qed.

(** One operation unapplied between two states *)
Definition unapply_between (m : Migration) (t : Operation * ProjectState * ProjectState) : io W unit :=
  with_comments t.1.1 tt (run_operation m t.1.1 (DatabaseBackwards t.1.1 (mig_App m) t.2 t.1.2)).

(** C30: Unapply undoes a migration from its last operation to its first,
    each between the very states it ran between forwards, and hands back the
    state it was given. *)
Theorem Unapply_reverses m s tr :
  state_wf s → forallb Reversible (mig_Operations m) = true →
  trace (mig_App m) (mig_Operations m) s = Ok tr →
  ∀ w, Unapply FormatOperation m s w = (_ ← for_io (rev tr) (unapply_between m); mret s) w.
Proof.
  intros Hwf Hr Htr w. unfold Unapply, unapply_steps.
  destruct (unapply_steps_acc m _ [] s tr Hr Hwf Htr) as (s' & ->).
  rewrite (io_bind_lift_ok _ _ _ w eq_refl). simpl. rewrite app_nil_r, <- map_rev. clear. revert w.
  generalize (rev tr) as l. intros l.
  assert (∀ w, for_io (map (fun t => mkUnapplyStep t.1.1 t.1.2 t.2) l) (unapply_operation m) w =
               for_io l (unapply_between m) w) as Heq.
  { unfold for_io. induction l as [|t l IH]; intros w; [done|]. simpl. unfold mbind, io_bind.
    change (unapply_operation m _ w) with (unapply_between m t w).
    destruct (unapply_between m t w) as [w1 [[]|e|e]]; [apply IH|done..]. }
  intros w. unfold mbind, io_bind. by rewrite Heq.
Qed.

(** a migration with an operation that cannot be reversed is refused
    before anything is undone. *)
Theorem Unapply_irreversible m s w :
  forallb Reversible (mig_Operations m) = false →
  (Unapply FormatOperation m s w).1 = w ∧ is_ok (Unapply FormatOperation m s w).2 = false.
Proof.
  intros Hr. unfold Unapply. assert (is_ok (unapply_steps FormatOperation m s) = false) as Hs.
  { unfold unapply_steps. generalize (@nil unapply_step) as acc. revert s.
    induction (mig_Operations m) as [|op ops IH]; intros s acc; [done|]. rewrite foldM_cons. unfold unapply_collect at 2. simpl in Hr.
    destruct (Reversible op); [|done]. simpl. destruct (StateForwards op _ _); [|done..]. by apply IH. }
  unfold mbind, io_bind, lift. destruct (unapply_steps FormatOperation m s); by try done.
Qed.
End migration.

(** ** Suggested names *)

Definition is_word (s : string) : bool := forallb word_char (String.list_ascii_of_string s).

Lemma list_ascii_app a b :
  String.list_ascii_of_string (a +:+ b) = String.list_ascii_of_string a ++ String.list_ascii_of_string b.
Proof. induction a as [|c a IH]; simpl; [done|]. by rewrite IH. Qed.

Lemma is_word_app a b : is_word (a +:+ b) = is_word a && is_word b.
Proof. unfold is_word. by rewrite list_ascii_app, forallb_app. Qed.

Lemma replace_non_word_word b s : is_word (replace_non_word b s) = true.
Proof.
  revert b. induction s as [|c s IH]; intros b; [done|]. simpl. destruct (word_char c) eqn:Hc.
  - unfold is_word. simpl. rewrite Hc. apply IH.
  - destruct b; [apply IH|]. unfold is_word. simpl. apply IH.
Qed.

(** A word is kept as it is. *)
Lemma replace_non_word_id b s : is_word s = true → replace_non_word b s = s.
Proof.
  revert b. induction s as [|c s IH]; intros b; [done|]. unfold is_word. simpl.
  intros [-> Hs]%andb_true_iff. by rewrite IH.
Qed.

Lemma length_string_app a b : String.length (a +:+ b) = String.length a + String.length b.
Proof. induction a as [|c a IH]; simpl; [done|]. by rewrite IH. Qed.

Lemma join_fragments_word name fs :
  is_word name = true → Forall (fun f => is_word f = true) fs → is_word (join_fragments name fs) = true.
Proof.
  revert name. induction fs as [|f fs IH]; intros name Hn Hfs; [done|]. apply Forall_cons in Hfs as [Hf Hfs].
  simpl. case_bool_decide; [by rewrite is_word_app, Hn|]. apply IH; [|done].
  by rewrite !is_word_app, Hn, Hf.
Qed.

Lemma join_fragments_length name fs :
  String.length (join_fragments name fs) ≤ String.length name `max` maxSuggestedNameLen + 9.
Proof.
  revert name. induction fs as [|f fs IH]; intros name; simpl; [lia|]. case_bool_decide as Hl.
  - rewrite length_string_app. simpl. lia.
  - specialize (IH (name +:+ "_" +:+ f)). lia.
Qed.

(** A suggested name is a word, so that it can name a file and a Go
    identifier; and only its first fragment can make it longer than the
    budget of 52 characters and the nine of _and_more. *)
Theorem SuggestName_word timestamp m :
  is_word timestamp = true → String.length timestamp ≤ 13 →
  is_word (SuggestName timestamp m) = true ∧
  String.length (SuggestName timestamp m) ≤
    String.length (default "" (head (name_fragments m))) `max` maxSuggestedNameLen + 9.
Proof.
  intros Ht Hlen. unfold SuggestName.
  assert (is_word ("auto_" +:+ timestamp) = true ∧ ∀ n, String.length ("auto_" +:+ timestamp) ≤ n `max` maxSuggestedNameLen + 9)
    as [Hw Hl].
  { rewrite is_word_app, Ht. split; [done|]. intros n. rewrite length_string_app. unfold maxSuggestedNameLen. simpl. lia. }
  destruct (IsInitial m); [split; [done|unfold maxSuggestedNameLen; simpl; lia]|].
  assert (Forall (fun f => is_word f = true) (name_fragments m)) as Hfs.
  { apply Forall_forall. intros f (op & _ & Hop)%list_elem_of_omap. cbv zeta in Hop. case_bool_decide; [done|].
    injection Hop as <-. apply replace_non_word_word. }
  destruct (name_fragments m) as [|f fs]; [by split|]. apply Forall_cons in Hfs as [Hf Hfs].
  case_match; [by split|]. split; [by apply join_fragments_word|]. apply join_fragments_length.
Qed.

(** What is unapplied are operations of the migration. *)
Lemma unapply_steps_ops FormatOperation mig s r :
  unapply_steps FormatOperation mig s = Ok r → Forall (fun st => us_op st ∈ mig_Operations mig) r.1.
Proof.
  unfold unapply_steps. apply (foldM_ind _ (fun acc => Forall (fun st => us_op st ∈ mig_Operations mig) acc.1)); [|constructor].
  intros acc op acc' Hop Hacc. unfold unapply_collect.
  destruct (negb (Reversible op)); [done|]. intros (st & _ & [= <-])%bind_Ok. by constructor.
Qed.
