(* ===== verification/Traversal.v ===== *)
(** * Depth-first traversals: internal/graph/graph.go

    The two traversals of the migration graph, over any successor function:
    iterativeDFS, which lists what a node reaches in dependency order, and
    the search for a cycle of EnsureNotCyclic. Both are loops over an
    explicit stack; fuel counts their iterations. *)

From S2P Require Import Prelude.

Section traversal.
Context {A : Type} `{Countable A}.
(** The successors of a node, in the order sortedNodes gives them *)
Context (next : A → list A).

(** ** iterativeDFS *)

Record item := mkItem { it_n : A; it_processed : bool }.

(** The loop; the top of the stack is the head of the list. [None] when the
    fuel runs out. *)
Fixpoint dfs (fuel : nat) (stack : list item) (seen : gset A) (visited : list A) : option (list A) :=
  match fuel with
  | 0 => None
  | S fuel =>
      match stack with
      | [] => Some visited
      | it :: stack =>
          if bool_decide (it_n it ∈ seen) then dfs fuel stack seen visited
          else if it_processed it then dfs fuel stack ({[it_n it]} ∪ seen) (visited ++ [it_n it])
          else dfs fuel (map (fun n => mkItem n false) (rev (next (it_n it))) ++ mkItem (it_n it) true :: stack)
                 seen visited
      end
  end.

(** The iterations that expanding these nodes takes *)
Definition cost (l : list A) : nat := sum_list_with (fun k => S (length (next k))) l.

(** A list in which every node comes after all of its successors *)
Fixpoint ordered_from (before : list A) (l : list A) : Prop :=
  match l with
  | [] => True
  | k :: l => (∀ c, c ∈ next k → c ∈ before) ∧ ordered_from (before ++ [k]) l
  end.
Definition ordered (l : list A) : Prop := ordered_from [] l.

Lemma ordered_from_app before l1 l2 :
  ordered_from before (l1 ++ l2) ↔ ordered_from before l1 ∧ ordered_from (before ++ l1) l2.
Proof.
  revert before. induction l1 as [|k l1 IH]; intros before; simpl.
  { rewrite app_nil_r. tauto. }
  rewrite IH, <- app_assoc. simpl. tauto.
Qed.

Lemma ordered_snoc l k : ordered l → (∀ c, c ∈ next k → c ∈ l) → ordered (l ++ [k]).
Proof. intros Hl Hk. apply ordered_from_app. split; [done|]. simpl. done. Qed.

(** Successors of a listed node are listed, and before it. *)
Lemma ordered_lookup l i k c :
  ordered l → l !! i = Some k → c ∈ next k → ∃ j, j < i ∧ l !! j = Some c.
Proof.
  intros Hl Hi Hc. rewrite <- (take_drop_middle _ _ _ Hi) in Hl. apply ordered_from_app in Hl as [_ [Hk _]].
  simpl in Hk. apply Hk in Hc. apply list_elem_of_lookup in Hc as [j Hj].
  apply lookup_take_Some in Hj as [Hj Hlt]. eauto.
Qed.

Lemma ordered_closed l k c : ordered l → k ∈ l → c ∈ next k → c ∈ l.
Proof.
  intros Hl [i Hi]%list_elem_of_lookup Hc. destruct (ordered_lookup l i k c Hl Hi Hc) as (j & _ & Hj).
  by eapply list_elem_of_lookup_2.
Qed.

(** The reachability the traversal computes *)
Definition step (a b : A) : Prop := b ∈ next a.

Lemma ordered_reach l k c : ordered l → k ∈ l → rtc step k c → c ∈ l.
Proof. intros Hl Hk Hr. revert Hk. induction Hr as [|a b c Hab _ IH]; [done|]. intros Ha. apply IH. by eapply ordered_closed. Qed.

(** What the loop does with the entries of a run of the stack: [new] is
    appended, at a known cost. *)
Definition consumes (items : list item) (visited new : list A) (n : nat) : Prop :=
  ∀ fuel rest,
    dfs (n + fuel) (items ++ rest) (list_to_set visited) visited =
    dfs fuel rest (list_to_set (visited ++ new)) (visited ++ new).

Lemma consumes_nil visited : consumes [] visited [] 0.
Proof. intros fuel rest. by rewrite app_nil_r. Qed.

Lemma consumes_app i1 i2 visited n1 n2 c1 c2 :
  consumes i1 visited n1 c1 → consumes i2 (visited ++ n1) n2 c2 → consumes (i1 ++ i2) visited (n1 ++ n2) (c1 + c2).
Proof.
  intros H1 H2 fuel rest. rewrite <- (app_assoc i1), <- Nat.add_assoc, H1, H2. by rewrite <- app_assoc.
Qed.

Lemma consumes_seen k b visited : k ∈ visited → consumes [mkItem k b] visited [] 1.
Proof.
  intros Hk fuel rest. simpl. rewrite bool_decide_eq_true_2 by (by apply elem_of_list_to_set).
  by rewrite app_nil_r.
Qed.

Lemma consumes_done k visited : k ∉ visited → consumes [mkItem k true] visited [k] 1.
Proof.
  intros Hk fuel rest. simpl. rewrite bool_decide_eq_false_2 by (by rewrite elem_of_list_to_set).
  f_equal. apply leibniz_equiv. rewrite list_to_set_app, list_to_set_singleton. set_solver.
Qed.

(** The result of visiting one node *)
Definition visits (k : A) (items : list item) (visited new : list A) : Prop :=
  consumes items visited new (length items + cost new) ∧
  NoDup (visited ++ new) ∧ ordered (visited ++ new) ∧
  (∀ x, x ∈ new → rtc step k x).

Lemma cost_perm l1 l2 : l1 ≡ₚ l2 → cost l1 = cost l2.
Proof. unfold cost. induction 1; simpl; lia. Qed.

Lemma cost_app l1 l2 : cost (l1 ++ l2) = cost l1 + cost l2.
Proof. apply sum_list_with_app. Qed.

(** The nodes of a list, one after the other, when each of them can be
    visited *)
Lemma visits_all l visited :
  (∀ c visited, c ∈ l → NoDup visited → ordered visited →
     ∃ new, visits c [mkItem c false] visited new ∧ c ∈ visited ++ new) →
  NoDup visited → ordered visited →
  ∃ new, consumes (map (fun n => mkItem n false) l) visited new (length l + cost new) ∧
         NoDup (visited ++ new) ∧ ordered (visited ++ new) ∧
         (∀ x, x ∈ new → ∃ c, c ∈ l ∧ rtc step c x) ∧
         ∀ c, c ∈ l → c ∈ visited ++ new.
Proof.
  revert visited. induction l as [|c l IH]; intros visited Hv Hnd Hord.
  { exists []. rewrite !app_nil_r. split_and!; [apply consumes_nil|done|done| |]; intros x Hx; by apply elem_of_nil in Hx. }
  destruct (Hv c visited) as (n1 & (Hc1 & Hnd1 & Hord1 & Hr1) & Hin1); [left|done|done|].
  destruct (IH (visited ++ n1)) as (n2 & Hc2 & Hnd2 & Hord2 & Hr2 & Hin2); [intros; by apply Hv; [right|..]|done|done|].
  exists (n1 ++ n2). rewrite app_assoc. split_and!; [|done|done| |].
  - rewrite cost_app. simpl length.
    replace (S (length l) + (cost n1 + cost n2)) with ((1 + cost n1) + (length l + cost n2)) by lia.
    by apply (consumes_app [mkItem c false]).
  - intros x [Hx|Hx]%elem_of_app; [exists c; split; [left|by apply Hr1]|].
    destruct (Hr2 x Hx) as (d & Hd & Hdx). exists d. split; [by right|done].
  - intros x [->|Hx]%elem_of_cons; [set_solver|by apply Hin2].
Qed.

Lemma wf_no_cycle (Hwf : well_founded (fun a b => step b a)) k c : step k c → ¬ rtc step c k.
Proof.
  revert c. induction (Hwf k) as [k _ IH]. intros c Hkc Hck. apply rtc_inv in Hck as [->|(d & Hcd & Hdk)].
  - by apply (IH k Hkc k Hkc).
  - apply (IH c Hkc d Hcd). by eapply rtc_r.
Qed.

(** On an acyclic graph every node can be visited. *)
Lemma visits_one (Hwf : well_founded (fun a b => step b a)) k visited :
  NoDup visited → ordered visited →
  ∃ new, visits k [mkItem k false] visited new ∧ k ∈ visited ++ new ∧ (k ∉ visited → last new = Some k).
Proof.
  revert visited. induction (Hwf k) as [k _ IH]. intros visited Hnd Hord.
  destruct (decide (k ∈ visited)) as [Hk|Hk].
  { exists []. unfold visits. rewrite app_nil_r. split_and!; [by apply consumes_seen|done|done| |done|done].
    intros x Hx. by apply elem_of_nil in Hx. }
  destruct (visits_all (rev (next k)) visited) as (new & Hc & Hnd' & Hord' & Hr & Hin); [|done|done|].
  { intros c v Hc Hnv Hov. destruct (IH c) with (visited := v) as (n & Hn & Hcn & _); [|done|done|eauto].
    unfold step. by rewrite list_elem_of_In, in_rev, <- list_elem_of_In. }
  assert (∀ c, c ∈ next k → c ∈ visited ++ new) as Hsucc.
  { intros c Hc'. apply Hin. by rewrite list_elem_of_In, <- in_rev, <- list_elem_of_In. }
  assert (k ∉ visited ++ new) as Hknew.
  { intros [?|Hx]%elem_of_app; [done|]. destruct (Hr k Hx) as (c & Hc' & Hck).
    apply (wf_no_cycle Hwf k c); [|done]. unfold step.
    by rewrite list_elem_of_In, in_rev, <- list_elem_of_In. }
  exists (new ++ [k]). unfold visits. rewrite app_assoc. split_and!.
  - intros fuel rest. simpl. rewrite bool_decide_eq_false_2 by (by rewrite elem_of_list_to_set).
    rewrite cost_app. unfold cost at 2. simpl. rewrite length_rev in Hc.
    replace (cost new + S (length (next k) + 0) + fuel) with ((length (next k) + cost new) + S fuel) by lia.
    rewrite Hc. etrans; [exact (consumes_done k (visited ++ new) Hknew fuel rest)|]. by rewrite app_assoc.
  - apply NoDup_app. split_and!; [done| |apply NoDup_singleton]. intros x Hx ->%list_elem_of_singleton. done.
  - by apply ordered_snoc.
  - intros x [Hx| ->%list_elem_of_singleton]%elem_of_app; [|done]. destruct (Hr x Hx) as (c & Hc' & Hcx).
    eapply rtc_l; [|done]. unfold step. by rewrite list_elem_of_In, in_rev, <- list_elem_of_In.
  - set_solver.
  - intros _. by rewrite last_snoc.
Qed.

(** The traversal from one node: with fuel for the nodes of any duplicate-free
    list that holds all it reaches, it returns exactly what the node reaches,
    each node once and after its successors, the node itself at the end. *)
Lemma dfs_spec (Hwf : well_founded (fun a b => step b a)) k all fuel :
  NoDup all → (∀ x, rtc step k x → x ∈ all) → 1 + cost all < fuel →
  ∃ l, dfs fuel [mkItem k false] ∅ [] = Some l ∧
       NoDup l ∧ (∀ x, x ∈ l ↔ rtc step k x) ∧ ordered l ∧ last l = Some k.
Proof.
  intros Hall Hreach Hfuel.
  destruct (visits_one Hwf k []) as (l & (Hc & Hnd & Hord & Hr) & Hin & Hlast); [constructor|done|].
  assert (cost l ≤ cost all) as Hle.
  { assert (l ⊆+ all) as [l' Hl']%submseteq_Permutation.
    { apply NoDup_submseteq; [done|]. intros x Hx. by apply Hreach, Hr. }
    rewrite (cost_perm _ _ Hl'), cost_app. lia. }
  exists l. split_and!; [|done| |done|].
  - replace fuel with ((1 + cost l) + (S (fuel - 2 - cost l))) by lia.
    rewrite <- (app_nil_r [mkItem k false]). rewrite (Hc _ []). done.
  - intros x. split; [apply Hr|]. intros Hx. by eapply ordered_reach.
  - apply Hlast. by intros ?%elem_of_nil.
Qed.

(** ** EnsureNotCyclic *)

Inductive scan_result :=
| ScanCycle (path : list A)
| ScanPush (c : A)
| ScanExhausted.

(** The loop over the children of the top of the stack; [path] is the stack
    from its bottom to its top. *)
Fixpoint scan_children (path : list A) (todo : gset A) (children : list A) : scan_result :=
  match children with
  | [] => ScanExhausted
  | ck :: rest =>
      match index_func (fun s => bool_decide (s = ck)) path with
      | Some i => ScanCycle (drop i path)
      | None => if bool_decide (ck ∈ todo) then ScanPush ck else scan_children path todo rest
      end
  end.

(** The loop from one start: a cycle, or the nodes still to do. [None] when
    the fuel runs out. *)
Fixpoint search (fuel : nat) (path : list A) (todo : gset A) : option (list A + gset A) :=
  match fuel with
  | 0 => None
  | S fuel =>
      match last path with
      | None => Some (inr todo)
      | Some top =>
          match scan_children path todo (next top) with
          | ScanCycle p => Some (inl p)
          | ScanPush c => search fuel (path ++ [c]) (todo ∖ {[c]})
          | ScanExhausted => search fuel (take (length path - 1) path) todo
          end
      end
  end.

(** The loop over the starts *)
Fixpoint search_all (fuel : nat) (starts : list A) (todo : gset A) : option (option (list A)) :=
  match starts with
  | [] => Some None
  | start :: rest =>
      if bool_decide (start ∈ todo) then
        match search fuel [start] (todo ∖ {[start]}) with
        | None => None
        | Some (inl p) => Some (Some p)
        | Some (inr todo') => search_all fuel rest todo'
        end
      else search_all fuel rest todo
  end.

(** A list of nodes that closes on itself *)
Definition is_path (l : list A) : Prop :=
  ∀ i a b, l !! i = Some a → l !! S i = Some b → step a b.
Definition is_cycle (l : list A) : Prop :=
  is_path l ∧ ∃ a b, last l = Some a ∧ head l = Some b ∧ step a b.

Lemma is_path_rtc l a b : is_path l → head l = Some a → last l = Some b → rtc step a b.
Proof.
  revert a. induction l as [|x l IH]; intros a Hp Ha Hb; [done|]. injection Ha as ->.
  destruct l as [|y l]; [by injection Hb as ->|].
  eapply rtc_l; [by apply (Hp 0)|]. apply (IH y); [|done|done].
  intros i c d Hc Hd. by apply (Hp (S i)).
Qed.

Lemma is_cycle_not_wf l : is_cycle l → ¬ well_founded (fun a b => step b a).
Proof.
  intros (Hp & a & b & Ha & Hb & Hab) Hwf. apply (wf_no_cycle Hwf a b Hab). by eapply is_path_rtc.
Qed.

Lemma is_path_snoc l c : is_path l → (∀ top, last l = Some top → step top c) → is_path (l ++ [c]).
Proof.
  intros Hp Hc i a b Ha Hb. apply lookup_snoc_Some in Hb as [[Hlt Hb]|[Hlen <-]].
  - apply (Hp i); [|done]. by rewrite lookup_app_l in Ha by lia.
  - apply Hc. rewrite last_lookup, <- Hlen. simpl. by rewrite lookup_app_l in Ha by lia.
Qed.

Lemma is_path_take n l : is_path l → is_path (take n l).
Proof.
  intros Hp i a b Ha Hb. apply lookup_take_Some in Ha as [Ha _], Hb as [Hb _]. by eapply Hp.
Qed.

(** What the scan of the children says *)
Lemma scan_children_spec path todo children :
  match scan_children path todo children with
  | ScanCycle p => ∃ i c, c ∈ children ∧ path !! i = Some c ∧ p = drop i path
  | ScanPush c => c ∈ children ∧ c ∈ todo ∧ c ∉ path
  | ScanExhausted => ∀ c, c ∈ children → c ∉ path ∧ c ∉ todo
  end.
Proof.
  induction children as [|c cs IH]; simpl.
  { intros c Hc. by apply elem_of_nil in Hc. }
  destruct (index_func _ path) as [i|] eqn:Ei.
  - apply index_func_Some in Ei as (x & Hx & Hxc & _). apply bool_decide_eq_true in Hxc as ->.
    exists i, c. split_and!; [left|done|done].
  - rewrite index_func_None in Ei.
    assert (c ∉ path) as Hc. { intros Hin. specialize (Ei c Hin). by apply bool_decide_eq_false in Ei. }
    case_bool_decide as Htodo.
    + split_and!; [left|done|done].
    + destruct (scan_children path todo cs).
      * destruct IH as (i & d & Hd & Hi & ->). exists i, d. split_and!; [by right|done|done].
      * destruct IH as (? & ? & ?). split_and!; [by right|done|done].
      * intros d [->|Hd]%elem_of_cons; [done|by apply IH].
Qed.

(** The invariant of the search: every node is still to do, on the path, or
    done, and the nodes done come after their successors. *)
Definition search_inv (all : gset A) (path : list A) (todo : gset A) (done : list A) : Prop :=
  is_path path ∧ ordered done ∧ (∀ x, x ∈ path → x ∉ todo) ∧ todo ⊆ all ∧
  (∀ x, x ∈ all → x ∈ todo ∨ x ∈ path ∨ x ∈ done) ∧ (∀ x, x ∈ path → x ∈ all).

Lemma take_last (l : list A) top : last l = Some top → l = take (length l - 1) l ++ [top].
Proof.
  intros Hl. destruct l as [|x l'] using rev_ind; [done|]. rewrite last_snoc in Hl. injection Hl as ->.
  rewrite length_app. simpl. replace (length l' + 1 - 1) with (length l') by lia. by rewrite take_app_length.
Qed.

Lemma search_spec all fuel path todo done :
  (∀ k c, k ∈ all → step k c → c ∈ all) →
  search_inv all path todo done → 2 * size todo + length path < fuel →
  match search fuel path todo with
  | None => False
  | Some (inl p) => is_cycle p
  | Some (inr todo') => ∃ done', search_inv all [] todo' done' ∧ todo' ⊆ todo
  end.
Proof.
  intros Hclosed. revert path todo done. induction fuel as [|fuel IH]; intros path todo dn Hinv Hfuel; [lia|].
  simpl. destruct (last path) as [top|] eqn:Htop.
  2:{ apply last_None in Htop as ->. exists dn. done. }
  destruct Hinv as (Hpath & Hord & Hdisj & Hsub & Hcov & Hall).
  assert (top ∈ path) as Hin. { rewrite last_lookup in Htop. by eapply list_elem_of_lookup_2. }
  pose proof (scan_children_spec path todo (next top)) as Hscan.
  destruct (scan_children path todo (next top)) as [p|c|].
  - destruct Hscan as (i & c & Hc & Hi & ->). split.
    + intros j a b Ha Hb. rewrite lookup_drop in Ha, Hb. apply (Hpath (i + j)); [done|].
      by rewrite <- Nat.add_succ_r.
    + exists top, c. split_and!; [|by rewrite (drop_S _ _ _ Hi)|done].
      apply lookup_lt_Some in Hi. rewrite last_lookup in Htop |- *. rewrite lookup_drop, length_drop.
      by replace (i + Init.Nat.pred (length path - i)) with (Init.Nat.pred (length path)) by lia.
  - destruct Hscan as (Hc & Htodo & Hnp).
    assert (size todo = S (size (todo ∖ {[c]}))) as Hsize.
    { rewrite size_difference by set_solver. rewrite size_singleton.
      assert (size todo ≠ 0); [|lia]. intros Hz%size_empty_inv. set_solver. }
    assert (search_inv all (path ++ [c]) (todo ∖ {[c]}) dn) as Hinv.
    { split_and!; [|done| | | |].
      - apply is_path_snoc; [done|]. intros ? Heq. rewrite Htop in Heq. by injection Heq as <-.
      - intros x [Hx| ->%list_elem_of_singleton]%elem_of_app; [specialize (Hdisj x Hx)|]; clear -Hdisj; set_solver.
      - clear -Hsub. set_solver.
      - intros x Hx. destruct (Hcov x Hx) as [Ht|[Hp|Hd]]; [|clear -Hp; set_solver|by right; right].
        clear -Ht. destruct (decide (x = c)); set_solver.
      - intros x [Hx| ->%list_elem_of_singleton]%elem_of_app; [by apply Hall|by apply Hsub]. }
    specialize (IH _ _ _ Hinv). rewrite length_app in IH. simpl in IH. specialize (IH ltac:(lia)).
    destruct (search fuel (path ++ [c]) (todo ∖ {[c]})) as [[p|todo']|]; [done| |done].
    destruct IH as (dn' & Hdn & Hle). exists dn'. split; [done|]. clear -Hle. set_solver.
  - pose proof (take_last _ _ Htop) as Htake. set (path' := take (length path - 1) path) in *.
    assert (length path = S (length path')) as Hlen by (rewrite Htake, length_app; simpl; lia).
    apply (IH path' todo (dn ++ [top])); [|lia]. split_and!.
    + by apply is_path_take.
    + apply ordered_snoc; [done|]. intros c Hc. destruct (Hscan c Hc) as [Hnp Hnt].
      destruct (Hcov c) as [?|[?|?]]; [|done..]. eapply Hclosed; [by apply Hall|done].
    + intros x Hx. apply Hdisj. rewrite Htake. apply elem_of_app. by left.
    + done.
    + intros x Hx. destruct (Hcov x Hx) as [?|[Hxp|?]]; [by left| |by right; right; apply elem_of_app; left].
      rewrite Htake in Hxp. right. apply elem_of_app in Hxp as [?|?]; [by left|right]. apply elem_of_app. by right.
    + intros x Hx. apply Hall. rewrite Htake. apply elem_of_app. by left.
Qed.

Lemma search_all_spec all fuel starts todo dn :
  (∀ k c, k ∈ all → step k c → c ∈ all) →
  search_inv all [] todo dn → 2 * size all + 1 < fuel →
  match search_all fuel starts todo with
  | None => False
  | Some (Some p) => is_cycle p
  | Some None => (∀ x, x ∈ todo → x ∈ starts) → ∃ dn', ordered dn' ∧ ∀ x, x ∈ all → x ∈ dn'
  end.
Proof.
  intros Hclosed. revert todo dn. induction starts as [|s starts IH]; intros todo dn Hinv Hfuel; simpl.
  { intros Hnone. destruct Hinv as (_ & Hord & _ & _ & Hcov & _). exists dn. split; [done|].
    intros x Hx. destruct (Hcov x Hx) as [Ht|[Hp|?]]; [|by apply elem_of_nil in Hp|done].
    by apply Hnone, elem_of_nil in Ht. }
  case_bool_decide as Hs.
  - destruct Hinv as (_ & Hord & _ & Hsub & Hcov & _).
    assert (size (todo ∖ {[s]}) ≤ size all) as Hsize by (apply subseteq_size; set_solver).
    assert (search_inv all [s] (todo ∖ {[s]}) dn) as Hinv.
    { split_and!; [|done| | | |].
      - intros i a b Ha Hb. by destruct i.
      - intros x ->%list_elem_of_singleton. clear. set_solver.
      - clear -Hsub. set_solver.
      - intros x Hx. destruct (Hcov x Hx) as [Ht|[Hp|Hd]]; [|by apply elem_of_nil in Hp|by right; right].
        clear -Ht. destruct (decide (x = s)); set_solver.
      - intros x ->%list_elem_of_singleton. by apply Hsub. }
    pose proof (search_spec all fuel [s] (todo ∖ {[s]}) dn Hclosed Hinv) as Hsearch. simpl in Hsearch.
    specialize (Hsearch ltac:(lia)).
    destruct (search fuel [s] (todo ∖ {[s]})) as [[p|todo']|]; [done| |done].
    destruct Hsearch as (dn' & Hinv' & Hle). specialize (IH todo' dn' Hinv' Hfuel).
    destruct (search_all fuel starts todo') as [[p|]|]; [done| |done].
    intros Hstarts. apply IH. intros x Hx.
    assert (x ∈ todo ∧ x ≠ s) as [Hxt Hxs] by (apply Hle in Hx; clear -Hx; set_solver).
    specialize (Hstarts x Hxt). apply elem_of_cons in Hstarts as [?|?]; done.
  - specialize (IH todo dn Hinv Hfuel).
    destruct (search_all fuel starts todo) as [[p|]|]; [done| |done].
    intros Hstarts. apply IH. intros x Hx. specialize (Hstarts x Hx).
    apply elem_of_cons in Hstarts as [->|?]; done.
Qed.

(** A list that holds every node after its successors is a witness that
    there is no cycle. *)
Lemma ordered_wf l :
  ordered l → (∀ a b, step a b → a ∈ l) → well_founded (fun a b => step b a).
Proof.
  intros Hl Hin. assert (∀ i a, l !! i = Some a → Acc (fun a b => step b a) a) as Hacc.
  { intros i. induction (lt_wf i) as [i _ IH]. intros a Ha. constructor. intros b Hb.
    destruct (ordered_lookup l i a b Hl Ha Hb) as (j & Hj & Hb'). by eapply IH. }
  intros a. constructor. intros b Hab. apply Hin in Hab as Ha. apply list_elem_of_lookup in Ha as [i Hi].
  by destruct (Hacc i a Hi) as [Hp]; apply Hp.
Qed.
End traversal.
