(* ===== verification/Graph.v ===== *)
(** * The migration graph: internal/graph/graph.go

    A Node is known by its key: the map NodeMap is the only way to a node,
    and AddNode and AddDependency put a node in it under a key that is not
    there. The sets of pointers Children and Parents are sets of keys here. *)

From S2P Require Import Prelude GoStd Keys Errors Fields Index ModelState Apps ProjectState Operation Migration.
From S2P Require Import Traversal.

Record Node := mkNode {
  n_Children : gset Key;
  n_Parents : gset Key;
  n_dummy : bool;
  n_origin : string;
  n_errorMessage : string;
}.

(** newNode *)
Definition newNode : Node := mkNode ∅ ∅ false "" "".

(** A key of Nodes mapped to None is that of a dummy node. *)
Record Graph := mkGraph {
  g_NodeMap : gmap Key Node;
  g_Nodes : gmap Key (option Migration);
}.

(** New *)
Definition New : Graph := mkGraph ∅ ∅.

(** sortedNodes *)
Definition sortedNodes (set : gset Key) : list Key := SortKeys (elements set).

(** The keys of a map in CompareKeys order *)
Definition sorted_keys {V} (m : gmap Key V) : list Key := SortKeys (map fst (map_to_list m)).

(** Dereferencing the node of a key *)
Definition node (g : Graph) (k : Key) : outcome Node :=
  match g_NodeMap g !! k with
  | Some n => Ok n
  | None => Panic nil_dereference
  end.

Definition children (nm : gmap Key Node) (k : Key) : gset Key :=
  match nm !! k with Some n => n_Children n | None => ∅ end.
Definition parents (nm : gmap Key Node) (k : Key) : gset Key :=
  match nm !! k with Some n => n_Parents n | None => ∅ end.

(** Writes to the sets of a node *)
Definition upd_children (f : gset Key → gset Key) (n : Node) : Node :=
  mkNode (f (n_Children n)) (n_Parents n) (n_dummy n) (n_origin n) (n_errorMessage n).
Definition upd_parents (f : gset Key → gset Key) (n : Node) : Node :=
  mkNode (n_Children n) (f (n_Parents n)) (n_dummy n) (n_origin n) (n_errorMessage n).

Definition add_child (p c : Key) (nm : gmap Key Node) : gmap Key Node := alter (upd_children (fun s => {[c]} ∪ s)) p nm.
Definition add_parent (c p : Key) (nm : gmap Key Node) : gmap Key Node := alter (upd_parents (fun s => {[p]} ∪ s)) c nm.
Definition del_child (p c : Key) (nm : gmap Key Node) : gmap Key Node := alter (upd_children (fun s => s ∖ {[c]})) p nm.
Definition del_parent (c p : Key) (nm : gmap Key Node) : gmap Key Node := alter (upd_parents (fun s => s ∖ {[p]})) c nm.

(** ** Building *)

(** Graph.AddNode *)
Definition AddNode (k : Key) (mig : option Migration) (g : Graph) : outcome Graph :=
  match g_NodeMap g !! k with
  | Some _ => Panic (PlainError ("graph: duplicate node " +:+ Key_String k))
  | None => Ok (mkGraph (<[k := newNode]> (g_NodeMap g)) (<[k := mig]> (g_Nodes g)))
  end.

(** Graph.AddDummyNode *)
Definition AddDummyNode (k : Key) (origin errorMessage : string) (g : Graph) : Graph :=
  mkGraph (<[k := mkNode ∅ ∅ true origin errorMessage]> (g_NodeMap g)) (<[k := None]> (g_Nodes g)).

(** Graph.Has *)
Definition Has (g : Graph) (k : Key) : bool := bool_decide (is_Some (g_Nodes g !! k)).

(** Graph.ValidateConsistency: the first dummy node *)
Definition ValidateConsistency (g : Graph) : outcome unit :=
  foldM (fun _ k =>
    match g_NodeMap g !! k with
    | Some n => if n_dummy n then Err (NodeNotFoundError (n_errorMessage n) k (n_origin n)) else Ok tt
    | None => Ok tt
    end) tt (sorted_keys (g_NodeMap g)).

Definition missing_node (what migration : string) (k : Key) : string :=
  "Migration " +:+ migration +:+ " dependencies reference nonexistent " +:+ what +:+ " node " +:+ FormatKey k.

Definition ensure_node (what migration : string) (k : Key) (g : Graph) : Graph :=
  if Has g k then g else AddDummyNode k migration (missing_node what migration k) g.

(** Graph.AddDependency. The edge is added even when the validation that
    follows it fails. *)
Definition AddDependency (migration : string) (child parent : Key) (skipValidation : bool) (g : Graph)
    : Graph * outcome unit :=
  let g1 := ensure_node "parent" migration parent (ensure_node "child" migration child g) in
  match g_NodeMap g1 !! child, g_NodeMap g1 !! parent with
  | Some _, Some _ =>
      let g2 := mkGraph (add_child parent child (add_parent child parent (g_NodeMap g1))) (g_Nodes g1) in
      (g2, if skipValidation then Ok tt else ValidateConsistency g2)
  | _, _ => (g1, Panic nil_dereference)
  end.

(** ** Squashed migrations *)

(** The body of the loop of RemoveReplacedNodes over a replaced key *)
Definition contract_child (rn rk : Key) (replacedSet : gset Key) (nm : gmap Key Node) (child : Key) : gmap Key Node :=
  let nm := del_parent child rk nm in
  if bool_decide (child ∈ replacedSet) then nm else add_parent child rn (add_child rn child nm).

Definition contract_parent (rn rk : Key) (replacedSet : gset Key) (nm : gmap Key Node) (parent : Key) : gmap Key Node :=
  let nm := del_child parent rk nm in
  if bool_decide (parent ∈ replacedSet) then nm else add_child parent rn (add_parent rn parent nm).

Definition remove_replaced (rn : Key) (replacedSet : gset Key) (g : Graph) (rk : Key) : Graph :=
  let nodes := delete rk (g_Nodes g) in
  match g_NodeMap g !! rk with
  | None => mkGraph (g_NodeMap g) nodes
  | Some n =>
      let nm := delete rk (g_NodeMap g) in
      let nm := fold_left (contract_child rn rk replacedSet) (elements (n_Children n)) nm in
      let nm := fold_left (contract_parent rn rk replacedSet) (elements (n_Parents n)) nm in
      mkGraph nm nodes
  end.

(** Graph.RemoveReplacedNodes *)
Definition RemoveReplacedNodes (replacement : Key) (replaced : list Key) (g : Graph) : outcome Graph :=
  let replacedSet : gset Key := list_to_set replaced in
  match g_NodeMap g !! replacement with
  | None =>
      Err (NodeNotFoundError ("Unable to find replacement node " +:+ FormatKey replacement +:+
        ". It was either never added to the migration graph, or has been removed.") replacement "")
  | Some _ => Ok (fold_left (remove_replaced replacement replacedSet) (sortedNodes replacedSet) g)
  end.

(** Graph.RemoveReplacementNode. The migration is dropped even when there is
    no node. *)
Definition RemoveReplacementNode (replacement : Key) (replaced : list Key) (g : Graph) : Graph * outcome unit :=
  let nodes := delete replacement (g_Nodes g) in
  match g_NodeMap g !! replacement with
  | None =>
      (mkGraph (g_NodeMap g) nodes,
       Err (NodeNotFoundError ("Unable to remove replacement node " +:+ FormatKey replacement +:+
         ". It was either never added to the migration graph, or has been removed already.") replacement ""))
  | Some rn =>
      let nm := delete replacement (g_NodeMap g) in
      let present : gset Key := list_to_set (filter (fun k => is_Some (nm !! k)) replaced) in
      let replacedParents := ⋃ (map (parents nm) (elements present)) in
      let replacedNodes := present ∖ replacedParents in
      let nm := fold_left (fun nm child =>
                  fold_left (fun nm n => add_parent child n (add_child n child nm)) (elements replacedNodes)
                    (del_parent child replacement nm)) (elements (n_Children rn)) nm in
      let nm := fold_left (fun nm parent => del_child parent replacement nm) (elements (n_Parents rn)) nm in
      (mkGraph nm nodes, Ok tt)
  end.

(** ** Plans *)

Definition not_valid (target : Key) : error :=
  NodeNotFoundError ("Node " +:+ FormatKey target +:+ " not a valid node") target "".

Definition next_nodes (g : Graph) (forwards : bool) (k : Key) : list Key :=
  sortedNodes (if forwards then parents (g_NodeMap g) k else children (g_NodeMap g) k).

(** The iterations the traversal of an acyclic graph takes *)
Definition dfs_fuel (g : Graph) (forwards : bool) : nat :=
  2 + cost (next_nodes g forwards) (sorted_keys (g_NodeMap g)).

(** Graph.iterativeDFS; [None] when it does not return. *)
Definition iterativeDFS (g : Graph) (start : Key) (forwards : bool) : option (list Key) :=
  dfs (next_nodes g forwards) (dfs_fuel g forwards) [mkItem start false] ∅ [].

(** What a call comes to when it may not return *)
Definition of_option {A} (o : option A) : option (outcome A) := Ok <$> o.

(** Graph.ForwardsPlan and Graph.BackwardsPlan; [None] when the traversal
    does not return. *)
Definition plan_from (forwards : bool) (g : Graph) (target : Key) : option (outcome (list Key)) :=
  if negb (Has g target) then Some (Err (not_valid target))
  else match g_NodeMap g !! target with
       | None => Some (Panic nil_dereference)
       | Some _ => of_option (iterativeDFS g target forwards)
       end.

Definition ForwardsPlan (g : Graph) (target : Key) : option (outcome (list Key)) := plan_from true g target.
Definition BackwardsPlan (g : Graph) (target : Key) : option (outcome (list Key)) := plan_from false g target.

(** The body of the loops of RootNodes and LeafNodes *)
Definition edge_node_step (neighbours : Node → gset Key) (g : Graph) (app : string) (acc : list Key) (k : Key)
    : outcome (list Key) :=
  if negb (bool_decide (app = "")) && negb (bool_decide (app = key_App k)) then Ok acc
  else
    n ← node g k;
    Ok (if bool_decide (set_Forall (fun p => key_App p ≠ key_App k) (neighbours n)) then acc ++ [k] else acc).

(** The nodes none of whose neighbours is of their app *)
Definition app_edge_nodes (neighbours : Node → gset Key) (g : Graph) (app : string) : outcome (list Key) :=
  foldM (edge_node_step neighbours g app) [] (sorted_keys (g_Nodes g)).

(** Graph.RootNodes and Graph.LeafNodes *)
Definition RootNodes (g : Graph) (app : string) : outcome (list Key) := app_edge_nodes n_Parents g app.
Definition LeafNodes (g : Graph) (app : string) : outcome (list Key) := app_edge_nodes n_Children g app.

(** ** Cycles *)

Definition circular (parts : list Key) : error :=
  CircularDependencyError (Join (map (fun c => key_App c +:+ "." +:+ key_Name c) parts) ", ").

Definition cycle_fuel (g : Graph) : nat := 2 * size (g_Nodes g) + 2.

Definition find_cycle (g : Graph) : option (option (list Key)) :=
  search_all (next_nodes g false) (cycle_fuel g) (sorted_keys (g_Nodes g)) (dom (g_Nodes g)).

(** Graph.EnsureNotCyclic *)
Definition EnsureNotCyclic (g : Graph) : option (outcome unit) :=
  (fun r => match r with Some parts => Err (circular parts) | None => Ok tt end) <$> find_cycle g.

(** Graph.String *)
Definition Graph_String (g : Graph) : string :=
  let edges := sum_list_with (fun p => size (n_Parents p.2)) (map_to_list (g_NodeMap g)) in
  "Graph: " +:+ itoa (Z.of_nat (size (g_Nodes g))) +:+ " nodes, " +:+ itoa (Z.of_nat edges) +:+ " edges".

(** ** The state after a plan *)

(** Graph.generatePlan; [None] when a traversal does not return. *)
Fixpoint generate_loop (g : Graph) (isTarget : gset Key) (atEnd : bool) (plan : list Key) (nodes : list Key)
    : option (outcome (list Key)) :=
  match nodes with
  | [] => Some (Ok plan)
  | n :: rest =>
      match ForwardsPlan g n with
      | None => None
      | Some (Err e) => Some (Err e)
      | Some (Panic e) => Some (Panic e)
      | Some (Ok fp) =>
          generate_loop g isTarget atEnd
            (fold_left (fun plan k =>
               if negb (bool_decide (k ∈ plan)) && (atEnd || negb (bool_decide (k ∈ isTarget)))
               then plan ++ [k] else plan) fp plan) rest
      end
  end.

Definition generatePlan (g : Graph) (nodes : list Key) (atEnd : bool) : option (outcome (list Key)) :=
  generate_loop g (list_to_set nodes) atEnd [] nodes.

(** The loop of MakeState over the plan *)
Definition replay (g : Graph) (ps : ProjectState) (plan : list Key) : outcome ProjectState :=
  foldM (fun ps k =>
    match g_Nodes g !! k with
    | Some (Some mig) => MutateState mig ps false
    | _ => Err (NodeNotFoundError ("no migration for node " +:+ FormatKey k) k "")
    end) ps plan.

(** Graph.MakeState; [nodes] and [realApps] are None for nil. *)
Definition MakeState (g : Graph) (nodes : option (list Key)) (atEnd : bool) (realApps : option (gmap string bool))
    (realModels : list ModelState) : option (outcome ProjectState) :=
  match (match nodes with Some l => Ok l | None => LeafNodes g "" end) with
  | Err e => Some (Err e)
  | Panic e => Some (Panic e)
  | Ok nodes =>
      if bool_decide (length nodes = 0) then Some (Ok NewProjectState)
      else
        let ps := match realApps with Some r => ps_set_RealApps r NewProjectState | None => NewProjectState end in
        let ps := ps_set_RealModels realModels ps in
        match generatePlan g nodes atEnd with
        | None => None
        | Some (Err e) => Some (Err e)
        | Some (Panic e) => Some (Panic e)
        | Some (Ok plan) => Some (replay g ps plan)
        end
  end.
