(* ===== verification/GraphLemmas.v ===== *)
(** * The migration graph: its invariant, its plans and its cycles *)

From S2P Require Import Prelude GoStd Keys Errors Fields Index ModelState Apps ProjectState Operation Migration.
From S2P Require Import Traversal Graph.

(** ** Edges *)

(** [edge g p c]: the node c depends on the node p. *)
Definition edges (nm : gmap Key Node) (p c : Key) : Prop := c ∈ children nm p.
Definition edge (g : Graph) : Key → Key → Prop := edges (g_NodeMap g).

(** Children and Parents are the two sides of one relation. *)
Definition symmetric_edges (nm : gmap Key Node) : Prop := ∀ p c, c ∈ children nm p ↔ p ∈ parents nm c.

(** The invariant of a Graph: both maps have the same keys, and the edges are
    recorded at both ends, between nodes of the graph. *)
Definition graph_wf (g : Graph) : Prop :=
  (∀ k, is_Some (g_NodeMap g !! k) ↔ is_Some (g_Nodes g !! k)) ∧ symmetric_edges (g_NodeMap g).

(** No node depends on itself, however indirectly. *)
Definition acyclic (g : Graph) : Prop := ∀ k, ¬ tc (edge g) k k.

Section writes.
Implicit Types (nm : gmap Key Node).

Lemma is_Some_alter (f : Node → Node) i nm k : is_Some (alter f i nm !! k) ↔ is_Some (nm !! k).
Proof.
  destruct (decide (i = k)) as [->|Hne]; [|by rewrite lookup_alter_ne].
  rewrite lookup_alter_eq. by rewrite fmap_is_Some.
Qed.

Lemma children_alter_parents f i nm k : children (alter (upd_parents f) i nm) k = children nm k.
Proof.
  unfold children. destruct (decide (i = k)) as [->|Hne]; [|by rewrite lookup_alter_ne].
  rewrite lookup_alter_eq. by destruct (nm !! k).
Qed.

Lemma parents_alter_children f i nm k : parents (alter (upd_children f) i nm) k = parents nm k.
Proof.
  unfold parents. destruct (decide (i = k)) as [->|Hne]; [|by rewrite lookup_alter_ne].
  rewrite lookup_alter_eq. by destruct (nm !! k).
Qed.

Lemma elem_of_add_child p c nm k x :
  x ∈ children (add_child p c nm) k ↔ x ∈ children nm k ∨ (k = p ∧ x = c ∧ is_Some (nm !! p)).
Proof.
  unfold children, add_child. destruct (decide (p = k)) as [->|Hne].
  - rewrite lookup_alter_eq. destruct (nm !! k) as [n|] eqn:E; simpl; [|].
    + rewrite elem_of_union, elem_of_singleton. split; [intros [->|?]; eauto|tauto].
    + split; [by left|]. intros [?|(_ & _ & [? ?])]; done.
  - rewrite lookup_alter_ne by done. naive_solver.
Qed.

Lemma elem_of_add_parent c p nm k x :
  x ∈ parents (add_parent c p nm) k ↔ x ∈ parents nm k ∨ (k = c ∧ x = p ∧ is_Some (nm !! c)).
Proof.
  unfold parents, add_parent. destruct (decide (c = k)) as [->|Hne].
  - rewrite lookup_alter_eq. destruct (nm !! k) as [n|] eqn:E; simpl; [|].
    + rewrite elem_of_union, elem_of_singleton. split; [intros [->|?]; eauto|tauto].
    + split; [by left|]. intros [?|(_ & _ & [? ?])]; done.
  - rewrite lookup_alter_ne by done. naive_solver.
Qed.

Lemma elem_of_del_child p c nm k x :
  x ∈ children (del_child p c nm) k ↔ x ∈ children nm k ∧ ¬ (k = p ∧ x = c).
Proof.
  unfold children, del_child. destruct (decide (p = k)) as [->|Hne].
  - rewrite lookup_alter_eq. destruct (nm !! k) as [n|]; simpl; [|set_solver].
    rewrite elem_of_difference, elem_of_singleton. naive_solver.
  - rewrite lookup_alter_ne by done. naive_solver.
Qed.

Lemma elem_of_del_parent c p nm k x :
  x ∈ parents (del_parent c p nm) k ↔ x ∈ parents nm k ∧ ¬ (k = c ∧ x = p).
Proof.
  unfold parents, del_parent. destruct (decide (c = k)) as [->|Hne].
  - rewrite lookup_alter_eq. destruct (nm !! k) as [n|]; simpl; [|set_solver].
    rewrite elem_of_difference, elem_of_singleton. naive_solver.
  - rewrite lookup_alter_ne by done. naive_solver.
Qed.

Lemma children_add_parent c p nm k : children (add_parent c p nm) k = children nm k.
Proof. apply children_alter_parents. Qed.
Lemma children_del_parent c p nm k : children (del_parent c p nm) k = children nm k.
Proof. apply children_alter_parents. Qed.
Lemma parents_add_child c p nm k : parents (add_child c p nm) k = parents nm k.
Proof. apply parents_alter_children. Qed.
Lemma parents_del_child c p nm k : parents (del_child c p nm) k = parents nm k.
Proof. apply parents_alter_children. Qed.

Lemma dom_add_child p c nm k : is_Some (add_child p c nm !! k) ↔ is_Some (nm !! k).
Proof. apply is_Some_alter. Qed.
Lemma dom_add_parent p c nm k : is_Some (add_parent p c nm !! k) ↔ is_Some (nm !! k).
Proof. apply is_Some_alter. Qed.
Lemma dom_del_child p c nm k : is_Some (del_child p c nm !! k) ↔ is_Some (nm !! k).
Proof. apply is_Some_alter. Qed.
Lemma dom_del_parent p c nm k : is_Some (del_parent p c nm !! k) ↔ is_Some (nm !! k).
Proof. apply is_Some_alter. Qed.

Lemma elem_of_children_dom nm p c : c ∈ children nm p → is_Some (nm !! p).
Proof. unfold children. destruct (nm !! p); [eauto|set_solver]. Qed.
Lemma elem_of_parents_dom nm p c : c ∈ parents nm p → is_Some (nm !! p).
Proof. unfold parents. destruct (nm !! p); [eauto|set_solver]. Qed.

Lemma children_delete nm rk k x : x ∈ children (delete rk nm) k ↔ x ∈ children nm k ∧ k ≠ rk.
Proof.
  unfold children. destruct (decide (rk = k)) as [->|Hne].
  - rewrite lookup_delete_eq. set_solver.
  - rewrite lookup_delete_ne by done. naive_solver.
Qed.
Lemma parents_delete nm rk k x : x ∈ parents (delete rk nm) k ↔ x ∈ parents nm k ∧ k ≠ rk.
Proof.
  unfold parents. destruct (decide (rk = k)) as [->|Hne].
  - rewrite lookup_delete_eq. set_solver.
  - rewrite lookup_delete_ne by done. naive_solver.
Qed.

(** A fresh node has no edges. *)
Lemma children_insert nm i n k :
  n_Children n = ∅ → nm !! i = None → children (<[i := n]> nm) k = children nm k.
Proof.
  intros Hn Hi. unfold children. destruct (decide (i = k)) as [->|Hne]; [|by rewrite lookup_insert_ne].
  by rewrite lookup_insert_eq, Hi.
Qed.
Lemma parents_insert nm i n k :
  n_Parents n = ∅ → nm !! i = None → parents (<[i := n]> nm) k = parents nm k.
Proof.
  intros Hn Hi. unfold parents. destruct (decide (i = k)) as [->|Hne]; [|by rewrite lookup_insert_ne].
  by rewrite lookup_insert_eq, Hi.
Qed.
End writes.

(** ** The invariant is kept *)

Lemma New_wf : graph_wf New.
Proof.
  split.
  - intros k. simpl. rewrite !lookup_empty. split; by intros [? ?].
  - intros p c. unfold children, parents. simpl. rewrite !lookup_empty. set_solver.
Qed.

Lemma insert_wf g k n mig :
  n_Children n = ∅ → n_Parents n = ∅ → g_NodeMap g !! k = None → graph_wf g →
  graph_wf (mkGraph (<[k := n]> (g_NodeMap g)) (<[k := mig]> (g_Nodes g))).
Proof.
  intros Hc Hp Hk [Hdom Hsym]. split; simpl.
  - intros k'. destruct (decide (k = k')) as [->|Hne]; [rewrite !lookup_insert_eq; split; eauto|].
    by rewrite !lookup_insert_ne.
  - intros p c. rewrite children_insert, parents_insert by done. apply Hsym.
Qed.

Lemma AddNode_wf k mig g g' : graph_wf g → AddNode k mig g = Ok g' → graph_wf g'.
Proof.
  intros Hwf. unfold AddNode. destruct (g_NodeMap g !! k) eqn:E; [done|]. intros [= <-]. by apply insert_wf.
Qed.

Lemma ensure_node_wf what migration k g :
  graph_wf g → graph_wf (ensure_node what migration k g) ∧ is_Some (g_NodeMap (ensure_node what migration k g) !! k) ∧
  (∀ k', is_Some (g_NodeMap g !! k') → is_Some (g_NodeMap (ensure_node what migration k g) !! k')) ∧
  ∀ p c, edge (ensure_node what migration k g) p c ↔ edge g p c.
Proof.
  intros Hwf. unfold ensure_node, Has. case_bool_decide as Hk.
  { split_and!; [done|by apply (proj1 Hwf)|done|done]. }
  assert (g_NodeMap g !! k = None) as Hnone.
  { apply eq_None_not_Some. by rewrite (proj1 Hwf). }
  split_and!.
  - by apply insert_wf.
  - simpl. rewrite lookup_insert_eq. eauto.
  - intros k' Hk'. simpl. destruct (decide (k = k')) as [->|Hne]; [rewrite lookup_insert_eq; eauto|].
    by rewrite lookup_insert_ne.
  - intros p c. unfold edge, edges. simpl. by rewrite children_insert.
Qed.

Lemma AddDependency_spec migration child parent skip g g' r :
  graph_wf g → AddDependency migration child parent skip g = (g', r) →
  graph_wf g' ∧ is_Some (g_NodeMap g' !! child) ∧ is_Some (g_NodeMap g' !! parent) ∧
  ∀ p c, edge g' p c ↔ edge g p c ∨ (p = parent ∧ c = child).
Proof.
  intros Hwf. unfold AddDependency.
  destruct (ensure_node_wf "child" migration child g Hwf) as (Hwf1 & Hc1 & _ & He1).
  set (g1 := ensure_node "child" migration child g) in *.
  destruct (ensure_node_wf "parent" migration parent g1 Hwf1) as (Hwf2 & Hp2 & Hin2 & He2).
  set (g2 := ensure_node "parent" migration parent g1) in *.
  specialize (Hin2 child Hc1). destruct Hin2 as [nc Hc2], Hp2 as [np Hp2]. rewrite Hc2, Hp2.
  intros [= <- _]. destruct Hwf2 as [Hdom Hsym]. split_and!.
  - split; simpl.
    + intros k. by rewrite dom_add_child, dom_add_parent.
    + intros p c. rewrite elem_of_add_child, parents_add_child, elem_of_add_parent, children_add_parent.
      rewrite dom_add_parent, Hc2, Hp2. specialize (Hsym p c). naive_solver.
  - simpl. apply dom_add_child, dom_add_parent. eauto.
  - simpl. apply dom_add_child, dom_add_parent. eauto.
  - intros p c. rewrite <- He1, <- He2. unfold edge, edges. simpl.
    rewrite elem_of_add_child, children_add_parent, dom_add_parent, Hp2. naive_solver.
Qed.

(** ** Contracting replaced nodes *)

Section contract.
Context (rn rk : Key) (R : gset Key).

Lemma contract_children_spec l nm :
  rn ≠ rk → is_Some (nm !! rn) →
  let nm' := fold_left (contract_child rn rk R) l nm in
  (∀ k, is_Some (nm' !! k) ↔ is_Some (nm !! k)) ∧
  (∀ k x, x ∈ children nm' k ↔ x ∈ children nm k ∨ (k = rn ∧ x ∈ l ∧ x ∉ R)) ∧
  (∀ k x, x ∈ parents nm' k ↔
     (x ∈ parents nm k ∧ ¬ (k ∈ l ∧ x = rk)) ∨ (x = rn ∧ k ∈ l ∧ k ∉ R ∧ is_Some (nm !! k))).
Proof.
  intros Hne. revert nm. induction l as [|c l IH]; intros nm Hrn; simpl.
  { setoid_rewrite elem_of_nil. naive_solver. }
  assert (∀ k, is_Some (contract_child rn rk R nm c !! k) ↔ is_Some (nm !! k)) as Hdom.
  { intros k. unfold contract_child. cbv zeta. case_bool_decide.
    - apply dom_del_parent.
    - by rewrite dom_add_parent, dom_add_child, dom_del_parent. }
  destruct (IH (contract_child rn rk R nm c)) as (H1 & H2 & H3); [by apply Hdom|]. clear IH.
  split_and!.
  - intros k. by rewrite H1, Hdom.
  - intros k x. rewrite H2, elem_of_cons. unfold contract_child. cbv zeta. case_bool_decide as Hc.
    + rewrite children_del_parent. naive_solver.
    + rewrite children_add_parent, elem_of_add_child, children_del_parent, dom_del_parent. naive_solver.
  - intros k x. rewrite H3, elem_of_cons, Hdom. unfold contract_child. cbv zeta. case_bool_decide as Hc.
    + rewrite elem_of_del_parent. naive_solver.
    + rewrite elem_of_add_parent, parents_add_child, elem_of_del_parent, dom_add_child, dom_del_parent.
      destruct (decide (k = c)); naive_solver.
Qed.

Lemma contract_parents_spec l nm :
  rn ≠ rk → is_Some (nm !! rn) →
  let nm' := fold_left (contract_parent rn rk R) l nm in
  (∀ k, is_Some (nm' !! k) ↔ is_Some (nm !! k)) ∧
  (∀ k x, x ∈ parents nm' k ↔ x ∈ parents nm k ∨ (k = rn ∧ x ∈ l ∧ x ∉ R)) ∧
  (∀ k x, x ∈ children nm' k ↔
     (x ∈ children nm k ∧ ¬ (k ∈ l ∧ x = rk)) ∨ (x = rn ∧ k ∈ l ∧ k ∉ R ∧ is_Some (nm !! k))).
Proof.
  intros Hne. revert nm. induction l as [|c l IH]; intros nm Hrn; simpl.
  { setoid_rewrite elem_of_nil. naive_solver. }
  assert (∀ k, is_Some (contract_parent rn rk R nm c !! k) ↔ is_Some (nm !! k)) as Hdom.
  { intros k. unfold contract_parent. cbv zeta. case_bool_decide.
    - apply dom_del_child.
    - by rewrite dom_add_child, dom_add_parent, dom_del_child. }
  destruct (IH (contract_parent rn rk R nm c)) as (H1 & H2 & H3); [by apply Hdom|]. clear IH.
  split_and!.
  - intros k. by rewrite H1, Hdom.
  - intros k x. rewrite H2, elem_of_cons. unfold contract_parent. cbv zeta. case_bool_decide as Hc.
    + rewrite parents_del_child. naive_solver.
    + rewrite parents_add_child, elem_of_add_parent, parents_del_child, dom_del_child. naive_solver.
  - intros k x. rewrite H3, elem_of_cons, Hdom. unfold contract_parent. cbv zeta. case_bool_decide as Hc.
    + rewrite elem_of_del_child. naive_solver.
    + rewrite elem_of_add_child, children_add_parent, elem_of_del_child, dom_add_parent, dom_del_child.
      destruct (decide (k = c)); naive_solver.
Qed.

(** One replaced node: it goes, and its edges to nodes that stay become edges
    of the replacement. *)
Lemma remove_replaced_spec g :
  rk ∈ R → rn ≠ rk → is_Some (g_NodeMap g !! rn) → graph_wf g →
  let g' := remove_replaced rn R g rk in
  graph_wf g' ∧ is_Some (g_NodeMap g' !! rn) ∧
  (∀ k, g_Nodes g' !! k = if decide (k = rk) then None else g_Nodes g !! k) ∧
  (∀ p c, edge g' p c ↔ p ≠ rk ∧ c ≠ rk ∧
     (edge g p c ∨ (p = rn ∧ edge g rk c ∧ c ∉ R) ∨ (c = rn ∧ edge g p rk ∧ p ∉ R))).
Proof.
  intros HrkR Hne Hrn [Hdom Hsym]. unfold remove_replaced. cbv zeta.
  assert (∀ k, delete rk (g_Nodes g) !! k = if decide (k = rk) then None else g_Nodes g !! k) as Hnodes.
  { intros k. case_decide as Hk; [subst; apply lookup_delete_eq|by apply lookup_delete_ne]. }
  destruct (g_NodeMap g !! rk) as [n|] eqn:Hn.
  - assert (∀ x, x ∈ elements (n_Children n) ↔ x ∈ children (g_NodeMap g) rk) as Hch.
    { intros x. unfold children. rewrite Hn. apply elem_of_elements. }
    assert (∀ x, x ∈ elements (n_Parents n) ↔ x ∈ parents (g_NodeMap g) rk) as Hpa.
    { intros x. unfold parents. rewrite Hn. apply elem_of_elements. }
    set (nm0 := delete rk (g_NodeMap g)).
    assert (∀ k, is_Some (nm0 !! k) ↔ is_Some (g_NodeMap g !! k) ∧ k ≠ rk) as Hd0.
    { intros k. unfold nm0. destruct (decide (rk = k)) as [->|Hk].
      - rewrite lookup_delete_eq. split; [by intros [? ?]|by intros []].
      - rewrite lookup_delete_ne by done. naive_solver. }
    destruct (contract_children_spec (elements (n_Children n)) nm0) as (H1 & H2 & H3); [done|by apply Hd0|].
    set (nm1 := fold_left (contract_child rn rk R) (elements (n_Children n)) nm0) in *.
    destruct (contract_parents_spec (elements (n_Parents n)) nm1) as (H4 & H5 & H6); [done|by apply H1, Hd0|].
    set (nm2 := fold_left (contract_parent rn rk R) (elements (n_Parents n)) nm1) in *.
    assert (∀ p c, c ∈ children nm2 p ↔ p ≠ rk ∧ c ≠ rk ∧
      (c ∈ children (g_NodeMap g) p ∨ (p = rn ∧ c ∈ children (g_NodeMap g) rk ∧ c ∉ R) ∨
       (c = rn ∧ rk ∈ children (g_NodeMap g) p ∧ p ∉ R))) as Hedge.
    { intros p c. rewrite H6, H2, H1, Hd0, Hch, Hpa. unfold nm0. rewrite children_delete, <- (Hsym p rk).
      pose proof (elem_of_children_dom (g_NodeMap g) p rk) as Hdomp. clear -Hdomp HrkR Hne.
      destruct (decide (p = rk)) as [->|Hp].
      { split; [|by intros [? _]]. intros [[[[_ ?]|(? & _)] _]|(_ & _ & _ & _ & ?)]; congruence. }
      destruct (decide (c = rk)) as [->|Hc]; [|tauto].
      split; [|by intros (_ & ? & _)]. intros [[[[? _]|(_ & _ & ?)] Hnot]|(? & _)]; [tauto|done|congruence]. }
    split_and!.
    + split; simpl.
      * intros k. rewrite H4, H1, Hd0, Hnodes, Hdom. case_decide; [|naive_solver].
        split; [by intros []|by intros [? ?]].
      * intros p c. rewrite Hedge, H5, H3, Hd0, Hch, Hpa. unfold nm0. rewrite parents_delete.
        rewrite <- (Hsym p rk), <- (Hsym p c).
        pose proof (elem_of_parents_dom (g_NodeMap g) c rk) as Hdomc. rewrite <- (Hsym rk c) in Hdomc.
        clear -Hdomc HrkR Hne.
        destruct (decide (c = rk)) as [->|Hc].
        { split; [by intros (_ & ? & _)|]. intros [[[[_ ?] _]|(_ & _ & _ & _ & ?)]|(? & _)]; congruence. }
        destruct (decide (p = rk)) as [->|Hp]; [|tauto].
        split; [by intros (? & _)|]. intros [[[[? _] Hnot]|(? & _)]|(_ & _ & ?)]; [tauto|congruence|done].
    + simpl. by apply H4, H1, Hd0.
    + done.
    + exact Hedge.
  - assert (∀ x, x ∉ children (g_NodeMap g) rk) as Hnc by (intros x; unfold children; rewrite Hn; set_solver).
    assert (∀ x, rk ∉ children (g_NodeMap g) x) as Hnp.
    { intros x. rewrite (Hsym x rk). unfold parents. rewrite Hn. set_solver. }
    split_and!; [|done|done|].
    + split; [|done]. intros k. simpl. rewrite Hnodes. case_decide as Hk; [subst; rewrite Hn|apply Hdom].
      split; by intros [? ?].
    + intros p c. unfold edge, edges. simpl. split; [|naive_solver]. intros Hc. split_and!; [| |by left].
      * intros ->. by eapply Hnc.
      * intros ->. by eapply Hnp.
Qed.
End contract.

Lemma remove_replaced_list rn (R : gset Key) (ks : list Key) (P : gset Key) g0 g :
  rn ∉ R → (∀ k, k ∈ ks → k ∈ R) → (∀ k, k ∈ P → k ∈ R) → NoDup ks → (∀ k, k ∈ ks → k ∉ P) →
  graph_wf g → is_Some (g_NodeMap g !! rn) →
  (∀ k, g_Nodes g !! k = if decide (k ∈ P) then None else g_Nodes g0 !! k) →
  (∀ p c, edge g p c ↔ p ∉ P ∧ c ∉ P ∧
     (edge g0 p c ∨ (p = rn ∧ c ∉ R ∧ ∃ r, r ∈ P ∧ edge g0 r c) ∨ (c = rn ∧ p ∉ R ∧ ∃ r, r ∈ P ∧ edge g0 p r))) →
  let P' : gset Key := list_to_set ks ∪ P in
  let g' := fold_left (remove_replaced rn R) ks g in
  graph_wf g' ∧ (∀ k, g_Nodes g' !! k = if decide (k ∈ P') then None else g_Nodes g0 !! k) ∧
  (∀ p c, edge g' p c ↔ p ∉ P' ∧ c ∉ P' ∧
     (edge g0 p c ∨ (p = rn ∧ c ∉ R ∧ ∃ r, r ∈ P' ∧ edge g0 r c) ∨ (c = rn ∧ p ∉ R ∧ ∃ r, r ∈ P' ∧ edge g0 p r))).
Proof.
  intros HrnR. revert P g. induction ks as [|rk ks IH]; intros P g HksR HPR Hnd Hdisj Hwf Hrn Hnodes Hedge; simpl.
  { assert (∅ ∪ P = P) as -> by set_solver. by split_and!. }
  apply NoDup_cons in Hnd as [Hrk Hnd].
  assert (rk ∈ R) as HrkR by (apply HksR; left). assert (rk ∉ P) as HrkP by (apply Hdisj; left).
  assert (rn ≠ rk) as Hne by (by intros ->).
  destruct (remove_replaced_spec rn rk R g HrkR Hne Hrn Hwf) as (Hwf1 & Hrn1 & Hnodes1 & Hedge1).
  assert ({[rk]} ∪ list_to_set ks ∪ P = list_to_set ks ∪ ({[rk]} ∪ P)) as -> by (clear; set_solver).
  apply (IH ({[rk]} ∪ P)); [intros; apply HksR; by right|clear -HrkR HPR; set_solver|done|
      clear -Hrk Hdisj; set_solver|done|done| |].
  - intros k. rewrite Hnodes1, Hnodes. clear. repeat case_decide; try done; set_solver.
  - intros p c.
    assert (∀ k, k ∉ R → k ∉ P) as HRP by (intros k Hk Hp; by apply Hk, HPR).
    assert (∀ c, edge g rk c ∧ c ∉ R ↔ edge g0 rk c ∧ c ∉ R) as Hout.
    { intros x. rewrite Hedge. clear -Hne HrkR HrkP HRP. specialize (HRP x).
      split; [|tauto]. intros [(_ & _ & [?|[(? & _)|(_ & ? & _)]]) ?]; [tauto|congruence|done]. }
    assert (∀ p, edge g p rk ∧ p ∉ R ↔ edge g0 p rk ∧ p ∉ R) as Hin.
    { intros x. rewrite Hedge. clear -Hne HrkR HrkP HRP. specialize (HRP x).
      split; [|tauto]. intros [(_ & _ & [?|[(_ & ? & _)|(? & _)]]) ?]; [tauto|done|congruence]. }
    assert (∀ (Q : Key → Prop), (∃ r, r ∈ {[rk]} ∪ P ∧ Q r) ↔ Q rk ∨ ∃ r, r ∈ P ∧ Q r) as Hex.
    { intros Q. setoid_rewrite elem_of_union. setoid_rewrite elem_of_singleton. clear. naive_solver. }
    rewrite Hedge1, Hout, Hin, !Hex, Hedge, !not_elem_of_union, !not_elem_of_singleton.
    pose proof (HRP p) as Hp. pose proof (HRP c) as Hc. clear -Hp Hc HrnR.
    destruct (decide (p = rn)) as [->|]; destruct (decide (c = rn)) as [->|]; tauto.
Qed.

Lemma RemoveReplacedNodes_spec rn replaced g g' :
  graph_wf g → rn ∉ replaced → RemoveReplacedNodes rn replaced g = Ok g' →
  graph_wf g' ∧
  (∀ k, g_Nodes g' !! k = if decide (k ∈ replaced) then None else g_Nodes g !! k) ∧
  (∀ p c, edge g' p c ↔ p ∉ replaced ∧ c ∉ replaced ∧
     (edge g p c ∨ (p = rn ∧ ∃ r, r ∈ replaced ∧ edge g r c) ∨ (c = rn ∧ ∃ r, r ∈ replaced ∧ edge g p r))).
Proof.
  intros Hwf Hrn. unfold RemoveReplacedNodes. cbv zeta. destruct (g_NodeMap g !! rn) eqn:Hn; [|done].
  intros [= <-]. set (R := list_to_set replaced : gset Key).
  assert (∀ k, k ∈ sortedNodes R ↔ k ∈ R) as Hks.
  { intros k. unfold sortedNodes. by rewrite elem_of_SortKeys, elem_of_elements. }
  destruct (remove_replaced_list rn R (sortedNodes R) ∅ g g) as (Hwf' & Hnodes & Hedge).
  - unfold R. by rewrite elem_of_list_to_set.
  - intros k. by rewrite Hks.
  - set_solver.
  - unfold sortedNodes. apply NoDup_SortKeys, NoDup_elements.
  - set_solver.
  - done.
  - eauto.
  - intros k. rewrite decide_False; [done|set_solver].
  - intros p c. set_solver.
  - assert (list_to_set (sortedNodes R) ∪ ∅ = R) as HP.
    { apply leibniz_equiv. intros k. rewrite elem_of_union, elem_of_list_to_set, Hks, elem_of_empty. tauto. }
    rewrite HP in Hnodes, Hedge. split_and!; [done| |].
    + intros k. rewrite Hnodes. unfold R. repeat case_decide; try done; by rewrite elem_of_list_to_set in *.
    + intros p c. rewrite Hedge. unfold R. setoid_rewrite elem_of_list_to_set. naive_solver.
Qed.

(** RemoveReplacedNodes contracts the replaced migrations to the one that
    replaces them. They and their edges are gone; every other edge is still
    there; a migration that depended on a replaced one now depends on the
    replacement, and what a replaced one depended on the replacement does. *)
Theorem RemoveReplacedNodes_contracts rn replaced g g' :
  graph_wf g → rn ∉ replaced → RemoveReplacedNodes rn replaced g = Ok g' →
  graph_wf g' ∧
  (∀ k, g_Nodes g' !! k = if decide (k ∈ replaced) then None else g_Nodes g !! k) ∧
  (∀ p c, edge g' p c ↔ p ∉ replaced ∧ c ∉ replaced ∧
     (edge g p c ∨ (p = rn ∧ ∃ r, r ∈ replaced ∧ edge g r c) ∨ (c = rn ∧ ∃ r, r ∈ replaced ∧ edge g p r))).
Proof. apply RemoveReplacedNodes_spec. Qed.

(** ** Cycles *)

Lemma elem_of_sorted_keys {V} (m : gmap Key V) k : k ∈ sorted_keys m ↔ is_Some (m !! k).
Proof.
  unfold sorted_keys. rewrite elem_of_SortKeys, list_elem_of_fmap. split.
  - intros ([k' v] & -> & Hk%elem_of_map_to_list). by exists v.
  - intros [v Hv]. exists (k, v). split; [done|]. by apply elem_of_map_to_list.
Qed.

Lemma NoDup_sorted_keys {V} (m : gmap Key V) : NoDup (sorted_keys m).
Proof. unfold sorted_keys. apply NoDup_SortKeys, NoDup_fst_map_to_list. Qed.

Lemma step_children g p c : step (next_nodes g false) p c ↔ edge g p c.
Proof. unfold step, next_nodes, sortedNodes. by rewrite elem_of_SortKeys, elem_of_elements. Qed.

Lemma step_parents g p c : graph_wf g → step (next_nodes g true) c p ↔ edge g p c.
Proof.
  intros [_ Hsym]. unfold step, next_nodes, sortedNodes. rewrite elem_of_SortKeys, elem_of_elements.
  symmetry. apply Hsym.
Qed.

Lemma edge_live g p c : graph_wf g → edge g p c → is_Some (g_NodeMap g !! p) ∧ is_Some (g_NodeMap g !! c).
Proof.
  intros [_ Hsym] Hpc. split; [by eapply elem_of_children_dom|]. apply Hsym in Hpc. by eapply elem_of_parents_dom.
Qed.

(** The parts named by an error make up a cycle of dependencies. *)
Definition dependency_cycle (g : Graph) (parts : list Key) : Prop :=
  (∀ i a b, parts !! i = Some a → parts !! S i = Some b → edge g a b) ∧
  ∃ a b, last parts = Some a ∧ head parts = Some b ∧ edge g a b.

Lemma is_cycle_dependency g parts : is_cycle (next_nodes g false) parts ↔ dependency_cycle g parts.
Proof.
  unfold is_cycle, dependency_cycle, is_path. by setoid_rewrite step_children.
Qed.

Lemma find_cycle_spec g :
  graph_wf g →
  match find_cycle g with
  | None => False
  | Some (Some parts) => dependency_cycle g parts
  | Some None => ∃ l, ordered (next_nodes g false) l ∧ ∀ k, is_Some (g_Nodes g !! k) → k ∈ l
  end.
Proof.
  intros Hwf. unfold find_cycle.
  pose proof (search_all_spec (next_nodes g false) (dom (g_Nodes g)) (cycle_fuel g) (sorted_keys (g_Nodes g))
    (dom (g_Nodes g)) []) as Hs.
  destruct (search_all _ _ _ _) as [[parts|]|].
  all: assert (∀ k c, k ∈ dom (g_Nodes g) → step (next_nodes g false) k c → c ∈ dom (g_Nodes g)) as Hclosed
    by (intros k c _ Hkc%step_children; apply elem_of_dom, (proj1 Hwf); by eapply edge_live).
  all: assert (search_inv (next_nodes g false) (dom (g_Nodes g)) [] (dom (g_Nodes g)) []) as Hinv
    by (split_and!; [by intros i a b Ha|done|by intros x ?%elem_of_nil|done|by left|by intros x ?%elem_of_nil]).
  all: specialize (Hs Hclosed Hinv ltac:(unfold cycle_fuel; rewrite size_dom; lia)).
  - by apply is_cycle_dependency.
  - destruct Hs as (l & Hl & Hin).
    { intros x Hx. by apply elem_of_sorted_keys, elem_of_dom. }
    exists l. split; [done|]. intros k Hk. by apply Hin, elem_of_dom.
  - done.
Qed.

Lemma dependency_cycle_tc g parts : dependency_cycle g parts → ∃ k, tc (edge g) k k.
Proof.
  intros Hc. apply is_cycle_dependency in Hc as (Hp & a & b & Ha & Hb & Hab).
  exists b. pose proof (is_path_rtc _ parts b a Hp Hb Ha) as Hr.
  assert (rtc (edge g) b a) as Hr'. { eapply rtc_subrel; [|exact Hr]. intros x y. by rewrite step_children. }
  eapply tc_rtc_l; [exact Hr'|]. apply tc_once. by apply step_children.
Qed.

(** On finitely many nodes, no cycle means well founded. *)
Lemma acyclic_wf_list {A} (R : relation A) (all : list A) :
  (∀ x y, R x y → x ∈ all ∧ y ∈ all) → (∀ x, ¬ tc R x x) → well_founded R.
Proof.
  intros Hall Hac.
  assert (∀ n V x, NoDup V → (∀ v, v ∈ V → v ∈ all ∧ tc R x v) → length all < n + length V → Acc R x) as Hacc.
  { induction n as [|n IH]; intros V x HV Hin Hlen.
    - exfalso. assert (length V ≤ length all); [|lia].
      apply submseteq_length, NoDup_submseteq; [done|]. intros v Hv. by apply Hin.
    - constructor. intros y Hyx. apply (IH (x :: V)).
      + apply NoDup_cons. split; [|done]. intros Hx. by apply (Hac x), Hin.
      + intros v [->|Hv]%elem_of_cons; [split; [by eapply Hall|by apply tc_once]|].
        split; [by apply Hin|]. eapply tc_l; [done|by apply Hin].
      + simpl. lia. }
  intros x. apply (Hacc (S (length all)) []); [constructor|by intros v ?%elem_of_nil|simpl; lia].
Qed.

Lemma tc_flip {A} (R : relation A) x y : tc (flip R) x y → tc R y x.
Proof. induction 1 as [x y Hxy|x y z Hxy _ IH]; [by apply tc_once|]. by eapply tc_r. Qed.

(** On a graph without cycles both relations are well founded. *)
Lemma acyclic_wf g :
  graph_wf g → acyclic g → well_founded (edge g) ∧ well_founded (flip (edge g)).
Proof.
  intros Hwf Hac.
  assert (∀ p c, edge g p c → p ∈ sorted_keys (g_NodeMap g) ∧ c ∈ sorted_keys (g_NodeMap g)) as Hin.
  { intros p c Hpc. rewrite !elem_of_sorted_keys. by apply edge_live. }
  split; apply (acyclic_wf_list _ (sorted_keys (g_NodeMap g))); [done|done|..].
  - intros x y Hxy. by apply and_comm, Hin.
  - intros x Hx%tc_flip. by apply Hac in Hx.
Qed.

Lemma EnsureNotCyclic_spec g :
  graph_wf g →
  (EnsureNotCyclic g = Some (Ok tt) ∧ acyclic g) ∨
  (∃ parts, EnsureNotCyclic g = Some (Err (circular parts)) ∧ dependency_cycle g parts ∧ ¬ acyclic g).
Proof.
  intros Hwf. unfold EnsureNotCyclic. pose proof (find_cycle_spec g Hwf) as Hf.
  destruct (find_cycle g) as [[parts|]|]; [| |done].
  - right. exists parts. split_and!; [done|done|]. intros Hac.
    apply dependency_cycle_tc in Hf as [k Hk]. by apply Hac in Hk.
  - left. split; [done|]. destruct Hf as (l & Hord & Hin). intros k Hk.
    assert (well_founded (fun a b => step (next_nodes g false) b a)) as Hwfl.
    { apply (ordered_wf _ l Hord). intros a b Hab%step_children. apply Hin, (proj1 Hwf). by apply (edge_live g a b). }
    assert (∃ c, edge g k c ∧ rtc (edge g) c k) as (c & Hkc & Hck).
    { inversion Hk as [? ? Hkk|? c ? Hkc Hck]; subst; [by exists k|]. exists c. split; [done|by apply tc_rtc]. }
    apply (wf_no_cycle _ Hwfl k c); [by apply step_children|].
    eapply rtc_subrel; [|exact Hck]. intros x y. by rewrite step_children.
Qed.

(** EnsureNotCyclic always returns. It returns nil exactly when no
    migration depends on itself, and otherwise an error whose parts, in their
    order, are a cycle of dependencies. *)
Theorem EnsureNotCyclic_correct g :
  graph_wf g →
  (EnsureNotCyclic g = Some (Ok tt) ∧ acyclic g) ∨
  (∃ parts, EnsureNotCyclic g = Some (Err (circular parts)) ∧ dependency_cycle g parts ∧ ¬ acyclic g).
Proof. apply EnsureNotCyclic_spec. Qed.

(** ** Plans *)

(** What a plan for [target] is, [before] saying what has to come first: each
    node that has to come before the target, and the target, once, each after
    all it has to come after, the target last. *)
Definition is_plan (before : relation Key) (target : Key) (plan : list Key) : Prop :=
  NoDup plan ∧ (∀ k, k ∈ plan ↔ rtc before k target) ∧
  (∀ p c i, before p c → plan !! i = Some c → ∃ j, j < i ∧ plan !! j = Some p) ∧
  last plan = Some target.

Lemma rtc_flip {A} (R : relation A) x y : rtc (flip R) x y ↔ rtc R y x.
Proof.
  split; induction 1 as [x|x y z Hxy _ IH]; try done; by eapply rtc_r.
Qed.

Lemma plan_from_spec g forwards (before : relation Key) target :
  (∀ a b, step (next_nodes g forwards) a b ↔ before b a) → well_founded before →
  (∀ p c, before p c → is_Some (g_NodeMap g !! p)) →
  graph_wf g → Has g target = true →
  ∃ plan, plan_from forwards g target = Some (Ok plan) ∧ is_plan before target plan.
Proof.
  intros Hstep Hwfb Hlive Hwf Ht. unfold plan_from. rewrite Ht. simpl. unfold Has in Ht.
  apply bool_decide_eq_true, (proj1 Hwf) in Ht as Hn. destruct Hn as [n Hn]. rewrite Hn.
  assert (∀ a b, rtc (step (next_nodes g forwards)) a b ↔ rtc before b a) as Hrtc.
  { intros a b. rewrite <- (rtc_flip before). split; intros Hr; (eapply rtc_subrel; [|exact Hr]);
      intros x y Hxy; by apply Hstep. }
  destruct (dfs_spec (next_nodes g forwards)) with (k := target) (all := sorted_keys (g_NodeMap g))
    (fuel := dfs_fuel g forwards) as (l & Hl & Hnd & Hin & Hord & Hlast).
  - intros k. induction (Hwfb k) as [k _ IH]. constructor. intros y Hy. by apply IH, Hstep.
  - apply NoDup_sorted_keys.
  - intros x Hx%Hrtc. apply elem_of_sorted_keys. apply rtc_inv in Hx as [->|(y & Hxy & _)]; [by eexists|].
    by eapply Hlive.
  - unfold dfs_fuel. lia.
  - exists l. unfold iterativeDFS. rewrite Hl. split; [done|]. split_and!; [done| | |done].
    + intros k. by rewrite Hin, Hrtc.
    + intros p c i Hpc Hi. apply (ordered_lookup _ l i c p Hord Hi). by apply Hstep.
Qed.

Lemma ForwardsPlan_spec g target :
  graph_wf g → acyclic g → Has g target = true →
  ∃ plan, ForwardsPlan g target = Some (Ok plan) ∧ is_plan (edge g) target plan.
Proof.
  intros Hwf Hac Ht. apply plan_from_spec; [|by apply acyclic_wf| |done|done].
  - intros a b. by apply step_parents.
  - intros p c Hpc. by apply (edge_live g p c).
Qed.

Lemma BackwardsPlan_spec g target :
  graph_wf g → acyclic g → Has g target = true →
  ∃ plan, BackwardsPlan g target = Some (Ok plan) ∧ is_plan (flip (edge g)) target plan.
Proof.
  intros Hwf Hac Ht. apply plan_from_spec; [|by apply acyclic_wf| |done|done].
  - intros a b. apply step_children.
  - intros p c Hpc. by apply (edge_live g c p).
Qed.

(** C16: the plan to apply a migration. On a consistent graph without cycles
    ForwardsPlan returns, for every migration of the graph, the migration and
    everything it depends on, each once, each after all it depends on, the
    migration itself last. *)
Theorem ForwardsPlan_correct g target :
  graph_wf g → acyclic g → Has g target = true →
  ∃ plan, ForwardsPlan g target = Some (Ok plan) ∧ is_plan (edge g) target plan.
Proof. apply ForwardsPlan_spec. Qed.

(** the plan to unapply a migration: the migration and everything that
    depends on it, each once, dependents first, the migration itself last. *)
Theorem BackwardsPlan_correct g target :
  graph_wf g → acyclic g → Has g target = true →
  ∃ plan, BackwardsPlan g target = Some (Ok plan) ∧ is_plan (flip (edge g)) target plan.
Proof. apply BackwardsPlan_spec. Qed.

(** ** Plans for several targets *)

(** What the loop of generatePlan keeps of a plan so far: no migration twice,
    and each after those it depends on that are not left out. *)
Definition plan_inv (g : Graph) (keep : Key → bool) (plan : list Key) : Prop :=
  NoDup plan ∧
  ∀ p c i, edge g p c → keep p = true → plan !! i = Some c → ∃ j, j < i ∧ plan !! j = Some p.

Definition extend_plan (keep : Key → bool) (plan : list Key) (k : Key) : list Key :=
  if negb (bool_decide (k ∈ plan)) && keep k then plan ++ [k] else plan.

Lemma elem_of_extend_plan keep plan k x :
  x ∈ extend_plan keep plan k ↔ x ∈ plan ∨ (x = k ∧ keep k = true).
Proof.
  unfold extend_plan. destruct (decide (k ∈ plan)) as [Hk|Hk].
  - rewrite bool_decide_eq_true_2 by done. simpl. split; [by left|]. by intros [?|[-> _]].
  - rewrite bool_decide_eq_false_2 by done. simpl. destruct (keep k).
    + rewrite elem_of_app, list_elem_of_singleton. tauto.
    + split; [by left|]. by intros [?|[_ ?]].
Qed.

Lemma extend_plan_inv g keep plan k :
  plan_inv g keep plan → (∀ p, edge g p k → keep p = true → p ∈ plan) → plan_inv g keep (extend_plan keep plan k).
Proof.
  intros [Hnd Hord] Hk. unfold extend_plan. destruct (decide (k ∈ plan)) as [Hin|Hin].
  { by rewrite bool_decide_eq_true_2. }
  rewrite bool_decide_eq_false_2 by done. simpl. destruct (keep k); [|done]. split.
  - apply NoDup_app. split_and!; [done| |apply NoDup_singleton]. by intros x Hx ->%list_elem_of_singleton.
  - intros p c i Hp Hkp Hi. apply lookup_snoc_Some in Hi as [[Hlt Hi]|[-> <-]].
    + destruct (Hord p c i Hp Hkp Hi) as (j & Hj & Hjp). exists j. split; [done|]. by apply lookup_app_l_Some.
    + apply Hk in Hp; [|done]. apply list_elem_of_lookup in Hp as [j Hj]. exists j.
      split; [by eapply lookup_lt_Some|]. by apply lookup_app_l_Some.
Qed.

(** The inner loop of generatePlan, over one forwards plan *)
Lemma extend_plan_spec g keep fp plan :
  plan_inv g keep plan →
  (∀ p c i, edge g p c → keep p = true → fp !! i = Some c → (∃ j, j < i ∧ fp !! j = Some p) ∨ p ∈ plan) →
  plan_inv g keep (fold_left (extend_plan keep) fp plan) ∧
  ∀ k, k ∈ fold_left (extend_plan keep) fp plan ↔ k ∈ plan ∨ (k ∈ fp ∧ keep k = true).
Proof.
  revert plan. induction fp as [|k fp IH]; intros plan Hinv Hfp; simpl.
  { split; [done|]. intros k. rewrite elem_of_nil. tauto. }
  destruct (IH (extend_plan keep plan k)) as [H1 H2].
  - apply extend_plan_inv; [done|]. intros p Hp Hkeep.
    destruct (Hfp p k 0 Hp Hkeep eq_refl) as [(j & Hj & _)|?]; [lia|done].
  - intros p c i Hp Hkeep Hi. rewrite elem_of_extend_plan.
    destruct (Hfp p c (S i) Hp Hkeep Hi) as [([|j] & Hj & Hjp)|?]; [|left; exists j; split; [lia|done]|by right; left].
    right; right. by injection Hjp as ->.
  - split; [done|]. intros x. rewrite H2, elem_of_extend_plan, elem_of_cons. clear. naive_solver.
Qed.

Definition keeps (nodes : gset Key) (atEnd : bool) (k : Key) : bool := atEnd || negb (bool_decide (k ∈ nodes)).

Lemma generate_loop_spec g isTarget atEnd nodes plan :
  graph_wf g → acyclic g → (∀ n, n ∈ nodes → Has g n = true) → plan_inv g (keeps isTarget atEnd) plan →
  ∃ plan', generate_loop g isTarget atEnd plan nodes = Some (Ok plan') ∧ plan_inv g (keeps isTarget atEnd) plan' ∧
    ∀ k, k ∈ plan' ↔ k ∈ plan ∨ ((∃ n, n ∈ nodes ∧ rtc (edge g) k n) ∧ keeps isTarget atEnd k = true).
Proof.
  intros Hwf Hac. revert plan. induction nodes as [|n nodes IH]; intros plan Hn Hinv0; simpl.
  { exists plan. split_and!; [done|done|]. intros k. split; [by left|]. intros [?|[(n & Hn0%elem_of_nil & _) _]]; done. }
  destruct (ForwardsPlan_spec g n Hwf Hac) as (fp & -> & Hfnd & Hfin & Hford & _); [apply Hn; by left|].
  destruct (extend_plan_spec g (keeps isTarget atEnd) fp plan Hinv0) as [Hinv' Hin'].
  { intros p c i Hpc _ Hi. left. by eapply Hford. }
  destruct (IH _ (fun n0 Hn0 => Hn n0 (list_elem_of_further _ _ _ Hn0)) Hinv') as (plan' & Hp & Hinv & Hin).
  exists plan'. split_and!; [done|done|]. intros k. rewrite Hin, Hin', Hfin. setoid_rewrite elem_of_cons.
  clear. naive_solver.
Qed.

Lemma generatePlan_spec g nodes atEnd :
  graph_wf g → acyclic g → (∀ n, n ∈ nodes → Has g n = true) →
  ∃ plan, generatePlan g nodes atEnd = Some (Ok plan) ∧ NoDup plan ∧
    (∀ k, k ∈ plan ↔ (∃ n, n ∈ nodes ∧ rtc (edge g) k n) ∧ (atEnd = true ∨ k ∉ nodes)) ∧
    (∀ p c i, edge g p c → p ∈ plan → plan !! i = Some c → ∃ j, j < i ∧ plan !! j = Some p).
Proof.
  intros Hwf Hac Hn. unfold generatePlan.
  destruct (generate_loop_spec g (list_to_set nodes) atEnd nodes [] Hwf Hac Hn) as (plan & -> & [Hnd Hord] & Hin).
  { split; [apply NoDup_nil_2|]. intros p c i _ _ Hi. by rewrite lookup_nil in Hi. }
  assert (∀ k, keeps (list_to_set nodes) atEnd k = true ↔ atEnd = true ∨ k ∉ nodes) as Hkeep.
  { intros k. unfold keeps. rewrite orb_true_iff, negb_true_iff, bool_decide_eq_false, elem_of_list_to_set. done. }
  exists plan. split_and!; [done|done| |].
  - intros k. rewrite Hin, Hkeep, elem_of_nil. clear. naive_solver.
  - intros p c i Hpc Hp. apply Hord; [done|]. apply Hin in Hp as [Hp%elem_of_nil|[_ Hp]]; done.
Qed.

(** The plan to the state of several migrations. On a consistent graph
    without cycles generatePlan returns the migrations the targets depend on,
    with the targets themselves when the state is asked for after them and
    without them otherwise, each once, each after those it depends on that
    the plan holds. *)
Theorem generatePlan_correct g nodes atEnd :
  graph_wf g → acyclic g → (∀ n, n ∈ nodes → Has g n = true) →
  ∃ plan, generatePlan g nodes atEnd = Some (Ok plan) ∧ NoDup plan ∧
    (∀ k, k ∈ plan ↔ (∃ n, n ∈ nodes ∧ rtc (edge g) k n) ∧ (atEnd = true ∨ k ∉ nodes)) ∧
    (∀ p c i, edge g p c → p ∈ plan → plan !! i = Some c → ∃ j, j < i ∧ plan !! j = Some p).
Proof. apply generatePlan_spec. Qed.
