(* ===== verification/Filename.v ===== *)
(** * Migration file names: internal/writer/writer.go

    The name of the file a migration is written to and the name read back
    from a file, with the parts of path/filepath (on a system whose separator
    is the slash) and of strings they and the loader use. *)

From S2P Require Import Prelude GoStd Migration.

(** ** Package strings *)

(** strings.CutSuffix *)
Fixpoint CutSuffix (s suffix : string) : option string :=
  if bool_decide (s = suffix) then Some ""
  else match s with
       | EmptyString => None
       | String c s' => String c <$> CutSuffix s' suffix
       end.

Definition HasSuffix (s suffix : string) : bool := bool_decide (is_Some (CutSuffix s suffix)).
Definition TrimSuffix (s suffix : string) : string := default s (CutSuffix s suffix).

(** strings.Split, for a separator of one byte *)
Fixpoint Split (s : string) (sep : ascii) : list string :=
  match s with
  | EmptyString => [""]
  | String c s' =>
      if bool_decide (c = sep) then "" :: Split s' sep
      else match Split s' sep with
           | [] => [String c ""]
           | part :: parts => String c part :: parts
           end
  end.

(** ** Package path/filepath *)

Definition slash : ascii := "/"%char.
Definition underscore : ascii := "_"%char.

(** filepath.Base: the last element, trailing slashes left out *)
Definition Base (path : string) : string :=
  if bool_decide (path = "") then "."
  else match last (filter (fun part => part ≠ "") (Split path slash)) with
       | Some part => part
       | None => "/"
       end.

(** The elements of a cleaned path, the last one first *)
Definition clean_step (rooted : bool) (out : list string) (part : string) : list string :=
  if bool_decide (part = "" ∨ part = ".") then out
  else if bool_decide (part = "..") then
    match out with
    | last :: out' => if bool_decide (last = "..") then ".." :: out else out'
    | [] => if rooted then [] else [".."]
    end
  else part :: out.

(** filepath.Clean *)
Definition Clean (path : string) : string :=
  let rooted := HasPrefix path "/" in
  let out := Join (reverse (fold_left (clean_step rooted) (Split path slash) [])) "/" in
  if rooted then "/" +:+ out else if bool_decide (out = "") then "." else out.

(** filepath.Join, of a directory and a name *)
Definition filepath_Join (dir name : string) : string :=
  if bool_decide (dir = "") then (if bool_decide (name = "") then "" else Clean name)
  else Clean (dir +:+ "/" +:+ name).

(** ** The names *)

(** knownGOOSGOARCH *)
Definition knownGOOSGOARCH : list string :=
  ["aix"; "android"; "darwin"; "dragonfly"; "freebsd"; "hurd"; "illumos"; "ios"; "js"; "linux"; "nacl"; "netbsd";
   "openbsd"; "plan9"; "solaris"; "wasip1"; "windows"; "zos";
   "386"; "amd64"; "amd64p32"; "arm"; "armbe"; "arm64"; "arm64be"; "loong64"; "mips"; "mipsle"; "mips64"; "mips64le";
   "mips64p32"; "mips64p32le"; "ppc"; "ppc64"; "ppc64le"; "riscv"; "riscv64"; "s390"; "s390x"; "sparc"; "sparc64";
   "wasm"].

(** A name the go tool leaves out of a build *)
Definition reserved (name : string) : bool :=
  let last := default "" (last (Split name underscore)) in
  bool_decide (last = "test") || bool_decide (last ∈ knownGOOSGOARCH).

(** Filename *)
Definition Filename (name : string) : string :=
  if reserved name then name +:+ "_.go" else name +:+ ".go".

(** MigrationNameFromFile *)
Definition MigrationNameFromFile (file : string) : string :=
  let base := TrimSuffix (Base file) ".go" in
  if HasSuffix base "_" then
    let stripped := TrimSuffix base "_" in
    if bool_decide (Filename stripped = base +:+ ".go") then stripped else base
  else base.

(** migrationFile of the loader: four digits, an underscore, word characters
    and the extension *)
Definition digits_underscore (s : string) : option string :=
  match s with
  | String a (String b (String c (String d (String u rest)))) =>
      if byte_is_digit a && byte_is_digit b && byte_is_digit c && byte_is_digit d && bool_decide (u = underscore)
      then Some rest else None
  | _ => None
  end.

Fixpoint all_word (s : string) : bool :=
  match s with
  | EmptyString => true
  | String c s' => word_char c && all_word s'
  end.

Definition migrationFile (name : string) : bool :=
  match digits_underscore name with
  | Some rest => match CutSuffix rest ".go" with Some w => all_word w | None => false end
  | None => false
  end.

(** ** Lemmas *)

Lemma CutSuffix_Some s suffix p : CutSuffix s suffix = Some p ↔ s = p +:+ suffix.
Proof.
  revert p. induction s as [|c s IH]; intros p; simpl.
  - destruct (decide (EmptyString = suffix)) as [<-|Hne].
    + rewrite bool_decide_eq_true_2 by done. destruct p; naive_solver.
    + rewrite bool_decide_eq_false_2 by done. split; [done|]. intros H. destruct p; [|done]. by destruct Hne.
  - destruct (decide (String c s = suffix)) as [<-|Hne].
    + rewrite bool_decide_eq_true_2 by done. split; [by intros [= <-]|]. intros H. f_equal.
      apply (str_app_inj_r _ _ (String c s)). by rewrite <- H.
    + rewrite bool_decide_eq_false_2 by done. rewrite fmap_Some. split.
      * intros (q & Hq%IH & ->). by rewrite Hq.
      * intros H. destruct p as [|d q]; [by destruct Hne|]. rewrite str_app_cons in H. injection H as -> H.
        exists q. split; [by apply IH|done].
Qed.

Lemma TrimSuffix_app p suffix : TrimSuffix (p +:+ suffix) suffix = p.
Proof. unfold TrimSuffix. by rewrite (proj2 (CutSuffix_Some (p +:+ suffix) suffix p) eq_refl). Qed.

Lemma HasSuffix_spec s suffix : HasSuffix s suffix = true ↔ ∃ p, s = p +:+ suffix.
Proof.
  unfold HasSuffix. rewrite bool_decide_eq_true. split.
  - intros [p Hp]. exists p. by apply CutSuffix_Some.
  - intros [p Hp]. exists p. by apply CutSuffix_Some.
Qed.

Lemma Split_no_sep s sep : ContainsByte s sep = false → Split s sep = [s].
Proof.
  induction s as [|c s IH]; simpl; [done|]. intros [Hc Hs]%orb_false_iff. by rewrite Hc, IH.
Qed.

Lemma ContainsByte_app a b c : ContainsByte (a +:+ b) c = ContainsByte a c || ContainsByte b c.
Proof. induction a as [|d a IH]; [done|]. rewrite str_app_cons. simpl. by rewrite IH, orb_assoc. Qed.

(** A file name without a slash is its own base. *)
Lemma Base_name s : ContainsByte s slash = false → s ≠ "" → Base s = s.
Proof.
  intros Hs Hne. unfold Base. rewrite bool_decide_eq_false_2 by done. rewrite Split_no_sep by done.
  by rewrite filter_cons_True.
Qed.

(** The name read back from the file of a migration is the name of the
    migration, except for a name that is a reserved name followed by an
    underscore: that one shares its file with the reserved name, which is
    what is read back. *)
Theorem MigrationNameFromFile_Filename name :
  ContainsByte name slash = false →
  MigrationNameFromFile (Filename name) =
    match CutSuffix name "_" with
    | Some stripped => if negb (reserved name) && reserved stripped then stripped else name
    | None => name
    end.
Proof.
  intros Hs. unfold MigrationNameFromFile. rewrite Base_name; cycle 1.
  { unfold Filename. destruct (reserved name); by rewrite ContainsByte_app, Hs. }
  { unfold Filename. destruct (reserved name); by destruct name. }
  assert (TrimSuffix (Filename name) ".go" = if reserved name then name +:+ "_" else name) as ->.
  { unfold Filename. destruct (reserved name); [|by rewrite TrimSuffix_app].
    change "_.go" with ("_" +:+ ".go"). by rewrite <- str_app_assoc, TrimSuffix_app. }
  destruct (reserved name) eqn:Hr.
  - rewrite (proj2 (HasSuffix_spec (name +:+ "_") "_")) by by exists name.
    rewrite TrimSuffix_app. unfold Filename. rewrite Hr, str_app_assoc.
    rewrite bool_decide_eq_true_2 by done. by destruct (CutSuffix name "_").
  - destruct (CutSuffix name "_") as [stripped|] eqn:Hcut.
    + apply CutSuffix_Some in Hcut as ->. rewrite (proj2 (HasSuffix_spec (stripped +:+ "_") "_")) by by exists stripped.
      rewrite TrimSuffix_app, str_app_assoc. unfold Filename. destruct (reserved stripped).
      * by rewrite bool_decide_eq_true_2.
      * rewrite bool_decide_eq_false_2; [done|]. intros H.
        apply (f_equal String.length) in H. rewrite !str_app_length in H. simpl in H. lia.
    + destruct (HasSuffix name "_") eqn:Hh; [|done]. apply HasSuffix_spec in Hh as [p Hp].
      apply CutSuffix_Some in Hp. by rewrite Hp in Hcut.
Qed.
