(* ===== verification/Loader.v ===== *)
(** * The migration loader: internal/loader/loader.go

    A Loader is built from the migrations compiled in, the files of their
    packages on disk and the applied migrations of a recorder. The file
    system is an argument. A map of the source that only ever maps a key to
    true is a set; a loop over a map visits it in some order, which is the
    order of the map's list here. *)

From S2P Require Import Prelude GoStd Keys Errors Fields Index ModelState Apps ProjectState Operation SchemaEditor.
From S2P Require Import Migration Graph Filename.

(** A recursion of the source that need not end has fuel here. Out of fuel
    it gives this panic, which the program does not have; the theorems about
    such a recursion show that it is not given. *)
Definition out_of_fuel : error := PlainError "out of fuel".

(** The result of a traversal that may not return *)
Definition settle {A} (o : option (outcome A)) : outcome A := default (Panic out_of_fuel) o.

(** AppSpec *)
Record AppSpec := mkAppSpec {
  app_Label : string;
  app_Dir : string;
  app_Disabled : bool;
}.

Record DirEntry := mkDirEntry { de_Name : string; de_IsDir : bool }.

(** Config. [cfg_ReadDir] is os.ReadDir: [Ok None] for a directory that does
    not exist. The recorder is an argument of BuildGraph. *)
Record Config := mkConfig {
  cfg_Apps : list AppSpec;
  cfg_Registered : string → list Migration;
  cfg_Compiled : string → bool;
  cfg_IgnoreNoMigrations : bool;
  cfg_ReplaceMigrations : bool;
  cfg_SkipDiskCheck : bool;
  cfg_ReadDir : string → outcome (option (list DirEntry));
}.

Definition cfg_set_ReplaceMigrations (b : bool) (c : Config) : Config :=
  mkConfig (cfg_Apps c) (cfg_Registered c) (cfg_Compiled c) (cfg_IgnoreNoMigrations c) b (cfg_SkipDiskCheck c)
    (cfg_ReadDir c).

(** Loader, without its configuration *)
Record Loader := mkLoader {
  ld_Graph : Graph;
  ld_DiskMigrations : gmap Key Migration;
  ld_Applied : gset Key;
  ld_AppliedOrder : list Key;
  ld_UnmigratedApps : gmap string bool;
  ld_MigratedApps : gset string;
  ld_Replacements : gmap Key Migration;
}.

(** ** The migrations on disk *)

(** migrationFiles: the files of a directory by the name of their migration *)
Definition migrationFiles (cfg : Config) (dir : string) : outcome (gmap string string * bool) :=
  if bool_decide (dir = "") then Ok (∅, false)
  else
    entries ← cfg_ReadDir cfg dir;
    match entries with
    | None => Ok (∅, false)
    | Some entries =>
        Ok (fold_left (fun files e =>
              if de_IsDir e || negb (migrationFile (de_Name e)) then files
              else <[MigrationNameFromFile (de_Name e) := filepath_Join dir (de_Name e)]> files) entries ∅, true)
    end.

Definition registered_names (registered : list Migration) : gmap string Migration :=
  fold_left (fun reg mig => <[mig_Name mig := mig]> reg) registered ∅.

(** checkDisk. Its first loop: the files that are not compiled in *)
Definition missing_files (files : gmap string string) (reg : gmap string Migration) : list string :=
  omap (fun p => match reg !! p.1 with Some _ => None | None => Some p.2 end) (map_to_list files).

(** The body of its second loop *)
Definition check_registered (app : AppSpec) (files : gmap string string) (extra : list string) (p : string * Migration)
    : outcome (list string) :=
  match files !! p.1 with
  | None => Ok (extra ++ [p.1])
  | Some file =>
      if negb (bool_decide (mig_File p.2 = "")) && negb (bool_decide (Base (mig_File p.2) = Base file)) then
        Err (BadMigrationError ("migration " +:+ app_Label app +:+ "." +:+ p.1 +:+ " is registered from " +:+
               mig_File p.2 +:+ ", expected file " +:+ file))
      else Ok extra
  end.

Definition checkDisk (app : AppSpec) (files : gmap string string) (registered : list Migration) : outcome unit :=
  let reg := registered_names registered in
  let missing := missing_files files reg in
  extra ← foldM (check_registered app files) [] (map_to_list reg);
  if negb (bool_decide (missing = [])) then
    Err (CommandError ("migration file(s) " +:+ Join (sort_strings missing) ", " +:+
           " exist on disk but are not compiled into this command; rebuild it"))
  else if negb (bool_decide (extra = [])) then
    Err (CommandError ("migration(s) " +:+ Join (sort_strings extra) ", " +:+ " of app '" +:+ app_Label app +:+
           "' are compiled into this command but their files are missing from " +:+ app_Dir app +:+ "; rebuild it"))
  else Ok tt.

(** What loadDisk fills in *)
Record disk := mkDisk {
  dk_migrations : gmap Key Migration;
  dk_unmigrated : gmap string bool;
  dk_migrated : gset string;
}.

Definition load_migration (app : string) (ms : gmap Key Migration) (mig : Migration) : outcome (gmap Key Migration) :=
  if negb (bool_decide (mig_App mig = app)) then
    Err (BadMigrationError ("migration " +:+ mig_Name mig +:+ " registered under app '" +:+ app +:+
           "' declares app '" +:+ mig_App mig +:+ "'"))
  else Ok (<[Migration_Key mig := Migration_Clone mig]> ms).

(** The body of the loop of loadDisk *)
Definition load_app (cfg : Config) (d : disk) (app : AppSpec) : outcome disk :=
  let unmigrated := mkDisk (dk_migrations d) (<[app_Label app := true]> (dk_unmigrated d)) (dk_migrated d) in
  if app_Disabled app then Ok unmigrated
  else
    '(files, dirExists) ← migrationFiles cfg (app_Dir app);
    if negb (cfg_Compiled cfg (app_Label app)) then
      if negb (bool_decide (size files = 0)) && negb (cfg_SkipDiskCheck cfg) then
        Err (CommandError ("the migrations of app '" +:+ app_Label app +:+ "' in " +:+ app_Dir app +:+
               " are not compiled into this command. Import the package from the gorm-gate command (makemigrations generates zz_gormgate_migrations.go for this)"))
      else Ok unmigrated
    else
      let registered := cfg_Registered cfg (app_Label app) in
      ms ← foldM (load_migration (app_Label app)) (dk_migrations d) registered;
      _ ← (if dirExists && negb (cfg_SkipDiskCheck cfg) then checkDisk app files registered else Ok tt);
      Ok (mkDisk ms (dk_unmigrated d) ({[app_Label app]} ∪ dk_migrated d)).

(** Loader.loadDisk *)
Definition loadDisk (cfg : Config) : outcome disk := foldM (load_app cfg) (mkDisk ∅ ∅ ∅) (cfg_Apps cfg).

(** ** Dependencies *)

Definition is_special (name : string) : bool :=
  bool_decide (name = "__first__") || bool_decide (name = "__latest__").

(** Loader.checkKey *)
Definition checkKey (cfg : Config) (d : disk) (g : Graph) (key : Key) (currentApp : string) : outcome (option Key) :=
  if negb (is_special (key_Name key)) || Has g key then Ok (Some key)
  else if bool_decide (key_App key = currentApp) || default false (dk_unmigrated d !! key_App key) then Ok None
  else if bool_decide (key_App key ∈ dk_migrated d) then
    nodes ← (if bool_decide (key_Name key = "__first__") then RootNodes g (key_App key) else LeafNodes g (key_App key));
    match nodes with
    | [] => if cfg_IgnoreNoMigrations cfg then Ok None
            else Err (ValueError ("dependency on app with no migrations: " +:+ key_App key) None)
    | n :: _ => Ok (Some n)
    end
  else Err (ValueError ("dependency on unknown app: " +:+ key_App key) None).

(** Graph.AddDependency as the loader calls it: without validation, the
    graph given up when it fails *)
Definition depend (migration : string) (child parent : Key) (g : Graph) : outcome Graph :=
  let '(g', r) := AddDependency migration child parent true g in
  _ ← r; Ok g'.

(** Loader.addInternalDependencies *)
Definition addInternalDependencies (key : Key) (mig : Migration) (g : Graph) : outcome Graph :=
  foldM (fun g parent =>
    if bool_decide (key_App parent = key_App key) && negb (bool_decide (key_Name parent = "__first__"))
    then depend (Migration_String mig) key parent g else Ok g) g (mig_Dependencies mig).

(** Loader.addExternalDependencies *)
Definition addExternalDependencies (cfg : Config) (d : disk) (key : Key) (mig : Migration) (g : Graph) : outcome Graph :=
  g ← foldM (fun g parent =>
        if bool_decide (key_App key = key_App parent) then Ok g
        else
          p ← checkKey cfg d g parent (key_App key);
          match p with Some p => depend (Migration_String mig) key p g | None => Ok g end) g (mig_Dependencies mig);
  foldM (fun g child =>
    c ← checkKey cfg d g child (key_App key);
    match c with Some c => depend (Migration_String mig) c key g | None => Ok g end) g (mig_RunBefore mig).

(** ** Squashed migrations *)

Section squashed.
Context (DiskMigrations Replacements : gmap Key Migration).

(** Loader.resolveReplacedKeys *)
Fixpoint resolveReplacedKeys (fuel : nat) (mig : Migration) : outcome (gset Key) :=
  match fuel with
  | 0 => Panic out_of_fuel
  | S fuel =>
      foldM (fun out k =>
        match DiskMigrations !! k with
        | Some entry =>
            if bool_decide (mig_Replaces entry = []) then Ok ({[k]} ∪ out)
            else rks ← resolveReplacedKeys fuel entry; Ok (rks ∪ out)
        | None => Ok ({[k]} ∪ out)
        end) ∅ (mig_Replaces mig)
  end.

(** The parts of the loader replaceMigration changes *)
Record squash := mkSquash {
  sq_Graph : Graph;
  sq_Applied : gset Key;
  sq_AppliedOrder : list Key;
  sq_progress : gmap Key bool;
}.

(** Loader.markApplied and Loader.unmarkApplied *)
Definition markApplied (k : Key) (a : gset Key * list Key) : gset Key * list Key :=
  if bool_decide (k ∈ a.1) then a else ({[k]} ∪ a.1, a.2 ++ [k]).

Fixpoint remove_first (k : Key) (l : list Key) : list Key :=
  match l with
  | [] => []
  | x :: l' => if bool_decide (x = k) then l' else x :: remove_first k l'
  end.

Definition unmarkApplied (k : Key) (a : gset Key * list Key) : gset Key * list Key :=
  if bool_decide (k ∈ a.1) then (a.1 ∖ {[k]}, remove_first k a.2) else a.

Definition settle_removal (r : Graph * outcome unit) : outcome Graph := let '(g, o) := r in _ ← o; Ok g.

(** The end of replaceMigration, once the migrations it replaces are settled *)
Definition replace_with (key : Key) (mig : Migration) (replaced : gset Key) (s : squash) : outcome squash :=
  let allApplied := bool_decide (set_Forall (fun k => k ∈ sq_Applied s) replaced) in
  let someApplied := negb (bool_decide (set_Forall (fun k => k ∉ sq_Applied s) replaced)) in
  let a := (if allApplied then markApplied else unmarkApplied) key (sq_Applied s, sq_AppliedOrder s) in
  g ← (if allApplied || negb someApplied then RemoveReplacedNodes key (mig_Replaces mig) (sq_Graph s)
       else settle_removal (RemoveReplacementNode key (mig_Replaces mig) (sq_Graph s)));
  Ok (mkSquash g a.1 a.2 (<[key := true]> (sq_progress s))).

(** Loader.replaceMigration *)
Fixpoint replaceMigration (fuel : nat) (s : squash) (key : Key) : outcome squash :=
  match fuel with
  | 0 => Panic out_of_fuel
  | S fuel =>
      match sq_progress s !! key with
      | Some true => Ok s
      | Some false => Err (CommandError ("cyclical squash replacement found, starting at " +:+ FormatKey key))
      | None =>
          match Replacements !! key with
          | None => Panic nil_dereference
          | Some mig =>
              s ← foldM (fun s rk => match Replacements !! rk with
                                     | Some _ => replaceMigration fuel s rk
                                     | None => Ok s
                                     end)
                    (mkSquash (sq_Graph s) (sq_Applied s) (sq_AppliedOrder s) (<[key := false]> (sq_progress s)))
                    (mig_Replaces mig);
              replaced ← resolveReplacedKeys (S (size DiskMigrations)) mig;
              replace_with key mig replaced s
          end
      end
  end.

(** Loader.AllReplacedApplied *)
Fixpoint AllReplacedApplied (fuel : nat) (k : Key) (applied : gset Key) : outcome bool :=
  match fuel with
  | 0 => Panic out_of_fuel
  | S fuel =>
      match Replacements !! k with
      | None => Ok false
      | Some r =>
          foldM (fun ok rk =>
            if negb ok then Ok false
            else if bool_decide (rk ∈ applied) then Ok true
            else AllReplacedApplied fuel rk applied) true (mig_Replaces r)
      end
  end.
End squashed.

(** ** The graph *)

Definition sortedDiskKeys (d : gmap Key Migration) : list Key := sorted_keys d.

(** The first loop of BuildGraph over the keys: the nodes *)
Definition add_nodes (d : gmap Key Migration) (keys : list Key) : outcome Graph :=
  foldM (fun g k => AddNode k (d !! k) g) New keys.

Definition replacements_of (d : gmap Key Migration) : gmap Key Migration :=
  filter (fun p => mig_Replaces p.2 ≠ []) d.

(** The body of both loops over the dependencies *)
Definition with_disk (d : gmap Key Migration) (f : Key → Migration → Graph → outcome Graph) (g : Graph) (k : Key)
    : outcome Graph :=
  match d !! k with Some mig => f k mig g | None => Panic nil_dereference end.

(** The error BuildGraph makes of that of an inconsistent graph *)
Definition candidates (replacements : gmap Key Migration) (node : Key) : list Key :=
  concat (map (fun rk => match replacements !! rk with
                         | Some r => omap (fun k => if bool_decide (k = node) then Some rk else None) (mig_Replaces r)
                         | None => []
                         end) (sorted_keys replacements)).

Definition explain (replacements : gmap Key Migration) (g : Graph) (e : error) : error :=
  match e with
  | NodeNotFoundError _ node origin =>
      let cs := candidates replacements node in
      if bool_decide (cs = []) || existsb (Has g) cs then e
      else NodeNotFoundError
             ("Migration " +:+ origin +:+ " depends on nonexistent node ('" +:+ key_App node +:+ "', '" +:+
              key_Name node +:+ "'). gormgate tried to replace migration " +:+ key_App node +:+ "." +:+
              key_Name node +:+ " with any of [" +:+ Join (map (fun c => key_App c +:+ "." +:+ key_Name c) cs) ", " +:+
              "] but wasn't able to because some of the replaced migrations are already applied.") node ""
  | _ => e
  end.

Definition explained {A} (replacements : gmap Key Migration) (g : Graph) (o : outcome A) : outcome A :=
  match o with Err e => Err (explain replacements g e) | _ => o end.

Definition mark_all (keys : list Key) : gset Key * list Key := fold_left (fun a k => markApplied k a) keys (∅, []).

(** BuildGraph once the disk has been read and the recorder asked *)
Definition dependency_graph (cfg : Config) (d : disk) : outcome Graph :=
  let keys := sortedDiskKeys (dk_migrations d) in
  g ← add_nodes (dk_migrations d) keys;
  g ← foldM (with_disk (dk_migrations d) addInternalDependencies) g keys;
  foldM (with_disk (dk_migrations d) (addExternalDependencies cfg d)) g keys.

Definition replace_all (d replacements : gmap Key Migration) (s : squash) : outcome squash :=
  foldM (fun s k => match replacements !! k with
                    | Some _ => replaceMigration d replacements (S (size replacements)) s k
                    | None => Ok s
                    end) s (sortedDiskKeys d).

Definition build (cfg : Config) (d : disk) (recorded : list Key) : outcome Loader :=
  let applied := mark_all recorded in
  let replacements := replacements_of (dk_migrations d) in
  g ← dependency_graph cfg d;
  let s := mkSquash g applied.1 applied.2 ∅ in
  s ← (if cfg_ReplaceMigrations cfg then replace_all (dk_migrations d) replacements s else Ok s);
  _ ← explained replacements (sq_Graph s) (ValidateConsistency (sq_Graph s));
  _ ← settle (EnsureNotCyclic (sq_Graph s));
  Ok (mkLoader (sq_Graph s) (dk_migrations d) (sq_Applied s) (sq_AppliedOrder s) (dk_unmigrated d) (dk_migrated d)
        replacements).

(** Loader.BuildGraph, and New with it; [Recorder] is None for nil. *)
Definition BuildGraph {E} (cfg : Config) (Recorder : option (io E (list Key))) : io E Loader :=
  d ← lift (loadDisk cfg);
  recorded ← match Recorder with Some r => r | None => mret [] end;
  lift (build cfg d recorded).

(** ** Queries *)

(** Loader.GetMigration *)
Definition GetMigration (l : Loader) (app name : string) : option Migration :=
  match g_Nodes (ld_Graph l) !! mkKey app name with Some (Some mig) => Some mig | _ => None end.

(** Loader.GetMigrationByPrefix *)
Definition GetMigrationByPrefix (l : Loader) (app prefix : string) : outcome Migration :=
  let results := filter (fun p => key_App p.1 = app ∧ HasPrefix (key_Name p.1) prefix = true)
                   (map_to_list (ld_DiskMigrations l)) in
  match results with
  | [] => Err (MigrationNotFoundError ("there is no migration for '" +:+ app +:+ "' with the prefix '" +:+ prefix +:+ "'"))
  | [(_, mig)] => Ok mig
  | _ => Err (AmbiguityError ("there is more than one migration for '" +:+ app +:+ "' with the prefix '" +:+
                prefix +:+ "'"))
  end.

Definition replaced_applied (l : Loader) (k : Key) (applied : gset Key) : outcome bool :=
  AllReplacedApplied (ld_Replacements l) (S (size (ld_Replacements l))) k applied.

(** The inner loop of CheckConsistentHistory *)
Definition check_parents (l : Loader) (alias : string) (applied : gset Key) (k : Key) : outcome unit :=
  foldM (fun _ p =>
    if bool_decide (p ∈ applied) then Ok tt
    else
      r ← replaced_applied l p applied;
      if (r : bool) then Ok tt
      else Err (InconsistentMigrationHistory ("migration " +:+ key_App k +:+ "." +:+ key_Name k +:+
                  " is applied before its dependency " +:+ key_App p +:+ "." +:+ key_Name p +:+ " on database '" +:+
                  alias +:+ "'"))) tt (sortedNodes (parents (g_NodeMap (ld_Graph l)) k)).

(** Loader.CheckConsistentHistory; [keys] are those rec reports. *)
Definition CheckConsistentHistory (l : Loader) (keys : list Key) (alias : string) : outcome unit :=
  foldM (fun _ k => if Has (ld_Graph l) k then check_parents l alias (list_to_set keys) k else Ok tt) tt keys.

(** Loader.DetectConflicts *)
Definition see_leaf (acc : gmap string (list string) * gset string) (leaf : Key)
    : gmap string (list string) * gset string :=
  let '(seen, conflicting) := acc in
  (<[key_App leaf := default [] (seen !! key_App leaf) ++ [key_Name leaf]]> seen,
   match seen !! key_App leaf with Some _ => {[key_App leaf]} ∪ conflicting | None => conflicting end).

Definition DetectConflicts (l : Loader) : outcome (gmap string (list string)) :=
  leaves ← LeafNodes (ld_Graph l) "";
  let '(seen, conflicting) := fold_left see_leaf leaves (∅, ∅) in
  Ok (set_to_map (fun app => (app, sort_strings (default [] (seen !! app)))) conflicting).

(** Loader.ProjectState *)
Definition Loader_ProjectState (l : Loader) (nodes : option (list Key)) (atEnd : bool) (realModels : list ModelState)
    : outcome ProjectState :=
  settle (MakeState (ld_Graph l) nodes atEnd (Some (ld_UnmigratedApps l)) realModels).
