(* ===== verification/SquashLemmas.v ===== *)
(** * Lemmas on squashed migrations

    RemoveReplacementNode keeps the graph well formed; which nodes are dummy
    nodes; and the recursions over squashed migrations end. *)

From S2P Require Import Prelude GoStd Keys Errors Fields Index ModelState Apps ProjectState Operation.
From S2P Require Import SchemaEditor Migration Graph GraphLemmas Filename Loader.

(** ** RemoveReplacementNode *)

(** The edges of the last replaced nodes to one child of the replacement *)
Lemma attach_child_spec c l nm :
  let nm' := fold_left (fun nm n => add_parent c n (add_child n c nm)) l nm in
  (∀ k, is_Some (nm' !! k) ↔ is_Some (nm !! k)) ∧
  (∀ k x, x ∈ children nm' k ↔ x ∈ children nm k ∨ (x = c ∧ k ∈ l ∧ is_Some (nm !! k))) ∧
  (∀ k x, x ∈ parents nm' k ↔ x ∈ parents nm k ∨ (k = c ∧ x ∈ l ∧ is_Some (nm !! k))).
Proof.
  revert nm. induction l as [|n l IH]; intros nm; simpl.
  { setoid_rewrite elem_of_nil. split_and!; [done|tauto|tauto]. }
  assert (∀ k, is_Some (add_parent c n (add_child n c nm) !! k) ↔ is_Some (nm !! k)) as Hdom.
  { intros k. by rewrite dom_add_parent, dom_add_child. }
  destruct (IH (add_parent c n (add_child n c nm))) as (H1 & H2 & H3). clear IH. split_and!.
  - intros k. by rewrite H1, Hdom.
  - intros k x. rewrite H2, Hdom, elem_of_cons, children_add_parent, elem_of_add_child.
    destruct (decide (k = n)) as [->|]; tauto.
  - intros k x. rewrite H3, Hdom, elem_of_cons, elem_of_add_parent, parents_add_child, dom_add_child.
    destruct (decide (k = c)) as [->|]; tauto.
Qed.

Lemma attach_children_spec r L cs nm :
  let nm' := fold_left (fun nm child =>
               fold_left (fun nm n => add_parent child n (add_child n child nm)) L (del_parent child r nm)) cs nm in
  (∀ k, is_Some (nm' !! k) ↔ is_Some (nm !! k)) ∧
  (∀ k x, x ∈ children nm' k ↔ x ∈ children nm k ∨ (x ∈ cs ∧ k ∈ L ∧ is_Some (nm !! k))) ∧
  (r ∉ L → ∀ k x, x ∈ parents nm' k ↔
     (x ∈ parents nm k ∧ ¬ (k ∈ cs ∧ x = r)) ∨ (k ∈ cs ∧ x ∈ L ∧ is_Some (nm !! k))).
Proof.
  revert nm. induction cs as [|c cs IH]; intros nm; simpl.
  { setoid_rewrite elem_of_nil. split_and!; [done|tauto|tauto]. }
  destruct (attach_child_spec c L (del_parent c r nm)) as (D & C & P).
  set (nm1 := fold_left (fun nm n => add_parent c n (add_child n c nm)) L (del_parent c r nm)) in *.
  destruct (IH nm1) as (H1 & H2 & H3). clear IH. split_and!.
  - intros k. by rewrite H1, D, dom_del_parent.
  - intros k x. rewrite H2, D, C, elem_of_cons, dom_del_parent, children_del_parent. tauto.
  - intros Hr k x. rewrite (H3 Hr), D, P, elem_of_cons, dom_del_parent, elem_of_del_parent.
    destruct (decide (k = c)) as [->|]; [|tauto]. destruct (decide (x = r)) as [->|]; tauto.
Qed.

Lemma detach_parents_spec r ps nm :
  let nm' := fold_left (fun nm parent => del_child parent r nm) ps nm in
  (∀ k, is_Some (nm' !! k) ↔ is_Some (nm !! k)) ∧
  (∀ k x, x ∈ children nm' k ↔ x ∈ children nm k ∧ ¬ (k ∈ ps ∧ x = r)) ∧
  (∀ k, parents nm' k = parents nm k).
Proof.
  revert nm. induction ps as [|p ps IH]; intros nm; simpl.
  { setoid_rewrite elem_of_nil. split_and!; [done|tauto|done]. }
  destruct (IH (del_child p r nm)) as (H1 & H2 & H3). clear IH. split_and!.
  - intros k. by rewrite H1, dom_del_child.
  - intros k x. rewrite H2, elem_of_del_child, elem_of_cons. destruct (decide (k = p)) as [->|]; tauto.
  - intros k. by rewrite H3, parents_del_child.
Qed.

(** The replaced migrations of the graph that no other of them depends on *)
Definition last_replaced (g : Graph) (replacement : Key) (replaced : list Key) (k : Key) : Prop :=
  k ∈ replaced ∧ is_Some (g_NodeMap g !! k) ∧ k ≠ replacement ∧
  ∀ k', k' ∈ replaced → k' ≠ replacement → ¬ edge g k k'.

Lemma RemoveReplacementNode_spec r replaced g g' :
  graph_wf g → ¬ edge g r r → RemoveReplacementNode r replaced g = (g', Ok tt) →
  graph_wf g' ∧ (∀ k, g_Nodes g' !! k = if decide (k = r) then None else g_Nodes g !! k) ∧
  (∀ p c, edge g' p c ↔ p ≠ r ∧ c ≠ r ∧ (edge g p c ∨ (edge g r c ∧ last_replaced g r replaced p))).
Proof.
  intros [Hdom Hsym] Hself. unfold RemoveReplacementNode. cbv zeta. destruct (g_NodeMap g !! r) as [n|] eqn:Hn; [|done].
  intros [= <-]. set (nm0 := delete r (g_NodeMap g)).
  set (present := list_to_set (filter (fun k => is_Some (nm0 !! k)) replaced) : gset Key).
  set (last := present ∖ ⋃ (map (parents nm0) (elements present))).
  assert (∀ k, is_Some (nm0 !! k) ↔ is_Some (g_NodeMap g !! k) ∧ k ≠ r) as Hd0.
  { intros k. unfold nm0. destruct (decide (r = k)) as [->|Hk].
    - rewrite lookup_delete_eq. split; [by intros [? ?]|by intros []].
    - rewrite lookup_delete_ne by done. naive_solver. }
  assert (∀ k, k ∈ present ↔ k ∈ replaced ∧ is_Some (g_NodeMap g !! k) ∧ k ≠ r) as Hpresent.
  { intros k. unfold present. rewrite elem_of_list_to_set, list_elem_of_filter, Hd0. tauto. }
  assert (∀ k, k ∈ last ↔ last_replaced g r replaced k) as Hlast.
  { intros k. unfold last, last_replaced. rewrite elem_of_difference, Hpresent, elem_of_union_list.
    assert ((∃ X, X ∈ map (parents nm0) (elements present) ∧ k ∈ X) ↔
      ∃ k', k' ∈ replaced ∧ k' ≠ r ∧ edge g k k') as ->.
    { setoid_rewrite list_elem_of_fmap. split.
      - intros (X & (k' & -> & Hk'%elem_of_elements%Hpresent) & Hk). exists k'. unfold nm0 in Hk.
        apply parents_delete in Hk as [Hk _]. apply Hsym in Hk. tauto.
      - intros (k' & Hin & Hk' & Hkk'). apply Hsym in Hkk'. exists (parents nm0 k'). split.
        + exists k'. split; [done|]. apply elem_of_elements, Hpresent. split_and!; [done| |done].
          by eapply elem_of_parents_dom.
        + by apply parents_delete. }
    clear. naive_solver. }
  assert (r ∉ elements last) as Hr.
  { rewrite elem_of_elements, Hlast. unfold last_replaced. tauto. }
  assert (∀ x, x ∈ elements (n_Children n) ↔ x ∈ children (g_NodeMap g) r) as Hch.
  { intros x. unfold children. rewrite Hn. apply elem_of_elements. }
  assert (∀ x, x ∈ elements (n_Parents n) ↔ x ∈ parents (g_NodeMap g) r) as Hpa.
  { intros x. unfold parents. rewrite Hn. apply elem_of_elements. }
  destruct (attach_children_spec r (elements last) (elements (n_Children n)) nm0) as (A1 & A2 & A3).
  specialize (A3 Hr). set (nm1 := fold_left _ (elements (n_Children n)) nm0) in *.
  destruct (detach_parents_spec r (elements (n_Parents n)) nm1) as (D1 & D2 & D3).
  set (nm2 := fold_left _ (elements (n_Parents n)) nm1) in *.
  assert (∀ k, delete r (g_Nodes g) !! k = if decide (k = r) then None else g_Nodes g !! k) as Hnodes.
  { intros k. case_decide as Hk; [subst; apply lookup_delete_eq|by apply lookup_delete_ne]. }
  assert (∀ p c, c ∈ children nm2 p ↔
    p ≠ r ∧ c ≠ r ∧ (c ∈ children (g_NodeMap g) p ∨ (c ∈ children (g_NodeMap g) r ∧ last_replaced g r replaced p))) as He.
  { intros p c. rewrite D2, A2, Hch, Hpa, elem_of_elements, Hlast, Hd0, <- (Hsym p r).
    unfold nm0. rewrite children_delete.
    assert (last_replaced g r replaced p → is_Some (g_NodeMap g !! p) ∧ p ≠ r) as Hlp by (unfold last_replaced; tauto).
    clear -Hlp Hself. destruct (decide (c = r)) as [->|]; tauto. }
  split_and!; [|done|exact He].
  split; simpl.
  - intros k. rewrite D1, A1, Hd0, Hnodes, Hdom. case_decide; [|tauto]. split; [tauto|by intros [? ?]].
  - intros p c. rewrite He, D3, A3, Hch, elem_of_elements, Hlast, Hd0. unfold nm0.
    rewrite parents_delete, <- (Hsym p c).
    assert (c ∈ children (g_NodeMap g) r → is_Some (g_NodeMap g !! c)) as Hc.
    { intros Hc%Hsym. by eapply elem_of_parents_dom. }
    assert (last_replaced g r replaced p → p ≠ r) as Hlp by (unfold last_replaced; tauto).
    clear -Hc Hself Hlp. destruct (decide (p = r)) as [->|]; destruct (decide (c = r)) as [->|]; tauto.
Qed.

(** RemoveReplacementNode takes a squashed migration out of the graph.
    What depended on it depends on the last of the migrations it replaces
    instead; what it depended on loses it; every other edge stays. (A
    squashed migration that depends on itself would leave an edge behind.) *)
Theorem RemoveReplacementNode_restores r replaced g g' :
  graph_wf g → ¬ edge g r r → RemoveReplacementNode r replaced g = (g', Ok tt) →
  graph_wf g' ∧ (∀ k, g_Nodes g' !! k = if decide (k = r) then None else g_Nodes g !! k) ∧
  (∀ p c, edge g' p c ↔ p ≠ r ∧ c ≠ r ∧ (edge g p c ∨ (edge g r c ∧ last_replaced g r replaced p))).
Proof. apply RemoveReplacementNode_spec. Qed.

(** ** Dummy nodes *)

Definition dummy_of (nm : gmap Key Node) (k : Key) : bool :=
  match nm !! k with Some n => n_dummy n | None => false end.

Lemma dummy_alter (f : Node → Node) i nm k :
  (∀ n, n_dummy (f n) = n_dummy n) → dummy_of (alter f i nm) k = dummy_of nm k.
Proof.
  intros Hf. unfold dummy_of. destruct (decide (i = k)) as [->|Hne]; [|by rewrite lookup_alter_ne].
  rewrite lookup_alter_eq. destruct (nm !! k); simpl; [apply Hf|done].
Qed.

Lemma dummy_fold {A} (f : gmap Key Node → A → gmap Key Node) l nm k :
  (∀ nm x, dummy_of (f nm x) k = dummy_of nm k) → dummy_of (fold_left f l nm) k = dummy_of nm k.
Proof. intros Hf. revert nm. induction l as [|x l IH]; intros nm; simpl; [done|]. by rewrite IH, Hf. Qed.

Lemma dummy_delete r nm k : k ≠ r → dummy_of (delete r nm) k = dummy_of nm k.
Proof. intros Hk. unfold dummy_of. by rewrite lookup_delete_ne. Qed.

Ltac dummies := repeat first
  [ rewrite dummy_fold; [|intros ? ?]
  | rewrite dummy_delete by done
  | unfold contract_child, contract_parent, add_child, add_parent, del_child, del_parent; case_bool_decide
  | unfold add_child, add_parent, del_child, del_parent; rewrite dummy_alter by done
  | rewrite dummy_alter by done ]; try done.

(** Every node that is not a dummy node has its migration. *)
Definition real_nodes (d : gmap Key Migration) (g : Graph) : Prop :=
  ∀ k o, g_Nodes g !! k = Some o →
    match o with Some mig => d !! k = Some mig | None => dummy_of (g_NodeMap g) k = true end.

Lemma New_real d : real_nodes d New.
Proof. intros k o Hk. simpl in Hk. by rewrite lookup_empty in Hk. Qed.

Lemma AddNode_real d k mig g g' :
  real_nodes d g → d !! k = Some mig → AddNode k (Some mig) g = Ok g' → real_nodes d g'.
Proof.
  intros Hr Hd. unfold AddNode. destruct (g_NodeMap g !! k) eqn:Hk; [done|]. intros [= <-] k' o. simpl.
  unfold dummy_of. destruct (decide (k = k')) as [->|Hne].
  - rewrite !lookup_insert_eq. by intros [= <-].
  - rewrite !lookup_insert_ne by done. apply Hr.
Qed.

Lemma ensure_node_real d what migration k g : real_nodes d g → real_nodes d (ensure_node what migration k g).
Proof.
  intros Hr. unfold ensure_node. destruct (Has g k); [done|]. intros k' o. simpl. unfold dummy_of.
  destruct (decide (k = k')) as [->|Hne].
  - rewrite !lookup_insert_eq. by intros [= <-].
  - rewrite !lookup_insert_ne by done. apply Hr.
Qed.

Lemma AddDependency_real d migration child parent skip g g' r :
  real_nodes d g → AddDependency migration child parent skip g = (g', r) → real_nodes d g'.
Proof.
  intros Hr. unfold AddDependency. set (g1 := ensure_node "parent" _ _ _).
  assert (real_nodes d g1) as Hr1 by by do 2 apply ensure_node_real.
  destruct (g_NodeMap g1 !! child), (g_NodeMap g1 !! parent); intros [= <- _]; try done.
  intros k o Hk. specialize (Hr1 k o Hk). simpl. destruct o; [done|]. by dummies.
Qed.

Lemma remove_replaced_real d rn R g rk : real_nodes d g → real_nodes d (remove_replaced rn R g rk).
Proof.
  intros Hr k o. unfold remove_replaced. cbv zeta.
  destruct (g_NodeMap g !! rk) as [n|]; simpl; intros [Hne Hk]%lookup_delete_Some; specialize (Hr k o Hk);
    destruct o; try done. apply not_eq_sym in Hne. by dummies.
Qed.

Lemma RemoveReplacedNodes_real d rn replaced g g' :
  real_nodes d g → RemoveReplacedNodes rn replaced g = Ok g' → real_nodes d g'.
Proof.
  intros Hr. unfold RemoveReplacedNodes. cbv zeta. destruct (g_NodeMap g !! rn); [|done]. intros [= <-].
  generalize (sortedNodes (list_to_set replaced)) as l. intros l. revert g Hr.
  induction l as [|k l IH]; intros g Hr; simpl; [done|]. apply IH. by apply remove_replaced_real.
Qed.

Lemma RemoveReplacementNode_real d rn replaced g g' r :
  real_nodes d g → RemoveReplacementNode rn replaced g = (g', r) → real_nodes d g'.
Proof.
  intros Hr. unfold RemoveReplacementNode. cbv zeta. intros Hg k o Hk.
  destruct (g_NodeMap g !! rn) as [n|]; injection Hg as <- _; simpl in *; apply lookup_delete_Some in Hk as [Hne Hk];
    specialize (Hr k o Hk); destruct o; try done. apply not_eq_sym in Hne. by dummies.
Qed.

(** ValidateConsistency finds a dummy node if there is one. *)
Lemma ValidateConsistency_ok g : ValidateConsistency g = Ok tt ↔ ∀ k, dummy_of (g_NodeMap g) k = false.
Proof.
  unfold ValidateConsistency.
  assert (∀ l u, foldM (fun (_ : unit) k => match g_NodeMap g !! k with
      | Some n => if n_dummy n then Err (NodeNotFoundError (n_errorMessage n) k (n_origin n)) else Ok tt
      | None => Ok tt end) u l = Ok tt ↔ ∀ k, k ∈ l → dummy_of (g_NodeMap g) k = false) as Hl.
  { intros l. induction l as [|k l IH]; intros []; simpl.
    { split; [by intros _ k ?%elem_of_nil|done]. }
    unfold dummy_of in *. setoid_rewrite elem_of_cons. destruct (g_NodeMap g !! k) as [n|] eqn:Hk.
    - destruct (n_dummy n) eqn:Hn.
      + split; [done|]. intros H. specialize (H k (or_introl eq_refl)). rewrite Hk in H. congruence.
      + rewrite IH. split; [intros H k' [->|?]; [by rewrite Hk|auto]|auto].
    - rewrite IH. split; [intros H k' [->|?]; [by rewrite Hk|auto]|auto]. }
  rewrite Hl. split; [|auto]. intros H k. unfold dummy_of. destruct (g_NodeMap g !! k) eqn:Hk; [|done].
  specialize (H k). unfold dummy_of in H. rewrite Hk in H. apply H. apply elem_of_sorted_keys. eauto.
Qed.

(** ** Bounded recursion *)

(** The elements from which R can be followed down at most n - 1 times *)
Inductive depth {A} (R : relation A) : nat → A → Prop :=
| depth_S n x : (∀ y, R y x → depth R n y) → depth R (S n) x.

Lemma Acc_not_tc {A} (R : relation A) x : Acc R x → ¬ tc R x x.
Proof.
  induction 1 as [x _ IH]. intros Hx.
  assert (∃ y, rtc R x y ∧ R y x) as (y & Hxy & Hyx).
  { clear IH. revert Hx. generalize x at 1 3. intros z Hz. induction Hz as [z x Hzx|z w x Hzw _ (y & Hwy & Hyx)].
    - by exists z.
    - exists y. split; [|done]. by eapply rtc_l. }
  apply (IH y Hyx). eapply tc_rtc_r; [by apply tc_once|done].
Qed.

Lemma Acc_depth {A} (R : relation A) (all : list A) n x :
  (∀ y z, R y z → z ∈ all) → Acc R x → length all < n → depth R n x.
Proof.
  intros Hall.
  assert (∀ n V x, Acc R x → NoDup V → (∀ v, v ∈ V → v ∈ all ∧ tc R x v) → length all < n + length V → depth R n x)
    as Hd.
  { clear n x. induction n as [|n IH]; intros V x Hacc HV Hin Hlen.
    - exfalso. assert (length V ≤ length all); [|simpl in Hlen; lia].
      apply submseteq_length, NoDup_submseteq; [done|]. intros v Hv. by apply Hin.
    - constructor. intros y Hyx. apply (IH (x :: V)).
      + by eapply Acc_inv.
      + apply NoDup_cons. split; [|done]. intros Hx. apply (Acc_not_tc R x Hacc). by apply Hin.
      + intros v [->|Hv]%elem_of_cons; [split; [by eapply Hall|by apply tc_once]|].
        split; [by apply Hin|]. eapply tc_l; [done|by apply Hin].
      + simpl. lia. }
  intros Hacc Hlen. apply (Hd n []); [done|constructor|by intros v ?%elem_of_nil|simpl; lia].
Qed.

(** ** What a squashed migration replaces *)

Section replaced.
Context (rs : gmap Key Migration).

(** [nested rk k]: the squashed migration k replaces rk. *)
Definition nested (rk k : Key) : Prop := ∃ mig, rs !! k = Some mig ∧ rk ∈ mig_Replaces mig.

(** [replaces k l]: l is one of the migrations that stand, in the end, behind
    the squashed migration k. *)
Inductive replaces : Key → Key → Prop :=
| replaces_plain k mig l : rs !! k = Some mig → l ∈ mig_Replaces mig → rs !! l = None → replaces k l
| replaces_nested k mig rk l : rs !! k = Some mig → rk ∈ mig_Replaces mig → replaces rk l → replaces k l.

(** [all_applied applied k]: all that stands behind k counts as applied. *)
Inductive all_applied (applied : gset Key) : Key → Prop :=
| all_applied_intro k mig :
    rs !! k = Some mig →
    (∀ rk, rk ∈ mig_Replaces mig → rk ∈ applied ∨ all_applied applied rk) → all_applied applied k.

Lemma replaces_iff k mig l :
  rs !! k = Some mig →
  replaces k l ↔ ∃ rk, rk ∈ mig_Replaces mig ∧ ((rs !! rk = None ∧ l = rk) ∨ replaces rk l).
Proof.
  intros Hk. split.
  - inversion 1; simplify_eq; naive_solver.
  - intros (rk & Hrk & [[Hnone ->]|Hl]); [by eapply replaces_plain|by eapply replaces_nested].
Qed.

Lemma replaces_squashed k l : replaces k l → is_Some (rs !! k) ∧ rs !! l = None.
Proof. induction 1 as [|k mig rk l Hk _ _ [_ IH]]; eauto. Qed.

Lemma AllReplacedApplied_spec n k applied :
  depth nested n k →
  ∃ b, AllReplacedApplied rs n k applied = Ok b ∧ (b = true ↔ all_applied applied k).
Proof.
  revert k. induction n as [|n IH]; intros k Hd; [by inversion Hd|].
  assert (∀ rk, nested rk k → depth nested n rk) as Hn by (by inversion Hd; subst).
  simpl. destruct (rs !! k) as [r|] eqn:Hk.
  2:{ exists false. split; [done|]. split; [done|]. inversion 1; congruence. }
  assert (∀ ks (acc : bool), (∀ rk, rk ∈ ks → rk ∈ mig_Replaces r) →
    ∃ b, foldM (fun (ok : bool) rk =>
            if negb ok then Ok false
            else if bool_decide (rk ∈ applied) then Ok true
            else AllReplacedApplied rs n rk applied) acc ks = Ok b ∧
    (b = true ↔ acc = true ∧ ∀ rk, rk ∈ ks → rk ∈ applied ∨ all_applied applied rk)) as Hfold.
  { induction ks as [|rk ks IHks]; intros acc Hks; simpl.
    { exists acc. split; [done|]. setoid_rewrite elem_of_nil. naive_solver. }
    assert (∀ rk, rk ∈ ks → rk ∈ mig_Replaces r) as Hks' by (intros; apply Hks; by right).
    destruct acc; simpl.
    2:{ destruct (IHks false Hks') as (b & -> & Hb). exists b. split; [done|]. rewrite Hb. naive_solver. }
    setoid_rewrite elem_of_cons. case_bool_decide as Hap.
    - destruct (IHks true Hks') as (b & -> & Hb). exists b. split; [done|]. rewrite Hb. naive_solver.
    - destruct (IH rk) as (b1 & -> & Hb1). { apply Hn. exists r. split; [done|]. apply Hks. by left. }
      destruct (IHks b1 Hks') as (b & -> & Hb). exists b. split; [done|]. rewrite Hb, Hb1. naive_solver. }
  destruct (Hfold (mig_Replaces r) true (fun k Hk => Hk)) as (b & Hb & Hiff). exists b. split; [exact Hb|].
  rewrite Hiff. split.
  - intros [_ H]. by eapply all_applied_intro.
  - intros H. split; [done|]. inversion H; simplify_eq. done.
Qed.

Lemma nested_depth k n : Acc nested k → size rs < n → depth nested n k.
Proof.
  intros Hacc Hn. apply (Acc_depth nested (map fst (map_to_list rs))); [|done|].
  - intros y z (mig & Hz & _). apply list_elem_of_fmap. exists (z, mig). split; [done|]. by apply elem_of_map_to_list.
  - rewrite length_map. by rewrite length_map_to_list.
Qed.
Context (d : gmap Key Migration).
Hypothesis Hrs : ∀ k mig, rs !! k = Some mig ↔ d !! k = Some mig ∧ mig_Replaces mig ≠ [].

Lemma lookup_disk k : match d !! k with
                      | Some entry => if decide (mig_Replaces entry = []) then rs !! k = None else rs !! k = Some entry
                      | None => rs !! k = None
                      end.
Proof.
  destruct (d !! k) as [entry|] eqn:Hk.
  - case_decide as He.
    + apply eq_None_not_Some. intros [mig [Hm Hne]%Hrs]. congruence.
    + by apply Hrs.
  - apply eq_None_not_Some. intros [mig [Hm Hne]%Hrs]. congruence.
Qed.

Lemma resolveReplacedKeys_spec n key mig :
  rs !! key = Some mig → depth nested n key →
  ∃ X, resolveReplacedKeys d n mig = Ok X ∧ ∀ l, l ∈ X ↔ replaces key l.
Proof.
  revert key mig. induction n as [|n IH]; intros key mig Hkey Hd; [by inversion Hd|].
  assert (∀ rk, nested rk key → depth nested n rk) as Hn.
  { inversion Hd; subst. done. }
  assert (∀ ks (acc : gset Key), (∀ k, k ∈ ks → k ∈ mig_Replaces mig) →
    ∃ X, foldM (fun out k =>
        match d !! k with
        | Some entry =>
            if bool_decide (mig_Replaces entry = []) then Ok ({[k]} ∪ out)
            else rks ← resolveReplacedKeys d n entry; Ok (rks ∪ out)
        | None => Ok ({[k]} ∪ out)
        end) acc ks = Ok X ∧
    ∀ l, l ∈ X ↔ l ∈ acc ∨ ∃ rk, rk ∈ ks ∧ ((rs !! rk = None ∧ l = rk) ∨ replaces rk l)) as Hfold.
  { induction ks as [|k ks IHks]; intros acc Hks; simpl.
    { exists acc. split; [done|]. intros l. setoid_rewrite elem_of_nil. naive_solver. }
    assert (∃ Y, match d !! k with
        | Some entry =>
            if bool_decide (mig_Replaces entry = []) then Ok ({[k]} ∪ acc)
            else rks ← resolveReplacedKeys d n entry; Ok (rks ∪ acc)
        | None => Ok ({[k]} ∪ acc)
        end = Ok Y ∧ ∀ l, l ∈ Y ↔ l ∈ acc ∨ (rs !! k = None ∧ l = k) ∨ replaces k l) as (Y & -> & HY).
    { assert (rs !! k = None → ∀ l, l ∈ {[k]} ∪ acc ↔ l ∈ acc ∨ (rs !! k = None ∧ l = k) ∨ replaces k l) as Hplain.
      { intros Hk l. rewrite elem_of_union, elem_of_singleton. split; [naive_solver|].
        intros [?|[[_ ?]|[[mig' Hm] _]%replaces_squashed]]; [by right|by left|congruence]. }
      pose proof (lookup_disk k) as Hk. destruct (d !! k) as [entry|]; [|by eexists; split; [done|apply Hplain]].
      case_decide as He.
      - rewrite bool_decide_eq_true_2 by done. eexists. split; [done|]. by apply Hplain.
      - rewrite bool_decide_eq_false_2 by done.
        destruct (IH k entry Hk) as (X & -> & HX). { apply Hn. exists mig. split; [done|]. apply Hks. by left. }
        simpl. exists (X ∪ acc). split; [done|]. intros l. rewrite elem_of_union, HX. naive_solver congruence. }
    destruct (IHks Y) as (X & -> & HX); [intros; apply Hks; by right|]. exists X. split; [done|]. intros l.
    rewrite HX, HY. setoid_rewrite elem_of_cons. naive_solver. }
  simpl. destruct (Hfold (mig_Replaces mig) ∅ (fun k Hk => Hk)) as (X & HX & Hl). exists X. split; [exact HX|].
  intros l. rewrite Hl, (replaces_iff _ _ _ Hkey). set_solver.
Qed.

End replaced.

(** ** Folding squashed migrations into the graph

    What replaceMigration does to the applied migrations and keeps of the
    graph, and that it ends. *)

(** ** The applied migrations and their order *)

Definition in_order (a : gset Key * list Key) : Prop := NoDup a.2 ∧ ∀ k, k ∈ a.2 ↔ k ∈ a.1.

Lemma markApplied_order k a : in_order a → in_order (markApplied k a) ∧ ∀ x, x ∈ (markApplied k a).1 ↔ x = k ∨ x ∈ a.1.
Proof.
  intros [Hnd Hin]. unfold markApplied. case_bool_decide as Hk.
  { split; [done|]. intros x. naive_solver. }
  split; [split|]; simpl.
  - apply NoDup_app. split_and!; [done| |apply NoDup_singleton]. intros x Hx%Hin ->%list_elem_of_singleton. done.
  - intros x. rewrite elem_of_app, list_elem_of_singleton, Hin, elem_of_union, elem_of_singleton. tauto.
  - intros x. by rewrite elem_of_union, elem_of_singleton.
Qed.

Lemma elem_of_remove_first k l x : NoDup l → x ∈ remove_first k l ↔ x ∈ l ∧ x ≠ k.
Proof.
  induction l as [|y l IH]; simpl; intros Hnd; [rewrite elem_of_nil; tauto|].
  apply NoDup_cons in Hnd as [Hy Hnd]. rewrite elem_of_cons. case_bool_decide as Hk.
  - subst. split; [|tauto]. intros Hx. split; [by right|]. by intros ->.
  - rewrite elem_of_cons, IH by done. split; [|tauto]. intros [->|[? ?]]; tauto.
Qed.

Lemma NoDup_remove_first k l : NoDup l → NoDup (remove_first k l).
Proof.
  induction l as [|y l IH]; simpl; intros Hnd; [done|]. apply NoDup_cons in Hnd as [Hy Hnd].
  case_bool_decide; [done|]. apply NoDup_cons. split; [|auto]. rewrite elem_of_remove_first by done. tauto.
Qed.

Lemma unmarkApplied_order k a :
  in_order a → in_order (unmarkApplied k a) ∧ ∀ x, x ∈ (unmarkApplied k a).1 ↔ x ≠ k ∧ x ∈ a.1.
Proof.
  intros [Hnd Hin]. unfold unmarkApplied. case_bool_decide as Hk.
  - split; [split|]; simpl.
    + by apply NoDup_remove_first.
    + intros x. rewrite elem_of_remove_first by done. rewrite Hin, elem_of_difference, elem_of_singleton. tauto.
    + intros x. rewrite elem_of_difference, elem_of_singleton. tauto.
  - split; [done|]. intros x. split; [|tauto]. intros Hx. split; [by intros ->|done].
Qed.

Lemma mark_all_order keys : in_order (mark_all keys) ∧ ∀ x, x ∈ (mark_all keys).1 ↔ x ∈ keys.
Proof.
  unfold mark_all.
  assert (∀ a, in_order a → in_order (fold_left (fun a k => markApplied k a) keys a) ∧
    ∀ x, x ∈ (fold_left (fun a k => markApplied k a) keys a).1 ↔ x ∈ keys ∨ x ∈ a.1) as H.
  { induction keys as [|k keys IH]; intros a Ha; simpl.
    { split; [done|]. intros x. rewrite elem_of_nil. tauto. }
    destruct (markApplied_order k a Ha) as [Ho Hin]. destruct (IH _ Ho) as [Ho' Hin']. split; [done|].
    intros x. rewrite Hin', Hin, elem_of_cons. tauto. }
  destruct (H (∅, [])) as [Ho Hin]; [by split; [constructor|set_solver]|]. split; [done|].
  intros x. rewrite Hin. set_solver.
Qed.

(** ** replaceMigration *)

Section replace.
Context (rs d : gmap Key Migration) (recorded : gset Key).
Hypothesis Hrs : ∀ k mig, rs !! k = Some mig ↔ d !! k = Some mig ∧ mig_Replaces mig ≠ [].

Notation is_done s k := (sq_progress s !! k = Some true).

(** What holds between two squashed migrations: those done have their final
    state, and what is not squashed is applied as recorded. *)
Record squash_inv (s : squash) : Prop := mkSquashInv {
  si_acc : ∀ k, is_done s k → Acc (nested rs) k;
  si_applied : ∀ k, is_done s k → k ∈ sq_Applied s ↔ ∀ l, replaces rs k l → l ∈ recorded;
  si_plain : ∀ k, rs !! k = None → k ∈ sq_Applied s ↔ k ∈ recorded;
  si_order : in_order (sq_Applied s, sq_AppliedOrder s);
  si_wf : graph_wf (sq_Graph s);
  si_real : real_nodes d (sq_Graph s);
  si_loop : ∀ k, is_Some (rs !! k) → ¬ is_done s k → ¬ edge (sq_Graph s) k k;
}.

(** What a call leaves as it is *)
Definition progressed (s s' : squash) : Prop :=
  ∀ k b, sq_progress s !! k = Some b → sq_progress s' !! k = Some b.

Definition unseen (s : squash) : nat := size (dom rs ∖ dom (sq_progress s)).

Lemma progressed_unseen s s' : progressed s s' → unseen s' ≤ unseen s.
Proof.
  intros H. unfold unseen. apply subseteq_size. intros k. rewrite !elem_of_difference, !elem_of_dom.
  intros [Hk Hn]. split; [done|]. intros [b Hb]. apply Hn. exists b. by apply H.
Qed.

(** The end of replaceMigration *)
Lemma replace_with_spec key mig X s :
  rs !! key = Some mig → Acc (nested rs) key → squash_inv s → sq_progress s !! key = Some false →
  (∀ rk, rk ∈ mig_Replaces mig → is_Some (rs !! rk) → is_done s rk) →
  (∀ l, l ∈ X ↔ replaces rs key l) →
  match replace_with key mig X s with
  | Ok s' => squash_inv s' ∧ sq_progress s' = <[key := true]> (sq_progress s)
  | Err _ => True
  | Panic _ => False
  end.
Proof.
  intros Hkey Hacc [Iacc Iapp Ipl Iord Iwf Ireal Iloop] Hpr Hsub HX. unfold replace_with. cbv zeta.
  set (all := bool_decide (set_Forall _ X)). set (a := (if all then markApplied else unmarkApplied) key _).
  assert (in_order a ∧ ∀ x, x ∈ a.1 ↔ if decide (x = key) then all = true else x ∈ sq_Applied s) as [Ho Ha].
  { unfold a. destruct all.
    - destruct (markApplied_order key _ Iord) as [Ho Hin]. split; [done|]. intros x. rewrite Hin. simpl.
      clear. case_decide; tauto.
    - destruct (unmarkApplied_order key _ Iord) as [Ho Hin]. split; [done|]. intros x. rewrite Hin. simpl.
      clear. case_decide; [split; [tauto|done]|tauto]. }
  assert (all = true ↔ ∀ l, replaces rs key l → l ∈ recorded) as Hall.
  { unfold all. rewrite bool_decide_eq_true. unfold set_Forall. split.
    - intros H l Hl. apply Ipl; [by eapply replaces_squashed|]. by apply H, HX.
    - intros H l Hl%HX. apply Ipl; [by eapply replaces_squashed|]. by apply H. }
  assert (key ∉ mig_Replaces mig) as Hself.
  { intros Hin. apply (Acc_not_tc (nested rs) key Hacc). apply tc_once. by exists mig. }
  assert (∀ g, graph_wf g → real_nodes d g →
    (∀ k, is_Some (rs !! k) → k ≠ key → ¬ is_done s k → ¬ edge g k k) →
    squash_inv (mkSquash g a.1 a.2 (<[key := true]> (sq_progress s)))) as Hinv.
  { intros g Hwf Hreal Hloop. split; simpl.
    - intros k Hk. destruct (decide (key = k)) as [->|Hne]; [exact Hacc|].
      rewrite lookup_insert_ne in Hk by done. by apply Iacc.
    - intros k Hk. rewrite Ha. case_decide as Hd; [by rewrite Hd|].
      rewrite lookup_insert_ne in Hk by (by apply not_eq_sym). by apply Iapp.
    - intros k Hk. rewrite Ha. case_decide as Hd; [congruence|by apply Ipl].
    - rewrite <- surjective_pairing. exact Ho.
    - exact Hwf.
    - exact Hreal.
    - intros k Hk Hnd. destruct (decide (key = k)) as [->|Hne]; [by rewrite lookup_insert_eq in Hnd|].
      rewrite lookup_insert_ne in Hnd by done. apply Hloop; [done|by apply not_eq_sym|done]. }
  destruct (all || negb _).
  - unfold RemoveReplacedNodes. destruct (RemoveReplacedNodes key (mig_Replaces mig) (sq_Graph s)) as [g|e|e] eqn:Hg.
    + unfold RemoveReplacedNodes in Hg. rewrite Hg. simpl. split; [|done].
      destruct (RemoveReplacedNodes_spec key (mig_Replaces mig) (sq_Graph s) g Iwf Hself Hg) as (Hwf & _ & He).
      apply Hinv; [done|by eapply RemoveReplacedNodes_real|]. intros k Hk Hne Hnd. rewrite He.
      intros (_ & _ & [H|[[? _]|[? _]]]); [|done|done]. by apply (Iloop k Hk Hnd).
    + unfold RemoveReplacedNodes in Hg. rewrite Hg. done.
    + unfold RemoveReplacedNodes in Hg. cbv zeta in Hg. by destruct (g_NodeMap (sq_Graph s) !! key).
  - destruct (RemoveReplacementNode key (mig_Replaces mig) (sq_Graph s)) as [g r] eqn:Hg. simpl.
    assert (is_ok r = true → r = Ok tt) as Hr by (by destruct r as [[]| |]).
    destruct r as [[]|e|e]; simpl; [|done|].
    + split; [|done].
      assert (¬ edge (sq_Graph s) key key) as Hk0.
      { apply Iloop; [eauto|]. by rewrite Hpr. }
      destruct (RemoveReplacementNode_spec key (mig_Replaces mig) (sq_Graph s) g Iwf Hk0 Hg) as (Hwf & _ & He).
      apply Hinv; [done|by eapply RemoveReplacementNode_real|]. intros k Hk Hne Hnd. rewrite He.
      intros (_ & _ & [H|[_ [Hin _]]]); [by apply (Iloop k Hk Hnd)|]. by apply Hnd, Hsub.
    + unfold RemoveReplacementNode in Hg. cbv zeta in Hg. by destruct (g_NodeMap (sq_Graph s) !! key).
Qed.

Definition call_ok (s : squash) (key : Key) (o : outcome squash) : Prop :=
  match o with
  | Ok s' => squash_inv s' ∧ progressed s s' ∧ is_done s' key
  | Err _ => True
  | Panic _ => False
  end.

(** The loop over the squashed migrations a migration replaces *)
Lemma replace_nested_spec f ks s :
  (∀ s key, squash_inv s → is_Some (rs !! key) → unseen s < f → call_ok s key (replaceMigration d rs f s key)) →
  squash_inv s → unseen s < f →
  match foldM (fun s rk => match rs !! rk with Some _ => replaceMigration d rs f s rk | None => Ok s end) s ks with
  | Ok s' => squash_inv s' ∧ progressed s s' ∧ ∀ rk, rk ∈ ks → is_Some (rs !! rk) → is_done s' rk
  | Err _ => True
  | Panic _ => False
  end.
Proof.
  intros Hcall. revert s. induction ks as [|k ks IH]; intros s Hinv Hf; simpl.
  { split_and!; [done|by intros k b|]. by intros rk ?%elem_of_nil. }
  destruct (rs !! k) as [mig|] eqn:Hk.
  - specialize (Hcall s k Hinv (ex_intro _ _ Hk) Hf).
    destruct (replaceMigration d rs f s k) as [s1|e|e]; [|done|done]. destruct Hcall as (Hinv1 & Hp1 & Hd1).
    specialize (IH s1 Hinv1). pose proof (progressed_unseen _ _ Hp1) as Hle.
    destruct (foldM _ s1 ks) as [s2|e|e]; [|done|by apply IH; lia]. destruct IH as (Hinv2 & Hp2 & Hd2); [lia|].
    split_and!; [done|intros k' b Hb; by apply Hp2, Hp1|].
    intros rk [->|Hrk]%elem_of_cons Hs; [by apply Hp2|by apply Hd2].
  - specialize (IH s Hinv Hf). destruct (foldM _ s ks) as [s2|e|e]; [|done|done]. destruct IH as (Hinv2 & Hp2 & Hd2).
    split_and!; [done|done|]. intros rk [->|Hrk]%elem_of_cons Hs; [by rewrite Hk in Hs; destruct Hs|by apply Hd2].
Qed.

Lemma replaceMigration_spec fuel s key :
  squash_inv s → is_Some (rs !! key) → unseen s < fuel → call_ok s key (replaceMigration d rs fuel s key).
Proof.
  revert s key. induction fuel as [|fuel IH]; intros s key Hinv [mig Hkey] Hf; [lia|].
  cbn [replaceMigration].
  destruct (sq_progress s !! key) as [[]|] eqn:Hpr.
  { split_and!; [done|by intros k b|done]. } { done. }
  rewrite Hkey. set (s0 := mkSquash _ _ _ _).
  assert (squash_inv s0) as Hinv0.
  { destruct Hinv as [Iacc Iapp Ipl Iord Iwf Ireal Iloop].
    assert (∀ k, is_done s0 k → is_done s k) as Hdone.
    { intros k. simpl. destruct (decide (key = k)) as [->|Hne]; [by rewrite lookup_insert_eq|].
      by rewrite lookup_insert_ne. }
    assert (∀ k, ¬ is_done s0 k → ¬ is_done s k) as Hnot.
    { intros k Hn Hd. apply Hn. simpl. destruct (decide (key = k)) as [->|Hne]; [congruence|].
      by rewrite lookup_insert_ne. }
    split.
    - intros k Hk. by apply Iacc, Hdone.
    - intros k Hk. by apply Iapp, Hdone.
    - exact Ipl.
    - exact Iord.
    - exact Iwf.
    - exact Ireal.
    - intros k Hk Hn. apply Iloop; [done|by apply Hnot]. }
  assert (progressed s s0) as Hp0.
  { intros k b Hk. simpl. rewrite lookup_insert_ne; [done|]. intros ->. congruence. }
  assert (unseen s0 < fuel) as Hf0.
  { assert (unseen s0 < unseen s); [|lia]. unfold unseen. apply subset_size. split.
    - intros k. simpl. rewrite dom_insert. set_solver.
    - intros H. specialize (H key). simpl in H. rewrite dom_insert in H.
      rewrite !elem_of_difference, elem_of_union, elem_of_singleton, !elem_of_dom in H.
      destruct H as [_ H]; [|tauto]. rewrite Hkey, Hpr. split; [eauto|by intros [? ?]]. }
  pose proof (replace_nested_spec fuel (mig_Replaces mig) s0 IH Hinv0 Hf0) as Hn.
  destruct (foldM _ s0 (mig_Replaces mig)) as [s1|e|e]; [|done|done]. destruct Hn as (Hinv1 & Hp1 & Hd1).
  cbn [mbind outcome_bind].
  assert (Acc (nested rs) key) as Hacc.
  { constructor. intros rk (mig' & Hm & Hrk). simplify_eq. destruct (rs !! rk) eqn:Hr.
    - apply (si_acc s1 Hinv1). apply Hd1; eauto.
    - constructor. intros y (m' & Hm' & _). congruence. }
  destruct (resolveReplacedKeys_spec rs d Hrs (S (size d)) key mig Hkey) as (X & -> & HX).
  { apply nested_depth; [done|]. apply Nat.lt_succ_r. rewrite <- (size_dom rs), <- (size_dom d).
    apply subseteq_size. intros k. rewrite !elem_of_dom. intros [m Hm%Hrs]. destruct Hm. eauto. }
  cbn [mbind outcome_bind]. assert (sq_progress s1 !! key = Some false) as Hpr1.
  { apply Hp1. simpl. by rewrite lookup_insert_eq. }
  pose proof (replace_with_spec key mig X s1 Hkey Hacc Hinv1 Hpr1 Hd1 HX) as Hw.
  destruct (replace_with key mig X s1) as [s2|e|e]; [|done|done]. destruct Hw as [Hinv2 Hp2].
  split_and!; [done| |by rewrite Hp2, lookup_insert_eq].
  intros k b Hk. rewrite Hp2. destruct (decide (key = k)) as [->|Hne]; [congruence|].
  rewrite lookup_insert_ne by done. by apply Hp1, Hp0.
Qed.

(** The loop over all squashed migrations *)
Lemma replace_all_spec s :
  squash_inv s →
  match replace_all d rs s with
  | Ok s' => squash_inv s' ∧ ∀ k, is_Some (rs !! k) → is_done s' k
  | Err _ => True
  | Panic _ => False
  end.
Proof.
  intros Hinv.
  assert (unseen s < S (size rs)) as Hf.
  { apply Nat.lt_succ_r. unfold unseen. rewrite <- (size_dom (D := gset Key) rs). apply subseteq_size. intros k. rewrite elem_of_difference. by intros [? _]. }
  pose proof (replace_nested_spec (S (size rs)) (sortedDiskKeys d) s (replaceMigration_spec _) Hinv Hf) as H.
  unfold replace_all. destruct (foldM _ s (sortedDiskKeys d)) as [s1|e|e]; [|done|done].
  destruct H as (Hinv1 & _ & Hd). split; [done|]. intros k Hk. apply Hd; [|done].
  destruct Hk as [mig [Hm _]%Hrs]. apply elem_of_sorted_keys. eauto.
Qed.
End replace.
