(* ===== verification/LoaderLemmas.v ===== *)
(** * Lemmas on the loader

    The graph a loader builds, and the answers it gives. *)

From S2P Require Import Prelude GoStd Keys Errors Fields Index ModelState Apps ProjectState Operation SchemaEditor.
From S2P Require Import Migration MigrationLemmas Graph GraphLemmas Filename Loader SquashLemmas.

(** ** The nodes of an app without neighbours in it *)

Definition in_app (app : string) (k : Key) : Prop := app = "" ∨ app = key_App k.

Lemma app_edge_nodes_spec (neighbours : Node → gset Key) (adjacent : gmap Key Node → Key → gset Key) g app :
  (∀ nm k n, nm !! k = Some n → neighbours n = adjacent nm k) → graph_wf g →
  ∃ l, app_edge_nodes neighbours g app = Ok l ∧ NoDup l ∧
    ∀ k, k ∈ l ↔ is_Some (g_Nodes g !! k) ∧ in_app app k ∧ ∀ p, p ∈ adjacent (g_NodeMap g) k → key_App p ≠ key_App k.
Proof.
  intros Hadj [Hdom _].
  assert (∀ ks acc, NoDup ks → (∀ k, k ∈ ks → is_Some (g_Nodes g !! k)) → NoDup acc → (∀ k, k ∈ ks → k ∉ acc) →
    ∃ l, foldM (edge_node_step neighbours g app) acc ks = Ok l ∧ NoDup l ∧
    ∀ k, k ∈ l ↔ k ∈ acc ∨ (k ∈ ks ∧ in_app app k ∧ ∀ p, p ∈ adjacent (g_NodeMap g) k → key_App p ≠ key_App k)) as H.
  { induction ks as [|k ks IH]; intros acc Hnd Hks Hacc Hdisj; simpl.
    { exists acc. split_and!; [done|done|]. intros k. rewrite elem_of_nil. naive_solver. }
    apply NoDup_cons in Hnd as [Hk Hnd].
    assert (∀ k, k ∈ ks → is_Some (g_Nodes g !! k)) as Hks' by (intros; apply Hks; by right).
    assert (∀ k, k ∈ ks → k ∉ acc) as Hdisj' by (intros; apply Hdisj; by right).
    setoid_rewrite elem_of_cons.
    unfold edge_node_step at 1.
    destruct (negb (bool_decide (app = "")) && negb (bool_decide (app = key_App k))) eqn:Happ.
    { destruct (IH acc Hnd Hks' Hacc Hdisj') as (l & -> & Hl & Hin). exists l. split_and!; [done|done|].
      intros x. rewrite Hin. apply andb_true_iff in Happ as [H1%negb_true_iff%bool_decide_eq_false H2%negb_true_iff%bool_decide_eq_false].
      assert (¬ in_app app k) as Hnot by (by intros [?|?]). clear -Hnot. naive_solver. }
    assert (in_app app k) as Hyes.
    { apply andb_false_iff in Happ as [H1%negb_false_iff%bool_decide_eq_true|H1%negb_false_iff%bool_decide_eq_true];
        [by left|by right]. }
    assert (is_Some (g_NodeMap g !! k)) as [n Hn] by (apply Hdom, Hks; by left).
    unfold node. rewrite Hn. simpl. rewrite (Hadj _ _ _ Hn).
    clear Happ. case_bool_decide as Hall.
    - destruct (IH (acc ++ [k])) as (l & -> & Hl & Hin); [done|done| | |].
      + apply NoDup_app. split_and!; [done| |apply NoDup_singleton]. intros x Hx ->%list_elem_of_singleton.
        apply (Hdisj k); [by left|done].
      + intros x Hx. rewrite elem_of_app, list_elem_of_singleton. intros [?| ->]; [by eapply Hdisj'|done].
      + exists l. split_and!; [done|done|]. intros x. rewrite Hin, elem_of_app, list_elem_of_singleton.
        unfold set_Forall in Hall. clear -Hyes Hall. naive_solver.
    - destruct (IH acc Hnd Hks' Hacc Hdisj') as (l & -> & Hl & Hin). exists l. split_and!; [done|done|].
      intros x. rewrite Hin. unfold set_Forall in Hall. clear -Hall. naive_solver. }
  destruct (H (sorted_keys (g_Nodes g)) []) as (l & Hl & Hnd & Hin).
  - apply NoDup_sorted_keys.
  - intros k. apply elem_of_sorted_keys.
  - constructor.
  - intros k _ ?%elem_of_nil. done.
  - exists l. split_and!; [exact Hl|done|]. intros k. rewrite Hin, elem_of_nil, elem_of_sorted_keys. tauto.
Qed.

Lemma RootNodes_spec g app :
  graph_wf g → ∃ l, RootNodes g app = Ok l ∧ NoDup l ∧
    ∀ k, k ∈ l ↔ is_Some (g_Nodes g !! k) ∧ in_app app k ∧ ∀ p, edge g p k → key_App p ≠ key_App k.
Proof.
  intros Hwf. destruct (app_edge_nodes_spec n_Parents parents g app) as (l & Hl & Hnd & Hin).
  { intros nm k n Hk. unfold parents. by rewrite Hk. } { done. }
  exists l. split_and!; [done|done|]. intros k. rewrite Hin. destruct Hwf as [_ Hsym].
  setoid_rewrite <- (Hsym _ k). done.
Qed.

Lemma LeafNodes_spec g app :
  graph_wf g → ∃ l, LeafNodes g app = Ok l ∧ NoDup l ∧
    ∀ k, k ∈ l ↔ is_Some (g_Nodes g !! k) ∧ in_app app k ∧ ∀ c, edge g k c → key_App c ≠ key_App k.
Proof.
  intros Hwf. destruct (app_edge_nodes_spec n_Children children g app) as (l & Hl & Hnd & Hin).
  { intros nm k n Hk. unfold children. by rewrite Hk. } { done. }
  exists l. split_and!; [done|done|]. intros k. by rewrite Hin.
Qed.

(** ** Building the graph *)

Lemma exists_cons {A} (P : A → Prop) x l : (∃ y, y ∈ x :: l ∧ P y) ↔ P x ∨ ∃ y, y ∈ l ∧ P y.
Proof. setoid_rewrite elem_of_cons. split; [intros (y & [->|?] & ?); eauto|intros [?|(y & ? & ?)]; eauto]. Qed.


Section build.
Context (cfg : Config) (d : disk).
Notation ms := (dk_migrations d).

(** No migration names itself as a dependency, and no app has an empty label. *)
Definition sane_disk : Prop :=
  "" ∉ dk_migrated d ∧
  ∀ k mig, ms !! k = Some mig → k ∉ mig_Dependencies mig ∧ k ∉ mig_RunBefore mig.

(** What holds of the graph while dependencies are added *)
Record graph_inv (g : Graph) : Prop := mkGraphInv {
  gi_wf : graph_wf g;
  gi_real : real_nodes ms g;
  gi_all : ∀ k, is_Some (ms !! k) → is_Some (g_Nodes g !! k);
  gi_loop : ∀ k, ¬ edge g k k;
  gi_dummy : ∀ k, is_Some (ms !! k) → dummy_of (g_NodeMap g) k = false;
  gi_touch : ∀ k, is_Some (g_Nodes g !! k) → is_Some (ms !! k) ∨ ∃ x, edge g k x ∨ edge g x k;
}.

Lemma add_nodes_spec :
  ∃ g, add_nodes ms (sortedDiskKeys ms) = Ok g ∧ graph_inv g ∧ (∀ p c, ¬ edge g p c) ∧
    ∀ k, is_Some (g_Nodes g !! k) ↔ is_Some (ms !! k).
Proof.
  assert (∀ ks g, NoDup ks → (∀ k, k ∈ ks → is_Some (ms !! k) ∧ g_NodeMap g !! k = None) →
    graph_wf g → real_nodes ms g → (∀ p c, ¬ edge g p c) → (∀ k, dummy_of (g_NodeMap g) k = false) →
    ∃ g', foldM (fun g k => AddNode k (ms !! k) g) g ks = Ok g' ∧ graph_wf g' ∧ real_nodes ms g' ∧ (∀ p c, ¬ edge g' p c) ∧
      (∀ k, dummy_of (g_NodeMap g') k = false) ∧
      ∀ k, is_Some (g_Nodes g' !! k) ↔ is_Some (g_Nodes g !! k) ∨ k ∈ ks) as H.
  { induction ks as [|k ks IH]; intros g Hnd Hks Hwf Hreal He Hd; simpl.
    { exists g. split_and!; try done. intros k. rewrite elem_of_nil. tauto. }
    apply NoDup_cons in Hnd as [Hk Hnd]. destruct (Hks k) as [[mig Hm] Hnone]; [by left|]. rewrite Hm.
    destruct (AddNode k (Some mig) g) as [g1|e|e] eqn:Hg; unfold AddNode in Hg; rewrite Hnone in Hg; [|done|done].
    assert (AddNode k (Some mig) g = Ok g1) as Hg1 by (unfold AddNode; by rewrite Hnone).
    destruct (IH g1 Hnd) as (g' & -> & Hwf' & Hreal' & He' & Hd' & Hin).
    - intros x Hx. split; [by apply Hks; right|]. injection Hg as <-. simpl.
      rewrite lookup_insert_ne; [by apply Hks; right|]. by intros ->.
    - by eapply AddNode_wf.
    - by eapply AddNode_real.
    - intros p c. injection Hg as <-. unfold edge, edges. simpl. rewrite children_insert by done. apply He.
    - intros x. injection Hg as <-. unfold dummy_of in *. simpl. destruct (decide (k = x)) as [->|].
      + by rewrite lookup_insert_eq.
      + rewrite lookup_insert_ne by done. apply Hd.
    - exists g'. split_and!; try done. intros x. rewrite Hin, elem_of_cons. injection Hg as <-. simpl.
      rewrite lookup_insert_is_Some. destruct (decide (k = x)); naive_solver. }
  assert (∀ p c, ¬ edge New p c) as Hnew.
  { intros p c. unfold edge, edges, children. simpl. rewrite lookup_empty. set_solver. }
  destruct (H (sortedDiskKeys ms) New) as (g & Hg & Hwf & Hreal & He & Hd & Hin).
  - apply NoDup_sorted_keys.
  - intros k Hk%elem_of_sorted_keys. split; [done|]. apply lookup_empty.
  - apply New_wf.
  - apply New_real.
  - done.
  - intros k. unfold dummy_of. simpl. by rewrite lookup_empty.
  - assert (∀ k, is_Some (g_Nodes g !! k) ↔ is_Some (ms !! k)) as Hin'.
    { intros k. rewrite Hin. unfold sortedDiskKeys. rewrite elem_of_sorted_keys. simpl. rewrite lookup_empty.
      split; [intros [[? ?]|?]; done|by right]. }
    exists g. split_and!; [exact Hg| |done|done]. split; [done|done| | | |].
    + intros k Hk. by apply Hin'.
    + intros k. apply He.
    + intros k [mig Hk]. apply Hd.
    + intros k Hk. left. by apply Hin'.
Qed.

Lemma ensure_node_nodes what migration x g k :
  is_Some (g_Nodes (ensure_node what migration x g) !! k) ↔ is_Some (g_Nodes g !! k) ∨ k = x.
Proof.
  unfold ensure_node, Has. case_bool_decide as Hx; [naive_solver|]. simpl.
  rewrite lookup_insert_is_Some. destruct (decide (x = k)); naive_solver.
Qed.

Lemma ensure_node_dummy what migration x g k :
  is_Some (g_Nodes g !! k) → dummy_of (g_NodeMap (ensure_node what migration x g)) k = dummy_of (g_NodeMap g) k.
Proof.
  intros Hk. unfold ensure_node, Has. case_bool_decide as Hx; [done|]. unfold dummy_of. simpl.
  rewrite lookup_insert_ne; [done|]. by intros ->.
Qed.

Lemma AddDependency_nodes migration child parent g g' r :
  AddDependency migration child parent true g = (g', r) →
  is_Some (g_NodeMap g' !! child) → is_Some (g_NodeMap g' !! parent) →
  r = Ok tt ∧ (∀ k, is_Some (g_Nodes g' !! k) ↔ is_Some (g_Nodes g !! k) ∨ k = child ∨ k = parent) ∧
  (∀ k, is_Some (g_Nodes g !! k) → dummy_of (g_NodeMap g') k = dummy_of (g_NodeMap g) k).
Proof.
  unfold AddDependency. intros Hg Hc Hp. set (g1 := ensure_node "parent" _ _ _) in *.
  assert (∀ k, is_Some (g_Nodes g1 !! k) ↔ is_Some (g_Nodes g !! k) ∨ k = child ∨ k = parent) as Hnodes.
  { intros k. unfold g1. rewrite !ensure_node_nodes. tauto. }
  assert (∀ k, is_Some (g_Nodes g !! k) → dummy_of (g_NodeMap g1) k = dummy_of (g_NodeMap g) k) as Hdummy.
  { intros k Hk. unfold g1. rewrite ensure_node_dummy; [by apply ensure_node_dummy|]. apply ensure_node_nodes. by left. }
  destruct (g_NodeMap g1 !! child) eqn:H2, (g_NodeMap g1 !! parent) eqn:H3; injection Hg as <- <-;
    try (exfalso; simpl in *; destruct Hc as [? Hc], Hp as [? Hp]; congruence).
  split_and!; [done|done|]. intros k Hk. rewrite <- Hdummy by done. simpl. by dummies.
Qed.

Lemma depend_spec migration child parent g :
  graph_inv g → child ≠ parent →
  ∃ g', depend migration child parent g = Ok g' ∧ graph_inv g' ∧
    ∀ p c, edge g' p c ↔ edge g p c ∨ (p = parent ∧ c = child).
Proof.
  intros [Hwf Hreal Hall Hloop Hdummy Htouch] Hne. unfold depend.
  destruct (AddDependency migration child parent true g) as [g' r] eqn:Hg.
  destruct (AddDependency_spec _ _ _ _ _ _ _ Hwf Hg) as (Hwf' & Hc & Hp & He).
  destruct (AddDependency_nodes _ _ _ _ _ _ Hg Hc Hp) as (-> & Hnodes & Hd). simpl.
  exists g'. split_and!; [done| |done]. split; [done|by eapply AddDependency_real| | | |].
  - intros k Hk. apply Hnodes. left. by apply Hall.
  - intros k. rewrite He. intros [H|[-> ?]]; [by apply (Hloop k)|done].
  - intros k Hk. rewrite Hd; [by apply Hdummy|by apply Hall].
  - intros k. rewrite Hnodes. setoid_rewrite He. intros [Hk|[->| ->]].
    + destruct (Htouch k Hk) as [?|(x & Hx)]; [by left|]. right. exists x. clear -Hx. tauto.
    + right. exists parent. right. by right.
    + right. exists child. left. by right.
Qed.

Lemma addInternal_spec key mig g :
  sane_disk → ms !! key = Some mig → graph_inv g →
  ∃ g', addInternalDependencies key mig g = Ok g' ∧ graph_inv g' ∧
    ∀ p c, edge g' p c ↔ edge g p c ∨
      (c = key ∧ p ∈ mig_Dependencies mig ∧ key_App p = key_App key ∧ key_Name p ≠ "__first__").
Proof.
  intros [_ Hsane] Hm. destruct (Hsane key mig Hm) as [Hself _]. unfold addInternalDependencies. revert Hself g.
  induction (mig_Dependencies mig) as [|parent deps IH]; intros Hself g Hinv; simpl.
  { exists g. split_and!; [done|done|]. intros p c. rewrite elem_of_nil. tauto. }
  apply not_elem_of_cons in Hself as [Hne Hself]. setoid_rewrite elem_of_cons.
  destruct (bool_decide (key_App parent = key_App key) && negb (bool_decide (key_Name parent = "__first__"))) eqn:Hb.
  - apply andb_true_iff in Hb as [H1%bool_decide_eq_true H2%negb_true_iff%bool_decide_eq_false].
    destruct (depend_spec (Migration_String mig) key parent g Hinv Hne) as (g1 & -> & Hinv1 & He1).
    destruct (IH Hself g1 Hinv1) as (g' & -> & Hinv' & He'). exists g'. split_and!; [done|done|].
    intros p c. rewrite He', He1. clear -H1 H2. naive_solver.
  - destruct (IH Hself g Hinv) as (g' & -> & Hinv' & He'). exists g'. split_and!; [done|done|].
    assert (¬ (key_App parent = key_App key ∧ key_Name parent ≠ "__first__")) as Hnot.
    { intros [H1 H2]. rewrite bool_decide_eq_true_2, bool_decide_eq_false_2 in Hb by done. done. }
    intros p c. rewrite He'. clear -Hnot. naive_solver.
Qed.

Lemma checkKey_fine g key currentApp :
  "" ∉ dk_migrated d → graph_inv g →
  fine (fun o => ∀ p, o = Some p → p = key ∨ (key_App p = key_App key ∧ key_App key ≠ currentApp))
    (checkKey cfg d g key currentApp).
Proof.
  intros Hlab [Hwf _ _ _ _ _]. unfold checkKey.
  destruct (negb (is_special (key_Name key)) || Has g key). { intros p [= <-]. by left. }
  destruct (bool_decide (key_App key = currentApp)) eqn:Hcur; simpl; [done|].
  apply bool_decide_eq_false in Hcur.
  destruct (default false (dk_unmigrated d !! key_App key)); [done|].
  case_bool_decide as Hmig; [|done].
  assert (∃ l, (if bool_decide (key_Name key = "__first__") then RootNodes g (key_App key) else LeafNodes g (key_App key)) = Ok l
    ∧ ∀ k, k ∈ l → in_app (key_App key) k) as (l & -> & Hl).
  { case_bool_decide.
    - destruct (RootNodes_spec g (key_App key) Hwf) as (l & Hl & _ & Hin). exists l. split; [done|]. intros k Hk. by apply Hin.
    - destruct (LeafNodes_spec g (key_App key) Hwf) as (l & Hl & _ & Hin). exists l. split; [done|]. intros k Hk. by apply Hin. }
  simpl. destruct l as [|n l]; [by destruct (cfg_IgnoreNoMigrations cfg)|]. intros p [= <-]. right. split; [|done].
  destruct (Hl n (list_elem_of_here _ _)) as [He|He]; [|done]. by rewrite He in Hmig.
Qed.

Lemma depend_fine migration child parent g :
  graph_inv g → child ≠ parent → fine graph_inv (depend migration child parent g).
Proof. intros Hinv Hne. by destruct (depend_spec migration child parent g Hinv Hne) as (g' & -> & Hinv' & _). Qed.

Lemma addExternal_fine key mig g :
  sane_disk → ms !! key = Some mig → graph_inv g → fine graph_inv (addExternalDependencies cfg d key mig g).
Proof.
  intros [Hlab Hsane] Hm Hinv. destruct (Hsane key mig Hm) as [_ Hself]. unfold addExternalDependencies.
  eapply fine_bind.
  - apply fine_foldM; [exact Hinv|]. intros g1 parent _ Hinv1. case_bool_decide as Happ; [done|].
    eapply fine_bind; [by apply checkKey_fine|]. intros [p|] Hp; [|done]. apply depend_fine; [done|].
    intros ->. destruct (Hp p eq_refl) as [->|[? _]]; congruence.
  - intros g1 Hinv1. apply fine_foldM; [exact Hinv1|]. intros g2 child Hc Hinv2.
    eapply fine_bind; [by apply checkKey_fine|]. intros [p|] Hp; [|done]. apply depend_fine; [done|].
    intros ->. destruct (Hp key eq_refl) as [->|[? ?]]; congruence.
Qed.

Lemma with_disk_fine (f : Key → Migration → Graph → outcome Graph) keys g :
  (∀ k mig g, ms !! k = Some mig → graph_inv g → fine graph_inv (f k mig g)) →
  (∀ k, k ∈ keys → is_Some (ms !! k)) → graph_inv g → fine graph_inv (foldM (with_disk ms f) g keys).
Proof.
  intros Hf Hkeys Hinv. apply fine_foldM; [done|]. intros g1 k Hk Hinv1. unfold with_disk.
  destruct (Hkeys k Hk) as [mig Hm]. rewrite Hm. by apply Hf.
Qed.

Lemma sorted_disk k : k ∈ sortedDiskKeys ms → is_Some (ms !! k).
Proof. apply elem_of_sorted_keys. Qed.

Lemma dependency_graph_fine : sane_disk → fine graph_inv (dependency_graph cfg d).
Proof.
  intros Hsane. unfold dependency_graph. destruct add_nodes_spec as (g & -> & Hinv & _ & _).
  cbn [mbind outcome_bind]. eapply fine_bind; [apply with_disk_fine; [|apply sorted_disk|done]|].
  - intros k mig g1 Hm Hinv1. by destruct (addInternal_spec k mig g1 Hsane Hm Hinv1) as (g' & -> & Hinv' & _).
  - intros g1 Hinv1. apply with_disk_fine; [|apply sorted_disk|done]. intros k mig g2 Hm Hinv2.
    by apply addExternal_fine.
Qed.

(** *** Without __first__ and __latest__ *)

(** [declared p c]: a migration says that c depends on p. *)
Definition declared (p c : Key) : Prop :=
  (∃ mig, ms !! c = Some mig ∧ p ∈ mig_Dependencies mig) ∨ (∃ mig, ms !! p = Some mig ∧ c ∈ mig_RunBefore mig).

Definition plain_disk : Prop :=
  ∀ k mig x, ms !! k = Some mig → x ∈ mig_Dependencies mig ++ mig_RunBefore mig → is_special (key_Name x) = false.

Lemma checkKey_plain g key app : is_special (key_Name key) = false → checkKey cfg d g key app = Ok (Some key).
Proof. intros H. unfold checkKey. by rewrite H. Qed.

(** The edges a loop of AddDependency adds, one for each element that passes *)
Lemma depend_loop {A} (keep : A → bool) (child parent : A → Key) migration (l : list A) g :
  graph_inv g → (∀ x, x ∈ l → keep x = true → child x ≠ parent x) →
  ∃ g', foldM (fun g x => if keep x then depend migration (child x) (parent x) g else Ok g) g l = Ok g' ∧ graph_inv g' ∧
    ∀ p c, edge g' p c ↔ edge g p c ∨ ∃ x, x ∈ l ∧ keep x = true ∧ p = parent x ∧ c = child x.
Proof.
  revert g. induction l as [|x l IH]; intros g Hinv Hne; simpl.
  { exists g. split_and!; [done|done|]. intros p c. split; [by left|]. by intros [?|(x & ?%elem_of_nil & _)]. }
  destruct (keep x) eqn:Hk.
  - destruct (depend_spec migration (child x) (parent x) g Hinv) as (g1 & -> & Hinv1 & He1); [by apply Hne; [left|]|].
    destruct (IH g1 Hinv1) as (g' & -> & Hinv' & He'); [intros; apply Hne; [by right|done]|].
    exists g'. split_and!; [done|done|]. intros p c. rewrite He', He1, exists_cons. clear -Hk. tauto.
  - destruct (IH g Hinv) as (g' & -> & Hinv' & He'); [intros; apply Hne; [by right|done]|].
    exists g'. split_and!; [done|done|]. intros p c. rewrite He', exists_cons, Hk. clear.
    split; [tauto|]. intros [?|[[? _]|?]]; [tauto|done|tauto].
Qed.

Lemma foldM_ext {A S} (f h : S → A → outcome S) s l :
  (∀ s x, x ∈ l → f s x = h s x) → foldM f s l = foldM h s l.
Proof.
  revert s. induction l as [|x l IH]; intros s Hf; simpl; [done|]. rewrite Hf by by left.
  destruct (h s x); [|done|done]. apply IH. intros s1 y Hy. apply Hf. by right.
Qed.

Lemma addExternal_plain key mig g :
  sane_disk → plain_disk → ms !! key = Some mig → graph_inv g →
  ∃ g', addExternalDependencies cfg d key mig g = Ok g' ∧ graph_inv g' ∧
    ∀ p c, edge g' p c ↔ edge g p c ∨ (c = key ∧ p ∈ mig_Dependencies mig ∧ key_App key ≠ key_App p) ∨
      (p = key ∧ c ∈ mig_RunBefore mig).
Proof.
  intros [_ Hsane] Hplain Hm Hinv. destruct (Hsane key mig Hm) as [Hd Hr]. unfold addExternalDependencies.
  rewrite (foldM_ext _ (fun g x => if negb (bool_decide (key_App key = key_App x))
    then depend (Migration_String mig) key x g else Ok g)).
  2:{ intros s x Hx. case_bool_decide; [done|]. rewrite checkKey_plain; [done|].
      eapply Hplain; [done|]. apply elem_of_app. by left. }
  destruct (depend_loop (fun x => negb (bool_decide (key_App key = key_App x))) (fun _ => key) (fun x => x)
    (Migration_String mig) (mig_Dependencies mig) g Hinv) as (g1 & -> & Hinv1 & He1).
  { by intros x Hx _ ->. }
  cbn [mbind outcome_bind].
  rewrite (foldM_ext _ (fun g x => if (fun _ => true) x then depend (Migration_String mig) x key g else Ok g)).
  2:{ intros s x Hx. rewrite checkKey_plain; [done|]. eapply Hplain; [done|]. apply elem_of_app. by right. }
  destruct (depend_loop (fun _ => true) (fun x => x) (fun _ => key) (Migration_String mig) (mig_RunBefore mig) g1 Hinv1)
    as (g2 & -> & Hinv2 & He2).
  { by intros x Hx _ ->. }
  exists g2. split_and!; [done|done|]. intros p c. rewrite He2, He1. setoid_rewrite negb_true_iff.
  setoid_rewrite bool_decide_eq_false. clear. naive_solver.
Qed.

Lemma with_disk_loop (f : Key → Migration → Graph → outcome Graph) (E : Key → Migration → Key → Key → Prop) keys g :
  (∀ k mig g, ms !! k = Some mig → graph_inv g →
    ∃ g', f k mig g = Ok g' ∧ graph_inv g' ∧ ∀ p c, edge g' p c ↔ edge g p c ∨ E k mig p c) →
  (∀ k, k ∈ keys → is_Some (ms !! k)) → graph_inv g →
  ∃ g', foldM (with_disk ms f) g keys = Ok g' ∧ graph_inv g' ∧
    ∀ p c, edge g' p c ↔ edge g p c ∨ ∃ k, k ∈ keys ∧ ∃ mig, ms !! k = Some mig ∧ E k mig p c.
Proof.
  intros Hf. revert g. induction keys as [|k keys IH]; intros g Hkeys Hinv; simpl.
  { exists g. split_and!; [done|done|]. intros p c. split; [by left|]. by intros [?|(x & ?%elem_of_nil & _)]. }
  destruct (Hkeys k (list_elem_of_here _ _)) as [mig Hm].
  destruct (Hf k mig g Hm Hinv) as (g1 & Hg1 & Hinv1 & He1). unfold with_disk at 1. rewrite Hm, Hg1.
  destruct (IH g1) as (g' & -> & Hinv' & He'); [intros; apply Hkeys; by right|done|].
  exists g'. split_and!; [done|done|]. intros p c. rewrite He', He1, exists_cons.
  assert ((∃ mig0, ms !! k = Some mig0 ∧ E k mig0 p c) ↔ E k mig p c) as ->; [|clear; tauto].
  rewrite Hm. clear. naive_solver.
Qed.

Lemma dependency_graph_plain :
  sane_disk → plain_disk →
  ∃ g, dependency_graph cfg d = Ok g ∧ graph_inv g ∧ ∀ p c, edge g p c ↔ declared p c.
Proof.
  intros Hsane Hplain. unfold dependency_graph. destruct add_nodes_spec as (g0 & -> & Hinv0 & Hno & _).
  cbn [mbind outcome_bind].
  destruct (with_disk_loop addInternalDependencies (fun key mig p c =>
      c = key ∧ p ∈ mig_Dependencies mig ∧ key_App p = key_App key ∧ key_Name p ≠ "__first__")
    (sortedDiskKeys ms) g0) as (g1 & -> & Hinv1 & He1).
  { intros k mig g Hm Hinv. by apply addInternal_spec. } { apply sorted_disk. } { done. }
  cbn [mbind outcome_bind].
  destruct (with_disk_loop (addExternalDependencies cfg d) (fun key mig p c =>
      (c = key ∧ p ∈ mig_Dependencies mig ∧ key_App key ≠ key_App p) ∨ (p = key ∧ c ∈ mig_RunBefore mig))
    (sortedDiskKeys ms) g1) as (g2 & -> & Hinv2 & He2).
  { intros k mig g Hm Hinv. by apply addExternal_plain. } { apply sorted_disk. } { done. }
  exists g2. split_and!; [done|done|]. intros p c. rewrite He2, He1. unfold declared. split.
  - intros [[H|(k & _ & mig & Hm & -> & Hp & _)]|(k & _ & mig & Hm & [(-> & Hp & _)|(-> & Hc)])].
    + by apply Hno in H.
    + left. eauto.
    + left. eauto.
    + right. eauto.
  - assert (∀ k mig, ms !! k = Some mig → k ∈ sortedDiskKeys ms) as Hin.
    { intros k mig Hm. apply elem_of_sorted_keys. eauto. }
    intros [(mig & Hm & Hp)|(mig & Hm & Hc)].
    + destruct (decide (key_App c = key_App p)) as [Ha|Ha].
      * left. right. exists c. split; [by eapply Hin|]. exists mig. split_and!; try done. intros Hf.
        assert (is_special (key_Name p) = false) as Hs. { eapply Hplain; [done|]. apply elem_of_app. by left. }
        unfold is_special in Hs. rewrite Hf in Hs. done.
      * right. exists c. split; [by eapply Hin|]. exists mig. split; [done|]. by left.
    + right. exists p. split; [by eapply Hin|]. exists mig. split; [done|]. by right.
Qed.
End build.

(** ** The loader *)

Definition loader_of (d : disk) (l : Loader) : Prop :=
  ld_DiskMigrations l = dk_migrations d ∧ ld_UnmigratedApps l = dk_unmigrated d ∧
  ld_MigratedApps l = dk_migrated d ∧ ld_Replacements l = replacements_of (dk_migrations d).

(** What holds of every loader *)
Record loader_wf (l : Loader) : Prop := mkLoaderWf {
  lw_wf : graph_wf (ld_Graph l);
  lw_acyclic : acyclic (ld_Graph l);
  lw_nodes : ∀ k o, g_Nodes (ld_Graph l) !! k = Some o → ∃ mig, o = Some mig ∧ ld_DiskMigrations l !! k = Some mig;
  lw_order : in_order (ld_Applied l, ld_AppliedOrder l);
}.

Lemma replacements_of_spec d k mig :
  replacements_of d !! k = Some mig ↔ d !! k = Some mig ∧ mig_Replaces mig ≠ [].
Proof. unfold replacements_of. by rewrite map_lookup_filter_Some. Qed.

(** The checks at the end of BuildGraph *)
Lemma checked_graph d replacements g :
  graph_wf g → real_nodes d g →
  fine (fun _ => acyclic g ∧ (∀ k, dummy_of (g_NodeMap g) k = false) ∧
                 ∀ k o, g_Nodes g !! k = Some o → ∃ mig, o = Some mig ∧ d !! k = Some mig)
    (_ ← explained replacements g (ValidateConsistency g); settle (EnsureNotCyclic g)).
Proof.
  intros Hwf Hreal. pose proof (ValidateConsistency_ok g) as Hv.
  assert (fine (fun _ => True) (ValidateConsistency g)) as Hf.
  { apply fine_foldM; [done|]. intros [] k _ _. destruct (g_NodeMap g !! k) as [n|]; [|done]. by destruct (n_dummy n). }
  destruct (ValidateConsistency g) as [[]|e|e]; simpl in *; [|done|done].
  destruct (EnsureNotCyclic_spec g Hwf) as [[-> Hac]|(parts & -> & _)]; simpl; [|done].
  assert (∀ k, dummy_of (g_NodeMap g) k = false) as Hnd by by apply Hv.
  split_and!; [done|done|]. intros k o Hk. specialize (Hreal k o Hk). destruct o as [mig|]; [eauto|].
  by rewrite Hnd in Hreal.
Qed.

Definition applied_as_recorded (cfg : Config) (d : disk) (recorded : list Key) (l : Loader) : Prop :=
  ∀ k, k ∈ ld_Applied l ↔
    if cfg_ReplaceMigrations cfg && bool_decide (is_Some (replacements_of (dk_migrations d) !! k))
    then ∀ x, replaces (replacements_of (dk_migrations d)) k x → x ∈ recorded
    else k ∈ recorded.

Lemma build_spec cfg d recorded :
  sane_disk d →
  fine (fun l => loader_wf l ∧ loader_of d l ∧ applied_as_recorded cfg d recorded l ∧
                 (cfg_ReplaceMigrations cfg = true → well_founded (nested (ld_Replacements l))) ∧
                 (cfg_ReplaceMigrations cfg = false →
                  ∀ k, is_Some (dk_migrations d !! k) → is_Some (g_Nodes (ld_Graph l) !! k)))
    (build cfg d recorded).
Proof.
  intros Hsane. unfold build. cbv zeta. destruct (mark_all_order recorded) as [Hord Hmark].
  set (rs := replacements_of (dk_migrations d)).
  assert (∀ k mig, rs !! k = Some mig ↔ dk_migrations d !! k = Some mig ∧ mig_Replaces mig ≠ []) as Hrs.
  { apply replacements_of_spec. }
  eapply fine_bind; [by apply dependency_graph_fine|]. intros g [Hwf Hreal Hall Hloop _ _].
  set (s0 := mkSquash g (mark_all recorded).1 (mark_all recorded).2 ∅).
  eapply (fine_bind (fun s => graph_wf (sq_Graph s) ∧ real_nodes (dk_migrations d) (sq_Graph s) ∧
    in_order (sq_Applied s, sq_AppliedOrder s) ∧
    (∀ k, k ∈ sq_Applied s ↔ if cfg_ReplaceMigrations cfg && bool_decide (is_Some (rs !! k))
                             then ∀ x, replaces rs k x → x ∈ recorded else k ∈ recorded) ∧
    (cfg_ReplaceMigrations cfg = true → well_founded (nested rs)) ∧
    (cfg_ReplaceMigrations cfg = false → ∀ k, is_Some (dk_migrations d !! k) → is_Some (g_Nodes (sq_Graph s) !! k)))).
  - destruct (cfg_ReplaceMigrations cfg); simpl.
    2:{ split_and!; [exact Hwf|exact Hreal| |exact Hmark|done|intros _; exact Hall]. rewrite <- surjective_pairing. exact Hord. }
    assert (squash_inv rs (dk_migrations d) (list_to_set recorded) s0) as Hinv.
    { split; simpl.
      - intros k Hk. by rewrite lookup_empty in Hk.
      - intros k Hk. by rewrite lookup_empty in Hk.
      - intros k _. rewrite Hmark. symmetry. apply elem_of_list_to_set.
      - rewrite <- surjective_pairing. exact Hord.
      - exact Hwf.
      - exact Hreal.
      - intros k _ _. apply Hloop. }
    pose proof (replace_all_spec rs (dk_migrations d) (list_to_set recorded) Hrs s0 Hinv) as H.
    destruct (replace_all (dk_migrations d) rs s0) as [s|e|e]; [|done|done].
    destruct H as [[Iacc Iapp Ipl Iord Iwf Ireal Iloop] Hdone]. simpl. split_and!; [exact Iwf|exact Ireal|exact Iord| | |done].
    + intros k. case_bool_decide as Hk.
      * rewrite Iapp by by apply Hdone. by setoid_rewrite elem_of_list_to_set.
      * rewrite Ipl by by apply eq_None_not_Some. by rewrite elem_of_list_to_set.
    + intros _ k. destruct (rs !! k) eqn:Hk; [apply Iacc, Hdone; eauto|].
      constructor. intros y (m & Hm & _). congruence.
  - intros s (Hwf' & Hreal' & Hord' & Happ & Hnest & Hnodes). rewrite <- bind_assoc. 
    eapply fine_bind; [by apply checked_graph|]. intros [] (Hac & _ & Hn). simpl. split_and!; [|done|done|done|done].
    by split.
Qed.

(** C15: what a loader is. Building one neither panics nor runs on: the
    recursions over squashed migrations and the search for a cycle end. The
    loader it gives has a well-formed graph without cycles in which every
    node has its migration, and lists the applied migrations without
    repeating one. *)
Theorem build_loader_wf cfg d recorded :
  sane_disk d → fine (fun l => loader_wf l ∧ loader_of d l) (build cfg d recorded).
Proof. intros Hs. eapply fine_mono; [by apply build_spec|]. by intros l (? & ? & _). Qed.

(** C17: which migrations a loader counts as applied. A migration that is not
    squashed is applied when it is recorded; a squashed one, when replacing is
    asked for, exactly when all the migrations that stand behind it, directly
    or through other squashed ones, are recorded. *)
Theorem build_applied cfg d recorded l :
  sane_disk d → build cfg d recorded = Ok l → applied_as_recorded cfg d recorded l.
Proof. intros Hs Hl. pose proof (build_spec cfg d recorded Hs) as H. rewrite Hl in H. by destruct H as (_ & _ & ? & _). Qed.

Lemma build_declared_spec cfg d recorded :
  sane_disk d → plain_disk d → cfg_ReplaceMigrations cfg = false →
  ((∀ p c, declared d p c → is_Some (dk_migrations d !! p) ∧ is_Some (dk_migrations d !! c)) ∧
   (∀ k, ¬ tc (declared d) k k)
   ↔ is_ok (build cfg d recorded) = true) ∧
  ∀ l, build cfg d recorded = Ok l → ∀ p c, edge (ld_Graph l) p c ↔ declared d p c.
Proof.
  intros Hsane Hplain Hcfg. unfold build. cbv zeta.
  destruct (dependency_graph_plain cfg d Hsane Hplain) as (g & -> & [Hwf Hreal Hall Hloop Hdummy Htouch] & He).
  rewrite Hcfg. cbn [mbind outcome_bind]. simpl.
  assert (∀ p c, tc (edge g) p c ↔ tc (declared d) p c) as Htc.
  { intros p c. split; induction 1 as [a b Hab|a b c' Hab _ IH]; [by apply tc_once, He|eapply tc_l; [by apply He|done]|
      by apply tc_once, He|eapply tc_l; [by apply He|done]]. }
  split.
  - pose proof (checked_graph (dk_migrations d) (replacements_of (dk_migrations d)) g Hwf Hreal) as Hc.
    pose proof (ValidateConsistency_ok g) as Hv.
    split.
    + intros [Hclosed Hac].
      assert (ValidateConsistency g = Ok tt) as ->.
      { apply Hv. intros k. destruct (dummy_of (g_NodeMap g) k) eqn:Hk; [|done]. exfalso.
        assert (¬ is_Some (dk_migrations d !! k)) as Hno by (intros Hs%Hdummy; congruence).
        assert (is_Some (g_Nodes g !! k)) as Hs.
        { apply (proj1 Hwf). unfold dummy_of in Hk. by destruct (g_NodeMap g !! k). }
        destruct (Htouch k Hs) as [?|(x & [Hx%He|Hx%He])]; [done|..]; apply Hclosed in Hx; tauto. }
      simpl. destruct (EnsureNotCyclic_spec g Hwf) as [[-> _]|(parts & _ & _ & Hcyc)]; [done|].
      exfalso. apply Hcyc. intros k Hk%Htc. by apply Hac in Hk.
    + intros Hok. destruct (ValidateConsistency g) as [[]|e|e]; simpl in *; [|done|done].
      destruct (settle (EnsureNotCyclic g)) as [[]|e|e]; simpl in *; [|done|done].
      destruct Hc as (Hac & Hnd & Hn). split.
      * intros p c Hpc%He. apply (edge_live g p c Hwf) in Hpc as [Hp%(proj1 Hwf) Hcn%(proj1 Hwf)].
        destruct Hp as [o1 Hp], Hcn as [o2 Hc2]. apply Hn in Hp as (m1 & _ & ->), Hc2 as (m2 & _ & ->). split; eauto.
      * intros k Hk%Htc. by apply Hac in Hk.
  - intros l. destruct (explained _ _ _) as [[]|e|e]; [|done|done]. cbn [mbind outcome_bind].
    destruct (settle _) as [[]|e|e]; [|done|done]. cbn [mbind outcome_bind]. intros [= <-]. exact He.
Qed.

(** Without squashing, and without dependencies on the first or the
    latest migration of another app, the graph has exactly the declared
    dependencies for its edges, and is built exactly when all of them are on
    migrations there are and none of them is circular. *)
Theorem build_declared cfg d recorded :
  sane_disk d → plain_disk d → cfg_ReplaceMigrations cfg = false →
  ((∀ p c, declared d p c → is_Some (dk_migrations d !! p) ∧ is_Some (dk_migrations d !! c)) ∧
   (∀ k, ¬ tc (declared d) k k)
   ↔ is_ok (build cfg d recorded) = true) ∧
  ∀ l, build cfg d recorded = Ok l → ∀ p c, edge (ld_Graph l) p c ↔ declared d p c.
Proof. apply build_declared_spec. Qed.

(** ** Queries *)

(** A loop of checks passes when every check does. *)
Lemma foldM_check {A} (f : A → outcome unit) (P : A → Prop) l :
  (∀ x, x ∈ l → fine (fun _ => True) (f x) ∧ (f x = Ok tt ↔ P x)) →
  fine (fun _ => True) (foldM (fun _ x => f x) tt l) ∧
  (foldM (fun _ x => f x) tt l = Ok tt ↔ ∀ x, x ∈ l → P x).
Proof.
  intros Hf. induction l as [|x l IH]; simpl.
  { split; [done|]. split; [by intros _ x ?%elem_of_nil|done]. }
  destruct (Hf x (list_elem_of_here _ _)) as [Hx1 Hx2].
  destruct IH as [IH1 IH2]; [intros; apply Hf; by right|].
  destruct (f x) as [[]|e|e]; simpl in *; [|split; [done|]|done].
  - split; [done|]. rewrite IH2. split.
    + intros H y [->|Hy]%elem_of_cons; [by apply Hx2|auto].
    + intros H y Hy. apply H. by right.
  - split; [done|]. intros H. exfalso. assert (P x) as Hp by (apply H; by left). by apply Hx2 in Hp.
Qed.

(** A dependency that counts as met for the history of [applied] *)
Definition met (l : Loader) (applied : gset Key) (p : Key) : Prop :=
  p ∈ applied ∨ all_applied (ld_Replacements l) applied p.

Lemma replaced_applied_spec l k applied :
  well_founded (nested (ld_Replacements l)) →
  ∃ b, replaced_applied l k applied = Ok b ∧ (b = true ↔ all_applied (ld_Replacements l) applied k).
Proof. intros Hwf. apply AllReplacedApplied_spec. apply nested_depth; [apply Hwf|lia]. Qed.

Lemma check_parents_spec l alias applied k :
  loader_wf l → well_founded (nested (ld_Replacements l)) →
  fine (fun _ => True) (check_parents l alias applied k) ∧
  (check_parents l alias applied k = Ok tt ↔ ∀ p, edge (ld_Graph l) p k → met l applied p).
Proof.
  intros [Hwf _ _ _] Hn. unfold check_parents.
  destruct (foldM_check (fun p =>
    if bool_decide (p ∈ applied) then Ok tt
    else
      r ← replaced_applied l p applied;
      if (r : bool) then Ok tt
      else Err (InconsistentMigrationHistory ("migration " +:+ key_App k +:+ "." +:+ key_Name k +:+
                  " is applied before its dependency " +:+ key_App p +:+ "." +:+ key_Name p +:+ " on database '" +:+
                  alias +:+ "'"))) (met l applied) (sortedNodes (parents (g_NodeMap (ld_Graph l)) k))) as [H1 H2].
  - intros p _. unfold met. case_bool_decide as Hp; [split; [done|]; tauto|].
    destruct (replaced_applied_spec l p applied Hn) as (b & -> & Hb). destruct b; simpl.
    + split; [done|]. split; [|done]. intros _. right. by apply Hb.
    + split; [done|]. split; [done|]. intros [?|Ha%Hb]; done.
  - split; [exact H1|]. unfold sortedNodes in H2 |- *. rewrite H2. destruct Hwf as [_ Hsym].
    split; intros H p Hp; apply H; [apply elem_of_SortKeys, elem_of_elements, Hsym|apply Hsym]; [exact Hp|].
    by apply elem_of_elements, elem_of_SortKeys.
Qed.

(** C37: CheckConsistentHistory accepts a history exactly when every recorded
    migration of the graph has each of its dependencies recorded too, or
    replaced by migrations that all are. Otherwise it reports an error; it
    never panics. No squashed migration of the loader replaces itself,
    directly or through others, as BuildGraph makes sure of when it
    replaces. *)
Theorem CheckConsistentHistory_correct l keys alias :
  loader_wf l → well_founded (nested (ld_Replacements l)) →
  fine (fun _ => True) (CheckConsistentHistory l keys alias) ∧
  (CheckConsistentHistory l keys alias = Ok tt ↔
     ∀ k p, k ∈ keys → Has (ld_Graph l) k = true → edge (ld_Graph l) p k → met l (list_to_set keys) p).
Proof.
  intros Hwf Hn. unfold CheckConsistentHistory.
  destruct (foldM_check (fun k =>
      if Has (ld_Graph l) k then check_parents l alias (list_to_set keys) k else Ok tt)
    (fun k => Has (ld_Graph l) k = true → ∀ p, edge (ld_Graph l) p k → met l (list_to_set keys) p) keys) as [H1 H2].
  - intros k _. destruct (Has (ld_Graph l) k); [|split; [done|]; split; done].
    destruct (check_parents_spec l alias (list_to_set keys) k Hwf Hn) as [Hf ->]. split; [done|]. tauto.
  - split; [exact H1|]. rewrite H2.
    split; [intros H k p Hk Hh; by apply (H k Hk Hh)|intros H k Hk Hh p; by apply H].
Qed.

(** GetMigrationByPrefix returns a migration exactly when it is the only
    one of the app whose name starts with the prefix. *)
Theorem GetMigrationByPrefix_unique l app prefix mig :
  GetMigrationByPrefix l app prefix = Ok mig ↔
  ∃ k, ld_DiskMigrations l !! k = Some mig ∧ key_App k = app ∧ HasPrefix (key_Name k) prefix = true ∧
    ∀ k', is_Some (ld_DiskMigrations l !! k') → key_App k' = app → HasPrefix (key_Name k') prefix = true → k' = k.
Proof.
  unfold GetMigrationByPrefix.
  set (P := fun p : Key * Migration => key_App p.1 = app ∧ HasPrefix (key_Name p.1) prefix = true).
  set (results := filter P _).
  assert (∀ k m, (k, m) ∈ results ↔ P (k, m) ∧ ld_DiskMigrations l !! k = Some m) as Hin.
  { intros k m. unfold results. rewrite list_elem_of_filter, elem_of_map_to_list. done. }
  assert (NoDup results.*1) as Hnd.
  { apply NoDup_fmap_fst; [|apply NoDup_filter, NoDup_map_to_list].
    intros k m1 m2 [_ H1]%Hin [_ H2]%Hin. congruence. }
  destruct results as [|[k m] results].
  - split; [done|]. intros (k & Hk & Ha & Hp & _). assert ((k, mig) ∈ []) as []%elem_of_nil by by apply Hin.
  - destruct (proj1 (Hin k m) (list_elem_of_here _ _)) as [[Ha Hp] Hk]. simpl in Ha, Hp.
    destruct results as [|[k' m'] results].
    + split.
      * intros [= <-]. exists k. split_and!; try done. intros k' [m' Hk'] Ha' Hp'.
        assert ((k', m') ∈ [(k, m)]) as H%list_elem_of_singleton by by apply Hin. congruence.
      * intros (k' & Hk' & Ha' & Hp' & _). assert ((k', mig) ∈ [(k, m)]) as H%list_elem_of_singleton by by apply Hin.
        congruence.
    + split; [done|]. intros (k0 & _ & _ & _ & Huniq).
      destruct (proj1 (Hin k' m') (list_elem_of_further _ _ _ (list_elem_of_here _ _))) as [[Ha' Hp'] Hk']. simpl in Ha', Hp'.
      exfalso. simpl in Hnd. apply NoDup_cons in Hnd as [Hnk _]. apply Hnk.
      rewrite (Huniq k), (Huniq k') by eauto. by left.
Qed.

Definition names_of (app : string) (leaves : list Key) : list string :=
  map key_Name (filter (fun k => key_App k = app) leaves).

Lemma names_of_snoc app l k :
  names_of app (l ++ [k]) = names_of app l ++ (if decide (key_App k = app) then [key_Name k] else []).
Proof.
  unfold names_of. rewrite filter_app, map_app. f_equal. case_decide as Hk.
  - by rewrite filter_cons_True.
  - by rewrite filter_cons_False.
Qed.

Lemma see_leaves_spec leaves :
  let '(seen, conflicting) := fold_left see_leaf leaves (∅, ∅) in
  ∀ app, seen !! app = match names_of app leaves with [] => None | ns => Some ns end ∧
         (app ∈ conflicting ↔ 1 < length (names_of app leaves)).
Proof.
  induction leaves as [|k leaves IH] using rev_ind; simpl.
  { intros app. rewrite lookup_empty. split; [done|]. unfold names_of. simpl. split; [set_solver|lia]. }
  rewrite fold_left_app. simpl. destruct (fold_left see_leaf leaves (∅, ∅)) as [seen conflicting]. simpl.
  intros app. destruct (IH app) as [Hs Hc]. rewrite names_of_snoc, length_app. case_decide as Hk.
  - subst app. rewrite lookup_insert_eq, Hs. destruct (names_of (key_App k) leaves) as [|n ns]; simpl.
    + split; [done|]. rewrite Hc. simpl. lia.
    + split; [done|]. rewrite elem_of_union, elem_of_singleton. split; [lia|by left].
  - rewrite lookup_insert_ne, app_nil_r by done. split; [done|]. simpl. rewrite Nat.add_0_r, <- Hc.
    destruct (seen !! key_App k); [|done]. rewrite elem_of_union, elem_of_singleton. split; [|by right].
    by intros [->|?].
Qed.

(** A leaf: a migration no other migration of its app depends on *)
Definition leaf (l : Loader) (k : Key) : Prop :=
  is_Some (g_Nodes (ld_Graph l) !! k) ∧ ∀ c, edge (ld_Graph l) k c → key_App c ≠ key_App k.

(** DetectConflicts reports exactly the apps with more than one leaf,
    each with the names of its leaves, all of them, once, in order. *)
Theorem DetectConflicts_correct l :
  loader_wf l →
  ∃ conflicts, DetectConflicts l = Ok conflicts ∧
    ∀ app, match conflicts !! app with
           | Some names => 1 < length names ∧ NoDup names ∧ Sorted str_le names ∧
               ∀ name, name ∈ names ↔ leaf l (mkKey app name)
           | None => ∀ name1 name2, leaf l (mkKey app name1) → leaf l (mkKey app name2) → name1 = name2
           end.
Proof.
  intros [Hwf _ _ _]. unfold DetectConflicts. destruct (LeafNodes_spec (ld_Graph l) "" Hwf) as (leaves & -> & Hnd & Hin).
  cbn [mbind outcome_bind]. pose proof (see_leaves_spec leaves) as Hs.
  destruct (fold_left see_leaf leaves (∅, ∅)) as [seen conflicting]. eexists. split; [done|]. intros app.
  assert (∀ name, name ∈ names_of app leaves ↔ leaf l (mkKey app name)) as Hnames.
  { intros name. unfold names_of, leaf. rewrite list_elem_of_fmap. setoid_rewrite list_elem_of_filter. setoid_rewrite Hin.
    split.
    - intros (k & -> & <- & Hk & _ & He). destruct k. done.
    - intros [Hk He]. exists (mkKey app name). split_and!; try done. by left. }
  assert (NoDup (names_of app leaves)) as Hndn.
  { unfold names_of. apply NoDup_fmap_2_strong; [|by apply NoDup_filter].
    intros [a1 n1] [a2 n2] [H1 _]%list_elem_of_filter [H2 _]%list_elem_of_filter. simpl in *. by intros ->; subst. }
  destruct (Hs app) as [Hseen Hconf].
  assert (set_to_map (fun app => (app, sort_strings (default [] (seen !! app)))) conflicting !! app =
    (if decide (app ∈ conflicting) then Some (sort_strings (default [] (seen !! app))) else None
     : option (list string))) as ->.
  { case_decide as Ha.
    - apply lookup_set_to_map; [by intros x y _ _ [=]|]. by exists app.
    - apply eq_None_not_Some. intros [ns Hn]. apply lookup_set_to_map in Hn as (x & Hx & [= <- _]); [done|].
      by intros ? ? _ _ [=]. }
  case_decide as Ha.
  - rewrite Hseen. apply Hconf in Ha. destruct (names_of app leaves) as [|n ns] eqn:Hns; [simpl in Ha; lia|].
    simpl. split_and!.
    + by rewrite (Permutation_length (sort_strings_perm _)).
    + by rewrite sort_strings_perm.
    + apply Sorted_merge_sort. apply _.
    + intros name. by rewrite sort_strings_perm.
  - intros n1 n2 H1%Hnames H2%Hnames. rewrite Hconf in Ha.
    destruct (names_of app leaves) as [|a [|b ns]]; [by apply elem_of_nil in H1| |simpl in Ha; lia].
    apply list_elem_of_singleton in H1, H2. congruence.
Qed.

(** ** The disk *)

Lemma registered_names_spec registered name :
  is_Some (registered_names registered !! name) ↔ ∃ mig, mig ∈ registered ∧ mig_Name mig = name.
Proof.
  unfold registered_names. induction registered as [|mig l IH] using rev_ind; simpl.
  { rewrite lookup_empty. split; [by intros [? ?]|]. by intros (m & ?%elem_of_nil & _). }
  rewrite fold_left_app. simpl. rewrite lookup_insert_is_Some, IH.
  setoid_rewrite elem_of_app. setoid_rewrite list_elem_of_singleton.
  destruct (decide (mig_Name mig = name)); naive_solver.
Qed.

Lemma missing_files_nil files reg :
  missing_files files reg = [] ↔ ∀ name, is_Some (files !! name) → is_Some (reg !! name).
Proof.
  assert (∀ x, x ∈ missing_files files reg ↔ ∃ name, files !! name = Some x ∧ reg !! name = None) as Hin.
  { intros x. unfold missing_files. rewrite list_elem_of_omap. split.
    - intros ([name file] & Hp%elem_of_map_to_list & Hx). simpl in Hx. exists name.
      destruct (reg !! name) eqn:Hr; [done|]. split; [congruence|done].
    - intros (name & Hf & Hr). exists (name, x). simpl. rewrite Hr. split; [by apply elem_of_map_to_list|done]. }
  split.
  - intros H name [file Hf]. destruct (reg !! name) eqn:Hr; [eauto|]. exfalso.
    assert (file ∈ missing_files files reg) as Hx by (apply Hin; eauto). rewrite H in Hx. by apply elem_of_nil in Hx.
  - intros H. destruct (missing_files files reg) as [|x l]; [done|]. exfalso.
    destruct (proj1 (Hin x) (list_elem_of_here _ _)) as (name & Hf & Hr).
    destruct (H name) as [m Hm]; [eauto|]. congruence.
Qed.

(** A migration and its file agree. *)
Definition file_matches (files : gmap string string) (name : string) (mig : Migration) : Prop :=
  ∀ file, files !! name = Some file → mig_File mig = "" ∨ Base (mig_File mig) = Base file.

Lemma check_registered_spec app files acc name mig :
  match check_registered app files acc (name, mig) with
  | Ok extra => file_matches files name mig ∧ (extra = [] ↔ acc = [] ∧ is_Some (files !! name))
  | Err _ => ¬ file_matches files name mig
  | Panic _ => False
  end.
Proof.
  unfold check_registered, file_matches. simpl. destruct (files !! name) as [file|] eqn:Hf.
  - destruct (decide (mig_File mig = "")) as [He|He]; [rewrite bool_decide_eq_true_2 by done|rewrite bool_decide_eq_false_2 by done];
      simpl; [split; [by left|naive_solver]|].
    destruct (decide (Base (mig_File mig) = Base file)) as [Hb|Hb];
      [rewrite bool_decide_eq_true_2 by done|rewrite bool_decide_eq_false_2 by done]; simpl.
    + split; [intros ? [= <-]; by right|naive_solver].
    + intros H. by destruct (H file eq_refl).
  - split; [done|]. split; [by intros [_ ?]%app_eq_nil|]. by intros [_ [? ?]].
Qed.

Lemma check_registered_loop app files l acc :
  match foldM (check_registered app files) acc l with
  | Ok extra => (∀ name mig, (name, mig) ∈ l → file_matches files name mig) ∧
                (extra = [] ↔ acc = [] ∧ ∀ name mig, (name, mig) ∈ l → is_Some (files !! name))
  | Err _ => ¬ ∀ name mig, (name, mig) ∈ l → file_matches files name mig
  | Panic _ => False
  end.
Proof.
  revert acc. induction l as [|[name mig] l IH]; intros acc; simpl.
  { split; [by intros ? ? ?%elem_of_nil|]. split; [|by intros []]. intros ->. split; [done|]. by intros ? ? ?%elem_of_nil. }
  pose proof (check_registered_spec app files acc name mig) as Hone.
  destruct (check_registered app files acc (name, mig)) as [acc1|e|e]; [|intros H; apply Hone, H; by left|done].
  destruct Hone as [Hm Hacc]. specialize (IH acc1).
  destruct (foldM _ acc1 l) as [extra|e|e]; [|intros H; apply IH; intros n m Hin; apply H; by right|done].
  destruct IH as [IH1 IH2]. split.
  - intros n m [[= -> ->]|Hin]%elem_of_cons; [done|by apply IH1].
  - rewrite IH2, Hacc. split.
    + intros [[H1 H2] H3]. split; [done|]. intros n m [[= -> ->]|Hin]%elem_of_cons; [done|by eapply H3].
    + intros [H1 H2]. split; [split; [done|]; eapply H2; by left|]. intros n m Hin. eapply H2. by right.
Qed.

(** a stale binary is refused. checkDisk passes exactly when the
    migrations compiled in and the files on disk have the same names, and no
    migration says it is from another file. *)
Theorem checkDisk_correct app files registered :
  checkDisk app files registered = Ok tt ↔
  (∀ name, is_Some (files !! name) ↔ ∃ mig, mig ∈ registered ∧ mig_Name mig = name) ∧
  ∀ name mig, registered_names registered !! name = Some mig → file_matches files name mig.
Proof.
  setoid_rewrite <- registered_names_spec. unfold checkDisk. cbv zeta. set (reg := registered_names registered).
  pose proof (missing_files_nil files reg) as Hmiss.
  pose proof (check_registered_loop app files (map_to_list reg) []) as Hloop.
  destruct (foldM _ [] (map_to_list reg)) as [extra|e|e]; cbn [mbind outcome_bind]; [|split; [done|]|done].
  - destruct Hloop as [Hmatch Hextra]. setoid_rewrite elem_of_map_to_list in Hmatch.
    setoid_rewrite elem_of_map_to_list in Hextra. split.
    + case_bool_decide as H1; [|done]. case_bool_decide as H2; [|done]. intros _. split; [|done]. intros name.
      split; [by apply Hmiss|]. intros [mig Hr]. by eapply Hextra.
    + intros [Hiff _]. rewrite !bool_decide_eq_true_2; [done| |].
      * apply Hextra. split; [done|]. intros name mig Hr. apply Hiff. eauto.
      * apply Hmiss. intros name. apply Hiff.
  - intros [_ H]. exfalso. apply Hloop. intros name mig Hin%elem_of_map_to_list. by apply H.
Qed.

(** An app whose migrations are loaded *)
Definition active (cfg : Config) (app : AppSpec) : Prop :=
  app_Disabled app = false ∧ cfg_Compiled cfg (app_Label app) = true.

Lemma Migration_Clone_id m : Migration_Clone m = m.
Proof. unfold Migration_Clone. rewrite !map_id. by destruct m. Qed.

Lemma load_migrations_spec app registered ms ms' :
  foldM (load_migration app) ms registered = Ok ms' →
  (∀ mig, mig ∈ registered → mig_App mig = app ∧ is_Some (ms' !! Migration_Key mig)) ∧
  (∀ k, is_Some (ms !! k) → is_Some (ms' !! k)) ∧
  ∀ k mig, ms' !! k = Some mig → ms !! k = Some mig ∨ (mig ∈ registered ∧ Migration_Key mig = k).
Proof.
  revert ms. induction registered as [|mig l IH]; intros ms H; simpl in H.
  { injection H as <-. split_and!; [by intros ? ?%elem_of_nil|done|by left]. }
  unfold load_migration at 1 in H. case_bool_decide as Happ; simpl in H; [|done].
  rewrite Migration_Clone_id in H. destruct (IH _ H) as (H1 & H2 & H3). split_and!.
  - intros m [->|Hm]%elem_of_cons; [|by apply H1]. split; [done|]. apply H2. rewrite lookup_insert_eq. eauto.
  - intros k Hk. apply H2. rewrite lookup_insert_is_Some. destruct (decide (Migration_Key mig = k)); eauto.
  - intros k m Hm. destruct (H3 k m Hm) as [Hi|[? ?]]; [|by right; split; [right|]].
    apply lookup_insert_Some in Hi as [[<- <-]|[_ ?]]; [right; split; [by left|done]|by left].
Qed.

Lemma load_app_spec cfg d app d' :
  load_app cfg d app = Ok d' →
  (active cfg app ∧ dk_unmigrated d' = dk_unmigrated d ∧ dk_migrated d' = {[app_Label app]} ∪ dk_migrated d ∧
   foldM (load_migration (app_Label app)) (dk_migrations d) (cfg_Registered cfg (app_Label app)) = Ok (dk_migrations d')) ∨
  (¬ active cfg app ∧ dk_unmigrated d' = <[app_Label app := true]> (dk_unmigrated d) ∧
   dk_migrated d' = dk_migrated d ∧ dk_migrations d' = dk_migrations d).
Proof.
  unfold load_app, active. cbv zeta. destruct (app_Disabled app); [intros [= <-]; right; naive_solver|].
  intros ([files dirExists] & _ & H)%bind_Ok. destruct (cfg_Compiled cfg (app_Label app)); simpl in H.
  - left. apply bind_Ok in H as (ms & Hms & H). apply bind_Ok in H as (_ & _ & H). injection H as <-. done.
  - right. destruct (negb _ && negb _); [done|]. injection H as <-. naive_solver.
Qed.

Lemma loadDisk_spec cfg d :
  loadDisk cfg = Ok d →
  (∀ label, label ∈ dk_migrated d ↔ ∃ app, app ∈ cfg_Apps cfg ∧ active cfg app ∧ app_Label app = label) ∧
  (∀ label, is_Some (dk_unmigrated d !! label) ↔ ∃ app, app ∈ cfg_Apps cfg ∧ ¬ active cfg app ∧ app_Label app = label) ∧
  (∀ app mig, app ∈ cfg_Apps cfg → active cfg app → mig ∈ cfg_Registered cfg (app_Label app) →
     mig_App mig = app_Label app ∧ is_Some (dk_migrations d !! Migration_Key mig)) ∧
  ∀ k mig, dk_migrations d !! k = Some mig →
    Migration_Key mig = k ∧ ∃ app, app ∈ cfg_Apps cfg ∧ active cfg app ∧ mig ∈ cfg_Registered cfg (app_Label app).
Proof.
  unfold loadDisk. revert d. generalize (cfg_Apps cfg) as apps. intros apps.
  induction apps as [|app apps IH] using rev_ind; intros d.
  { intros [= <-]. simpl. setoid_rewrite lookup_empty. setoid_rewrite elem_of_nil. split_and!; set_solver. }
  intros (d0 & H0 & H1)%foldM_snoc. destruct (IH d0 H0) as (Hm & Hu & Hall & Hkey). clear IH H0.
  setoid_rewrite elem_of_app. setoid_rewrite list_elem_of_singleton.
  destruct (load_app_spec _ _ _ _ H1) as [(Hact & -> & -> & Hload)|(Hact & -> & -> & ->)].
  - destruct (load_migrations_spec _ _ _ _ Hload) as (L1 & L2 & L3). split_and!.
    + intros label. rewrite elem_of_union, elem_of_singleton, Hm. naive_solver.
    + intros label. rewrite Hu. naive_solver.
    + intros app' mig [Hin| ->] Ha Hmig; [|by apply L1]. destruct (Hall app' mig Hin Ha Hmig) as [? ?]. split; [done|].
      by apply L2.
    + intros k mig [Hk|[Hin Hk]]%L3; [|naive_solver]. destruct (Hkey k mig Hk) as (? & app' & ? & ? & ?). naive_solver.
  - split_and!.
    + intros label. rewrite Hm. naive_solver.
    + intros label. rewrite lookup_insert_is_Some, Hu. destruct (decide (app_Label app = label)); naive_solver.
    + intros app' mig [Hin| ->] Ha Hmig; [by eapply Hall|done].
    + intros k mig Hk. destruct (Hkey k mig Hk) as (? & app' & ? & ? & ?). naive_solver.
Qed.

(** LoadDisk splits the apps into those whose migrations are loaded and
    those without any, and loads of the former every registered migration,
    under its own key, and nothing else. *)
Theorem loadDisk_correct cfg d :
  loadDisk cfg = Ok d →
  (∀ label, label ∈ dk_migrated d ↔ ∃ app, app ∈ cfg_Apps cfg ∧ active cfg app ∧ app_Label app = label) ∧
  (∀ label, is_Some (dk_unmigrated d !! label) ↔ ∃ app, app ∈ cfg_Apps cfg ∧ ¬ active cfg app ∧ app_Label app = label) ∧
  (∀ app mig, app ∈ cfg_Apps cfg → active cfg app → mig ∈ cfg_Registered cfg (app_Label app) →
     mig_App mig = app_Label app ∧ is_Some (dk_migrations d !! Migration_Key mig)) ∧
  ∀ k mig, dk_migrations d !! k = Some mig →
    Migration_Key mig = k ∧ ∃ app, app ∈ cfg_Apps cfg ∧ active cfg app ∧ mig ∈ cfg_Registered cfg (app_Label app).
Proof. apply loadDisk_spec. Qed.
