(* ===== verification/Executor.v ===== *)
(** * The executor: internal/executor/executor.go

    Plans, and what runs them. An executor's state is its recorder with the
    world behind it, its loader, and the one field of its configuration it
    changes. A project state is passed as a pointer, None for nil. *)

From S2P Require Import Prelude GoStd Keys Errors Fields Index ModelState Apps ProjectState Operation SchemaEditor.
From S2P Require Import OpDatabase Migration Graph Filename Loader Effects Recorder.

(** Event *)
Inductive Event := RenderStart | RenderSuccess | ApplyStart | ApplySuccess | UnapplyStart | UnapplySuccess.

(** Event.String *)
Definition Event_String (e : Event) : string :=
  match e with
  | RenderStart => "render start"
  | RenderSuccess => "render success"
  | ApplyStart => "apply start"
  | ApplySuccess => "apply success"
  | UnapplyStart => "unapply start"
  | UnapplySuccess => "unapply success"
  end.

(** Executor, without what it never changes *)
Record Executor (W : Type) := mkExecutor {
  ex_Recorder : Recorder W;
  ex_Loader : Loader;
  ex_ReplaceMigrations : bool;
}.
Arguments mkExecutor {W}.
Arguments ex_Recorder {W}.
Arguments ex_Loader {W}.
Arguments ex_ReplaceMigrations {W}.

Section state.
Context {W : Type}.
Definition ex_set_Recorder (r : Recorder W) (e : Executor W) : Executor W :=
  mkExecutor r (ex_Loader e) (ex_ReplaceMigrations e).
Definition ex_set_Loader (l : Loader) (e : Executor W) : Executor W :=
  mkExecutor (ex_Recorder e) l (ex_ReplaceMigrations e).
Definition ex_set_ReplaceMigrations (b : bool) (e : Executor W) : Executor W :=
  mkExecutor (ex_Recorder e) (ex_Loader e) b.

(** What the recorder does, and what its connection does *)
Definition on_recorder {A} (m : io (Recorder W) A) : io (Executor W) A := zoom ex_Recorder ex_set_Recorder m.
Definition on_world {A} (m : io W A) : io (Executor W) A := on_recorder (on_conn m).
End state.

(** ** Plans *)

(** Target is Key. A plan so far, with the migrations that count as applied
    once it has run *)
Definition planned : Type := list PlanStep * gset Key.

(** A step for a migration of the graph. A graph a loader built holds no nil
    migration; the panic stands for the first use of one. *)
Definition plan_step (g : Graph) (k : Key) (backwards : bool) : outcome PlanStep :=
  match g_Nodes g !! k with
  | Some (Some mig) => Ok (mkPlanStep mig backwards)
  | _ => Panic nil_dereference
  end.

Definition plan_unapply (g : Graph) (acc : planned) (k : Key) : outcome planned :=
  if bool_decide (k ∈ acc.2) then s ← plan_step g k true; Ok (acc.1 ++ [s], acc.2 ∖ {[k]}) else Ok acc.

Definition plan_apply (g : Graph) (acc : planned) (k : Key) : outcome planned :=
  if bool_decide (k ∈ acc.2) then Ok acc else s ← plan_step g k false; Ok (acc.1 ++ [s], {[k]} ∪ acc.2).

Definition unapply_from (g : Graph) (acc : planned) (root : Key) : outcome planned :=
  bp ← settle (BackwardsPlan g root); foldM (plan_unapply g) acc bp.

(** The body of the loop of MigrationPlan; None when a migration a squash
    has replaced is targeted. *)
Definition plan_target (g : Graph) (replace : bool) (acc : planned) (target : Key) : outcome (option planned) :=
  if bool_decide (key_Name target = "") then
    roots ← RootNodes g "";
    Some <$> foldM (unapply_from g) acc (filter (fun root => key_App root = key_App target) roots)
  else if replace && negb (bool_decide (is_Some (g_NodeMap g !! target))) then Ok None
  else if bool_decide (target ∈ acc.2) then
    n ← node g target;
    Some <$> foldM (unapply_from g) acc
      (SortKeys (filter (fun c => key_App c = key_App target) (elements (n_Children n))))
  else
    fp ← settle (ForwardsPlan g target);
    Some <$> foldM (plan_apply g) acc fp.

Fixpoint plan_targets (g : Graph) (replace : bool) (acc : planned) (targets : list Key) : outcome (option planned) :=
  match targets with
  | [] => Ok (Some acc)
  | target :: rest =>
      r ← plan_target g replace acc target;
      match r with
      | Some acc' => plan_targets g replace acc' rest
      | None => Ok None
      end
  end.

(** The application of a list of steps to a state *)
Definition replay_applied (applied : gset Key) (st : ProjectState) (full : list PlanStep) : outcome ProjectState :=
  foldM (fun st s => if bool_decide (Migration_Key (pst_Migration s) ∈ applied)
                     then MutateState (pst_Migration s) st false else Ok st) st full.

(** MigrateOptions; [mo_Plan] and [mo_State] are None for nil. *)
Record MigrateOptions := mkMigrateOptions {
  mo_Targets : list Key;
  mo_Plan : option (list PlanStep);
  mo_State : option ProjectState;
  mo_Fake : bool;
  mo_FakeInitial : bool;
}.

Definition plan_keys (plan : list PlanStep) : list Key := map (fun s => Migration_Key (pst_Migration s)) plan.

Definition not_supported (plan : list PlanStep) : error :=
  InvalidMigrationPlan ("migration plans with both forwards and backwards migrations are not supported. Please split "
    +:+ "your migration process into separate plans of only forwards OR backwards migrations")
    (map (fun s => (Migration_Key (pst_Migration s), pst_Backwards s)) plan).

(** The part of the full plan that starts with a migration *)
Fixpoint from_key (k : Key) (full : list PlanStep) : list PlanStep :=
  match full with
  | [] => []
  | s :: rest => if bool_decide (Migration_Key (pst_Migration s) = k) then full else from_key k rest
  end.

(** Recording a migration records those it replaces first. *)
Fixpoint record_migration {W} `{Conn W} (fuel : nat) (d : gmap Key Migration) (forward : bool) (k : Key)
    : io (Recorder W) unit :=
  match fuel with
  | 0 => lift (Panic out_of_fuel)
  | S fuel =>
      _ ← match d !! k with
          | Some mig => for_io (mig_Replaces mig) (record_migration fuel d forward)
          | None => mret tt
          end;
      if forward then RecordApplied (key_App k) (key_Name k) else RecordUnapplied (key_App k) (key_Name k)
  end.

Definition record_fuel (l : Loader) : nat := 2 + size (ld_Replacements l).

Section executor.
Context {W : Type} `{Conn W}.
Context (cfg : Config) (RealModels : list ModelState) (FormatOperation : Operation → string).
(** The Progress callback *)
Context (Progress : Event → option Migration → bool → W → W).

Definition progress (ev : Event) (mig : option Migration) (fake : bool) : io (Executor W) unit :=
  on_world (modify (Progress ev mig fake)).

(** loader.New with the executor's recorder *)
Definition new_loader (replace : bool) : io (Recorder W) Loader :=
  BuildGraph (cfg_set_ReplaceMigrations replace cfg) (Some AppliedMigrations).

(** executor.New *)
Definition Executor_New (w : W) : W * outcome (Executor W) :=
  match new_loader (cfg_ReplaceMigrations cfg) (mkRecorder w false) with
  | (r, Ok l) => (rc_world r, Ok (mkExecutor r l (cfg_ReplaceMigrations cfg)))
  | (r, Err e) => (rc_world r, Err e)
  | (r, Panic e) => (rc_world r, Panic e)
  end.

(** Executor.MigrationPlan. It starts over once at most, after it has turned
    ReplaceMigrations off. *)
Fixpoint migration_plan (fuel : nat) (targets : list Key) (cleanStart : bool) : io (Executor W) (list PlanStep) :=
  match fuel with
  | 0 => lift (Panic out_of_fuel)
  | S fuel =>
      e ← get_state;
      r ← lift (plan_targets (ld_Graph (ex_Loader e)) (ex_ReplaceMigrations e)
                  ([], if cleanStart then ∅ else ld_Applied (ex_Loader e)) targets);
      match r with
      | Some acc => mret acc.1
      | None =>
          _ ← modify (ex_set_ReplaceMigrations false);
          l ← on_recorder (new_loader false);
          _ ← modify (ex_set_Loader l);
          migration_plan fuel targets cleanStart
      end
  end.
Definition MigrationPlan : list Key → bool → io (Executor W) (list PlanStep) := migration_plan 2.

(** The plan of the whole graph *)
Definition full_plan : io (Executor W) (list PlanStep) :=
  e ← get_state;
  leaves ← lift (LeafNodes (ld_Graph (ex_Loader e)) "");
  MigrationPlan leaves true.

(** Executor.newState *)
Definition newState (l : Loader) : ProjectState :=
  ps_set_RealModels RealModels (ps_set_RealApps (ld_UnmigratedApps l) NewProjectState).

(** Executor.CreateProjectState *)
Definition CreateProjectState (withApplied : bool) : io (Executor W) ProjectState :=
  e ← get_state;
  let st := newState (ex_Loader e) in
  if negb withApplied then mret st
  else
    full ← full_plan;
    e ← get_state;
    lift (replay_applied (ld_Applied (ex_Loader e)) st full).

(** Executor.RecordMigration *)
Definition RecordMigration (app name : string) (forward : bool) : io (Executor W) unit :=
  e ← get_state;
  on_recorder (record_migration (record_fuel (ex_Loader e)) (ld_DiskMigrations (ex_Loader e)) forward (mkKey app name)).

(** ** Soft-applied migrations *)

(** The function norm of DetectSoftApplied *)
Definition norm (s : string) : string := if IgnoresTableNameCase then ToLower s else s.

Definition skip (mig : Migration) (model : Model) : bool :=
  negb (Managed model) || negb (conn_AllowMigrate (mig_App mig) (mkHints (Some model) (ToLower (m_Name model)) ∅)).

(** The loop over the operations: None when something is not there, and
    otherwise whether anything was looked for and found *)
Fixpoint detect_operations (mig : Migration) (apps : Apps) (existing : list string) (found : bool)
    (ops : list Operation) : io W (option bool) :=
  match ops with
  | [] => mret (Some found)
  | CreateModel Name _ _ _ :: rest =>
      model ← lift (GetModel apps (mig_App mig) Name);
      if skip mig model then detect_operations mig apps existing found rest
      else if bool_decide (norm (IdentifierConverter (m_Table model)) ∈ existing)
      then detect_operations mig apps existing true rest
      else mret None
  | AddField ModelName Name _ _ :: rest =>
      model ← lift (GetModel apps (mig_App mig) ModelName);
      if skip mig model then detect_operations mig apps existing found rest
      else
        cols ← TableDescription (m_Table model);
        if bool_decide (norm (IdentifierConverter Name) ∈ map norm cols)
        then detect_operations mig apps existing true rest
        else mret None
  | _ :: rest => detect_operations mig apps existing found rest
  end.

(** The check at the start of DetectSoftApplied *)
Definition may_be_soft_applied (mig : Migration) : bool :=
  match mig_Initial mig with
  | None => forallb (fun d => negb (bool_decide (key_App d = mig_App mig))) (mig_Dependencies mig)
  | Some initial => initial
  end.

(** Executor.DetectSoftApplied *)
Definition DetectSoftApplied (state : option ProjectState) (mig : Migration)
    : io (Executor W) (bool * option ProjectState) :=
  if negb (may_be_soft_applied mig) then mret (false, state)
  else
    e ← get_state;
    after ← lift (match state with
                  | None => Loader_ProjectState (ex_Loader e) (Some [Migration_Key mig]) true RealModels
                  | Some s => MutateState mig s true
                  end);
    r ← lift (ps_Apps after);
    tables ← on_world TableNames;
    found ← on_world (detect_operations mig r.1 (map norm tables) false (mig_Operations mig));
    mret match found with
         | None => (false, state)
         | Some found => (found, Some r.2)
         end.

(** ** Running a migration *)

(** Migration.Apply and Migration.Unapply on a state that may be nil: the
    first operation dereferences it. *)
Definition Apply_pointer (ed : SchemaEditor W) (mig : Migration) (state : option ProjectState)
    : io W (option ProjectState) :=
  match state with
  | Some s => s' ← @Apply W ed mig s; mret (Some s')
  | None => if bool_decide (length (mig_Operations mig) = 0) then mret None else lift (Panic nil_dereference)
  end.

Definition Unapply_pointer (ed : SchemaEditor W) (mig : Migration) (state : option ProjectState)
    : io W (option ProjectState) :=
  match state with
  | Some s => s' ← @Unapply W ed FormatOperation mig s; mret (Some s')
  | None =>
      match mig_Operations mig with
      | [] => mret None
      | op :: _ =>
          if Reversible op then lift (Panic nil_dereference)
          else lift (Err (IrreversibleError ("operation " +:+ FormatOperation op +:+ " in " +:+ Migration_String mig +:+
                            " is not reversible")))
      end
  end.

(** The part of ApplyMigration between Begin and Finish: the state, whether
    the migration has been recorded, and the error. *)
Definition apply_in_editor (ed : MigrationEditor W) (state : option ProjectState) (mig : Migration)
    : io (Executor W) (option ProjectState * bool * option error) :=
  b ← attempt (on_world (med_Begin ed));
  match b with
  | inr e => mret (state, false, Some e)
  | inl _ =>
      r ← attempt (on_world (Apply_pointer (med_Editor ed) mig state));
      match r with
      | inr e => mret (None, false, Some e)
      | inl state' =>
          e ← get_state;
          if bool_decide (med_Deferred ed (rc_world (ex_Recorder e)) = 0) then
            r ← attempt (RecordMigration (mig_App mig) (mig_Name mig) true);
            mret (state', negb (bool_decide (is_Some (error_of r))), error_of r)
          else mret (state', false, None)
      end
  end.

Definition run_forwards (state : option ProjectState) (mig : Migration) : io (Executor W) (option ProjectState * bool) :=
  ed ← on_world (new_editor false (IsAtomic mig));
  r ← apply_in_editor ed state mig;
  _ ← on_world (med_Finish ed r.2);
  mret r.1.

(** Executor.ApplyMigration *)
Definition ApplyMigration (state : option ProjectState) (mig : Migration) (fake fakeInitial : bool)
    : io (Executor W) (option ProjectState) :=
  _ ← progress ApplyStart (Some mig) fake;
  soft ← (if negb fake && fakeInitial then DetectSoftApplied state mig else mret (fake, state));
  let fake := soft.1 in
  r ← (if fake then mret (soft.2, false) else run_forwards soft.2 mig);
  _ ← (if (r.2 : bool) then mret tt else RecordMigration (mig_App mig) (mig_Name mig) true);
  _ ← progress ApplySuccess (Some mig) fake;
  mret r.1.

(** Executor.UnapplyMigration *)
Definition run_backwards (state : option ProjectState) (mig : Migration) : io (Executor W) (option ProjectState) :=
  ed ← on_world (new_editor false (IsAtomic mig));
  b ← attempt (on_world (med_Begin ed));
  match b with
  | inr e => _ ← on_world (med_Finish ed (Some e)); mret state
  | inl _ =>
      r ← attempt (on_world (Unapply_pointer (med_Editor ed) mig state));
      _ ← on_world (med_Finish ed (error_of r));
      mret match r with inl state' => state' | inr _ => None end
  end.

Definition UnapplyMigration (state : option ProjectState) (mig : Migration) (fake : bool)
    : io (Executor W) (option ProjectState) :=
  _ ← progress UnapplyStart (Some mig) fake;
  state ← (if fake then mret state else run_backwards state mig);
  _ ← RecordMigration (mig_App mig) (mig_Name mig) false;
  _ ← progress UnapplySuccess (Some mig) fake;
  mret state.

(** ** Running a plan *)

(** The rendering before the first migration *)
Definition render (rendered : bool) (state : option ProjectState) : io (Executor W) (option ProjectState) :=
  if rendered then mret state
  else
    _ ← progress RenderStart None false;
    s ← lift (deref state);
    r ← lift (ps_Apps s);
    _ ← progress RenderSuccess None false;
    mret (Some r.2).

(** Executor.migrateAllForwards *)
Fixpoint forwards_loop (toRun : gset Key) (rendered fake fakeInitial : bool) (state : option ProjectState)
    (full : list PlanStep) : io (Executor W) (option ProjectState) :=
  match full with
  | [] => mret state
  | s :: rest =>
      if bool_decide (toRun = ∅) then mret state
      else if bool_decide (Migration_Key (pst_Migration s) ∈ toRun) then
        state ← render rendered state;
        state ← ApplyMigration state (pst_Migration s) fake fakeInitial;
        forwards_loop (toRun ∖ {[Migration_Key (pst_Migration s)]}) true fake fakeInitial state rest
      else forwards_loop toRun rendered fake fakeInitial state rest
  end.

Definition migrateAllForwards (state : ProjectState) (plan full : list PlanStep) (fake fakeInitial : bool)
    : io (Executor W) (option ProjectState) :=
  forwards_loop (list_to_set (plan_keys plan)) (Rendered state) fake fakeInitial (Some state) full.

(** The first loop of migrateAllBackwards: the state before each migration
    that is to be unapplied *)
Fixpoint states_before (toRun applied : gset Key) (state : ProjectState) (states : gmap Key ProjectState)
    (full : list PlanStep) : outcome (gmap Key ProjectState) :=
  match full with
  | [] => Ok states
  | s :: rest =>
      let k := Migration_Key (pst_Migration s) in
      if bool_decide (toRun = ∅) then Ok states
      else if bool_decide (k ∈ toRun) then
        r ← ps_Apps state;
        state' ← MutateState (pst_Migration s) r.2 true;
        states_before (toRun ∖ {[k]}) applied state' (<[k := r.2]> states) rest
      else if bool_decide (k ∈ applied) then
        state' ← MutateState (pst_Migration s) state false;
        states_before toRun applied state' states rest
      else states_before toRun applied state states rest
  end.

(** The applied migrations of the graph *)
Definition applied_in (l : Loader) : gset Key :=
  filter (fun k => match g_Nodes (ld_Graph l) !! k with Some (Some _) => true | _ => false end = true) (ld_Applied l).

(** Executor.migrateAllBackwards *)
Definition migrateAllBackwards (plan full : list PlanStep) (fake : bool) : io (Executor W) (option ProjectState) :=
  e ← get_state;
  let applied := applied_in (ex_Loader e) in
  _ ← progress RenderStart None false;
  states ← lift (states_before (list_to_set (plan_keys plan)) applied (newState (ex_Loader e)) ∅ full);
  _ ← progress RenderSuccess None false;
  _ ← for_io plan (fun s =>
        _ ← UnapplyMigration (states !! Migration_Key (pst_Migration s)) (pst_Migration s) fake; mret tt);
  lastStep ← lift (match last plan with Some s => Ok s | None => Panic index_out_of_range end);
  let k := Migration_Key (pst_Migration lastStep) in
  before ← lift (deref (states !! k));
  state ← lift (replay_applied (applied ∖ list_to_set (plan_keys plan)) (Clone before) (from_key k full));
  mret (Some state).

(** Executor.CheckReplacements *)
Definition check_replacement (l : Loader) (applied : gset Key) (k : Key) : io (Recorder W) unit :=
  if bool_decide (k ∈ applied) then mret tt
  else
    r ← lift (replaced_applied l k applied);
    if (r : bool) then RecordApplied (key_App k) (key_Name k) else mret tt.

Definition CheckReplacements : io (Executor W) unit :=
  e ← get_state;
  keys ← on_recorder AppliedMigrations;
  on_recorder (for_io (sorted_keys (ld_Replacements (ex_Loader e)))
    (check_replacement (ex_Loader e) (list_to_set keys))).

(** Executor.MigrateTo, once there is a plan *)
Definition run_plan (opts : MigrateOptions) (plan full : list PlanStep) : io (Executor W) (option ProjectState) :=
  let allForwards := forallb (fun s => negb (pst_Backwards s)) plan in
  let allBackwards := forallb pst_Backwards plan in
  let initial := match mo_State opts with Some s => mret s | None => CreateProjectState true end in
  if bool_decide (length plan = 0) then s ← initial; mret (Some s)
  else if Bool.eqb allForwards allBackwards then lift (Err (not_supported plan))
  else if allForwards then
    s ← initial; migrateAllForwards s plan full (mo_Fake opts) (mo_FakeInitial opts)
  else migrateAllBackwards plan full (mo_Fake opts).

Definition MigrateTo (opts : MigrateOptions) : io (Executor W) (option ProjectState) :=
  go ← (if match mo_Plan opts with Some [] => true | _ => false end then on_recorder HasTable
        else _ ← on_recorder EnsureSchema; mret true);
  if negb go then s ← CreateProjectState false; mret (Some s)
  else
    plan ← match mo_Plan opts with Some plan => mret plan | None => MigrationPlan (mo_Targets opts) false end;
    full ← full_plan;
    state ← run_plan opts plan full;
    _ ← CheckReplacements;
    mret state.

(** ** Collecting SQL *)

(** CollectSQL. A Begin that fails ends the collection, and what Finish makes
    of its error decides the result. *)
Fixpoint collect_loop (l : Loader) (out : list string) (state : option ProjectState) (plan : list PlanStep)
    : io W (list string) :=
  match plan with
  | [] => mret out
  | s :: rest =>
      ed ← new_editor true (IsAtomic (pst_Migration s));
      b ← attempt (med_Begin ed);
      match b with
      | inr e => _ ← med_Finish ed (Some e); mret []
      | inl _ =>
          r ← attempt (
            state ← match state with
                    | Some s => mret s
                    | None => lift (Loader_ProjectState l (Some [Migration_Key (pst_Migration s)]) false RealModels)
                    end;
            if pst_Backwards s then @Unapply W (med_Editor ed) FormatOperation (pst_Migration s) state
            else @Apply W (med_Editor ed) (pst_Migration s) state);
          _ ← med_Finish ed (error_of r);
          w ← get_state;
          collect_loop l (out ++ @CollectedSQL W (med_Editor ed) w)
            (match r with inl state => Some state | inr _ => None end) rest
      end
  end.

Definition CollectSQL (l : Loader) (plan : list PlanStep) : io W (list string) := collect_loop l [] None plan.

(** Executor.CollectSQL *)
Definition Executor_CollectSQL (plan : list PlanStep) : io (Executor W) (list string) :=
  e ← get_state; on_world (CollectSQL (ex_Loader e) plan).
End executor.
