(* ===== verification/PlanLemmas.v ===== *)
(** * Plans

    What a plan of the executor is: a run of a small step relation on the set
    of applied migrations, each step of which respects the dependencies; and
    where the plan for a list of targets ends. *)

From S2P Require Import Prelude GoStd Keys Errors Fields Index ModelState Apps ProjectState Operation SchemaEditor.
From S2P Require Import Migration Traversal Graph GraphLemmas Loader LoaderLemmas Effects Recorder Executor.

(** ** Running a plan, on the set of applied migrations alone *)

(** A step forwards applies a migration that is not applied, after all it
    depends on; a step backwards unapplies one that is, when nothing that
    depends on it is applied. *)
Inductive plan_run (g : Graph) : gset Key → list PlanStep → gset Key → Prop :=
| plan_run_nil s : plan_run g s [] s
| plan_run_forwards s mig plan s' :
    g_Nodes g !! Migration_Key mig = Some (Some mig) → Migration_Key mig ∉ s →
    (∀ p, edge g p (Migration_Key mig) → p ∈ s) →
    plan_run g ({[Migration_Key mig]} ∪ s) plan s' → plan_run g s (mkPlanStep mig false :: plan) s'
| plan_run_backwards s mig plan s' :
    g_Nodes g !! Migration_Key mig = Some (Some mig) → Migration_Key mig ∈ s →
    (∀ c, edge g (Migration_Key mig) c → c ∉ s) →
    plan_run g (s ∖ {[Migration_Key mig]}) plan s' → plan_run g s (mkPlanStep mig true :: plan) s'.

Lemma plan_run_app g s1 plan1 s2 plan2 s3 :
  plan_run g s1 plan1 s2 → plan_run g s2 plan2 s3 → plan_run g s1 (plan1 ++ plan2) s3.
Proof.
  induction 1 as [s|s mig plan s' Hm Hk Hp _ IH|s mig plan s' Hm Hk Hp _ IH]; intros H2; simpl; [done|..].
  - apply plan_run_forwards; auto.
  - apply plan_run_backwards; auto.
Qed.

Lemma plan_run_nodes g s plan s' st :
  plan_run g s plan s' → st ∈ plan → g_Nodes g !! Migration_Key (pst_Migration st) = Some (Some (pst_Migration st)).
Proof.
  induction 1 as [s|s mig plan s' Hm Hk Hp _ IH|s mig plan s' Hm Hk Hp _ IH]; intros Hst; [by apply elem_of_nil in Hst|..];
    apply elem_of_cons in Hst as [->|Hst]; auto.
Qed.

Definition forwards (plan : list PlanStep) : Prop := Forall (fun s => pst_Backwards s = false) plan.
Definition backwards (plan : list PlanStep) : Prop := Forall (fun s => pst_Backwards s = true) plan.

(** Where a target leads from the applied migrations s: the whole app is
    unapplied when the target has no name, everything of the app that comes
    after it when it is applied, and it and all it depends on are applied
    when it is not. What depends on an unapplied migration goes with it. *)
Definition target_reached (g : Graph) (s : gset Key) (target : Key) (s' : gset Key) : Prop :=
  ∀ k, k ∈ s' ↔
    if decide (key_Name target = "") then
      k ∈ s ∧ ¬ ∃ n, is_Some (g_Nodes g !! n) ∧ key_App n = key_App target ∧ rtc (edge g) n k
    else if decide (target ∈ s) then
      k ∈ s ∧ ¬ ∃ c, edge g target c ∧ key_App c = key_App target ∧ rtc (edge g) c k
    else k ∈ s ∨ rtc (edge g) k target.

Inductive targets_reached (g : Graph) : gset Key → list Key → gset Key → Prop :=
| targets_reached_nil s : targets_reached g s [] s
| targets_reached_cons s target s1 rest s' :
    target_reached g s target s1 → targets_reached g s1 rest s' → targets_reached g s (target :: rest) s'.

(** ** The loops of MigrationPlan *)

Section plan.
Context (g : Graph).
Hypothesis Hwf : graph_wf g.
Hypothesis Hac : acyclic g.
Hypothesis Hreal : ∀ k o, g_Nodes g !! k = Some o → ∃ mig, o = Some mig ∧ Migration_Key mig = k.

Lemma plan_step_live k b :
  is_Some (g_Nodes g !! k) →
  ∃ mig, plan_step g k b = Ok (mkPlanStep mig b) ∧ Migration_Key mig = k ∧ g_Nodes g !! k = Some (Some mig).
Proof. intros [o Hk]. destruct (Hreal k o Hk) as (mig & -> & Hm). exists mig. unfold plan_step. by rewrite Hk. Qed.

Lemma plan_apply_spec ks acc :
  (∀ k, k ∈ ks → is_Some (g_Nodes g !! k)) →
  (∀ p c i, edge g p c → ks !! i = Some c → (∃ j, j < i ∧ ks !! j = Some p) ∨ p ∈ acc.2) →
  ∃ plan, foldM (plan_apply g) acc ks = Ok (acc.1 ++ plan, list_to_set ks ∪ acc.2) ∧
    plan_run g acc.2 plan (list_to_set ks ∪ acc.2) ∧ forwards plan.
Proof.
  revert acc. induction ks as [|k ks IH]; intros [steps s] Hlive Hord; simpl in *.
  { exists []. rewrite app_nil_r. replace (∅ ∪ s) with s by set_solver. split_and!; [done|constructor|constructor]. }
  assert (∀ x, x ∈ ks → is_Some (g_Nodes g !! x)) as Hlive' by (intros; apply Hlive; by right).
  unfold plan_apply at 1. simpl. case_bool_decide as Hk.
  - destruct (IH (steps, s) Hlive') as (plan & -> & Hrun & Hfw); simpl.
    { intros p c i Hpc Hi. destruct (Hord p c (S i) Hpc Hi) as [([|j] & Hj & Hjp)|?]; [|left; exists j|by right].
      - right. by injection Hjp as ->.
      - split; [lia|done]. }
    replace ({[k]} ∪ list_to_set ks ∪ s) with (list_to_set ks ∪ s : gset Key) by set_solver. eauto.
  - destruct (plan_step_live k false (Hlive k (list_elem_of_here _ _))) as (mig & -> & Hmk & Hn). simpl.
    destruct (IH (steps ++ [mkPlanStep mig false], {[k]} ∪ s) Hlive') as (plan & -> & Hrun & Hfw); simpl in *.
    { intros p c i Hpc Hi. destruct (Hord p c (S i) Hpc Hi) as [([|j] & Hj & Hjp)|?]; [|left; exists j|right; set_solver].
      - right. injection Hjp as ->. set_solver.
      - split; [lia|done]. }
    exists (mkPlanStep mig false :: plan).
    replace ({[k]} ∪ list_to_set ks ∪ s) with (list_to_set ks ∪ ({[k]} ∪ s) : gset Key) by set_solver.
    rewrite <- app_assoc. subst k. split_and!; [done| |by constructor]. apply plan_run_forwards; [done|done| |done].
    intros p Hp. destruct (Hord p _ 0 Hp eq_refl) as [(j & Hj & _)|?]; [lia|done].
Qed.

Lemma plan_unapply_spec ks acc :
  (∀ k, k ∈ ks → is_Some (g_Nodes g !! k)) →
  (∀ p c i, edge g p c → ks !! i = Some p → (∃ j, j < i ∧ ks !! j = Some c) ∨ c ∉ acc.2) →
  ∃ plan, foldM (plan_unapply g) acc ks = Ok (acc.1 ++ plan, acc.2 ∖ list_to_set ks) ∧
    plan_run g acc.2 plan (acc.2 ∖ list_to_set ks).
Proof.
  revert acc. induction ks as [|k ks IH]; intros [steps s] Hlive Hord; simpl in *.
  { exists []. rewrite app_nil_r. replace (s ∖ ∅) with s by set_solver. split; [done|constructor]. }
  assert (∀ x, x ∈ ks → is_Some (g_Nodes g !! x)) as Hlive' by (intros; apply Hlive; by right).
  unfold plan_unapply at 1. simpl. case_bool_decide as Hk.
  - destruct (plan_step_live k true (Hlive k (list_elem_of_here _ _))) as (mig & -> & Hmk & Hn). simpl.
    destruct (IH (steps ++ [mkPlanStep mig true], s ∖ {[k]}) Hlive') as (plan & -> & Hrun); simpl in *.
    { intros p c i Hpc Hi. destruct (Hord p c (S i) Hpc Hi) as [([|j] & Hj & Hjp)|?]; [|left; exists j|right; set_solver].
      - right. injection Hjp as ->. set_solver.
      - split; [lia|done]. }
    exists (mkPlanStep mig true :: plan).
    replace (s ∖ ({[k]} ∪ list_to_set ks)) with (s ∖ {[k]} ∖ list_to_set ks : gset Key) by set_solver.
    rewrite <- app_assoc. split; [done|]. subst k. apply plan_run_backwards; [done|done| |done].
    intros c Hc. destruct (Hord _ c 0 Hc eq_refl) as [(j & Hj & _)|?]; [lia|done].
  - destruct (IH (steps, s) Hlive') as (plan & -> & Hrun); simpl.
    { intros p c i Hpc Hi. destruct (Hord p c (S i) Hpc Hi) as [([|j] & Hj & Hjp)|?]; [|left; exists j|by right].
      - right. by injection Hjp as ->.
      - split; [lia|done]. }
    replace (s ∖ ({[k]} ∪ list_to_set ks)) with (s ∖ list_to_set ks : gset Key) by set_solver. eauto.
Qed.

(** *** From one migration *)

Lemma edge_nodes p c : edge g p c → is_Some (g_Nodes g !! p) ∧ is_Some (g_Nodes g !! c).
Proof. intros Hpc. destruct Hwf as [Hdom _]. rewrite <- !Hdom. by apply edge_live. Qed.

Lemma rtc_nodes p c : rtc (edge g) p c → is_Some (g_Nodes g !! p) ∨ is_Some (g_Nodes g !! c) →
  is_Some (g_Nodes g !! p) ∧ is_Some (g_Nodes g !! c).
Proof.
  induction 1 as [x|x y z Hxy _ IH]; [tauto|]. destruct (edge_nodes x y Hxy) as [Hx Hy]. split; [done|]. apply IH. by left.
Qed.

Lemma Has_nodes k : Has g k = true ↔ is_Some (g_Nodes g !! k).
Proof. unfold Has. apply bool_decide_eq_true. Qed.

Lemma unapply_from_spec root acc :
  is_Some (g_Nodes g !! root) →
  ∃ plan s', unapply_from g acc root = Ok (acc.1 ++ plan, s') ∧ plan_run g acc.2 plan s' ∧
    ∀ k, k ∈ s' ↔ k ∈ acc.2 ∧ ¬ rtc (edge g) root k.
Proof.
  intros Hroot. unfold unapply_from.
  destruct (BackwardsPlan_spec g root Hwf Hac) as (bp & -> & Hnd & Hin & Hord & _); [by apply Has_nodes|]. simpl.
  assert (∀ k, k ∈ bp ↔ rtc (edge g) root k) as Hbp by (intros k; rewrite Hin; apply rtc_flip).
  destruct (plan_unapply_spec bp acc) as (plan & -> & Hrun).
  - intros k Hk%Hbp. apply (rtc_nodes root k Hk). by left.
  - intros p c i Hpc Hi. left. by eapply Hord.
  - exists plan, (acc.2 ∖ list_to_set bp). split_and!; [done|done|]. intros k.
    by rewrite elem_of_difference, elem_of_list_to_set, Hbp.
Qed.

Lemma unapply_all_spec roots acc :
  (∀ r, r ∈ roots → is_Some (g_Nodes g !! r)) →
  ∃ plan s', foldM (unapply_from g) acc roots = Ok (acc.1 ++ plan, s') ∧ plan_run g acc.2 plan s' ∧
    ∀ k, k ∈ s' ↔ k ∈ acc.2 ∧ ¬ ∃ r, r ∈ roots ∧ rtc (edge g) r k.
Proof.
  revert acc. induction roots as [|r roots IH]; intros acc Hlive; simpl.
  { exists [], acc.2. rewrite app_nil_r. split_and!; [by destruct acc|constructor|]. intros k.
    split; [|tauto]. intros Hk. split; [done|]. by intros (r & Hr%elem_of_nil & _). }
  destruct (unapply_from_spec r acc) as (plan1 & s1 & -> & Hrun1 & Hs1); [apply Hlive; by left|].
  destruct (IH (acc.1 ++ plan1, s1)) as (plan2 & s2 & -> & Hrun2 & Hs2); [intros; apply Hlive; by right|]. simpl in *.
  exists (plan1 ++ plan2), s2. rewrite <- app_assoc. split_and!; [done|by eapply plan_run_app|].
  intros k. rewrite Hs2, Hs1, exists_cons. tauto.
Qed.

(** *** From a target *)

(** Every migration of an app comes after one of the app that comes after
    none of the app. *)
Lemma app_root n :
  is_Some (g_Nodes g !! n) →
  ∃ r, is_Some (g_Nodes g !! r) ∧ key_App r = key_App n ∧ (∀ p, edge g p r → key_App p ≠ key_App r) ∧ rtc (edge g) r n.
Proof.
  induction n as [n IH] using (well_founded_ind (proj1 (acyclic_wf g Hwf Hac))). intros Hn.
  destruct (decide (set_Exists (fun p => key_App p = key_App n) (parents (g_NodeMap g) n))) as [(p & Hp & Ha)|Hno].
  - assert (edge g p n) as Hpn by by apply (proj2 Hwf).
    destruct (IH p Hpn) as (r & Hr & Hra & Hroot & Hrp); [by apply (edge_nodes p n)|].
    exists r. split_and!; [done|congruence|done|by eapply rtc_r].
  - exists n. split_and!; [done|done| |done]. intros p Hp Ha. apply Hno. exists p. split; [by apply (proj2 Hwf)|done].
Qed.

Lemma plan_target_spec replace acc target :
  (key_Name target ≠ "" → is_Some (g_Nodes g !! target)) →
  ∃ plan s', plan_target g replace acc target = Ok (Some (acc.1 ++ plan, s')) ∧ plan_run g acc.2 plan s' ∧
    target_reached g acc.2 target s'.
Proof.
  intros Hlive. unfold plan_target, target_reached. case_bool_decide as Hname.
  - destruct (RootNodes_spec g "" Hwf) as (roots & -> & _ & Hroots). simpl.
    destruct (unapply_all_spec (filter (fun root => key_App root = key_App target) roots) acc)
      as (plan & s' & -> & Hrun & Hs').
    { intros r [_ Hr]%list_elem_of_filter. by apply Hroots. }
    exists plan, s'. split_and!; [done|done|]. intros k. rewrite decide_True, Hs' by done. apply and_iff_compat_l, not_iff_compat.
    split.
    + intros (r & [Ha Hr%Hroots]%list_elem_of_filter & Hrk). exists r. naive_solver.
    + intros (n & Hn & Ha & Hnk). destruct (app_root n Hn) as (r & Hr & Hra & Hroot & Hrn). exists r.
      split; [|by etransitivity]. apply list_elem_of_filter. split; [congruence|]. apply Hroots. split_and!; [done|by left|done].
  - specialize (Hlive Hname) as Ht. assert (is_Some (g_NodeMap g !! target)) as [n Hn] by by apply (proj1 Hwf).
    rewrite (bool_decide_eq_true_2 (is_Some (g_NodeMap g !! target))) by (rewrite Hn; eauto). rewrite andb_false_r.
    case_bool_decide as Happ.
    + unfold node. rewrite Hn. simpl.
      destruct (unapply_all_spec (SortKeys (filter (fun c => key_App c = key_App target) (elements (n_Children n)))) acc)
        as (plan & s' & -> & Hrun & Hs').
      { intros c Hc. rewrite elem_of_SortKeys in Hc. apply list_elem_of_filter in Hc as [_ Hc%elem_of_elements].
        apply (edge_nodes target c). unfold edge, edges, children. by rewrite Hn. }
      exists plan, s'. split_and!; [done|done|]. intros k. rewrite decide_False, decide_True, Hs' by done.
      apply and_iff_compat_l, not_iff_compat. apply exist_proper. intros c.
      rewrite elem_of_SortKeys, list_elem_of_filter, elem_of_elements.
      unfold edge at 2, edges, children. rewrite Hn. tauto.
    + destruct (ForwardsPlan_spec g target Hwf Hac) as (fp & -> & Hnd & Hin & Hord & _); [by apply Has_nodes|]. simpl.
      destruct (plan_apply_spec fp acc) as (plan & -> & Hrun & _).
      { intros k Hk%Hin. apply (rtc_nodes k target Hk). by right. }
      { intros p c i Hpc Hi. left. by eapply Hord. }
      exists plan, (list_to_set fp ∪ acc.2). split_and!; [done|done|]. intros k.
      rewrite !decide_False by done. rewrite elem_of_union, elem_of_list_to_set, Hin. tauto.
Qed.

(** A target with a name that is not in the graph: a squash has replaced it. *)
Definition missing_target (targets : list Key) : Prop :=
  ∃ t, t ∈ targets ∧ key_Name t ≠ "" ∧ g_Nodes g !! t = None.

Lemma plan_targets_spec replace acc targets :
  (∀ t, t ∈ targets → key_Name t ≠ "" → replace = true ∨ is_Some (g_Nodes g !! t)) →
  (¬ missing_target targets ∧
   ∃ plan s', plan_targets g replace acc targets = Ok (Some (acc.1 ++ plan, s')) ∧ plan_run g acc.2 plan s' ∧
     targets_reached g acc.2 targets s') ∨
  (missing_target targets ∧ replace = true ∧ plan_targets g replace acc targets = Ok None).
Proof.
  revert acc. induction targets as [|t targets IH]; intros acc Hts; simpl.
  { left. split; [by intros (t & ?%elem_of_nil & _)|]. exists [], acc.2. rewrite app_nil_r.
    split_and!; [by destruct acc|constructor|constructor]. }
  destruct (decide (key_Name t ≠ "" ∧ ¬ is_Some (g_Nodes g !! t))) as [[Hname Hno]|Hok].
  - right. destruct (Hts t (list_elem_of_here _ _) Hname) as [->|?]; [|done].
    split; [by exists t; split_and!; [left|done|by apply eq_None_not_Some]|]. split; [done|].
    unfold plan_target. rewrite bool_decide_eq_false_2 by done.
    rewrite (bool_decide_eq_false_2 (is_Some (g_NodeMap g !! t))) by (by rewrite (proj1 Hwf)). done.
  - destruct (plan_target_spec replace acc t) as (plan1 & s1 & -> & Hrun1 & Hs1).
    { intros Hname. destruct (decide (is_Some (g_Nodes g !! t))); tauto. }
    cbn [mbind outcome_bind].
    destruct (IH (acc.1 ++ plan1, s1)) as [(Hin & plan2 & s2 & -> & Hrun2 & Hs2)|(Hmiss & Hr & ->)].
    { intros x Hx. apply Hts. by right. }
    + left. split.
      { intros (x & [->|Hx]%elem_of_cons & Hn & Hno); [|by apply Hin; exists x]. apply Hok. split; [done|].
        by rewrite Hno; intros []. }
      exists (plan1 ++ plan2), s2. simpl in *. rewrite <- app_assoc.
      split_and!; [done|by eapply plan_run_app|by eapply targets_reached_cons].
    + right. split; [|done]. destruct Hmiss as (x & Hx & Hmiss). exists x. split; [by right|done].
Qed.

(** ** The full plan *)

(** The plan of a whole graph: every migration once, after all it depends on *)
Record is_full_plan (full : list PlanStep) : Prop := mkIsFullPlan {
  fp_nodes : ∀ k, k ∈ plan_keys full ↔ is_Some (g_Nodes g !! k);
  fp_once : NoDup (plan_keys full);
  fp_steps : ∀ s, s ∈ full → pst_Backwards s = false ∧ g_Nodes g !! Migration_Key (pst_Migration s) = Some (Some (pst_Migration s));
  fp_order : ∀ p c i, edge g p c → plan_keys full !! i = Some c → ∃ j, j < i ∧ plan_keys full !! j = Some p;
}.

(** The leaves, as targets, only ever extend the plan. *)
Lemma plan_leaf_spec replace acc leaf :
  key_Name leaf ≠ "" → is_Some (g_Nodes g !! leaf) → (∀ c, edge g leaf c → key_App c ≠ key_App leaf) →
  ∃ plan s', plan_target g replace acc leaf = Ok (Some (acc.1 ++ plan, s')) ∧ plan_run g acc.2 plan s' ∧
    forwards plan ∧ ∀ k, k ∈ s' ↔ k ∈ acc.2 ∨ (leaf ∉ acc.2 ∧ rtc (edge g) k leaf).
Proof.
  intros Hname Hlive Hleaf. unfold plan_target. rewrite bool_decide_eq_false_2 by done.
  assert (is_Some (g_NodeMap g !! leaf)) as [n Hn] by by apply (proj1 Hwf).
  rewrite (bool_decide_eq_true_2 (is_Some (g_NodeMap g !! leaf))) by (rewrite Hn; eauto). rewrite andb_false_r.
  case_bool_decide as Happ.
  - unfold node. rewrite Hn. simpl. exists [], acc.2. rewrite app_nil_r.
    assert (filter (fun c => key_App c = key_App leaf) (elements (n_Children n)) = []) as ->.
    { apply filter_none. intros c Hc%elem_of_elements. apply Hleaf. unfold edge, edges, children. by rewrite Hn. }
    simpl. split_and!; [by destruct acc|constructor|constructor|tauto].
  - destruct (ForwardsPlan_spec g leaf Hwf Hac) as (fp & -> & Hnd & Hin & Hord & _); [by apply Has_nodes|]. simpl.
    destruct (plan_apply_spec fp acc) as (plan & -> & Hrun & Hfw).
    { intros k Hk%Hin. apply (rtc_nodes k leaf Hk). by right. }
    { intros p c i Hpc Hi. left. by eapply Hord. }
    exists plan, (list_to_set fp ∪ acc.2). split_and!; [done|done|done|].
    intros k. rewrite elem_of_union, elem_of_list_to_set, Hin. tauto.
Qed.

Lemma plan_leaves_spec replace acc leaves :
  (∀ l, l ∈ leaves → key_Name l ≠ "" ∧ is_Some (g_Nodes g !! l) ∧ ∀ c, edge g l c → key_App c ≠ key_App l) →
  (∀ p c, edge g p c → c ∈ acc.2 → p ∈ acc.2) →
  ∃ plan s', plan_targets g replace acc leaves = Ok (Some (acc.1 ++ plan, s')) ∧ plan_run g acc.2 plan s' ∧
    forwards plan ∧ ∀ k, k ∈ s' ↔ k ∈ acc.2 ∨ ∃ l, l ∈ leaves ∧ rtc (edge g) k l.
Proof.
  revert acc. induction leaves as [|l leaves IH]; intros acc Hl Hclosed; simpl.
  { exists [], acc.2. rewrite app_nil_r. split_and!; [by destruct acc|constructor|constructor|]. intros k.
    split; [by left|]. intros [?|(l & ?%elem_of_nil & _)]; done. }
  destruct (Hl l (list_elem_of_here _ _)) as (Hname & Hlive & Hleaf).
  destruct (plan_leaf_spec replace acc l Hname Hlive Hleaf) as (plan1 & s1 & -> & Hrun1 & Hfw1 & Hs1).
  assert (∀ k, k ∈ s1 ↔ k ∈ acc.2 ∨ rtc (edge g) k l) as Hs1'.
  { intros k. rewrite Hs1. split; [tauto|]. intros [?|Hk]; [by left|].
    destruct (decide (l ∈ acc.2)) as [Hin|Hno]; [|by right]. left. clear -Hk Hin Hclosed.
    induction Hk as [x|x y z Hxy _ IH]; [done|]. by eapply Hclosed, IH. }
  cbn [mbind outcome_bind].
  destruct (IH (acc.1 ++ plan1, s1)) as (plan2 & s2 & -> & Hrun2 & Hfw2 & Hs2).
  { intros x Hx. apply Hl. by right. }
  { simpl. intros p c Hpc. rewrite !Hs1'. intros [?|?]; [left; by eapply Hclosed|right; by eapply rtc_l]. }
  exists (plan1 ++ plan2), s2. simpl in *. rewrite <- app_assoc.
  split_and!; [done|by eapply plan_run_app|by apply Forall_app|].
  intros k. rewrite Hs2, Hs1', exists_cons. tauto.
Qed.

(** A plan that only goes forwards lists what it applies once, and each
    migration after those it depends on. *)
Lemma forwards_run s plan s' :
  plan_run g s plan s' → forwards plan →
  NoDup (plan_keys plan) ∧ (∀ k, k ∈ s' ↔ k ∈ s ∨ k ∈ plan_keys plan) ∧ (∀ k, k ∈ plan_keys plan → k ∉ s) ∧
  (∀ p c i, edge g p c → plan_keys plan !! i = Some c → p ∈ s ∨ ∃ j, j < i ∧ plan_keys plan !! j = Some p) ∧
  ∀ st, st ∈ plan → g_Nodes g !! Migration_Key (pst_Migration st) = Some (Some (pst_Migration st)).
Proof.
  induction 1 as [s|s mig plan s' Hm Hk Hp _ IH|s mig plan s' Hm Hk Hp _ IH]; intros Hfw.
  - simpl. split_and!; [constructor| | | |]; intros *; rewrite ?lookup_nil, ?elem_of_nil; naive_solver.
  - apply Forall_cons in Hfw as [_ Hfw]. destruct (IH Hfw) as (Hnd & Hs' & Hnew & Hord & Hst). simpl. split_and!.
    + constructor; [|done]. intros Hin%Hnew. set_solver.
    + intros k. rewrite Hs', elem_of_cons. set_solver.
    + intros k [->|Hin%Hnew]%elem_of_cons; [done|set_solver].
    + intros p c [|i] Hpc Hi; simpl in Hi; [injection Hi as <-; left; by apply Hp|].
      destruct (Hord p c i Hpc Hi) as [[->%elem_of_singleton|?]%elem_of_union|(j & Hj & Hjp)]; [|by left|].
      * right. exists 0. split; [lia|done].
      * right. exists (S j). split; [lia|done].
    + intros st [->|Hin]%elem_of_cons; [done|by apply Hst].
  - by apply Forall_cons in Hfw as [? _].
Qed.

Lemma app_leaf n :
  is_Some (g_Nodes g !! n) →
  ∃ l, is_Some (g_Nodes g !! l) ∧ key_App l = key_App n ∧ (∀ c, edge g l c → key_App c ≠ key_App l) ∧ rtc (edge g) n l.
Proof.
  induction n as [n IH] using (well_founded_ind (proj2 (acyclic_wf g Hwf Hac))). intros Hn.
  destruct (decide (set_Exists (fun c => key_App c = key_App n) (children (g_NodeMap g) n))) as [(c & Hc & Ha)|Hno].
  - destruct (IH c Hc) as (l & Hl & Hla & Hleaf & Hcl); [by apply (edge_nodes n c)|].
    exists l. split_and!; [done|congruence|done|by eapply rtc_l].
  - exists n. split_and!; [done|done| |done]. intros c Hc Ha. apply Hno. by exists c.
Qed.

(** The plan for the leaves of the whole graph, from nothing *)
Lemma full_plan_spec replace :
  (∀ k, is_Some (g_Nodes g !! k) → key_Name k ≠ "") →
  ∃ leaves full s', LeafNodes g "" = Ok leaves ∧ plan_targets g replace ([], ∅) leaves = Ok (Some (full, s')) ∧
    is_full_plan full.
Proof.
  intros Hnames. destruct (LeafNodes_spec g "" Hwf) as (leaves & -> & _ & Hleaves).
  destruct (plan_leaves_spec replace ([], ∅) leaves) as (full & s' & Hplan & Hrun & Hfw & Hs').
  { intros l (Hl & _ & Hleaf)%Hleaves. auto. }
  { set_solver. }
  exists leaves, full, s'. split_and!; [done|exact Hplan|].
  destruct (forwards_run _ _ _ Hrun Hfw) as (Hnd & Hin & _ & Hord & Hst). simpl in *. split.
  - intros k. transitivity (k ∈ s'); [rewrite Hin; set_solver|]. rewrite Hs'. split.
    + intros [?%elem_of_empty|(l & Hl & Hkl)]; [done|]. apply (rtc_nodes k l Hkl). right. by apply Hleaves.
    + intros Hk. right. destruct (app_leaf k Hk) as (l & Hl & _ & Hleaf & Hkl). exists l. split; [|done].
      apply Hleaves. split_and!; [done|by left|done].
  - done.
  - intros st Hst'. split; [|by apply Hst]. by eapply Forall_forall in Hfw.
  - intros p c i Hpc Hi. destruct (Hord p c i Hpc Hi) as [?%elem_of_empty|?]; done.
Qed.
End plan.
