(* ===== verification/ExecutorRuns.v ===== *)
(** * Running migrations

    What the executor records, as it applies and unapplies migrations. *)

From S2P Require Import Prelude GoStd Keys Errors Fields Index ModelState Apps ProjectState Operation.
From S2P Require Import SchemaEditor OpDatabase Migration Traversal Graph GraphLemmas Filename Loader.
From S2P Require Import SquashLemmas LoaderLemmas Effects Recorder RecorderLemmas Executor.
From S2P Require Import PlanLemmas.

(** ** What the executor promises

    Its plans respect the dependencies and end where the targets say, and
    what it records is what it has run. *)

(** ** The invariant of an executor *)

(** A project whose migrations can be built on: [sane_disk], and names that
    are not the empty one, which as a target means something else. *)
Definition sane_project (d : disk) : Prop :=
  sane_disk d ∧ ∀ k, is_Some (dk_migrations d !! k) → key_Name k ≠ "".

(** What a loader built with or without replacing is *)
Record loader_for (d : disk) (replace : bool) (l : Loader) : Prop := mkLoaderFor {
  lf_wf : loader_wf l;
  lf_of : loader_of d l;
  lf_nested : replace = true → well_founded (nested (ld_Replacements l));
  lf_all : replace = false → ∀ k, is_Some (dk_migrations d !! k) → is_Some (g_Nodes (ld_Graph l) !! k);
}.

(** ** What recording a migration records *)

(** The migrations RecordMigration records, in their order: those a squashed
    one replaces, and those they replace, before it *)
Fixpoint expansion (fuel : nat) (dm : gmap Key Migration) (k : Key) : list Key :=
  match fuel with
  | 0 => []
  | S fuel => match dm !! k with Some mig => concat (map (expansion fuel dm) (mig_Replaces mig)) | None => [] end ++ [k]
  end.

Section record.
Context {W : Type} `{ConnLaws W}.
Context (dm : gmap Key Migration).

Lemma nested_replaced k mig rk :
  dm !! k = Some mig → rk ∈ mig_Replaces mig → nested (replacements_of dm) rk k.
Proof.
  intros Hk Hrk. exists mig. split; [|done]. apply replacements_of_spec. split; [done|]. intros Hnil.
  rewrite Hnil in Hrk. by apply elem_of_nil in Hrk.
Qed.

Lemma depth_replaced n k mig rk :
  depth (nested (replacements_of dm)) (S n) k → dm !! k = Some mig → rk ∈ mig_Replaces mig →
  depth (nested (replacements_of dm)) n rk.
Proof. intros Hd Hk Hrk. inversion Hd; subst. eauto using nested_replaced. Qed.

Lemma elem_of_expansion n k x :
  depth (nested (replacements_of dm)) n k → x ∈ expansion n dm k ↔ rtc (nested (replacements_of dm)) x k.
Proof.
  revert k. induction n as [|n IH]; intros k Hd; [by inversion Hd|]. simpl. rewrite elem_of_app, list_elem_of_singleton.
  split.
  - intros [Hx| ->]; [|done]. destruct (dm !! k) as [mig|] eqn:Hk; [|by apply elem_of_nil in Hx].
    apply list_elem_of_In, in_concat in Hx as (l & Hl & Hx). apply in_map_iff in Hl as (rk & <- & Hrk).
    apply list_elem_of_In in Hrk, Hx. apply IH in Hx; [|by eapply depth_replaced]. eapply rtc_r; [done|].
    by eapply nested_replaced.
  - intros Hx. apply rtc_inv_r in Hx as [->|(rk & Hx & mig & Hk & Hrk)]; [by right|]. left.
    apply replacements_of_spec in Hk as [Hk _]. rewrite Hk. apply list_elem_of_In, in_concat.
    exists (expansion n dm rk). split; [apply in_map; by apply list_elem_of_In|]. apply list_elem_of_In.
    apply IH; [by eapply depth_replaced|done].
Qed.

Lemma record_migration_applied n k ks :
  depth (nested (replacements_of dm)) n k →
  triple (records ks) (record_migration n dm true k) (fun _ r => records (ks ++ expansion n dm k) r)
    (fun r => ∃ l, l `prefix_of` expansion n dm k ∧ records (ks ++ l) r).
Proof.
  revert k ks. induction n as [|n IH]; intros k ks Hd; [by inversion Hd|]. simpl.
  set (before := match dm !! k with Some mig => concat (map (expansion n dm) (mig_Replaces mig)) | None => [] end).
  eapply (triple_bind _ _ (fun _ r => records (ks ++ before) r)).
  - unfold before. destruct (dm !! k) as [mig|] eqn:Hk.
    + unfold for_io. eapply triple_weaken;
        [apply (triple_fold (fun done (_ : unit) r => records (ks ++ concat (map (expansion n dm) done)) r)
          (fun r => ∃ l, l `prefix_of` concat (map (expansion n dm) (mig_Replaces mig)) ++ [k] ∧ records (ks ++ l) r))|..].
      * intros done [] x rest Hl. rewrite map_app, concat_app. simpl. rewrite app_nil_r, app_assoc.
        assert (x ∈ mig_Replaces mig) as Hx by (rewrite Hl; apply elem_of_app; right; left).
        eapply triple_weaken; [apply IH; by eapply depth_replaced|done|done|].
        intros r (l & Hpre & Hr). exists (concat (map (expansion n dm) done) ++ l). split; [|by rewrite app_assoc].
        rewrite Hl, map_app, concat_app. simpl. rewrite <- !app_assoc. apply prefix_app. by apply prefix_app_r.
      * intros r Hr. simpl. by rewrite app_nil_r.
      * done.
      * done.
    + rewrite app_nil_r. apply triple_skip.
  - intros []. eapply triple_weaken; [apply record_applied|done| |].
    + intros [] r. rewrite <- app_assoc. by destruct k.
    + intros r Hr. exists before. split; [by apply prefix_app_r|done].
Qed.

Lemma record_migration_unapplied n k ks :
  depth (nested (replacements_of dm)) n k →
  triple (records ks) (record_migration n dm false k)
    (fun _ r => records (filter (fun x => x ∉ expansion n dm k) ks) r)
    (fun r => ∃ l, l `sublist_of` ks ∧ records l r).
Proof.
  revert k ks. induction n as [|n IH]; intros k ks Hd; [by inversion Hd|]. simpl.
  set (before := match dm !! k with Some mig => concat (map (expansion n dm) (mig_Replaces mig)) | None => [] end).
  eapply (triple_bind _ _ (fun _ r => records (filter (fun x => x ∉ before) ks) r)).
  - unfold before. destruct (dm !! k) as [mig|] eqn:Hk.
    + unfold for_io. eapply triple_weaken;
        [apply (triple_fold (fun done (_ : unit) r => records (filter (fun x => x ∉ concat (map (expansion n dm) done)) ks) r)
          (fun r => ∃ l, l `sublist_of` ks ∧ records l r))|..].
      * intros done [] x rest Hl. assert (x ∈ mig_Replaces mig) as Hx by (rewrite Hl; apply elem_of_app; right; left).
        eapply triple_weaken; [apply IH; by eapply depth_replaced|done| |].
        -- intros [] r Hr. apply (records_eq _ _ _ Hr). rewrite list_filter_filter. apply list_filter_iff. intros y. rewrite map_app, concat_app, elem_of_app. simpl. rewrite app_nil_r. tauto.
        -- intros r (l & Hl' & Hr). exists l. split; [|done]. etransitivity; [exact Hl'|]. apply sublist_filter.
      * intros r Hr. simpl. rewrite filter_all; [done|]. intros x _. apply not_elem_of_nil.
      * done.
      * done.
    + rewrite filter_all; [apply triple_skip|]. intros x _. apply not_elem_of_nil.
  - intros []. eapply triple_weaken; [apply record_unapplied|done| |].
    + intros [] r Hr. apply (records_eq _ _ _ Hr). rewrite list_filter_filter. destruct k as [app name].
      apply list_filter_iff. intros y. rewrite elem_of_app, list_elem_of_singleton. tauto.
    + intros r Hr. eexists. split; [|exact Hr]. apply sublist_filter.
Qed.
End record.

Section executor.
Context {W : Type} `{ConnLaws W}.
Context (cfg : Config) (RealModels : list ModelState) (FormatOperation : Operation → string).
Context (Progress : Event → option Migration → bool → W → W).
Context (d : disk).
Hypothesis Hdisk : loadDisk cfg = Ok d.
Hypothesis Hsane : sane_project d.

(** An executor of the project, with these migrations recorded *)
Definition executor_at (ks : list Key) (e : Executor W) : Prop :=
  records ks (ex_Recorder e) ∧ loader_for d (ex_ReplaceMigrations e) (ex_Loader e).

Lemma loader_for_real replace l k o :
  loader_for d replace l → g_Nodes (ld_Graph l) !! k = Some o → ∃ mig, o = Some mig ∧ Migration_Key mig = k.
Proof.
  intros [Hwf Hof _ _] Hk. destruct (lw_nodes l Hwf k o Hk) as (mig & -> & Hm). exists mig. split; [done|].
  destruct Hof as (Hdm & _). rewrite Hdm in Hm.
  destruct (loadDisk_spec cfg d Hdisk) as (_ & _ & _ & Hkey). by apply Hkey in Hm as [? _].
Qed.

Lemma loader_for_names replace l k :
  loader_for d replace l → is_Some (g_Nodes (ld_Graph l) !! k) → key_Name k ≠ "".
Proof.
  intros [Hwf Hof _ _] [o Hk]. destruct (lw_nodes l Hwf k o Hk) as (mig & -> & Hm). apply Hsane.
  destruct Hof as (<- & _). eauto.
Qed.

Lemma new_loader_spec replace ks :
  triple (records ks) (new_loader cfg replace)
    (fun l r => loader_for d replace l ∧ applied_as_recorded (cfg_set_ReplaceMigrations replace cfg) d ks l ∧ records ks r)
    (records ks).
Proof.
  unfold new_loader, BuildGraph. assert (loadDisk (cfg_set_ReplaceMigrations replace cfg) = Ok d) as -> by exact Hdisk.
  eapply (triple_bind _ _ (fun d' r => d' = d ∧ records ks r)); [by intros r Hr|]. intros d'. apply triple_pull. intros ->.
  eapply triple_bind; [apply applied_migrations|]. intros l. apply triple_pull. intros ->.
  eapply triple_weaken; [apply triple_lift, (build_spec _ _ _ (proj1 Hsane))|done| |done].
  intros l r [(Hwf & Hof & Happ & Hnest & Hall) Hr]. split_and!; [|done|done]. by split.
Qed.

(** ** Plans *)

(** Where a plan starts *)
Definition plan_start (cleanStart : bool) (e : Executor W) : gset Key :=
  if cleanStart then ∅ else ld_Applied (ex_Loader e).

(** A plan for the targets *)
Definition plan_for (targets : list Key) (cleanStart : bool) (plan : list PlanStep) (e : Executor W) : Prop :=
  ∃ s', plan_run (ld_Graph (ex_Loader e)) (plan_start cleanStart e) plan s' ∧
        targets_reached (ld_Graph (ex_Loader e)) (plan_start cleanStart e) targets s'.

Lemma plan_attempt targets cleanStart e :
  loader_for d (ex_ReplaceMigrations e) (ex_Loader e) →
  (∀ t, t ∈ targets → key_Name t ≠ "" → is_Some (dk_migrations d !! t)) →
  (¬ missing_target (ld_Graph (ex_Loader e)) targets ∧
   ∃ plan s', plan_targets (ld_Graph (ex_Loader e)) (ex_ReplaceMigrations e) ([], plan_start cleanStart e) targets
                = Ok (Some (plan, s')) ∧ plan_for targets cleanStart plan e) ∨
  (missing_target (ld_Graph (ex_Loader e)) targets ∧ ex_ReplaceMigrations e = true ∧
   plan_targets (ld_Graph (ex_Loader e)) (ex_ReplaceMigrations e) ([], plan_start cleanStart e) targets = Ok None).
Proof.
  intros Hl Hts. pose proof Hl as [Hwf _ _ Hall].
  destruct (plan_targets_spec (ld_Graph (ex_Loader e)) (lw_wf _ Hwf) (lw_acyclic _ Hwf)
    (fun k o => loader_for_real _ _ k o Hl) (ex_ReplaceMigrations e) ([], plan_start cleanStart e) targets)
    as [(Hin & plan & s' & Hp & Hrun & Hreach)|(Hmiss & Hr & Hp)].
  - intros t Ht Hname. destruct (ex_ReplaceMigrations e); [by left|]. right. apply Hall; [done|]. by apply Hts.
  - left. split; [done|]. exists plan, s'. split; [exact Hp|]. by exists s'.
  - right. done.
Qed.

(** The executor that goes on without replacing *)
Definition reloaded (r : Recorder W) (l : Loader) (e : Executor W) : Executor W :=
  ex_set_Loader l (ex_set_Recorder r (ex_set_ReplaceMigrations false e)).

(** While every target is in the graph, planning touches nothing. *)
Lemma MigrationPlan_here ks targets cleanStart e :
  (∀ t, t ∈ targets → key_Name t ≠ "" → is_Some (dk_migrations d !! t)) → executor_at ks e →
  ¬ missing_target (ld_Graph (ex_Loader e)) targets →
  ∃ plan, MigrationPlan cfg targets cleanStart e = (e, Ok plan) ∧ plan_for targets cleanStart plan e.
Proof.
  intros Hts [Hrec Hl] Hin. unfold MigrationPlan. cbn [migration_plan]. unfold mbind, io_bind, get_state, lift. cbn.
  fold (plan_start cleanStart e).
  destruct (plan_attempt targets cleanStart e Hl Hts) as [(_ & plan & s' & -> & Hp)|(? & _)]; [|done].
  by exists plan.
Qed.

(** A target that is not makes it load the project again, without replacing. *)
Lemma MigrationPlan_reloads ks targets cleanStart e :
  (∀ t, t ∈ targets → key_Name t ≠ "" → is_Some (dk_migrations d !! t)) → executor_at ks e →
  missing_target (ld_Graph (ex_Loader e)) targets →
  match new_loader cfg false (ex_Recorder e) with
  | (r, Ok l) => executor_at ks (reloaded r l e) ∧
      ∃ plan, MigrationPlan cfg targets cleanStart e = (reloaded r l e, Ok plan) ∧
              plan_for targets cleanStart plan (reloaded r l e)
  | (r, Err x) => records ks r ∧
      MigrationPlan cfg targets cleanStart e = (ex_set_Recorder r (ex_set_ReplaceMigrations false e), Err x)
  | (_, Panic _) => False
  end.
Proof.
  intros Hts [Hrec Hl] Hmiss. unfold MigrationPlan. cbn [migration_plan]. unfold mbind, io_bind, get_state, lift. cbn.
  fold (plan_start cleanStart e).
  destruct (plan_attempt targets cleanStart e Hl Hts) as [(? & _)|(_ & Hr & ->)]; [done|].
  cbn. pose proof (new_loader_spec false ks (ex_Recorder e) Hrec) as Hnew.
  unfold on_recorder, zoom. cbn. destruct (new_loader cfg false (ex_Recorder e)) as [r [l|x|x]]; cbn; [|by split|done].
  destruct Hnew as (Hl' & _ & Hrec'). fold (reloaded r l e).
  destruct (plan_attempt targets cleanStart (reloaded r l e) Hl' Hts) as [(_ & plan & s' & Hplan & Hp)|(_ & Hr' & _)]; [|done].
  split; [by split|]. unfold plan_start in Hplan. cbn in Hplan. rewrite Hplan. cbn. by exists plan.
Qed.

(** Loading fails as reading the records does, or as building the graph
    from what is recorded does. *)
Lemma new_loader_fails ks r :
  records ks r →
  match new_loader cfg false r with
  | (r', Err x) => AppliedMigrations r = (r', Err x) ∨ build (cfg_set_ReplaceMigrations false cfg) d ks = Err x
  | _ => True
  end.
Proof.
  intros Hrec. unfold new_loader, BuildGraph. assert (loadDisk (cfg_set_ReplaceMigrations false cfg) = Ok d) as -> by exact Hdisk.
  pose proof (applied_migrations ks r Hrec) as Happ. unfold mbind, io_bind, lift.
  destruct (AppliedMigrations r) as [r1 [l|x|x]]; [|by left|done]. destruct Happ as [-> _].
  destruct (build _ d ks) as [l|x|x]; [done|by right|done].
Qed.

Lemma MigrationPlan_spec ks targets cleanStart :
  (∀ t, t ∈ targets → key_Name t ≠ "" → is_Some (dk_migrations d !! t)) →
  triple (executor_at ks) (MigrationPlan cfg targets cleanStart)
    (fun plan e => executor_at ks e ∧ plan_for targets cleanStart plan e) (fun e => records ks (ex_Recorder e)).
Proof.
  intros Hts e He.
  destruct (Exists_dec (fun t => key_Name t ≠ "" ∧ g_Nodes (ld_Graph (ex_Loader e)) !! t = None) targets) as [Hmiss|Hin].
  - pose proof (MigrationPlan_reloads ks targets cleanStart e Hts He (proj1 (Exists_exists _ _) Hmiss)) as Hr.
    destruct (new_loader cfg false (ex_Recorder e)) as [r [l|x|x]]; [|by destruct Hr as [Hr ->]|done].
    destruct Hr as (He' & plan & -> & Hp). by split.
  - destruct (MigrationPlan_here ks targets cleanStart e Hts He) as (plan & -> & Hp); [|by split].
    intros Hmiss. by apply Hin, Exists_exists.
Qed.

(** The full plan, which changes nothing *)
Lemma full_plan_eq ks e :
  executor_at ks e → ∃ full, full_plan cfg e = (e, Ok full) ∧ is_full_plan (ld_Graph (ex_Loader e)) full.
Proof.
  intros [Hrec Hl]. pose proof Hl as [Hwf _ _ _].
  destruct (full_plan_spec (ld_Graph (ex_Loader e)) (lw_wf _ Hwf) (lw_acyclic _ Hwf)
    (fun k o => loader_for_real _ _ k o Hl) (ex_ReplaceMigrations e)) as (leaves & full & s' & Hleaves & Hplan & Hfull).
  { intros k. by apply (loader_for_names _ _ k Hl). }
  exists full. split; [|done]. unfold full_plan, MigrationPlan. cbn [migration_plan].
  unfold mbind, io_bind, get_state, lift. cbn. rewrite Hleaves. cbn. by rewrite Hplan.
Qed.
End executor.

(** ** Editors *)

(** What a migration's editor has to promise, with the migrations that are
    run through it: it leaves the migrations table alone, and Finish does
    not drop the error it is given. *)
Record editor_keeps {W} `{ConnLaws W} (FormatOperation : Operation → string) (mig : Migration)
    (ed : MigrationEditor W) : Prop := mkEditorKeeps {
  ek_begin t : ensures (fun w => rows w = t) (med_Begin ed) (fun _ w => rows w = t);
  ek_apply s t : ensures (fun w => rows w = t) (@Apply W (med_Editor ed) mig s) (fun _ w => rows w = t);
  ek_unapply s t :
    ensures (fun w => rows w = t) (@Unapply W (med_Editor ed) FormatOperation mig s) (fun _ w => rows w = t);
  ek_finish t : ensures (fun w => rows w = t) (med_Finish ed None) (fun _ w => rows w = t);
  ek_error x w : is_ok (med_Finish ed (Some x) w).2 = false;
}.

Section executor.
Context {W : Type} `{ConnLaws W}.
Context (RealModels : list ModelState) (FormatOperation : Operation → string).
Context (Progress : Event → option Migration → bool → W → W).
Context (d : disk).
(** No squashed migration replaces itself, however indirectly. *)
Hypothesis Hnested : well_founded (nested (replacements_of (dk_migrations d))).
Hypothesis Hprogress : ∀ ev mig fake w, rows (Progress ev mig fake w) = rows w.

(** What is known of the loader, which no run of a migration changes *)
Context (known : Loader → bool → Prop).
Hypothesis Hknown : ∀ l replace, known l replace → loader_for d replace l.

Definition loaded (e : Executor W) : Prop := known (ex_Loader e) (ex_ReplaceMigrations e).

(** An executor of the project, with these migrations recorded *)
Definition running (ks : list Key) (e : Executor W) : Prop := records ks (ex_Recorder e) ∧ loaded e.

Lemma ensures_recorder {A} (m : io (Recorder W) A) ks (Q : A → list Key → Prop) :
  ensures (records ks) m (fun a r => ∃ ks', Q a ks' ∧ records ks' r) →
  ensures (running ks) (on_recorder m) (fun a e => ∃ ks', Q a ks' ∧ running ks' e).
Proof.
  intros Hm. eapply ensures_zoom; [exact Hm|by intros e []|]. intros e a r [_ Hl] (ks' & HQ & Hr). exists ks'. done.
Qed.

Lemma triple_recorder {A} (m : io (Recorder W) A) ks Q E :
  triple (records ks) m Q E →
  triple (running ks) (on_recorder m) (fun a e => Q a (ex_Recorder e) ∧ loaded e) (fun e => E (ex_Recorder e) ∧ loaded e).
Proof.
  intros Hm e [Hrec Hl]. specialize (Hm _ Hrec). unfold on_recorder, zoom.
  destruct (m (ex_Recorder e)) as [r [a|x|x]]; done.
Qed.

Lemma ensures_world {A} (m : io W A) ks :
  (∀ t, ensures (fun w => rows w = t) m (fun _ w => rows w = t)) →
  ensures (running ks) (on_world m) (fun _ e => running ks e).
Proof.
  intros Hm e e' a [(t & Hks & Ht & Hc) Hl]. unfold on_world, on_recorder, on_conn, zoom.
  destruct (m (rc_world (ex_Recorder e))) as [w r] eqn:Hr. intros [= <- ->]. split; [|done].
  exists t. split; [done|]. split; [|done]. by eapply Hm.
Qed.

Lemma progress_keeps ev mig fake ks :
  ensures (running ks) (progress Progress ev mig fake) (fun _ => running ks).
Proof. apply ensures_world. intros t. apply ensures_modify. intros w Hw. by rewrite Hprogress. Qed.

Lemma lift_keeps {A} (o : outcome A) ks : ensures (running ks) (lift o) (fun _ => running ks).
Proof. apply ensures_lift_any. Qed.

(** ** Recording *)

Definition recorded_by (k : Key) (l : list Key) : Prop :=
  last l = Some k ∧ ∀ x, x ∈ l ↔ rtc (nested (replacements_of (dk_migrations d))) x k.

Lemma loaded_disk e :
  loaded e → ld_DiskMigrations (ex_Loader e) = dk_migrations d ∧
             ld_Replacements (ex_Loader e) = replacements_of (dk_migrations d).
Proof. intros Hl. by destruct (Hknown _ _ Hl) as [_ (? & _ & _ & ?) _ _]. Qed.

Lemma loaded_depth e k : loaded e → depth (nested (replacements_of (dk_migrations d))) (record_fuel (ex_Loader e)) k.
Proof.
  intros Hl. unfold record_fuel. destruct (loaded_disk e Hl) as [_ ->]. apply nested_depth; [apply Hnested|lia].
Qed.

Lemma last_expansion n dm k : n ≠ 0 → last (expansion n dm k) = Some k.
Proof. destruct n; [done|]. intros _. simpl. apply last_snoc. Qed.

Lemma RecordMigration_eq app name forward e :
  loaded e →
  RecordMigration app name forward e =
    on_recorder (record_migration (record_fuel (ex_Loader e)) (dk_migrations d) forward (mkKey app name)) e.
Proof. intros Hl. unfold RecordMigration. by destruct (loaded_disk e Hl) as [<- _]. Qed.

Lemma RecordMigration_applied ks app name :
  triple (running ks) (RecordMigration app name true)
    (fun _ e => ∃ l, recorded_by (mkKey app name) l ∧ running (ks ++ l) e)
    (fun e => ∃ l, running (ks ++ l) e).
Proof.
  intros e He. pose proof (loaded_depth e (mkKey app name) (proj2 He)) as Hd. rewrite RecordMigration_eq by apply He.
  pose proof (triple_recorder _ _ _ _ (record_migration_applied (dk_migrations d) _ _ ks Hd) e He) as Hm.
  destruct (on_recorder _ e) as [e' [a|x|x]]; [| |done].
  - eexists. split; [|exact Hm]. split; [by apply last_expansion|]. intros x. by apply elem_of_expansion.
  - destruct Hm as [(l & _ & Hr) Hl]. by exists l.
Qed.

Lemma RecordMigration_unapplied ks app name :
  triple (running ks) (RecordMigration app name false)
    (fun _ e => ∃ ks', (∀ x, x ∈ ks' ↔ x ∈ ks ∧ ¬ rtc (nested (replacements_of (dk_migrations d))) x (mkKey app name)) ∧
                       running ks' e)
    (fun e => ∃ ks', ks' `sublist_of` ks ∧ running ks' e).
Proof.
  intros e He. pose proof (loaded_depth e (mkKey app name) (proj2 He)) as Hd. rewrite RecordMigration_eq by apply He.
  pose proof (triple_recorder _ _ _ _ (record_migration_unapplied (dk_migrations d) _ _ ks Hd) e He) as Hm.
  destruct (on_recorder _ e) as [e' [a|x|x]]; [| |done].
  - eexists. split; [|exact Hm]. intros x. rewrite list_elem_of_filter, (elem_of_expansion _ _ _ x Hd). tauto.
  - destruct Hm as [(l & Hs & Hr) Hl]. by exists l.
Qed.

(** ** One migration *)

Lemma detect_operations_keeps mig apps existing found ops t :
  ensures (fun w => rows w = t) (detect_operations mig apps existing found ops) (fun _ w => rows w = t).
Proof.
  revert found. induction ops as [|op ops IH]; intros found; simpl; [apply ensures_skip|].
  destruct op; try apply IH.
  - eapply ensures_bind; [apply ensures_lift_any|]. intros model.
    destruct (skip mig model); [apply IH|]. case_bool_decide; [apply IH|apply ensures_skip].
  - eapply ensures_bind; [apply ensures_lift_any|]. intros model.
    destruct (skip mig model); [apply IH|].
    eapply ensures_bind; [apply (triple_ensures _ _ _ _ (TableDescription_law t _))|]. intros cols.
    case_bool_decide; [apply IH|apply ensures_skip].
Qed.

Lemma DetectSoftApplied_keeps state mig ks :
  ensures (running ks) (DetectSoftApplied RealModels state mig) (fun _ => running ks).
Proof.
  unfold DetectSoftApplied. destruct (negb (may_be_soft_applied mig)); [apply ensures_skip|].
  eapply ensures_bind; [apply ensures_get_any|]. intros e.
  eapply ensures_bind; [apply lift_keeps|]. intros after.
  eapply ensures_bind; [apply lift_keeps|]. intros r.
  eapply ensures_bind; [apply ensures_world; intros t; eapply ensures_weaken;
    [apply (triple_ensures _ _ _ _ (TableNames_law t))|done|by intros a w []]|]. intros tables.
  eapply ensures_bind; [apply ensures_world; intros t; apply detect_operations_keeps|]. intros found. apply ensures_skip.
Qed.

(** The editors a connection makes for a migration *)
Definition editors_keep (mig : Migration) : Prop :=
  ∀ collect atomic w, rows (NewEditor collect atomic w).1 = rows w ∧
                      editor_keeps FormatOperation mig (NewEditor collect atomic w).2.

Lemma new_editor_keeps mig collect atomic ks :
  editors_keep mig →
  ensures (running ks) (on_world (new_editor collect atomic))
    (fun ed e => editor_keeps FormatOperation mig ed ∧ running ks e).
Proof.
  intros Hed e e' ed He Hr. split.
  - revert Hr. unfold on_world, on_recorder, on_conn, zoom, new_editor.
    destruct (Hed collect atomic (rc_world (ex_Recorder e))) as [_ Hk].
    destruct (NewEditor collect atomic (rc_world (ex_Recorder e))) as [w ed']. by intros [= _ <-].
  - revert e e' ed He Hr. apply ensures_world. intros t w w' ed Hw. unfold new_editor.
    destruct (Hed collect atomic w) as [Hk _]. destruct (NewEditor collect atomic w) as [w1 ed1].
    intros [= <- _]. by rewrite <- Hw.
Qed.

(** Finish succeeds only where the migration did. *)
Lemma finish_error mig ed x P (Q : unit → Executor W → Prop) :
  editor_keeps FormatOperation mig ed → ensures P (on_world (med_Finish ed (Some x))) Q.
Proof.
  intros Hk e e' a _. unfold on_world, on_recorder, on_conn, zoom.
  pose proof (ek_error _ _ _ Hk x (rc_world (ex_Recorder e))) as Hx.
  destruct (med_Finish ed (Some x) _) as [w [b|y|y]]; by intros [=].
Qed.

Lemma finish_keeps mig ed ks :
  editor_keeps FormatOperation mig ed → ensures (running ks) (on_world (med_Finish ed None)) (fun _ => running ks).
Proof. intros Hk. apply ensures_world. apply (ek_finish _ _ _ Hk). Qed.

Definition recorded_after (ks : list Key) (mig : Migration) (e : Executor W) : Prop :=
  ∃ l, recorded_by (Migration_Key mig) l ∧ running (ks ++ l) e.

Lemma RecordMigration_ensures mig ks :
  ensures (running ks) (RecordMigration (mig_App mig) (mig_Name mig) true) (fun _ => recorded_after ks mig).
Proof. apply (triple_ensures _ _ _ _ (RecordMigration_applied ks (mig_App mig) (mig_Name mig))). Qed.

Lemma apply_in_editor_keeps ed state mig ks :
  editor_keeps FormatOperation mig ed →
  ensures (running ks) (apply_in_editor ed state mig)
    (fun r e => r.2 = None → if r.1.2 then recorded_after ks mig e else running ks e).
Proof.
  intros Hk. unfold apply_in_editor.
  eapply ensures_bind; [apply ensures_attempt, ensures_world, (ek_begin _ _ _ Hk)|]. intros [[]|x].
  2:{ by intros e e' r _ [= _ <-]. }
  eapply ensures_bind.
  { apply ensures_attempt, (ensures_world _ ks). intros t. unfold Apply_pointer. destruct state as [s|].
    - eapply ensures_bind; [apply (ek_apply _ _ _ Hk)|]. intros s'. apply ensures_skip.
    - case_bool_decide; [apply ensures_skip|]. by intros w w' a _ [=]. }
  intros [state'|x]; [|by intros e e' r _ [= _ <-]].
  eapply ensures_bind; [apply ensures_get_any|]. intros e0.
  case_bool_decide; [|by intros e e' r He [= <- <-]].
  eapply ensures_bind; [apply ensures_attempt, RecordMigration_ensures|]. intros [[]|x].
  - by intros e e' r He [= <- <-].
  - by intros e e' r He [= <- <-].
Qed.

Lemma ApplyMigration_spec state mig fake fakeInitial ks :
  editors_keep mig →
  ensures (running ks) (ApplyMigration RealModels Progress state mig fake fakeInitial)
    (fun _ => recorded_after ks mig).
Proof.
  intros Hed. unfold ApplyMigration. eapply ensures_bind; [apply progress_keeps|]. intros [].
  eapply (ensures_bind _ _ (fun _ => running ks)).
  { destruct (negb fake && fakeInitial); [apply DetectSoftApplied_keeps|apply ensures_skip]. }
  intros [fake' state']. simpl.
  eapply (ensures_bind _ _ (fun (r : option ProjectState * bool) e => if r.2 then recorded_after ks mig e else running ks e)).
  { destruct fake'; [by intros e e' r He [= <- <-]|]. unfold run_forwards.
    eapply ensures_bind; [by apply new_editor_keeps|]. intros ed. apply ensures_pull. intros Hk.
    eapply ensures_bind; [by apply apply_in_editor_keeps|]. intros [[st recorded] err]. simpl.
    eapply (ensures_bind _ _ (fun _ e => if recorded then recorded_after ks mig e else running ks e));
      [|intros [] e e' r He [= <- <-]; exact He].
    destruct err as [x|]; [by eapply finish_error|]. intros e e' [] He Hf. specialize (He eq_refl). destruct recorded.
    - destruct He as (l & Hl & He). exists l. split; [done|]. by eapply finish_keeps.
    - by eapply finish_keeps. }
  intros [st recorded]. simpl.
  eapply (ensures_bind _ _ (fun _ => recorded_after ks mig)).
  { destruct recorded; [apply ensures_skip|apply RecordMigration_ensures]. }
  intros []. eapply (ensures_bind _ _ (fun _ => recorded_after ks mig)); [|intros []; apply ensures_skip].
  intros e e' [] (l & Hl & He) Hr. exists l. split; [done|]. by eapply progress_keeps.
Qed.

Definition unrecorded_after (ks : list Key) (mig : Migration) (e : Executor W) : Prop :=
  ∃ ks', (∀ x, x ∈ ks' ↔ x ∈ ks ∧ ¬ rtc (nested (replacements_of (dk_migrations d))) x (Migration_Key mig)) ∧
         running ks' e.

Lemma UnapplyMigration_spec state mig fake ks :
  editors_keep mig →
  ensures (running ks) (UnapplyMigration FormatOperation Progress state mig fake)
    (fun _ => unrecorded_after ks mig).
Proof.
  intros Hed. unfold UnapplyMigration. eapply ensures_bind; [apply progress_keeps|]. intros [].
  eapply (ensures_bind _ _ (fun _ => running ks)).
  { destruct fake; [apply ensures_skip|]. unfold run_backwards.
    eapply ensures_bind; [by apply new_editor_keeps|]. intros ed. apply ensures_pull. intros Hk.
    eapply ensures_bind; [apply ensures_attempt, ensures_world, (ek_begin _ _ _ Hk)|]. intros [[]|x].
    2:{ eapply ensures_bind; [by eapply (finish_error mig ed x _ (fun _ => running ks))|]. intros []. apply ensures_skip. }
    eapply ensures_bind.
    { apply ensures_attempt, (ensures_world _ ks). intros t. unfold Unapply_pointer. destruct state as [s|].
      - eapply ensures_bind; [apply (ek_unapply _ _ _ Hk)|]. intros s'. apply ensures_skip.
      - destruct (mig_Operations mig) as [|op ops]; [apply ensures_skip|]. by destruct (Reversible op); intros w w' a _ [=]. }
    intros r. eapply (ensures_bind _ _ (fun _ => running ks)); [|intros []; apply ensures_skip].
    destruct r as [state'|x]; [by eapply finish_keeps|by eapply finish_error]. }
  intros st. eapply (ensures_bind _ _ (fun _ => unrecorded_after ks mig)).
  { apply (triple_ensures _ _ _ _ (RecordMigration_unapplied ks (mig_App mig) (mig_Name mig))). }
  intros []. eapply (ensures_bind _ _ (fun _ => unrecorded_after ks mig)); [|intros []; apply ensures_skip].
  intros e e' [] (ks' & Hks' & He) Hr. exists ks'. split; [done|]. by eapply progress_keeps.
Qed.
End executor.
