(* ===== verification/ExecutorTheorems.v ===== *)
(** * The theorems on the executor

    Running a whole plan, from its targets to the records it leaves. *)

From S2P Require Import Prelude GoStd Keys Errors Fields Index ModelState Apps ProjectState Operation.
From S2P Require Import SchemaEditor Effects Recorder RecorderLemmas OpDatabase Migration Traversal Graph.
From S2P Require Import GraphLemmas Filename Loader SquashLemmas LoaderLemmas Executor PlanLemmas.
From S2P Require Import ExecutorRuns.

(** ** The loop of migrateAllForwards *)

Section loop.
Context {W : Type} `{Conn W} (RealModels : list ModelState) (Progress : Event → option Migration → bool → W → W).

Lemma filter_to_run k (toRun : gset Key) (keys : list Key) :
  k ∉ keys → filter (fun x => x ∈ toRun ∖ {[k]}) keys = filter (fun x => x ∈ toRun) keys.
Proof.
  intros Hk. apply filter_iff_list. intros x Hx. rewrite elem_of_difference, elem_of_singleton.
  split; [tauto|]. intros Hr. split; [done|]. by intros ->.
Qed.

Lemma filter_steps k (toRun : gset Key) (full : list PlanStep) :
  k ∉ plan_keys full →
  filter (fun s => Migration_Key (pst_Migration s) ∈ toRun ∖ {[k]}) full =
  filter (fun s => Migration_Key (pst_Migration s) ∈ toRun) full.
Proof.
  intros Hk. apply filter_iff_list. intros x Hx. rewrite elem_of_difference, elem_of_singleton.
  split; [tauto|]. intros Hr. split; [done|]. intros Heq. apply Hk. rewrite <- Heq.
  apply (list_elem_of_fmap_2 (fun s => Migration_Key (pst_Migration s)) _ _ Hx).
Qed.

(** Each planned migration is applied once, in the order of the full plan,
    from the state the one before it left; the state is rendered before the
    first of them, and not at all when there is none. *)
Lemma forwards_loop_rendered toRun fake fakeInitial state full e :
  NoDup (plan_keys full) →
  forwards_loop RealModels Progress toRun true fake fakeInitial state full e =
  fold_io (fun st s => ApplyMigration RealModels Progress st (pst_Migration s) fake fakeInitial) state
    (filter (fun s => Migration_Key (pst_Migration s) ∈ toRun) full) e.
Proof.
  revert toRun state e. induction full as [|s full IH]; intros toRun state e Hnd; [done|].
  apply NoDup_cons in Hnd as [Hk Hnd]. cbn [forwards_loop].
  case_bool_decide as Hempty; [by rewrite Hempty, filter_none by set_solver|].
  case_bool_decide as Hin; [|by rewrite filter_cons_False, IH by done].
  rewrite filter_cons_True by done. cbn [fold_io]. unfold render, mbind, io_bind. cbn.
  destruct (ApplyMigration _ _ state (pst_Migration s) fake fakeInitial e) as [e1 [st|x|x]]; [|done|done].
  by rewrite IH, filter_steps by done.
Qed.

Lemma forwards_loop_eq toRun rendered fake fakeInitial state full e :
  NoDup (plan_keys full) →
  forwards_loop RealModels Progress toRun rendered fake fakeInitial state full e =
  match filter (fun s => Migration_Key (pst_Migration s) ∈ toRun) full with
  | [] => (e, Ok state)
  | steps => (st ← render Progress rendered state;
              fold_io (fun st s => ApplyMigration RealModels Progress st (pst_Migration s) fake fakeInitial) st steps) e
  end.
Proof.
  revert toRun state e. induction full as [|s full IH]; intros toRun state e Hnd; [done|].
  apply NoDup_cons in Hnd as [Hk Hnd]. cbn [forwards_loop].
  case_bool_decide as Hempty; [by rewrite Hempty, filter_none by set_solver|].
  case_bool_decide as Hin; [|by rewrite filter_cons_False, IH by done].
  rewrite filter_cons_True by done. unfold mbind, io_bind.
  destruct (render Progress rendered state e) as [e0 [st0|x|x]]; [|done|done]. cbn [fold_io]. unfold mbind, io_bind.
  destruct (ApplyMigration _ _ st0 (pst_Migration s) fake fakeInitial e0) as [e1 [st|x|x]]; [|done|done].
  by rewrite forwards_loop_rendered, filter_steps by done.
Qed.
End loop.

Section migrate.
Context {W : Type} `{ConnLaws W}.
Context (RealModels : list ModelState) (FormatOperation : Operation → string).
Context (Progress : Event → option Migration → bool → W → W).
Context (d : disk).
Hypothesis Hnested : well_founded (nested (replacements_of (dk_migrations d))).
Hypothesis Hprogress : ∀ ev mig fake w, rows (Progress ev mig fake w) = rows w.
Context (known : Loader → bool → Prop).
Hypothesis Hknown : ∀ l replace, known l replace → loader_for d replace l.

Notation running := (running known).
Notation editors_keep := (editors_keep FormatOperation).

(** ** Forwards *)

(** The migrations of the list have been recorded, one after the other, each
    after those it replaces. *)
Definition recorded_all (ks : list Key) (keys : list Key) (e : Executor W) : Prop :=
  ∃ ls, Forall2 (recorded_by d) keys ls ∧ running (ks ++ concat ls) e.

Lemma render_keeps rendered state ks :
  ensures (running ks) (render Progress rendered state) (fun _ => running ks).
Proof.
  unfold render. destruct rendered; [apply ensures_skip|].
  eapply ensures_bind; [by apply progress_keeps|]. intros [].
  eapply ensures_bind; [apply ensures_lift_any|]. intros s.
  eapply ensures_bind; [apply ensures_lift_any|]. intros r.
  eapply ensures_bind; [by apply progress_keeps|]. intros []. apply ensures_skip.
Qed.

Lemma forwards_loop_spec toRun rendered fake fakeInitial state full ks :
  NoDup (plan_keys full) →
  (∀ s, s ∈ full → Migration_Key (pst_Migration s) ∈ toRun → editors_keep (pst_Migration s)) →
  ensures (running ks) (forwards_loop RealModels Progress toRun rendered fake fakeInitial state full)
    (fun _ => recorded_all ks (filter (fun k => k ∈ toRun) (plan_keys full))).
Proof.
  revert toRun rendered state ks. induction full as [|s full IH]; intros toRun rendered state ks Hnd Hed; simpl.
  { intros e e' a He [= <- _]. exists []. split; [constructor|]. by rewrite app_nil_r. }
  apply NoDup_cons in Hnd as [Hk Hnd].
  assert (∀ toRun', toRun' ⊆ toRun → ∀ s, s ∈ full → Migration_Key (pst_Migration s) ∈ toRun' → editors_keep (pst_Migration s)) as Hed'.
  { intros toRun' Hsub x Hx Hr. apply Hed; [by right|]. by apply Hsub. }
  case_bool_decide as Hempty.
  { intros e e' a He [= <- _]. exists []. rewrite Hempty, filter_none; [|set_solver]. split; [constructor|].
    by rewrite app_nil_r. }
  case_bool_decide as Hin.
  2:{ rewrite filter_cons_False by done. apply IH; [done|]. by apply Hed'. }
  rewrite filter_cons_True by done. eapply ensures_bind; [apply render_keeps|]. intros st.
  eapply ensures_bind; [apply (ApplyMigration_spec _ FormatOperation _ d Hnested Hprogress known Hknown); apply Hed; [by left|done]|].
  intros st'. apply ensures_exist. intros l. apply ensures_pull. intros Hl.
  eapply ensures_weaken; [apply (IH (toRun ∖ {[Migration_Key (pst_Migration s)]}) true st' (ks ++ l) Hnd); apply Hed'; set_solver|done|].
  intros a e (ls & Hls & He). rewrite filter_to_run in Hls by done. exists (l :: ls). split; [by constructor|].
  simpl. by rewrite app_assoc.
Qed.

(** ** Backwards *)

Definition unrecorded_all (ks : list Key) (keys : list Key) (e : Executor W) : Prop :=
  ∃ ks', (∀ x, x ∈ ks' ↔ x ∈ ks ∧ ¬ ∃ k, k ∈ keys ∧ rtc (nested (replacements_of (dk_migrations d))) x k) ∧
         running ks' e.

Lemma unapply_loop_spec plan (states : Key → option ProjectState) fake ks :
  (∀ s, s ∈ plan → editors_keep (pst_Migration s)) →
  ensures (running ks)
    (for_io plan (fun s =>
      _ ← UnapplyMigration FormatOperation Progress (states (Migration_Key (pst_Migration s))) (pst_Migration s) fake; mret tt))
    (fun _ => unrecorded_all ks (plan_keys plan)).
Proof.
  intros Hed. unfold for_io.
  eapply ensures_weaken; [apply (ensures_fold (fun done (_ : unit) => unrecorded_all ks (plan_keys done)))| |done].
  - intros done [] s rest Hl. apply ensures_exist. intros ks1. apply ensures_pull. intros Hks1.
    eapply ensures_bind.
    { apply (UnapplyMigration_spec FormatOperation Progress d Hnested Hprogress known Hknown). apply Hed.
      rewrite Hl. apply elem_of_app. right. left. }
    intros st. apply ensures_exist. intros ks2. apply ensures_pull. intros Hks2. intros e e' a He [= <- _].
    exists ks2. split; [|done]. intros x. rewrite Hks2, Hks1. unfold plan_keys. rewrite map_app. simpl.
    setoid_rewrite elem_of_app. setoid_rewrite list_elem_of_singleton. clear. naive_solver.
  - intros e He. exists ks. split; [|done]. intros x. split; [|tauto]. intros Hx. split; [done|].
    by intros (k & Hk%elem_of_nil & _).
Qed.

Lemma migrateAllBackwards_spec plan full fake ks :
  (∀ s, s ∈ plan → editors_keep (pst_Migration s)) →
  ensures (running ks) (migrateAllBackwards RealModels FormatOperation Progress plan full fake)
    (fun _ => unrecorded_all ks (plan_keys plan)).
Proof.
  intros Hed. unfold migrateAllBackwards. eapply ensures_bind; [apply ensures_get_any|]. intros e0.
  eapply ensures_bind; [by apply progress_keeps|]. intros [].
  eapply ensures_bind; [apply ensures_lift_any|]. intros states.
  eapply ensures_bind; [by apply progress_keeps|]. intros [].
  eapply ensures_bind; [by apply (unapply_loop_spec plan (fun k => states !! k))|]. intros [].
  eapply ensures_bind; [apply ensures_lift_any|]. intros s.
  eapply ensures_bind; [apply ensures_lift_any|]. intros before.
  eapply ensures_bind; [apply ensures_lift_any|]. intros st. apply ensures_skip.
Qed.

(** ** CheckReplacements *)

Definition completed (ks extra : list Key) : Prop :=
  NoDup extra ∧ ∀ k, k ∈ extra ↔ is_Some (replacements_of (dk_migrations d) !! k) ∧ k ∉ ks ∧
    all_applied (replacements_of (dk_migrations d)) (list_to_set ks) k.

Lemma check_replacements_spec l ks keys :
  ld_Replacements l = replacements_of (dk_migrations d) → NoDup keys →
  triple (records ks) (for_io keys (check_replacement l (list_to_set ks)))
    (fun _ r => ∃ extra, NoDup extra ∧
       (∀ k, k ∈ extra ↔ k ∈ keys ∧ k ∉ ks ∧ all_applied (replacements_of (dk_migrations d)) (list_to_set ks) k) ∧
       records (ks ++ extra) r)
    (fun r => ∃ extra, records (ks ++ extra) r).
Proof.
  intros Hl Hnd. unfold for_io.
  set (I := fun (done : list Key) (r : Recorder W) => ∃ extra, NoDup extra ∧
       (∀ k, k ∈ extra ↔ k ∈ done ∧ k ∉ ks ∧ all_applied (replacements_of (dk_migrations d)) (list_to_set ks) k) ∧
       records (ks ++ extra) r).
  eapply triple_weaken;
    [apply (triple_fold (fun done (_ : unit) => I done) (fun r => ∃ extra, records (ks ++ extra) r))|..].
  - intros done [] k rest Hkeys r (extra & Hne & Hex & Hr). unfold check_replacement.
    assert (k ∉ extra) as Hnew.
    { rewrite Hex. intros [Hk _]. rewrite Hkeys in Hnd. apply NoDup_app in Hnd as (_ & Hnd & _).
      apply (Hnd k Hk). left. }
    case_bool_decide as Hks; rewrite elem_of_list_to_set in Hks.
    + exists extra. split_and!; [done| |exact Hr]. intros x. rewrite Hex, elem_of_app, list_elem_of_singleton. naive_solver.
    + destruct (replaced_applied_spec l k (list_to_set ks)) as (b & Hb & Hall); [by rewrite Hl|]. rewrite Hl in Hall.
      unfold mbind, io_bind, lift. rewrite Hb. destruct b.
      * pose proof (record_applied (ks ++ extra) (key_App k) (key_Name k) r Hr) as Hrec.
        destruct (RecordApplied (key_App k) (key_Name k) r) as [r' [a|x|x]]; [|by exists extra|done].
        exists (extra ++ [k]). split_and!.
        -- apply NoDup_app. split_and!; [done| |apply NoDup_singleton]. by intros x Hx ->%list_elem_of_singleton.
        -- intros x. rewrite !elem_of_app, !list_elem_of_singleton, Hex. pose proof (proj1 Hall eq_refl). naive_solver.
        -- rewrite app_assoc. by destruct k.
      * exists extra. split_and!; [done| |exact Hr]. intros x. rewrite Hex, elem_of_app, list_elem_of_singleton.
        assert (¬ all_applied (replacements_of (dk_migrations d)) (list_to_set ks) k) as Hno by (by intros ?%Hall).
        naive_solver.
  - intros r Hr. exists []. rewrite app_nil_r. split_and!; [constructor| |done]. intros k. rewrite !elem_of_nil. tauto.
  - done.
  - done.
Qed.

Lemma CheckReplacements_spec ks :
  triple (running ks) CheckReplacements (fun _ e => ∃ extra, completed ks extra ∧ running (ks ++ extra) e)
    (fun e => ∃ extra, running (ks ++ extra) e).
Proof.
  intros e He. unfold CheckReplacements, mbind, io_bind, get_state. cbn.
  pose proof (triple_recorder known _ _ _ _ (applied_migrations ks) e He) as Hk.
  destruct (on_recorder AppliedMigrations e) as [e1 [l|x|x]] eqn:Hr; [| |done].
  2:{ exists []. rewrite app_nil_r. exact Hk. }
  destruct Hk as [[-> Hr1] Hl1].
  assert (ex_Loader e = ex_Loader e1) as ->.
  { revert Hr. unfold on_recorder, zoom. destruct (AppliedMigrations (ex_Recorder e)) as [r o]. by intros [= <- _]. }
  destruct (loaded_disk d known Hknown e1 Hl1) as [_ Hrep].
  pose proof (triple_recorder known _ _ _ _ (check_replacements_spec (ex_Loader e1) ks (sorted_keys (ld_Replacements (ex_Loader e1)))
    Hrep (NoDup_sorted_keys _)) e1 (conj Hr1 Hl1)) as Hc.
  destruct (on_recorder _ e1) as [e2 [a|x|x]]; [| |done].
  - destruct Hc as [(extra & Hnd & Hex & Hrec) Hl]. exists extra. split; [|by split]. split; [done|]. intros k.
    by rewrite Hex, elem_of_sorted_keys, Hrep.
  - destruct Hc as [(extra & Hrec) Hl]. by exists extra.
Qed.

(** ** A whole plan *)

(** What is recorded once a plan has run: the migrations it applies, with
    those they replace, or what is left without the ones it unapplies. *)
Definition plan_recorded (plan : list PlanStep) (ks ks1 : list Key) : Prop :=
  (forwards plan ∧ ∀ x, x ∈ ks1 ↔
     x ∈ ks ∨ ∃ k, k ∈ plan_keys plan ∧ rtc (nested (replacements_of (dk_migrations d))) x k) ∨
  (backwards plan ∧ ∀ x, x ∈ ks1 ↔
     x ∈ ks ∧ ¬ ∃ k, k ∈ plan_keys plan ∧ rtc (nested (replacements_of (dk_migrations d))) x k).

Context (cfg : Config).
Hypothesis Hdisk : loadDisk cfg = Ok d.
Hypothesis Hsane : sane_project d.

Lemma running_executor ks e : running ks e → executor_at d ks e.
Proof. intros [Hr Hl]. split; [done|by apply Hknown]. Qed.

Lemma full_plan_keeps ks :
  ensures (running ks) (full_plan cfg) (fun full e => is_full_plan (ld_Graph (ex_Loader e)) full ∧ running ks e).
Proof.
  intros e e' full He Hf. destruct (full_plan_eq cfg d Hdisk Hsane ks e (running_executor ks e He)) as (full' & Hf' & Hfull).
  rewrite Hf' in Hf. by injection Hf as <- <-.
Qed.

Lemma CreateProjectState_keeps withApplied ks :
  ensures (running ks) (CreateProjectState cfg RealModels withApplied) (fun _ => running ks).
Proof.
  unfold CreateProjectState. eapply ensures_bind; [apply ensures_get_any|]. intros e0.
  destruct (negb withApplied); [apply ensures_skip|].
  eapply (ensures_bind _ _ (fun _ => running ks)); [by eapply (ensures_weaken _ _ _ _ _ (full_plan_keeps ks)); [|intros a e []]|].
  intros full.
  eapply ensures_bind; [apply ensures_get_any|]. intros e1. apply ensures_lift_any.
Qed.

Lemma elem_of_recorded keys ls x :
  Forall2 (recorded_by d) keys ls →
  x ∈ concat ls ↔ ∃ k, k ∈ keys ∧ rtc (nested (replacements_of (dk_migrations d))) x k.
Proof.
  induction 1 as [|k l keys ls [_ Hl] _ IH]; simpl.
  - rewrite elem_of_nil. split; [done|]. by intros (k & Hk%elem_of_nil & _).
  - rewrite elem_of_app, Hl, IH, exists_cons. done.
Qed.

Lemma run_plan_spec opts plan full ks g :
  is_full_plan g full →
  (∀ s, s ∈ plan → g_Nodes g !! Migration_Key (pst_Migration s) = Some (Some (pst_Migration s))) →
  (∀ k mig, g_Nodes g !! k = Some (Some mig) → editors_keep mig) →
  ensures (running ks) (run_plan cfg RealModels FormatOperation Progress opts plan full)
    (fun _ e => ∃ ks1, plan_recorded plan ks ks1 ∧ running ks1 e).
Proof.
  intros [Hnodes Hnd Hsteps _] Hplan Hed. unfold run_plan.
  assert (∀ s, ensures (running s) (match mo_State opts with Some st => mret st | None => CreateProjectState cfg RealModels true end)
    (fun _ => running s)) as Hinit.
  { intros s. destruct (mo_State opts); [apply ensures_skip|apply CreateProjectState_keeps]. }
  case_bool_decide as Hlen.
  { destruct plan; [|done]. eapply ensures_bind; [apply Hinit|]. intros st e e' a He [= <- _]. exists ks. split; [|done].
    left. split; [constructor|]. intros x. split; [by left|]. intros [?|(k & Hk%elem_of_nil & _)]; done. }
  destruct (Bool.eqb _ _) eqn:Heq; [by intros e e' a _ [=]|].
  destruct (forallb (fun s => negb (pst_Backwards s)) plan) eqn:Hfw.
  - eapply ensures_bind; [apply Hinit|]. intros st.
    eapply ensures_weaken; [apply forwards_loop_spec; [exact Hnd|]|intros e He; exact He|].
    + intros s Hs _. by eapply Hed, Hsteps.
    + intros a e (ls & Hls & He). exists (ks ++ concat ls). split; [|done]. left. split.
      * apply Forall_forall. intros s Hs. rewrite forallb_forall in Hfw. apply list_elem_of_In, Hfw in Hs.
        by apply negb_true_iff in Hs.
      * intros x. rewrite elem_of_app, (elem_of_recorded _ _ x Hls). apply or_iff_compat_l, exist_proper. intros k.
        rewrite list_elem_of_filter, elem_of_list_to_set. split; [tauto|]. intros [Hk Hx]. split_and!; [done| |done].
        apply Hnodes. apply list_elem_of_fmap in Hk as (s & -> & Hs). by rewrite (Hplan s Hs).
  - assert (backwards plan) as Hbw.
    { apply Forall_forall. intros s Hs. destruct (forallb pst_Backwards plan) eqn:Hb; [|done].
      rewrite forallb_forall in Hb. by apply Hb, list_elem_of_In. }
    eapply ensures_weaken; [apply migrateAllBackwards_spec|intros e He; exact He|].
    + intros s Hs. by eapply Hed, Hplan.
    + intros a e (ks1 & Hks1 & He). exists ks1. split; [|done]. by right.
Qed.
End migrate.

Section executor.
Context {W : Type} `{ConnLaws W}.
Context (cfg : Config) (RealModels : list ModelState) (FormatOperation : Operation → string).
Context (Progress : Event → option Migration → bool → W → W).
Context (d : disk).

Notation replaced := (nested (replacements_of (dk_migrations d))).

(** ** Plans *)

(** C3: a plan respects the dependencies and does what its targets say.
    Whatever is applied, consistent or not, each step forwards of the plan
    applies a migration not yet applied after all it depends on, each step
    backwards unapplies an applied one nothing applied depends on, and target
    by target the plan ends where the target says. For targets on disk that
    are all in the graph there always is a plan, and the database is not even
    read for it. When one of them is not, since a squash has replaced it, the
    executor loads the project again without replacing, once, and there is a
    plan when that succeeds; when it fails, MigrationPlan fails with its
    error, which is that of reading the records or that of building a graph
    of all the migrations on disk, one of which may depend on a migration
    that is gone. *)
Theorem MigrationPlan_correct ks targets cleanStart e :
  loadDisk cfg = Ok d → sane_project d →
  (∀ t, t ∈ targets → key_Name t ≠ "" → is_Some (dk_migrations d !! t)) → executor_at d ks e →
  let plans e' r := executor_at d ks e' ∧
    ∃ plan s', r = (e', Ok plan) ∧
      plan_run (ld_Graph (ex_Loader e')) (plan_start cleanStart e') plan s' ∧
      targets_reached (ld_Graph (ex_Loader e')) (plan_start cleanStart e') targets s' in
  (¬ missing_target (ld_Graph (ex_Loader e)) targets → plans e (MigrationPlan cfg targets cleanStart e)) ∧
  (missing_target (ld_Graph (ex_Loader e)) targets →
     match new_loader cfg false (ex_Recorder e) with
     | (r, Ok l) => plans (ex_set_Loader l (ex_set_Recorder r (ex_set_ReplaceMigrations false e)))
                      (MigrationPlan cfg targets cleanStart e)
     | (r, Err x) => records ks r ∧ (MigrationPlan cfg targets cleanStart e).2 = Err x ∧
         (AppliedMigrations (ex_Recorder e) = (r, Err x) ∨ build (cfg_set_ReplaceMigrations false cfg) d ks = Err x)
     | (_, Panic _) => False
     end).
Proof.
  intros Hdisk Hsane Hts He plans. split.
  - intros Hin. destruct (MigrationPlan_here cfg d Hdisk ks targets cleanStart e Hts He Hin) as (plan & -> & s' & Hp).
    split; [done|]. by exists plan, s'.
  - intros Hmiss. pose proof (MigrationPlan_reloads cfg d Hdisk Hsane ks targets cleanStart e Hts He Hmiss) as Hr.
    pose proof (new_loader_fails cfg d Hdisk ks (ex_Recorder e) (proj1 He)) as Hf.
    destruct (new_loader cfg false (ex_Recorder e)) as [r [l|x|x]]; [|by destruct Hr as [Hr ->]|done].
    destruct Hr as (He' & plan & -> & s' & Hp). split; [exact He'|]. by exists plan, s'.
Qed.

(** ** Running a plan *)

(** MigrateAllForwards applies each planned migration once, in the order
    of the full plan, each from the state the one before it left. The state
    is rendered once before the first of them, unless it already was, and not
    at all when there is none; the first failure ends the run. *)
Theorem migrateAllForwards_runs state plan full fake fakeInitial e :
  NoDup (plan_keys full) →
  migrateAllForwards RealModels Progress state plan full fake fakeInitial e =
  match filter (fun s => Migration_Key (pst_Migration s) ∈ plan_keys plan) full with
  | [] => (e, Ok (Some state))
  | steps => (st ← render Progress (Rendered state) (Some state);
              fold_io (fun st s => ApplyMigration RealModels Progress st (pst_Migration s) fake fakeInitial) st steps) e
  end.
Proof.
  intros Hnd. unfold migrateAllForwards. rewrite forwards_loop_eq by done.
  assert (filter (fun s => Migration_Key (pst_Migration s) ∈ (list_to_set (plan_keys plan) : gset Key)) full =
          filter (fun s => Migration_Key (pst_Migration s) ∈ plan_keys plan) full) as ->; [|done].
  apply filter_iff_list. intros s _. apply elem_of_list_to_set.
Qed.

(** C27: a migration that fails is not recorded. When its editor cannot begin,
    or one of its operations fails, ApplyMigration returns an error and has
    done nothing but open the editor, run that far, and close it. *)
Theorem ApplyMigration_failed state mig e ed w1 w2 err :
  NewEditor false (IsAtomic mig) (Progress ApplyStart (Some mig) false (rc_world (ex_Recorder e))) = (w1, ed) →
  (_ ← med_Begin ed; @Apply W (med_Editor ed) mig state) w1 = (w2, Err err) →
  (∀ w, is_ok (med_Finish ed (Some err) w).2 = false) →
  let r := ApplyMigration RealModels Progress (Some state) mig false false e in
  is_ok r.2 = false ∧
  r.1 = ex_set_Recorder (rc_set_world (med_Finish ed (Some err) w2).1 (ex_Recorder e)) e.
Proof.
  intros Hed Hrun Hfinish. unfold ApplyMigration, run_forwards, apply_in_editor, progress, new_editor.
  unfold mbind, io_bind, on_world, on_recorder, on_conn, zoom, attempt, modify, get_state in *. cbn in *.
  rewrite Hed. cbn. specialize (Hfinish w2).
  destruct (med_Begin ed w1) as [w1' [[]|x|x]]; cbn in *; [|injection Hrun as -> ->|done].
  - unfold Apply_pointer, mbind, io_bind. destruct (Apply mig state w1') as [w2' [s|x|x]]; [done| |done].
    cbn in *. injection Hrun as -> ->. destruct (med_Finish ed (Some err) w2) as [w3 [a|y|y]]; cbn in *; done.
  - destruct (med_Finish ed (Some err) w2) as [w3 [a|y|y]]; cbn in *; done.
Qed.

(** CheckReplacements records exactly the squashed migrations that were
    not recorded and behind which everything is, each once. *)
Theorem CheckReplacements_correct ks :
  well_founded replaced →
  triple (executor_at d ks) CheckReplacements
    (fun _ e => ∃ extra, executor_at d (ks ++ extra) e ∧ NoDup extra ∧
       ∀ k, k ∈ extra ↔ is_Some (replacements_of (dk_migrations d) !! k) ∧ k ∉ ks ∧
              all_applied (replacements_of (dk_migrations d)) (list_to_set ks) k)
    (fun e => ∃ extra, executor_at d (ks ++ extra) e).
Proof.
  intros Hn. eapply triple_weaken;
    [apply (CheckReplacements_spec d Hn (fun l b => loader_for d b l) (fun _ _ => id) ks)|done| |done].
  intros [] e (extra & [Hnd Hex] & He). by exists extra.
Qed.

(** Recording a migration records those it replaces with it, and those
    they replace, each after those it replaces itself; unrecording it
    unrecords the same ones. *)
Theorem RecordMigration_correct ks app name :
  well_founded replaced →
  triple (executor_at d ks) (RecordMigration app name true)
    (fun _ e => ∃ l, executor_at d (ks ++ l) e ∧ last l = Some (mkKey app name) ∧
       ∀ x, x ∈ l ↔ rtc replaced x (mkKey app name))
    (fun e => ∃ l, executor_at d (ks ++ l) e) ∧
  triple (executor_at d ks) (RecordMigration app name false)
    (fun _ e => ∃ ks', executor_at d ks' e ∧ ∀ x, x ∈ ks' ↔ x ∈ ks ∧ ¬ rtc replaced x (mkKey app name))
    (fun e => ∃ ks', ks' `sublist_of` ks ∧ executor_at d ks' e).
Proof.
  intros Hn. split.
  - eapply triple_weaken;
      [apply (RecordMigration_applied d Hn (fun l b => loader_for d b l) (fun _ _ => id) ks)|done| |done].
    intros [] e (l & [Hlast Hl] & He). by exists l.
  - eapply triple_weaken;
      [apply (RecordMigration_unapplied d Hn (fun l b => loader_for d b l) (fun _ _ => id) ks)|done| |done].
    intros [] e (ks' & Hks & He). by exists ks'.
Qed.

(** ** MigrateTo *)

(** a plan with steps in both directions is refused before any of its
    migrations is run. *)
Theorem MigrateTo_mixed ks opts plan :
  loadDisk cfg = Ok d → sane_project d → mo_Plan opts = Some plan →
  (∃ s, s ∈ plan ∧ pst_Backwards s = true) → (∃ s, s ∈ plan ∧ pst_Backwards s = false) →
  triple (executor_at d ks) (MigrateTo cfg RealModels FormatOperation Progress opts)
    (fun _ _ => False) (executor_at d ks).
Proof.
  intros Hdisk Hsane Hplan (s1 & Hs1 & Hb1) (s2 & Hs2 & Hb2) e He. unfold MigrateTo. rewrite Hplan.
  destruct plan as [|s plan]; [by apply elem_of_nil in Hs1|]. set (steps := s :: plan) in *.
  pose proof (triple_recorder (fun l b => loader_for d b l) _ ks _ _ (ensure_schema ks) e He) as Hens.
  unfold mbind, io_bind. destruct (on_recorder EnsureSchema e) as [e1 [a|x|x]]; cbn [mret io_ret]; [|exact Hens|done].
  cbn -[full_plan run_plan]. destruct (full_plan_eq cfg d Hdisk Hsane ks e1 Hens) as (full & -> & _).
  assert (run_plan cfg RealModels FormatOperation Progress opts steps full e1 = (e1, Err (not_supported steps))) as ->; [|exact Hens].
  unfold run_plan.
  assert (forallb (fun s => negb (pst_Backwards s)) steps = false) as ->.
  { apply not_true_iff_false. rewrite forallb_forall. intros Hall. apply list_elem_of_In in Hs1.
    specialize (Hall s1 Hs1). by rewrite Hb1 in Hall. }
  assert (forallb pst_Backwards steps = false) as ->; [|done].
  apply not_true_iff_false. rewrite forallb_forall. intros Hall. apply list_elem_of_In in Hs2.
  specialize (Hall s2 Hs2). by rewrite Hb2 in Hall.
Qed.

(** C2: from targets to records. When MigrateTo returns without an error,
    the plan it ran is a plan for the targets; if the plan goes forwards the
    migrations it applies are recorded besides what was, with those they
    replace, and if it goes backwards those it unapplies no longer are;
    lastly every squashed migration behind which everything is recorded is
    recorded too. This asks of the database what [ConnLaws] says, and of the
    migrations and their editors that they leave the migrations table alone. *)
Theorem MigrateTo_records ks opts e e' st :
  loadDisk cfg = Ok d → sane_project d → well_founded replaced →
  (∀ ev mig fake w, rows (Progress ev mig fake w) = rows w) →
  (∀ k mig, dk_migrations d !! k = Some mig → editors_keep FormatOperation mig) →
  (∀ t, t ∈ mo_Targets opts → key_Name t ≠ "" → is_Some (dk_migrations d !! t)) →
  mo_Plan opts = None → executor_at d ks e →
  MigrateTo cfg RealModels FormatOperation Progress opts e = (e', Ok st) →
  ∃ plan ks1 extra,
    plan_for (mo_Targets opts) false plan e' ∧ plan_recorded d plan ks ks1 ∧ completed d ks1 extra ∧
    executor_at d (ks1 ++ extra) e'.
Proof.
  intros Hdisk Hsane Hn Hprogress Hed Hts Hplan He Hrun. revert e e' st He Hrun.
  change (ensures (executor_at d ks) (MigrateTo cfg RealModels FormatOperation Progress opts) (fun _ e' => ∃ plan ks1 extra,
    plan_for (mo_Targets opts) false plan e' ∧ plan_recorded d plan ks ks1 ∧ completed d ks1 extra ∧
    executor_at d (ks1 ++ extra) e')).
  unfold MigrateTo. rewrite Hplan.
  eapply (ensures_bind _ _ (fun go e => go = true ∧ executor_at d ks e)).
  { eapply ensures_bind; [|intros a; apply ensures_ret]. apply (triple_ensures _ _ _ _
      (triple_recorder (fun l b => loader_for d b l) _ ks _ _ (ensure_schema ks))). }
  intros go. apply ensures_pull. intros ->. simpl negb. cbn iota.
  eapply ensures_bind; [apply (triple_ensures _ _ _ _ (MigrationPlan_spec cfg d Hdisk Hsane ks _ false Hts))|].
  intros plan e1 e2 st [He1 Hp] Hrun.
  set (known := fun (l : Loader) (b : bool) => l = ex_Loader e1 ∧ b = ex_ReplaceMigrations e1).
  assert (∀ l b, known l b → loader_for d b l) as Hknown by (intros l b [-> ->]; apply He1).
  set (g := ld_Graph (ex_Loader e1)).
  cut (∃ ks1 extra, plan_recorded d plan ks ks1 ∧ completed d ks1 extra ∧ running known (ks1 ++ extra) e2).
  { intros (ks1 & extra & H1 & H2 & [H3 Hl2]). exists plan, ks1, extra. split_and!; [|done|done|split; [done|by apply Hknown]].
    destruct Hl2 as [Hl2 _]. unfold plan_for, plan_start. by rewrite Hl2. }
  assert (running known ks e1) as He1' by by split; [apply He1|].
  revert He1' Hrun. revert e2 st. 
  cut (ensures (fun e => running known ks e) (
      full ← full_plan cfg; state ← run_plan cfg RealModels FormatOperation Progress opts plan full;
      _ ← CheckReplacements; mret state)
    (fun _ e2 => ∃ ks1 extra, plan_recorded d plan ks ks1 ∧ completed d ks1 extra ∧ running known (ks1 ++ extra) e2)).
  { intros Hens e2 st He1' Hrun. by eapply Hens. }
  eapply (ensures_bind _ _ (fun full e => is_full_plan g full ∧ running known ks e)).
  { eapply ensures_weaken; [apply (full_plan_keeps d known Hknown cfg Hdisk Hsane ks)|by intros e He; exact He|].
    intros full e [Hf He]. split; [|done]. destruct He as [_ [Hl _]]. by rewrite Hl in Hf. }
  intros full. apply ensures_pull. intros Hfull.
  eapply ensures_bind.
  { apply (run_plan_spec RealModels FormatOperation Progress d Hn Hprogress known Hknown cfg Hdisk Hsane opts plan full ks g Hfull).
    - intros s Hs. destruct Hp as (s' & Hprun & _). by eapply plan_run_nodes.
    - intros k mig Hk. destruct He1 as [_ [Hlw (Hdm & _) _ _]]. destruct (lw_nodes _ Hlw k _ Hk) as (mig' & [= <-] & Hmig).
      rewrite Hdm in Hmig. by eapply Hed. }
  intros state. apply ensures_exist. intros ks1. apply ensures_pull. intros Hks1.
  eapply ensures_bind; [apply (triple_ensures _ _ _ _ (CheckReplacements_spec d Hn known Hknown ks1))|].
  intros []. intros e e' a (extra & Hex & He) [= <- _]. by exists ks1, extra.
Qed.
End executor.
