(* ===== verification/Examples.v ===== *)
(** * An example project

    A small project and a database that only writes down what it is asked
    for: concrete inputs at which the theorems are used, and evidence that
    their hypotheses can hold. *)

From S2P Require Import Prelude GoStd Keys Errors Fields Index ModelState Apps ProjectState StateLemmas Operation.
From S2P Require Import OperationLemmas Optimizer Reduce OptimizerTermination OptimizerSound SchemaEditor OpDatabase.
From S2P Require Import Migration MigrationLemmas Traversal Graph GraphLemmas Filename Loader SquashLemmas.
From S2P Require Import LoaderLemmas.

(** ** Operations *)

Definition int_field (pk : bool) : Field :=
  mkField Int_ 64 0 0 pk pk 0 false false None None "" None None None false false "".
Definition text_field : Field :=
  mkField String_ 100 0 0 false false 0 false false None (Some (AnyString "?")) "" None None None false false "".
Definition author_key : Field :=
  mkField Int_ 64 0 0 false false 0 false false None None "" None None
    (Some (mkForeignKey "blog.Author" "" Cascade NoAction "")) false false "".

Definition create_author : Operation := CreateModel "Author" "" [mkNamedField "id" (int_field true)] zero_Options.
Definition add_name : Operation := AddField "Author" "name" text_field None.
Definition widen_name : Operation :=
  AlterField "Author" "name" (fld_set_Default None text_field) None.
Definition create_order : Operation :=
  CreateModel "Order" "" [mkNamedField "id" (int_field true); mkNamedField "author" author_key] zero_Options.

Definition author : ModelKey := mkModelKey "blog" "author".

Definition blog_ops : list Operation := [create_author; add_name; widen_name].

(** The state after the model has been created *)
Definition author_state : ProjectState :=
  match StateForwards create_author "blog" NewProjectState with Ok s => s | _ => NewProjectState end.

(** ** Migrations *)

Definition migration (app name : string) (dependencies replaces : list Key) (ops : list Operation) : Migration :=
  mkMigration app name dependencies [] replaces None None ops "".

Definition blog1 : Migration := migration "blog" "0001_initial" [] [] [create_author].
Definition blog2 : Migration := migration "blog" "0002_name" [Dep "blog" "0001_initial"] [] [add_name].
Definition blog3 : Migration := migration "blog" "0003_widen" [Dep "blog" "0002_name"] [] [widen_name].
Definition shop1 : Migration := migration "shop" "0001_initial" [Dep "blog" "0002_name"] [] [create_order].
(** Squashes the first two migrations of the blog *)
Definition squash12 : Migration :=
  migration "blog" "0001_squashed" [] [Dep "blog" "0001_initial"; Dep "blog" "0002_name"] [create_author; add_name].

Definition registered_in (ms : list Migration) (app : string) : list Migration :=
  filter (fun m => mig_App m = app) ms.

Definition config (ms : list Migration) (replace : bool) : Config :=
  mkConfig [mkAppSpec "blog" "" false; mkAppSpec "shop" "" false; mkAppSpec "auth" "" true] (registered_in ms)
    (fun _ => true) false replace false (fun _ => Ok None).

Definition disk_of (ms : list Migration) : disk :=
  match loadDisk (config ms false) with Ok d => d | _ => mkDisk ∅ ∅ ∅ end.

Definition plain : list Migration := [blog1; blog2; blog3; shop1].
Definition squashed : list Migration := squash12 :: plain.

Definition no_loader : Loader := mkLoader New ∅ ∅ [] ∅ ∅ ∅.
Definition loader (ms : list Migration) (replace : bool) (recorded : list Key) : Loader :=
  match build (config ms replace) (disk_of ms) recorded with Ok l => l | _ => no_loader end.

Definition graph (ms : list Migration) : Graph := ld_Graph (loader ms false []).

(** ** A database that writes down what it is asked for *)

Definition log (line : string) : io (list string) unit := fun w => (w ++ [line], Ok tt).

Definition field_name (f : option FieldPtr) : string :=
  match f with Some f => mf_Name f | None => "" end.

Definition recorder_editor (allow : bool) : SchemaEditor (list string) := {|
  Vendor := "postgresql";
  AllowMigrate := fun _ _ => allow;
  InAtomicBlock := None;
  count_extension := fun _ => mret 0%Z;
  AtomicMigration := true;
  Atomic := fun run => run;
  CollectSQL := false;
  CollectedSQL := fun _ => [];
  AddCollected := fun _ => mret tt;
  Execute := fun sql _ => log sql;
  PrepareSQLScript := None;
  ed_CreateModel := fun m => log ("create " +:+ m_Name m);
  ed_DeleteModel := fun m => log ("delete " +:+ m_Name m);
  ed_AddField := fun m f => log ("add " +:+ m_Name m +:+ "." +:+ field_name f);
  ed_RemoveField := fun m f => log ("remove " +:+ m_Name m +:+ "." +:+ field_name f);
  ed_AlterField := fun m old new _ => log ("alter " +:+ m_Name m +:+ "." +:+ field_name old);
  ed_AlterDBTable := fun m _ _ => log ("rename table " +:+ m_Name m);
  ed_AlterDBTableComment := fun m _ _ => log ("comment " +:+ m_Name m);
  ed_AlterUniqueTogether := fun m _ _ => log ("unique together " +:+ m_Name m);
  ed_AddIndex := fun m _ => log ("add index " +:+ m_Name m);
  ed_RemoveIndex := fun m _ => log ("remove index " +:+ m_Name m);
  ed_RenameIndex := fun m _ _ => log ("rename index " +:+ m_Name m);
  ed_AddConstraint := fun m _ => log ("add constraint " +:+ m_Name m);
  ed_RemoveConstraint := fun m _ => log ("remove constraint " +:+ m_Name m);
  pg_Editor := None;
  run_code := fun _ _ => mret tt;
|}.
