(* ===== verification/Witnesses.v ===== *)
(** * The theorems at the example project

    Each theorem that has hypotheses, used at a concrete input where they
    hold. *)

From S2P Require Import Prelude GoStd Keys Errors Fields Index ModelState Apps ProjectState StateLemmas Operation.
From S2P Require Import OperationLemmas Optimizer Reduce OptimizerTermination OptimizerSound SchemaEditor OpDatabase.
From S2P Require Import Migration MigrationLemmas Traversal Graph GraphLemmas Filename Loader SquashLemmas.
From S2P Require Import LoaderLemmas Examples.

(** ** The hypotheses at the example *)

Definition sane_migrations (ms : gmap Key Migration) : Prop :=
  map_Forall (fun k mig => k ∉ mig_Dependencies mig ∧ k ∉ mig_RunBefore mig) ms.

Lemma sane_by_decision d :
  bool_decide ("" ∉ dk_migrated d) && bool_decide (sane_migrations (dk_migrations d)) = true → sane_disk d.
Proof.
  intros [H1%bool_decide_eq_true H2%bool_decide_eq_true]%andb_true_iff. split; [done|]. intros k mig Hk. by apply (H2 k mig).
Qed.

Lemma sane_plain : sane_disk (disk_of plain).
Proof. apply sane_by_decision. vm_compute. reflexivity. Qed.

Lemma sane_squashed : sane_disk (disk_of squashed).
Proof. apply sane_by_decision. vm_compute. reflexivity. Qed.

Lemma loader_ok d ms replace recorded :
  sane_disk d → d = disk_of ms → is_ok (build (config ms replace) d recorded) = true →
  build (config ms replace) d recorded = Ok (loader ms replace recorded) ∧ loader_wf (loader ms replace recorded).
Proof.
  intros Hs -> Hok. pose proof (build_spec (config ms replace) (disk_of ms) recorded Hs) as H. unfold loader.
  destruct (build _ _ _) as [l|e|e]; [|done|done]. by destruct H as (? & _).
Qed.

Lemma plain_loader replace : is_ok (build (config plain replace) (disk_of plain) []) = true →
  loader_wf (loader plain replace []).
Proof. intros H. by apply (loader_ok (disk_of plain)); [apply sane_plain|..]. Qed.

Lemma plain_wf : loader_wf (loader plain false []).
Proof. apply plain_loader. vm_compute. reflexivity. Qed.

Lemma plain_graph_wf : graph_wf (graph plain).
Proof. apply plain_wf. Qed.

Lemma plain_acyclic : acyclic (graph plain).
Proof. apply plain_wf. Qed.

Lemma squashed_graph_wf : graph_wf (graph squashed).
Proof.
  apply (loader_ok (disk_of squashed) squashed false []); [apply sane_squashed|done|]. vm_compute. reflexivity.
Qed.

Lemma NewProjectState_wf : state_wf NewProjectState.
Proof. split; [apply map_Forall_empty|]. by intros a. Qed.

Lemma author_state_wf : state_wf author_state.
Proof.
  apply (StateForwards_wf create_author "blog" NewProjectState); [apply NewProjectState_wf|]. vm_compute. reflexivity.
Qed.

Lemma NewProjectState_distinct : names_distinct NewProjectState.
Proof. apply map_Forall_empty. Qed.

Lemma blog_history : well_formed_history "blog" (fun _ => author) blog_ops NewProjectState.
Proof.
  split_and!; [apply NewProjectState_distinct| |vm_compute; reflexivity].
  unfold blog_ops. repeat apply Forall_cons_2; try apply Forall_nil_2; repeat constructor.
Qed.

(** A computation that succeeds has a value. *)
Lemma ok_value {A} (o : outcome A) : is_ok o = true → ∃ a, o = Ok a.
Proof. destruct o as [a|e|e]; [by exists a|done|done]. Qed.

(** ** The optimizer *)

Lemma Optimize_sound_witness :
  well_formed_history "blog" (fun _ => author) blog_ops NewProjectState ∧
  ∃ s1 s2, run_state "blog" blog_ops NewProjectState = Ok s1 ∧
           run_state "blog" (Optimize blog_ops "blog") NewProjectState = Ok s2 ∧
           models_equiv (ps_Models s1) (ps_Models s2).
Proof. split; [apply blog_history|]. apply (Optimize_sound "blog" (fun _ => author)). apply blog_history. Defined.

(** ** States *)

Lemma run_state_wf_witness :
  ∃ s', run_state "blog" blog_ops NewProjectState = Ok s' ∧ state_wf s'.
Proof.
  destruct (ok_value (run_state "blog" blog_ops NewProjectState)) as [s' Hs]; [vm_compute; reflexivity|].
  exists s'. split; [exact Hs|]. apply (run_state_wf "blog" blog_ops NewProjectState s' NewProjectState_wf Hs).
Defined.

Lemma StateForwards_safe_witness :
  safe_step (StateForwards (SeparateDatabaseAndState [] [add_name; RenameField "Author" "name" "full_name"]) "blog" author_state).
Proof.
  apply StateForwards_safe.
  - unfold names_distinct. apply (bool_decide_unpack _). vm_compute. exact I.
  - split; [apply (bool_decide_unpack (_ ∉ _)); vm_compute; exact I|]. intros s' [= <-].
    split; [|done]. left. apply (bool_decide_unpack (_ ∉ _)). vm_compute. exact I.
Defined.

Lemma Field_Equal_canonical_witness :
  Field_Equal author_key (fld_set_ForeignKey (Some (mkForeignKey "Blog.AUTHOR" "" Cascade NoAction "")) author_key) = true.
Proof. apply Field_Equal_canonical; [exact I|reflexivity]. Defined.

(** ** Migrations *)

#[local] Instance recording : SchemaEditor (list string) := recorder_editor true.
#[local] Instance refusing : SchemaEditor (list string) := recorder_editor false.

Lemma DatabaseForwards_denied_witness :
  (@DatabaseForwards _ refusing create_author "blog" NewProjectState author_state []).1 = [] ∧
  (@DatabaseBackwards _ refusing create_author "blog" NewProjectState author_state []).1 = [].
Proof. apply (@DatabaseForwards_denied _ refusing). reflexivity. Defined.

Lemma Apply_MutateState_witness :
  ∃ w s, @Apply _ recording blog1 NewProjectState [] = (w, Ok s) ∧ MutateState blog1 NewProjectState false = Ok s.
Proof.
  do 2 eexists. split; [vm_compute; reflexivity|].
  eapply (@Apply_MutateState _ recording blog1 NewProjectState []). vm_compute. reflexivity.
Defined.

Definition format : Operation → string := Describe.

Lemma Unapply_reverses_witness :
  ∃ tr, trace "blog" [create_author; add_name] NewProjectState = Ok tr ∧
  @Unapply _ recording format squash12 NewProjectState [] =
    (_ ← for_io (rev tr) (@unapply_between _ recording squash12); mret NewProjectState) [].
Proof.
  destruct (ok_value (trace "blog" [create_author; add_name] NewProjectState)) as [tr Htr]; [vm_compute; reflexivity|].
  exists tr. split; [exact Htr|].
  exact (@Unapply_reverses _ recording format squash12 NewProjectState tr NewProjectState_wf eq_refl Htr []).
Defined.

Definition run_sql : Operation := RunSQL (Some NoSQL) None [] ∅ false.

Lemma Unapply_irreversible_witness :
  let m := migration "blog" "0004_sql" [] [] [run_sql] in
  (@Unapply _ recording format m NewProjectState []).1 = [] ∧
  is_ok (@Unapply _ recording format m NewProjectState []).2 = false.
Proof. cbv zeta. apply (@Unapply_irreversible _ recording). reflexivity. Defined.

Lemma SuggestName_word_witness : is_word (SuggestName "0102_0304" blog2) = true.
Proof. apply (SuggestName_word "0102_0304" blog2); [reflexivity|vm_compute; lia]. Defined.

Lemma MigrationNameFromFile_Filename_witness : MigrationNameFromFile (Filename "0002_test") = "0002_test".
Proof. apply (MigrationNameFromFile_Filename "0002_test"). reflexivity. Defined.

(** ** The graph *)

Definition shop : Key := Dep "shop" "0001_initial".
Definition squash : Key := Dep "blog" "0001_squashed".
Definition replaced : list Key := [Dep "blog" "0001_initial"; Dep "blog" "0002_name"].

Lemma ForwardsPlan_correct_witness :
  ∃ plan, ForwardsPlan (graph plain) shop = Some (Ok plan) ∧ is_plan (edge (graph plain)) shop plan.
Proof.
  apply ForwardsPlan_correct; [apply plain_graph_wf|apply plain_acyclic|vm_compute; reflexivity].
Defined.

Lemma BackwardsPlan_correct_witness :
  ∃ plan, BackwardsPlan (graph plain) (Dep "blog" "0001_initial") = Some (Ok plan) ∧
          is_plan (flip (edge (graph plain))) (Dep "blog" "0001_initial") plan.
Proof.
  apply BackwardsPlan_correct; [apply plain_graph_wf|apply plain_acyclic|vm_compute; reflexivity].
Defined.

Lemma generatePlan_correct_witness :
  ∃ plan, generatePlan (graph plain) [shop] false = Some (Ok plan) ∧ NoDup plan.
Proof.
  destruct (generatePlan_correct (graph plain) [shop] false) as (plan & Hp & Hnd & _).
  - apply plain_graph_wf.
  - apply plain_acyclic.
  - intros n ->%list_elem_of_singleton. vm_compute. reflexivity.
  - exists plan. split; [exact Hp|exact Hnd].
Defined.

Lemma EnsureNotCyclic_correct_witness :
  (EnsureNotCyclic (graph plain) = Some (Ok tt) ∧ acyclic (graph plain)) ∨
  (∃ parts, EnsureNotCyclic (graph plain) = Some (Err (circular parts)) ∧ dependency_cycle (graph plain) parts ∧
            ¬ acyclic (graph plain)).
Proof. apply EnsureNotCyclic_correct, plain_graph_wf. Defined.

Lemma RemoveReplacedNodes_contracts_witness :
  ∃ g', RemoveReplacedNodes squash replaced (graph squashed) = Ok g' ∧ graph_wf g'.
Proof.
  destruct (ok_value (RemoveReplacedNodes squash replaced (graph squashed))) as [g' Hg]; [vm_compute; reflexivity|].
  exists g'. split; [exact Hg|].
  refine (proj1 (RemoveReplacedNodes_contracts squash replaced (graph squashed) g' squashed_graph_wf _ Hg)).
  apply (bool_decide_unpack (_ ∉ _)). vm_compute. exact I.
Defined.

Lemma no_self_edge g k : bool_decide (k ∈ children (g_NodeMap g) k) = false → ¬ edge g k k.
Proof. by intros H%bool_decide_eq_false. Qed.

Lemma RemoveReplacementNode_restores_witness :
  ∃ g', RemoveReplacementNode squash replaced (graph squashed) = (g', Ok tt) ∧ graph_wf g'.
Proof.
  assert ((RemoveReplacementNode squash replaced (graph squashed)).2 = Ok tt) as Hr by (vm_compute; reflexivity).
  destruct (RemoveReplacementNode squash replaced (graph squashed)) as [g' r] eqn:Hg. simpl in Hr. subst r.
  exists g'. split; [reflexivity|].
  refine (proj1 (RemoveReplacementNode_restores squash replaced (graph squashed) g' squashed_graph_wf _ Hg)).
  apply no_self_edge. vm_compute. reflexivity.
Defined.

(** ** The loader *)

Lemma loadDisk_correct_witness :
  ∃ d, loadDisk (config plain false) = Ok d ∧ ∀ k mig, dk_migrations d !! k = Some mig → Migration_Key mig = k.
Proof.
  destruct (ok_value (loadDisk (config plain false))) as [d Hd]; [vm_compute; reflexivity|].
  exists d. split; [exact Hd|]. intros k mig Hk. exact (proj1 (proj2 (proj2 (proj2 (loadDisk_correct _ d Hd))) k mig Hk)).
Defined.

Lemma build_loader_wf_witness :
  fine (fun l => loader_wf l ∧ loader_of (disk_of squashed) l) (build (config squashed true) (disk_of squashed) replaced).
Proof. apply build_loader_wf, sane_squashed. Defined.

Lemma build_applied_witness :
  ∃ l, build (config squashed true) (disk_of squashed) replaced = Ok l ∧
       applied_as_recorded (config squashed true) (disk_of squashed) replaced l.
Proof.
  destruct (ok_value (build (config squashed true) (disk_of squashed) replaced)) as [l Hl]; [vm_compute; reflexivity|].
  exists l. split; [exact Hl|]. exact (build_applied _ _ _ l sane_squashed Hl).
Defined.

Definition plain_migrations (ms : gmap Key Migration) : Prop :=
  map_Forall (fun _ mig => Forall (fun x => is_special (key_Name x) = false) (mig_Dependencies mig ++ mig_RunBefore mig)) ms.

Lemma plain_plain : plain_disk (disk_of plain).
Proof.
  assert (plain_migrations (dk_migrations (disk_of plain))) as Hp.
  { unfold plain_migrations. apply (bool_decide_unpack _). vm_compute. exact I. }
  intros k mig x Hk Hx. exact (proj1 (Forall_forall _ _) (Hp k mig Hk) x Hx).
Qed.

Lemma build_declared_witness :
  ∃ l, build (config plain false) (disk_of plain) [] = Ok l ∧ ∀ p c, edge (ld_Graph l) p c ↔ declared (disk_of plain) p c.
Proof.
  destruct (ok_value (build (config plain false) (disk_of plain) [])) as [l Hl]; [vm_compute; reflexivity|].
  exists l. split; [exact Hl|].
  exact (proj2 (build_declared (config plain false) (disk_of plain) [] sane_plain plain_plain eq_refl) l Hl).
Defined.

Lemma plain_nested : well_founded (nested (ld_Replacements (loader plain false []))).
Proof.
  intros k. constructor. intros y (mig & Hk & _). exfalso.
  assert (ld_Replacements (loader plain false []) = ∅) as He by (vm_compute; reflexivity).
  assert ((∅ : gmap Key Migration) !! k = Some mig) as Hk' by (rewrite <- He; exact Hk).
  exact (lookup_empty_Some _ _ Hk').
Qed.

Lemma CheckConsistentHistory_correct_witness :
  fine (fun _ => True) (CheckConsistentHistory (loader plain false []) [shop] "default") ∧
  (CheckConsistentHistory (loader plain false []) [shop] "default" = Ok tt ↔
   ∀ k p, k ∈ [shop] → Has (ld_Graph (loader plain false [])) k = true →
     edge (ld_Graph (loader plain false [])) p k → met (loader plain false []) (list_to_set [shop]) p).
Proof. apply CheckConsistentHistory_correct; [apply plain_wf|apply plain_nested]. Defined.

Lemma DetectConflicts_correct_witness :
  ∃ conflicts, DetectConflicts (loader plain false []) = Ok conflicts.
Proof. destruct (DetectConflicts_correct (loader plain false []) plain_wf) as (c & Hc & _). exists c. exact Hc. Defined.
