(* ===== verification/ExampleDatabase.v ===== *)
(** * A database for the examples

    A migrations table and a log, behind a connection that understands the
    statements of the recorder; and the laws of a connection, proved of it. *)

From S2P Require Import Prelude GoStd Keys Errors Fields Index ModelState Apps ProjectState Operation SchemaEditor.
From S2P Require Import OpDatabase Migration MigrationLemmas Graph Filename Loader Effects Recorder RecorderLemmas Executor ExecutorRuns.
From S2P Require Import ExecutorRuns Examples.

(** The table, by its ids: the app, the name and the time of each row *)
Definition entry : Type := string * string * any.
Record db := mkDb { db_table : option (gmap Z entry); db_log : list string }.

Definition db_set_log (l : list string) (w : db) : db := mkDb (db_table w) l.
Definition on_log {A} (m : io (list string) A) : io db A := zoom db_log db_set_log m.

Definition create_model (m : Model) : io db unit := fun w =>
  if bool_decide (m_Table m = Table) then
    match db_table w with
    | Some _ => (w, Err (PlainError "the table exists"))
    | None => (mkDb (Some ∅) (db_log w), Ok tt)
    end
  else on_log (log ("create " +:+ m_Name m)) w.

Definition db_editor (collectSQL : bool) : SchemaEditor db :=
  let ed := recorder_editor true in {|
  Vendor := "sqlite";
  AllowMigrate := fun _ _ => true;
  InAtomicBlock := None;
  count_extension := fun _ => mret 0%Z;
  AtomicMigration := true;
  Atomic := fun run => run;
  SchemaEditor.CollectSQL := collectSQL;
  CollectedSQL := db_log;
  AddCollected := fun lines w => (db_set_log (db_log w ++ lines) w, Ok tt);
  Execute := fun sql args => on_log (@Execute _ ed sql args);
  PrepareSQLScript := None;
  ed_CreateModel := create_model;
  ed_DeleteModel := fun m => on_log (@ed_DeleteModel _ ed m);
  ed_AddField := fun m f => on_log (@ed_AddField _ ed m f);
  ed_RemoveField := fun m f => on_log (@ed_RemoveField _ ed m f);
  ed_AlterField := fun m old new strict => on_log (@ed_AlterField _ ed m old new strict);
  ed_AlterDBTable := fun m old new => on_log (@ed_AlterDBTable _ ed m old new);
  ed_AlterDBTableComment := fun m old new => on_log (@ed_AlterDBTableComment _ ed m old new);
  ed_AlterUniqueTogether := fun m old new => on_log (@ed_AlterUniqueTogether _ ed m old new);
  ed_AddIndex := fun m ix => on_log (@ed_AddIndex _ ed m ix);
  ed_RemoveIndex := fun m ix => on_log (@ed_RemoveIndex _ ed m ix);
  ed_RenameIndex := fun m old new => on_log (@ed_RenameIndex _ ed m old new);
  ed_AddConstraint := fun m c => on_log (@ed_AddConstraint _ ed m c);
  ed_RemoveConstraint := fun m c => on_log (@ed_RemoveConstraint _ ed m c);
  pg_Editor := None;
  run_code := fun _ _ => mret tt;
|}.

Definition db_migration_editor (collectSQL : bool) : MigrationEditor db := {|
  med_Editor := db_editor collectSQL;
  med_Begin := on_log (log "BEGIN");
  med_Finish := fun err =>
    match err with
    | None => on_log (log "COMMIT")
    | Some e => _ ← on_log (log "ROLLBACK"); lift (Err e)
    end;
  med_Deferred := fun _ => 0;
|}.

(** *** The statements it understands *)

(** Every list of distinct columns *)
Fixpoint arrangements (n : nat) (from : list string) : list (list string) :=
  match n with
  | 0 => [[]]
  | S n => [] :: (from ≫= fun c => cons c <$> arrangements n (filter (fun x => x ≠ c) from))
  end.

Lemma elem_of_arrangements n from cols :
  NoDup cols → cols ⊆ from → length cols ≤ n → cols ∈ arrangements n from.
Proof.
  revert from cols. induction n as [|n IH]; intros from cols Hnd Hsub Hlen.
  { destruct cols; [left|simpl in Hlen; lia]. }
  destruct cols as [|c cols]; [left|]. right. apply NoDup_cons in Hnd as [Hc Hnd]. apply list_elem_of_bind.
  exists c. split; [|apply Hsub; left]. apply list_elem_of_fmap_2. apply IH; [done| |simpl in Hlen; lia].
  intros x Hx. apply list_elem_of_filter. split; [by intros ->|]. apply Hsub. by right.
Qed.

Definition all_columns : list (list string) := arrangements 4 table_columns.
Definition statements : list sql_statement := all_columns ≫= fun cols => [InsertValues cols; InsertNext cols; DeleteWhere cols].
Definition text_of (st : sql_statement) : string := stmt_text (fun s => s) Table "" st.

(** The statement a text stands for *)
#[export] Instance sql_statement_eq_dec : EqDecision sql_statement.
Proof. solve_decision. Defined.
Definition statement_of (sql : string) : option sql_statement :=
  find (fun st => bool_decide (stmt_columns st ≠ []) && bool_decide (text_of st = sql)) statements.
Definition columns_of (sql : string) : option (list string) :=
  find (fun cols => bool_decide (select_text (fun s => s) Table cols = sql)) all_columns.

Lemma columns_in_all cols : NoDup cols → cols ⊆ table_columns → cols ∈ all_columns.
Proof.
  intros Hnd Hsub. apply elem_of_arrangements; [done..|]. change 4 with (length table_columns).
  apply submseteq_length, NoDup_submseteq; [done|]. intros x. apply Hsub.
Qed.

Lemma statement_read st : stmt_wf st → statement_of (text_of st) = Some st.
Proof.
  intros (Hne & Hnd & Hsub & _).
  assert (Forall (fun st => stmt_columns st ≠ [] → statement_of (text_of st) = Some st) statements) as Hall
    by (apply (bool_decide_unpack _); vm_compute; exact I).
  rewrite Forall_forall in Hall. apply Hall; [|done]. apply list_elem_of_bind. exists (stmt_columns st).
  split; [destruct st; set_solver|by apply columns_in_all].
Qed.

Lemma columns_of_read cols : NoDup cols → cols ⊆ table_columns → columns_of (select_text (fun s => s) Table cols) = Some cols.
Proof.
  intros Hnd Hsub.
  assert (Forall (fun cols => columns_of (select_text (fun s => s) Table cols) = Some cols) all_columns) as Hall
    by (apply (bool_decide_unpack _); vm_compute; exact I).
  rewrite Forall_forall in Hall. by apply Hall, columns_in_all.
Qed.

(** *** What they do *)

Definition to_row (p : Z * entry) : db_row :=
  let '(id, (app, name, applied)) := p in
  <["id" := AnyInt id]> (<["app" := AnyString app]> (<["name" := AnyString name]> {["applied" := applied]})).
Definition of_row (r : db_row) : option entry :=
  match r !! "app", r !! "name", r !! "applied" with
  | Some (AnyString app), Some (AnyString name), Some applied => Some (app, name, applied)
  | _, _, _ => None
  end.
Definition rows_of (t : gmap Z entry) : list db_row := map to_row (map_to_list t).

Definition run_statement (st : sql_statement) (args : list any) (t : gmap Z entry) : option (gmap Z entry) :=
  match st with
  | InsertValues cols | InsertNext cols => (fun e => <[next_id (rows_of t) := e]> t) <$> of_row (cells cols args)
  | DeleteWhere cols => Some (filter (fun p => ¬ has_cells cols args (to_row p)) t)
  end.

Definition exec (sql : string) (args : list any) : io db unit := fun w =>
  match statement_of sql, db_table w with
  | Some st, Some t =>
      match (if bool_decide (length args = length (stmt_columns st)) then run_statement st args t else None) with
      | Some t' => (mkDb (Some t') (db_log w), Ok tt)
      | None => (w, Err (PlainError "constraint failed"))
      end
  | _, _ => (w, Err (PlainError "syntax error"))
  end.

Definition scan_row (cols : list string) (r : db_row) : option Record_ :=
  match map (fun c => r !! c) cols with
  | [Some (AnyInt id); Some (AnyString app); Some (AnyString name); Some applied] => Some (mkRecord id app name applied)
  | _ => None
  end.

Definition query (sql : string) : io db (list Record_) := fun w =>
  match columns_of sql, db_table w with
  | Some cols, Some t =>
      match mapM (scan_row cols) (by_id (rows_of t)) with
      | Some l => (w, Ok l)
      | None => (w, Err (PlainError "scan error"))
      end
  | _, _ => (w, Err (PlainError "syntax error"))
  end.

#[export] Instance db_conn : Conn db := {|
  PadsSizedStrings := false;
  NoAutoIncrementOnInsert := false;
  IgnoresTableNameCase := false;
  RecorderDeleteSettings := "";
  QuoteName := fun s => s;
  NewEditor := fun collectSQL atomic w => (w, db_migration_editor collectSQL);
  IdentifierConverter := fun s => s;
  TableNames := fun w => (w, Ok match db_table w with Some _ => [Table] | None => [] end);
  TableDescription := fun _ => mret [];
  conn_AllowMigrate := fun _ _ => true;
  Exec := exec;
  Rows := query;
  Now := mret (AnyOther "time.Time" "2024-01-01");
|}.

(** ** The laws *)

Lemma row_id_to_row p : row_id (to_row p) = p.1.
Proof. by destruct p as [id [[app name] applied]]. Qed.

Lemma rows_of_ids t : map row_id (rows_of t) = (map_to_list t).*1.
Proof. unfold rows_of. rewrite map_map. apply map_ext. intros p. apply row_id_to_row. Qed.

Lemma to_row_typed p : typed_row (to_row p).
Proof. destruct p as [id [[app name] applied]]. by exists id, app, name. Qed.

Lemma free_id t : t !! next_id (rows_of t) = None.
Proof.
  destruct (t !! next_id (rows_of t)) as [e|] eqn:He; [|done]. exfalso.
  assert (to_row (next_id (rows_of t), e) ∈ rows_of t) as Hin by (apply list_elem_of_fmap_2; by apply elem_of_map_to_list).
  apply below_next_id in Hin. rewrite row_id_to_row in Hin. simpl in Hin. lia.
Qed.

(** The row of an INSERT, when it has the cells it needs *)
Lemma inserted_entry cols args id e :
  cols ⊆ table_columns → "id" ∉ cols → length args = length cols → of_row (cells cols args) = Some e →
  to_row (id, e) = <["id" := AnyInt id]> (cells cols args).
Proof.
  intros Hsub Hid Hlen He. destruct e as [[app name] applied]. unfold of_row in He.
  destruct (cells cols args !! "app") as [[]|] eqn:Ha; try done.
  destruct (cells cols args !! "name") as [[]|] eqn:Hn; try done.
  destruct (cells cols args !! "applied") as [t|] eqn:Ht; try done. injection He as <- <- <-.
  apply map_eq. intros c. simpl. destruct (decide (c ∈ table_columns)) as [Hc|Hc].
  - unfold table_columns in Hc. rewrite !elem_of_cons, elem_of_nil in Hc.
    destruct_or! Hc; subst c; by simplify_map_eq.
  - assert (cells cols args !! c = None) as Hnone.
    { apply not_elem_of_list_to_map_1. rewrite fst_zip by lia. intros Hin. by apply Hc, Hsub. }
    unfold table_columns in Hc. rewrite !elem_of_cons in Hc.
    rewrite !lookup_insert_ne, Hnone, lookup_singleton_ne by naive_solver. done.
Qed.

Lemma rows_insert t id e : t !! id = None → rows_of (<[id := e]> t) ≡ₚ rows_of t ++ [to_row (id, e)].
Proof.
  intros Hid. unfold rows_of. rewrite map_to_list_insert by done. simpl. by rewrite Permutation_cons_append.
Qed.

Lemma run_statement_effect st args t t' :
  stmt_wf st → length args = length (stmt_columns st) → run_statement st args t = Some t' →
  stmt_effect st args (rows_of t) (rows_of t').
Proof.
  intros (_ & _ & Hsub & Hid) Hlen. destruct st as [cols|cols|cols]; cbn [run_statement stmt_columns stmt_effect] in *.
  - destruct (of_row (cells cols args)) as [e|] eqn:He; [|done]. intros [= <-].
    exists (next_id (rows_of t)). split; [intros r; apply below_next_id|].
    rewrite rows_insert by apply free_id. by rewrite (inserted_entry cols args _ e).
  - destruct (of_row (cells cols args)) as [e|] eqn:He; [|done]. intros [= <-].
    rewrite rows_insert by apply free_id. by rewrite (inserted_entry cols args _ e).
  - intros [= <-]. unfold rows_of. rewrite (filter_map to_row _ (fun p => ¬ has_cells cols args (to_row p))) by done.
    rewrite map_filter_alt, map_to_list_to_map; [done|].
    eapply sublist_NoDup; [apply (NoDup_fst_map_to_list t)|]. apply fmap_sublist, sublist_filter.
Qed.

Lemma scan_row_scanned cols r rec : scan_row cols r = Some rec → scanned cols r rec.
Proof. unfold scan_row, scanned. repeat case_match; try done. by intros [= <-]. Qed.

Definition db_rows (w : db) : option (list db_row) := rows_of <$> db_table w.

Lemma db_create_law m : describes_table m →
  triple (fun w => db_rows w = None) (session (fun ed => @ed_CreateModel _ (med_Editor ed) m))
    (fun _ w => db_rows w = Some []) (fun w => db_rows w = None).
Proof.
  intros [Hm _] [[t|] l] Hw; [discriminate Hw|]. clear Hw. unfold session, new_editor.
  unfold mbind, io_bind, attempt. cbn. unfold create_model. by rewrite bool_decide_eq_true_2.
Qed.

#[export] Instance db_laws : ConnLaws db.
Proof.
  apply (Build_ConnLaws db db_conn db_rows).
  - intros [[t|] l] rs [= <-]. rewrite rows_of_ids. split; [apply NoDup_fst_map_to_list|].
    apply Forall_forall. intros r (p & -> & _)%list_elem_of_fmap. apply to_row_typed.
  - intros t [[e|] l] <-; (split; [|reflexivity]).
    + split; [by eexists|]. intros _. left. left.
    + split; [by intros [?%elem_of_nil|?%elem_of_nil]|by intros []].
  - exact db_create_law.
  - intros t table w Hw. exact Hw.
  - intros t w Hw. exact Hw.
  - intros cols rs Hnd Hsub [[t|] l] [= <-]. cbn [Rows db_conn]. unfold query.
    change (select_text QuoteName Table cols) with (select_text (fun s => s) Table cols).
    rewrite (columns_of_read cols Hnd Hsub). cbn [db_table].
    destruct (mapM (scan_row cols) (by_id (rows_of t))) as [recs|] eqn:Hscan; [|done]. split; [|done].
    exists (by_id (rows_of t)). split_and!; [unfold by_id; by rewrite merge_sort_Permutation|apply Sorted_merge_sort, _|].
    apply mapM_Some in Hscan. eapply Forall2_impl; [exact Hscan|]. intros r rec. apply scan_row_scanned.
  - intros st args rs Hwf Hlen _ [[t|] l] [= <-]. cbn [Exec db_conn]. unfold exec.
    change (stmt_text QuoteName Table RecorderDeleteSettings st) with (text_of st).
    rewrite (statement_read st Hwf). cbn [db_table]. rewrite bool_decide_eq_true_2 by done.
    destruct (run_statement st args t) as [t'|] eqn:Hrun; [|done]. exists (rows_of t'). split; [|done].
    by apply run_statement_effect.
Defined.

(** *** A database with these migrations recorded *)

Fixpoint entries (n : Z) (ks : list Key) : list (Z * entry) :=
  match ks with
  | [] => []
  | k :: ks => (n, (key_App k, key_Name k, AnyString "")) :: entries (n + 1) ks
  end.
Definition db_with (ks : list Key) (log : list string) : db := mkDb (Some (list_to_map (entries 1 ks))) log.

Lemma entries_above n ks p : p ∈ entries n ks → (n ≤ p.1)%Z.
Proof.
  revert n. induction ks as [|k ks IH]; intros n; [by intros ?%elem_of_nil|]. simpl.
  intros [->|Hp]%elem_of_cons; [done|]. apply IH in Hp. lia.
Qed.

Lemma entries_ids n ks : NoDup (entries n ks).*1.
Proof.
  revert n. induction ks as [|k ks IH]; intros n; [constructor|]. simpl. constructor; [|apply IH].
  intros (p & Hn & Hp)%list_elem_of_fmap. apply entries_above in Hp. lia.
Qed.

Lemma entries_sorted n ks : StronglySorted id_le (map to_row (entries n ks)).
Proof.
  revert n. induction ks as [|k ks IH]; intros n; [constructor|]. cbn [entries map]. constructor; [apply IH|].
  apply Forall_forall. intros r (p & -> & Hp)%list_elem_of_fmap. unfold id_le. rewrite !row_id_to_row.
  apply entries_above in Hp. simpl. lia.
Qed.

Lemma rows_with ks log : rows (db_with ks log) = Some ks.
Proof.
  unfold rows. cbn [table_rows db_laws db_rows db_with db_table fmap option_fmap option_map]. f_equal.
  assert (rows_of (list_to_map (entries 1 ks)) ≡ₚ map to_row (entries 1 ks)) as Hp.
  { unfold rows_of. by rewrite map_to_list_to_map by apply entries_ids. }
  rewrite <- (by_id_unique (rows_of (list_to_map (entries 1 ks))) (map to_row (entries 1 ks))).
  - generalize 1%Z. induction ks as [|k ks IH]; intros n; [done|]. cbn [entries map]. rewrite IH; [by destruct k|].
    unfold rows_of. rewrite map_to_list_to_map by apply entries_ids. done.
  - rewrite rows_of_ids. apply NoDup_fst_map_to_list.
  - done.
  - apply StronglySorted_Sorted, entries_sorted.
Qed.

(** ** Migrations that leave the table alone *)

(** Migrations that only run SQL of their own, which this database writes
    down *)
Definition sql_operation (op : Operation) : Prop :=
  ∃ sql reverse, op = RunSQL (Some (Statements sql)) (Some (Statements reverse)) [] ∅ false.
Definition only_sql (mig : Migration) : Prop := Forall sql_operation (mig_Operations mig).

(** A computation that succeeds leaves the table as it was. *)
Definition keeps {A} (m : io db A) : Prop := ∀ t, ensures (fun w => rows w = t) m (fun _ w => rows w = t).

Lemma keeps_bind {A B} (m : io db A) (f : A → io db B) : keeps m → (∀ a, keeps (f a)) → keeps (m ≫= f).
Proof. intros Hm Hf t. eapply ensures_bind; [apply Hm|]. intros a. apply Hf. Qed.

Lemma keeps_ret {A} (a : A) : keeps (mret a).
Proof. intros t. apply ensures_skip. Qed.

Lemma keeps_lift {A} (o : outcome A) : keeps (lift o).
Proof. intros t. apply ensures_lift_any. Qed.

Lemma keeps_log {A} (m : io (list string) A) : keeps (on_log m).
Proof. intros t w w' a Hw. unfold on_log, zoom. destruct (m (db_log w)) as [l r]. by intros [= <- _]. Qed.

Lemma keeps_fold {A S} (f : S → A → io db S) s l : (∀ s x, x ∈ l → keeps (f s x)) → keeps (fold_io f s l).
Proof.
  revert s. induction l as [|x l IH]; intros s Hf; [apply keeps_ret|]. apply keeps_bind; [apply Hf; left|].
  intros s'. apply IH. intros s1 y Hy. apply Hf. by right.
Qed.

#[local] Hint Resolve keeps_ret keeps_lift keeps_log : core.

Section editor.
Context (collectSQL : bool).
#[local] Instance ed : SchemaEditor db := db_editor collectSQL.

Lemma keeps_statements sqls : keeps (for_io sqls (fun s => @Execute _ ed s [])).
Proof. apply keeps_fold. intros [] s _. apply keeps_log. Qed.

Lemma keeps_sql op app from to :
  sql_operation op → keeps (DatabaseForwards op app from to) ∧ keeps (DatabaseBackwards op app from to).
Proof. intros (sql & reverse & ->). split; apply keeps_statements. Qed.

Lemma keeps_comments {S} op (skipped : S) body : keeps body → keeps (with_comments op skipped body).
Proof.
  assert (∀ lines, keeps (@AddCollected _ ed lines)) as Hadd by (intros lines t w w' a Hw [= <- _]; exact Hw).
  intros Hbody. unfold with_comments. destruct SchemaEditor.CollectSQL; [|done].
  apply keeps_bind; [apply Hadd|]. intros []. destruct (negb (ReducesToSQL op)).
  - apply keeps_bind; [apply Hadd|]. auto.
  - apply keeps_bind; [intros t w w' a Hw [= <- _]; exact Hw|]. intros n. apply keeps_bind; [done|]. intros r.
    apply keeps_bind; [|auto]. intros t w w' a Hw. unfold note_no_op. case_match; [apply Hadd, Hw|by intros [= <- _]].
Qed.

Lemma only_sql_apply mig s : only_sql mig → keeps (@Apply _ ed mig s).
Proof.
  intros Hmig. apply keeps_fold. intros st op Hop. apply keeps_comments. apply keeps_bind; [auto|]. intros st'.
  apply keeps_bind; [|auto]. unfold run_operation. eapply Forall_forall in Hmig; [|done].
  by case_match; apply keeps_sql.
Qed.

Lemma only_sql_unapply FormatOperation mig s : only_sql mig → keeps (@Unapply _ ed FormatOperation mig s).
Proof.
  intros Hmig t. unfold Unapply. eapply ensures_bind; [apply ensures_lift|]. intros r. apply ensures_pull.
  intros Hr%unapply_steps_ops. revert t. change (keeps (_ ← for_io r.1 (unapply_operation mig); mret s)).
  apply keeps_bind; [|auto]. apply keeps_fold. intros [] st Hst. apply keeps_comments.
  eapply Forall_forall in Hr; [|done]. eapply Forall_forall in Hmig; [|done]. unfold run_operation.
  by case_match; apply keeps_sql.
Qed.
End editor.

Lemma only_sql_editors FormatOperation mig : only_sql mig → editors_keep FormatOperation mig.
Proof.
  intros Hmig collectSQL atomic w. split; [done|]. split; simpl.
  - apply keeps_log.
  - intros s. by apply only_sql_apply.
  - intros s. by apply only_sql_unapply.
  - apply keeps_log.
  - done.
Qed.
