(* ===== verification/Findings.v ===== *)
(** * The recorder and the executor at an example, and where the code does something else than it says

    First the theorems on the recorder and the executor, applied to a project.
    Then each example runs the definitions on an input for which the code and its
    own documentation, or two parts of the code, do not agree. They are why
    the theorems have the hypotheses they have: RenameModel, RenameField and
    AlterConstraint are left out of [Optimize_sound], and a squash that
    replaces itself is left out of [RecordMigration_correct]. *)

From S2P Require Import Prelude GoStd Keys Errors Fields Index ModelState Apps ProjectState Operation.
From S2P Require Import Optimizer Reduce OptimizerTermination SchemaEditor Effects Recorder RecorderLemmas.
From S2P Require Import OpDatabase Migration Graph GraphLemmas Filename Loader SquashLemmas LoaderLemmas.
From S2P Require Import Executor PlanLemmas ExecutorRuns ExecutorTheorems Examples Witnesses.
From S2P Require Import ExampleDatabase.

(** ** The theorems on the recorder and the executor, at an example

    A project of two apps whose migrations run SQL, with one squashed
    migration, on the example database. *)

(** ** The project *)

Definition sql_migration (app name : string) (dependencies replaces : list Key) : Migration :=
  migration app name dependencies replaces
    [RunSQL (Some (Statements ["UPDATE " +:+ app])) (Some (Statements ["REVERT " +:+ app])) [] ∅ false].

Definition first : Key := mkKey "blog" "0001_initial".
Definition second : Key := mkKey "blog" "0002_fill".
Definition order : Key := mkKey "shop" "0001_initial".
Definition both : Key := mkKey "blog" "0001_squashed".

Definition sql_project : list Migration :=
  [sql_migration "blog" "0001_initial" [] []; sql_migration "blog" "0002_fill" [first] [];
   sql_migration "blog" "0001_squashed" [] [first; second]; sql_migration "shop" "0001_initial" [second] []].

Definition sql_disk : disk := disk_of sql_project.
Definition cfg : Config := config sql_project true.

Lemma sql_loadDisk : loadDisk cfg = Ok sql_disk.
Proof. vm_compute. reflexivity. Qed.

Definition named (ms : gmap Key Migration) : Prop := map_Forall (fun k _ => key_Name k ≠ "") ms.

Lemma sql_sane : sane_project sql_disk.
Proof.
  split; [apply sane_by_decision; vm_compute; reflexivity|].
  assert (named (dk_migrations sql_disk)) as Hn by (apply (bool_decide_unpack _); vm_compute; exact I).
  intros k [mig Hk]. by apply (Hn k mig).
Qed.

Lemma sql_editors FormatOperation k mig :
  dk_migrations sql_disk !! k = Some mig → editors_keep FormatOperation mig.
Proof.
  intros Hk. apply only_sql_editors.
  destruct (loadDisk_spec cfg sql_disk sql_loadDisk) as (_ & _ & _ & Hkey).
  destruct (Hkey k mig Hk) as (_ & app & _ & _ & Hin). apply list_elem_of_filter in Hin as [_ Hin].
  clear Hk. revert mig Hin. apply Forall_forall. unfold sql_project, only_sql.
  repeat constructor; by do 2 eexists.
Qed.

(** An executor of the project, with these migrations recorded *)
Definition executor (recorded : list Key) : Executor db :=
  mkExecutor (mkRecorder (db_with recorded []) false) (loader sql_project true recorded) true.

Lemma executor_ok recorded :
  is_ok (build cfg sql_disk recorded) = true → executor_at sql_disk recorded (executor recorded).
Proof.
  intros Hok. split.
  - exists (Some recorded). split; [done|]. split; [apply rows_with|done].
  - pose proof (build_spec cfg sql_disk recorded (proj1 sql_sane)) as Hb. unfold executor, loader. cbn [ex_Loader ex_ReplaceMigrations].
    change (config sql_project true) with cfg. change (disk_of sql_project) with sql_disk.
    destruct (build cfg sql_disk recorded) as [l|e|e]; [|done|done]. destruct Hb as (? & ? & _ & ? & ?). by split.
Qed.

Lemma sql_nested : well_founded (nested (replacements_of (dk_migrations sql_disk))).
Proof.
  destruct (executor_ok []) as [_ [_ (_ & _ & _ & <-) Hn _]]; [vm_compute; reflexivity|]. by apply Hn.
Qed.

Definition quiet_progress (ev : Event) (mig : option Migration) (fake : bool) (w : db) : db := w.
Definition format_op (op : Operation) : string := Describe op.

(** ** The recorder *)

Lemma Recorder_refines_witness :
  triple (records [first]) (RecordApplied "shop" "0001_initial")
    (fun _ (r : Recorder db) => records ([first] ++ [order]) r) (records [first]).
Proof. apply (Recorder_refines [first] "shop" "0001_initial"). Defined.

Lemma Recorder_roundtrip_witness :
  ∃ l r, (_ ← RecordApplied "shop" "0001_initial"; _ ← RecordUnapplied "shop" "0001_initial"; AppliedMigrations)
           (ex_Recorder (executor [first])) = (r, Ok l) ∧ l = [first].
Proof.
  assert (records [first] (ex_Recorder (executor [first]))) as Hr by (apply executor_ok; vm_compute; reflexivity).
  pose proof (Recorder_roundtrip [first] "shop" "0001_initial" _ Hr) as Ht. cbn beta in Ht.
  set (m := (_ ← RecordApplied "shop" "0001_initial"; _ ← RecordUnapplied "shop" "0001_initial"; AppliedMigrations)
              (ex_Recorder (executor [first]))) in *.
  assert (is_ok m.2 = true) as Hok by (vm_compute; reflexivity).
  destruct m as [r [l|x|x]]; [|discriminate Hok|discriminate Hok].
  exists l, r. split; [reflexivity|]. apply (proj2 Ht). apply (bool_decide_unpack (_ ∉ _)). vm_compute. exact I.
Defined.

(** ** Plans *)

Lemma on_disk targets :
  forallb (fun t => bool_decide (key_Name t = "") || bool_decide (is_Some (dk_migrations sql_disk !! t))) targets = true →
  ∀ t, t ∈ targets → key_Name t ≠ "" → is_Some (dk_migrations sql_disk !! t).
Proof.
  rewrite forallb_forall. intros Hall t Ht Hname. apply list_elem_of_In in Ht. specialize (Hall t Ht).
  apply orb_true_iff in Hall as [H%bool_decide_eq_true|H%bool_decide_eq_true]; done.
Qed.

(** A migration a squash has replaced is targeted: the project is loaded again. *)
Lemma MigrationPlan_correct_witness :
  missing_target (ld_Graph (ex_Loader (executor []))) [first] ∧
  ∃ e plan, MigrationPlan cfg [first] false (executor []) = (e, Ok plan) ∧ plan_keys plan = [first] ∧
    ∃ s', plan_run (ld_Graph (ex_Loader e)) ∅ plan s' ∧ targets_reached (ld_Graph (ex_Loader e)) ∅ [first] s'.
Proof.
  assert (executor_at sql_disk [] (executor [])) as He by (apply executor_ok; vm_compute; reflexivity).
  assert (∀ t, t ∈ [first] → key_Name t ≠ "" → is_Some (dk_migrations sql_disk !! t)) as Ht
    by (apply on_disk; vm_compute; reflexivity).
  assert (missing_target (ld_Graph (ex_Loader (executor []))) [first]) as Hmiss.
  { exists first. split; [left|]. split; [done|]. vm_compute. reflexivity. }
  split; [exact Hmiss|].
  pose proof (proj2 (MigrationPlan_correct cfg sql_disk [] [first] false (executor []) sql_loadDisk sql_sane Ht He) Hmiss) as Hp.
  assert (plan_keys match (MigrationPlan cfg [first] false (executor [])).2 with Ok plan => plan | _ => [] end = [first])
    as Hk by (vm_compute; reflexivity).
  assert (match new_loader cfg false (ex_Recorder (executor [])) with (_, Ok l) => ld_Applied l | _ => ∅ end = ∅)
    as Ha by (vm_compute; reflexivity).
  assert (is_ok (new_loader cfg false (ex_Recorder (executor []))).2 = true) as Hok by (vm_compute; reflexivity).
  destruct (new_loader cfg false (ex_Recorder (executor []))) as [r [l|x|x]]; [|discriminate Hok|discriminate Hok].
  destruct Hp as (_ & plan & s' & Hplan & Hrun & Hreach). unfold plan_start in Hrun, Hreach. cbn in Hrun, Hreach.
  rewrite Ha in Hrun, Hreach. rewrite Hplan in Hk |- *. do 2 eexists. split; [reflexivity|]. split; [exact Hk|].
  exists s'. split; [exact Hrun|exact Hreach].
Defined.

(** ** Running *)

Definition run_options (plan : option (list PlanStep)) : MigrateOptions :=
  mkMigrateOptions [order] plan None false false.

Definition migrate : Executor db * outcome (option ProjectState) :=
  MigrateTo cfg [] format_op quiet_progress (run_options None) (executor []).

(** From an empty table: the squashed migration brings those it replaces. *)
Example migrate_recorded :
  snd <$> Some (AppliedMigrations (ex_Recorder migrate.1)) = Some (Ok [first; second; both; order]).
Proof. vm_compute. reflexivity. Qed.

Lemma MigrateTo_records_witness :
  ∃ e st plan ks1 extra, migrate = (e, Ok st) ∧ plan_for [order] false plan e ∧
    plan_recorded sql_disk plan [] ks1 ∧ completed sql_disk ks1 extra ∧ executor_at sql_disk (ks1 ++ extra) e.
Proof.
  assert (executor_at sql_disk [] (executor [])) as He by (apply executor_ok; vm_compute; reflexivity).
  assert (∀ t, t ∈ mo_Targets (run_options None) → key_Name t ≠ "" → is_Some (dk_migrations sql_disk !! t)) as Ht
    by (apply on_disk; vm_compute; reflexivity).
  assert (is_ok migrate.2 = true) as Hok by (vm_compute; reflexivity).
  destruct migrate as [e [st|x|x]] eqn:Hm; [|discriminate Hok|discriminate Hok].
  destruct (MigrateTo_records cfg [] format_op quiet_progress sql_disk [] (run_options None) (executor []) e st
    sql_loadDisk sql_sane sql_nested (fun _ _ _ _ => eq_refl) (sql_editors format_op) Ht eq_refl He Hm)
    as (plan & ks1 & extra & Hp & Hr & Hc & He').
  exists e, st, plan, ks1, extra.
  split; [reflexivity|]. split; [exact Hp|]. split; [exact Hr|]. split; [exact Hc|exact He'].
Defined.

Definition forwards_step : PlanStep := mkPlanStep (sql_migration "shop" "0001_initial" [second] []) false.
Definition backwards_step : PlanStep := mkPlanStep (sql_migration "blog" "0002_fill" [first] []) true.

Lemma MigrateTo_mixed_witness :
  triple (executor_at sql_disk [])
    (MigrateTo cfg [] format_op quiet_progress (run_options (Some [forwards_step; backwards_step])))
    (fun _ _ => False) (executor_at sql_disk []).
Proof.
  apply (MigrateTo_mixed cfg [] format_op quiet_progress sql_disk [] _ [forwards_step; backwards_step]).
  - apply sql_loadDisk.
  - apply sql_sane.
  - reflexivity.
  - exists backwards_step. split; [right; left|reflexivity].
  - exists forwards_step. split; [left|reflexivity].
Defined.

Definition fill_step : PlanStep := mkPlanStep (sql_migration "blog" "0002_fill" [first] []) false.

Lemma migrateAllForwards_runs_witness :
  migrateAllForwards [] quiet_progress NewProjectState [forwards_step] [fill_step; forwards_step] true false (executor []) =
  match filter (fun s => Migration_Key (pst_Migration s) ∈ plan_keys [forwards_step]) [fill_step; forwards_step] with
  | [] => (executor [], Ok (Some NewProjectState))
  | steps => (st ← render quiet_progress (Rendered NewProjectState) (Some NewProjectState);
              fold_io (fun st s => ApplyMigration [] quiet_progress st (pst_Migration s) true false) st steps) (executor [])
  end.
Proof.
  apply (migrateAllForwards_runs [] quiet_progress NewProjectState [forwards_step] [fill_step; forwards_step] true false
    (executor [])). apply (bool_decide_unpack _). vm_compute. exact I.
Defined.

(** A migration of a model that is not there *)
Definition broken : Migration := migration "blog" "0003_broken" [] [] [add_name].

Lemma ApplyMigration_failed_witness :
  is_ok (ApplyMigration [] quiet_progress (Some NewProjectState) broken false false (executor [])).2 = false.
Proof.
  eapply (ApplyMigration_failed [] quiet_progress NewProjectState broken (executor [])).
  - reflexivity.
  - vm_compute. reflexivity.
  - reflexivity.
Defined.

Lemma CheckReplacements_correct_witness :
  triple (executor_at sql_disk [first; second]) CheckReplacements
    (fun _ e => ∃ extra, executor_at sql_disk ([first; second] ++ extra) e ∧ NoDup extra ∧
       ∀ k, k ∈ extra ↔ is_Some (replacements_of (dk_migrations sql_disk) !! k) ∧ k ∉ [first; second] ∧
              all_applied (replacements_of (dk_migrations sql_disk)) (list_to_set [first; second]) k)
    (fun e => ∃ extra, executor_at sql_disk ([first; second] ++ extra) e).
Proof. apply (CheckReplacements_correct sql_disk [first; second] sql_nested). Defined.

Lemma RecordMigration_correct_witness :
  triple (executor_at sql_disk []) (RecordMigration "blog" "0001_squashed" true)
    (fun _ e => ∃ l, executor_at sql_disk ([] ++ l) e ∧ last l = Some both ∧
       ∀ x, x ∈ l ↔ rtc (nested (replacements_of (dk_migrations sql_disk))) x both)
    (fun e => ∃ l, executor_at sql_disk ([] ++ l) e).
Proof. exact (proj1 (RecordMigration_correct sql_disk [] "blog" "0001_squashed" sql_nested)). Defined.

(** The models after a list of operations of the blog, and after the
    optimizer's list *)
Definition after (ops : list Operation) : option ProjectState :=
  match run_state "blog" ops NewProjectState with Ok s => Some s | _ => None end.
Definition after_optimized (ops : list Operation) : option ProjectState := after (Optimize ops "blog").

Definition field_of (model name : string) (s : option ProjectState) : option Field :=
  s ← s; ms ← ps_Models s !! mkModelKey "blog" model; Fields_Get (ms_Fields ms) name.

Definition options_of (model : string) (s : option ProjectState) : option Options :=
  s ← s; ms ← ps_Models s !! mkModelKey "blog" model; Some (ms_Options ms).

(** ** The optimizer *)

(** A renamed model is renamed in the keys that point at it; not once the
    renaming has been folded into the CreateModel. *)
Definition renamed_target : list Operation := [create_author; create_order; RenameModel "Author" "Writer"].

Definition target_of (f : Field) : option string := fk_To <$> fld_ForeignKey f.

Example renamed_target_lost :
  (field_of "order" "author" (after renamed_target) ≫= target_of) = Some "blog.Writer" ∧
  (field_of "order" "author" (after_optimized renamed_target) ≫= target_of) = Some "blog.Author".
Proof. vm_compute. by split. Qed.

(** AlterField sets a default that AddField, which it is folded into, drops. *)
Definition default_set : list Operation :=
  [AddField "Author" "name" text_field (Some false); AlterField "Author" "name" text_field None].

Example default_lost :
  (field_of "author" "name" (after (create_author :: default_set)) ≫= fld_Default) = Some (AnyString "?") ∧
  (field_of "author" "name" (after ([create_author] ++ Optimize default_set "blog")) ≫= fld_Default) = None.
Proof. vm_compute. by split. Qed.

(** A default that is only for the rows already there becomes part of the
    model when AddField is folded into CreateModel. *)
Definition one_off : list Operation := [create_author; AddField "Author" "name" text_field (Some false)].

Example default_kept :
  (field_of "author" "name" (after one_off) ≫= fld_Default) = None ∧
  (field_of "author" "name" (after_optimized one_off) ≫= fld_Default) = Some (AnyString "?").
Proof. vm_compute. by split. Qed.

(** RenameField renames the columns of the indexes; the CreateModel it is
    folded into keeps the old name in them. *)
Definition name_index : Index :=
  mkIndex "name_idx" (Some (Columns ["name"])) false "" "" "" None None "" "".

Definition renamed_column : list Operation :=
  [create_author; add_name; AddIndex "Author" name_index; RenameField "Author" "name" "title"].

Definition index_fields (o : Options) : list string := flat_map (fun ix => map if_Column (elems (ix_Fields ix))) (opt_Indexes o).

Example renamed_column_lost :
  index_fields <$> options_of "author" (after renamed_column) = Some ["title"] ∧
  index_fields <$> options_of "author" (after_optimized renamed_column) = Some ["name"].
Proof. vm_compute. by split. Qed.

(** An index of one model and the removal of an index of another annihilate
    when they have the same name. *)
Definition other_index : list Operation := [AddIndex "Author" name_index; RemoveIndex "Order" "name_idx"].

Example other_index_lost : Optimize other_index "blog" = [].
Proof. vm_compute. reflexivity. Qed.

(** Altering a constraint that is not there does nothing; the optimizer adds
    it to the CreateModel. *)
Definition positive : Constraint := CCheck (mkCheckConstraint "positive" "id > 0" "").
Definition alter_missing : list Operation := [create_author; AlterConstraint "Author" "positive" positive].

Example alter_missing_added :
  opt_Constraints <$> options_of "author" (after alter_missing) = Some [] ∧
  opt_Constraints <$> options_of "author" (after_optimized alter_missing) = Some [positive].
Proof. vm_compute. by split. Qed.

(** A reduction need not shorten the list: this one swaps two operations. *)
Definition alter_rename : list Operation :=
  [AlterField "Author" "name" text_field None; RenameField "Author" "name" "title"].

Example reduction_same_length :
  let r := @optimizeInner Operation (app_operations "blog") alter_rename in
  r.2 = true ∧ length r.1 = length alter_rename.
Proof. vm_compute. by split. Qed.

(** ** The executor *)

(** A squash that replaces itself: RecordMigration calls itself for the
    migration it was called for, whatever fuel it has. *)
Definition loop : Migration := migration "blog" "0001_loop" [] [Dep "blog" "0001_loop"] [].

Example self_replacing n :
  (record_migration n {[ Migration_Key loop := loop ]} true (Migration_Key loop)
     (ex_Recorder (Findings.executor []))).2 = Panic out_of_fuel.
Proof.
  induction n as [|n IH]; [reflexivity|]. revert IH. cbn [record_migration].
  replace (({[ Migration_Key loop := loop ]} : gmap Key Migration) !! Migration_Key loop) with (Some loop)
    by (vm_compute; reflexivity).
  cbn [mig_Replaces loop migration for_io fold_io]. unfold for_io, mbind, io_bind. cbn [fold_io].
  change (Dep "blog" "0001_loop") with (Migration_Key loop). unfold mbind, io_bind.
  destruct (record_migration n _ _ _ _) as [r [a|e|e]]; cbn; congruence.
Qed.

(** With --fake-initial, a migration of an unmanaged model that is marked as
    initial: nothing is looked for, so DetectSoftApplied says it is not
    applied, but the state it returns is the one after it. ApplyMigration goes
    on from there, and the field is added a second time. *)
Definition create_unmanaged : Operation :=
  CreateModel "Author" "" [mkNamedField "id" (int_field true)] (opt_set_Managed (Some false) zero_Options).
Definition marked_initial : Migration :=
  mkMigration "blog" "0002_name" [Dep "blog" "0001_initial"] [] [] (Some true) None [add_name] "".

Definition names_after (fakeInitial : bool) : option (list string) :=
  match (ApplyMigration [] quiet_progress (after [create_unmanaged]) marked_initial false fakeInitial
           (Findings.executor [])).2 with
  | Ok (Some s) => ms ← ps_Models s !! mkModelKey "blog" "author"; Some (Fields_Names (ms_Fields ms))
  | _ => None
  end.

Example added_twice : names_after false = Some ["id"; "name"] ∧ names_after true = Some ["id"; "name"; "name"].
Proof. vm_compute. by split. Qed.
