(* ===== verification/Respects.v ===== *)
(** * What every step of a computation keeps

    A computation respects a preorder on its states when its final state is
    above its first one, whatever its result. An operation, and a migration,
    respects what the methods of its editor respect. *)

From S2P Require Import Prelude GoStd Keys Errors Fields Index ModelState Apps ProjectState Operation OperationLemmas.
From S2P Require Import SchemaEditor OpDatabase Migration MigrationLemmas Effects.

Definition respects {W A} (R : relation W) (m : io W A) : Prop := ∀ w, R w (m w).1.

Section respects.
Context {W : Type} (R : relation W) `{!PreOrder R}.

Lemma respects_quiet {A} (m : io W A) : quiet m → respects R m.
Proof. intros Hm w. by rewrite Hm. Qed.

Lemma respects_ret {A} (a : A) : respects R (mret a).
Proof. by intros w. Qed.

Lemma respects_lift {A} (o : outcome A) : respects R (lift o).
Proof. by intros w. Qed.

Lemma respects_get : respects R get_state.
Proof. by intros w. Qed.

Lemma respects_bind {A B} (m : io W A) (f : A → io W B) :
  respects R m → (∀ a, respects R (f a)) → respects R (m ≫= f).
Proof.
  intros Hm Hf w. unfold mbind, io_bind. specialize (Hm w). destruct (m w) as [w' [a|e|e]]; simpl in *; [|done..].
  by transitivity w'; [|apply Hf].
Qed.

(** A binding on the state itself: the rest need only respect from there. *)
Lemma respects_read {B} (f : W → io W B) : (∀ w, R w (f w w).1) → respects R (w ← get_state; f w).
Proof. intros Hf w. apply Hf. Qed.

Lemma respects_attempt {A} (m : io W A) : respects R m → respects R (attempt m).
Proof. intros Hm w. unfold attempt. specialize (Hm w). by destruct (m w) as [w' [a|e|e]]. Qed.

Lemma respects_fold {A S} (f : S → A → io W S) s l : (∀ s x, respects R (f s x)) → respects R (fold_io f s l).
Proof.
  intros Hf. revert s. induction l as [|x l IH]; intros s; simpl; [apply respects_ret|]. by apply respects_bind.
Qed.

Lemma respects_for {A} (l : list A) (f : A → io W unit) : (∀ x, respects R (f x)) → respects R (for_io l f).
Proof. intros Hf. by apply respects_fold. Qed.
End respects.

Lemma respects_zoom {S T A} (R : relation S) `{!PreOrder R} (RT : relation T) (get : S → T) (set : T → S → S) (m : io T A) :
  (∀ s t, RT (get s) t → R s (set t s)) → respects RT m → respects R (zoom get set m).
Proof. intros Hset Hm s. unfold zoom. specialize (Hm (get s)). destruct (m (get s)). by apply Hset. Qed.

#[export] Hint Resolve respects_ret respects_lift respects_get respects_attempt : respects.

(** Take a computation apart, down to the parts the database knows. *)
Ltac respect_step :=
  first
  [ apply respects_ret; apply _ | apply respects_lift; apply _ | apply respects_get; apply _
  | solve [eauto with respects typeclass_instances]
  | apply respects_bind; [apply _| |intros ?] | apply respects_attempt
  | apply respects_for; [apply _|intros ?] | apply respects_fold; [apply _|intros ? ?]
  | case_match ].
Ltac respect := repeat respect_step.

(** ** Editors *)

Class EditorRespects {W} (R : relation W) (ed : SchemaEditor W) := {
  re_preorder :: PreOrder R;
  re_count_extension name : respects R (count_extension name);
  re_Atomic m : AtomicMigration = false → respects R m → respects R (Atomic m);
  re_AddCollected lines : respects R (AddCollected lines);
  re_Execute sql args : respects R (Execute sql args);
  re_CreateModel m : respects R (ed_CreateModel m);
  re_DeleteModel m : respects R (ed_DeleteModel m);
  re_AddField m f : respects R (ed_AddField m f);
  re_RemoveField m f : respects R (ed_RemoveField m f);
  re_AlterField m old new strict : respects R (ed_AlterField m old new strict);
  re_AlterDBTable m old new : respects R (ed_AlterDBTable m old new);
  re_AlterDBTableComment m old new : respects R (ed_AlterDBTableComment m old new);
  re_AlterUniqueTogether m old new : respects R (ed_AlterUniqueTogether m old new);
  re_AddIndex m ix : respects R (ed_AddIndex m ix);
  re_RemoveIndex m ix : respects R (ed_RemoveIndex m ix);
  re_RenameIndex m old new : respects R (ed_RenameIndex m old new);
  re_AddConstraint m c : respects R (ed_AddConstraint m c);
  re_RemoveConstraint m c : respects R (ed_RemoveConstraint m c);
  re_pg p : pg_Editor = Some p →
    (∀ m ix, respects R (pg_AddIndexConcurrently p m ix)) ∧ (∀ m ix, respects R (pg_RemoveIndexConcurrently p m ix)) ∧
    (∀ m c, respects R (pg_AddConstraintNotValid p m c)) ∧ (∀ m name, respects R (pg_ValidateConstraint p m name));
}.
#[export] Hint Resolve re_count_extension re_AddCollected re_Execute re_CreateModel re_DeleteModel re_AddField
  re_RemoveField re_AlterField re_AlterDBTable re_AlterDBTableComment re_AlterUniqueTogether re_AddIndex re_RemoveIndex
  re_RenameIndex re_AddConstraint re_RemoveConstraint : respects.

(** No Go code among the operations inside a SeparateDatabaseAndState *)
Fixpoint go_free (op : Operation) : bool :=
  match op with
  | RunGo _ _ _ _ _ => false
  | SeparateDatabaseAndState dbOps _ => forallb go_free dbOps
  | _ => true
  end.

Section operations.
Context {W : Type} `{ed : SchemaEditor W} (R : relation W) `{!EditorRespects R ed}.
(** Go code respects R too, where there is some. *)
Definition code_respects (op : Operation) : Prop := go_free op = true ∨ ∀ f apps, respects R (run_code f apps).

Lemma respects_with_model s app n (k : ModelPtr → io W unit) :
  (∀ m, respects R (k m)) → respects R (with_model s app n k).
Proof. intros Hk. unfold with_model. respect. Qed.

Lemma respects_renameModelDB app from to o n : respects R (renameModelDB app from to o n).
Proof. unfold renameModelDB. respect. Qed.

Lemma respects_renameIndexDB app from to m o n : respects R (renameIndexDB app from to m o n).
Proof. unfold renameIndexDB. apply respects_with_model. intros. respect. Qed.

Lemma respects_runSQL q : respects R (runSQL q).
Proof. unfold runSQL. respect. Qed.

Lemma respects_editorOf {A} (k : PgEditor W → io W A) :
  (∀ p, pg_Editor = Some p → respects R (k p)) → respects R (pg ← lift editorOf; k pg).
Proof.
  intros Hk. unfold editorOf. destruct pg_Editor as [p|] eqn:Hp; [|by intros w].
  intros w. unfold mbind, io_bind, lift. by apply Hk.
Qed.

Lemma respects_pg p :
  pg_Editor = Some p →
  (∀ m ix, respects R (pg_AddIndexConcurrently p m ix)) ∧ (∀ m ix, respects R (pg_RemoveIndexConcurrently p m ix)) ∧
  (∀ m c, respects R (pg_AddConstraintNotValid p m c)) ∧ (∀ m name, respects R (pg_ValidateConstraint p m name)).
Proof. apply re_pg. Qed.

Lemma respects_concurrentIndex app s n op step :
  (∀ p m, pg_Editor = Some p → respects R (step p m)) → respects R (concurrentIndex app s n op step).
Proof.
  intros Hs. unfold concurrentIndex. case_match; [respect|]. apply respects_bind; [apply _| |intros _].
  { intros w. unfold ensureNotInTransaction. by repeat case_match. }
  apply respects_with_model. intros m. apply respects_editorOf. intros p Hp. by apply Hs.
Qed.

Lemma respects_runCollation app step a :
  (∀ p a, respects R (step p a)) → respects R (runCollation app step a).
Proof. intros Hs. unfold runCollation. case_match; [respect|]. apply respects_editorOf. intros p _. apply Hs. Qed.

Lemma respects_createCollation p a : respects R (createCollation p a).
Proof. unfold createCollation. respect. Qed.
Lemma respects_removeCollation p a : respects R (removeCollation p a).
Proof. unfold removeCollation. respect. Qed.

Lemma respects_extension app n hints :
  respects R (CreateExtension_DatabaseForwards app n hints) ∧ respects R (CreateExtension_DatabaseBackwards app n hints).
Proof.
  unfold CreateExtension_DatabaseForwards, CreateExtension_DatabaseBackwards, extensionExists.
  split; (case_match; [respect|]; apply respects_editorOf; intros p _; respect).
Qed.

Hint Resolve respects_renameModelDB respects_renameIndexDB respects_runSQL respects_createCollation
  respects_removeCollation : respects.

Ltac operation :=
  first
  [ apply respects_with_model; intros ?; respect
  | apply respects_concurrentIndex; intros ? ? (? & ? & ? & ?)%respects_pg; respect
  | apply respects_runCollation; intros; respect
  | apply respects_extension
  | respect ].

Lemma respects_simple op app from to :
  simple_op op = true → code_respects op →
  respects R (DatabaseForwards op app from to) ∧ respects R (DatabaseBackwards op app from to).
Proof.
  intros Hop Hgo. destruct op; try discriminate Hop; simpl; split; try by operation.
  - destruct Hgo as [Hgo|Hgo]; [discriminate Hgo|]. unfold RunGo_DatabaseForwards. respect.
  - destruct Hgo as [Hgo|Hgo]; [discriminate Hgo|]. unfold RunGo_DatabaseBackwards. respect.
  - unfold AddConstraintNotValid_DatabaseForwards. apply respects_bind; [apply _|respect|intros _]. case_match; [respect|].
    apply respects_with_model. intros m. apply respects_editorOf. intros p (? & ? & ? & ?)%respects_pg. respect.
  - unfold AddConstraintNotValid_DatabaseBackwards. case_match; [respect|]. operation.
  - unfold ValidateConstraint_DatabaseForwards. case_match; [respect|].
    apply respects_with_model. intros m. apply respects_editorOf. intros p (? & ? & ? & ?)%respects_pg. respect.
Qed.

Lemma code_respects_parts dbOps stateOps :
  code_respects (SeparateDatabaseAndState dbOps stateOps) → Forall code_respects dbOps.
Proof.
  intros [Hf|Hc]; apply Forall_forall; intros op Hop; [left|by right].
  simpl in Hf. rewrite forallb_forall in Hf. apply Hf. by apply list_elem_of_In.
Qed.

Lemma respects_operation op : ∀ app from to, code_respects op →
  respects R (DatabaseForwards op app from to) ∧ respects R (DatabaseBackwards op app from to).
Proof.
  induction op as [op Hleaf|d ops Hd Hs|q r ops h e Hs] using Operation_nested_ind; intros app from to Hgo.
  - apply respects_simple; [by destruct op|done].
  - apply code_respects_parts in Hgo. rewrite Forall_forall in Hd, Hgo. clear Hs. split; simpl.
    + apply respects_bind; [apply _| |intros; respect].
      revert from. induction d as [|op d IH]; intros from; simpl; [respect|].
      apply respects_bind; [apply _| |intros s; apply IH; intros x Hx; [apply Hd|apply Hgo]; by right].
      apply respects_bind; [apply _|respect|]. intros s'. apply respects_bind; [apply _| |intros; respect].
      apply Hd; [left|apply Hgo; left].
    + revert to. induction d as [|op d IH]; intros to; [respect|].
      apply respects_bind; [apply _|respect|]. intros s'. apply respects_bind; [apply _| |intros _].
      * apply IH; intros x Hx; [apply Hd|apply Hgo]; by right.
      * apply Hd; [left|apply Hgo; left].
  - simpl. unfold RunSQL_DatabaseForwards, RunSQL_DatabaseBackwards. split; respect.
Qed.

(** ** Migrations *)

(** What a migration runs: Go code of its own is not run while SQL is
    collected. *)
Definition runs_respect (mig : Migration) : Prop :=
  ∀ op, op ∈ mig_Operations mig → (CollectSQL = true ∧ ReducesToSQL op = false) ∨ code_respects op.

Lemma respects_run_operation m op run : respects R run → respects R (run_operation m op run).
Proof. intros Hr. unfold run_operation. destruct AtomicMigration eqn:Ha, (atomicOperation m op); simpl; try done. by apply re_Atomic. Qed.

Lemma respects_with_comments {S} op (skipped : S) body :
  (CollectSQL = true ∧ ReducesToSQL op = false) ∨ respects R body → respects R (with_comments op skipped body).
Proof.
  intros Hb. unfold with_comments. destruct CollectSQL eqn:Hc; [|by destruct Hb as [[]|]].
  apply respects_bind; [apply _|respect|intros _]. destruct (ReducesToSQL op) eqn:Hr; simpl; [|respect].
  destruct Hb as [[]|Hb]; [done|]. apply respects_bind; [apply _| |intros before].
  { unfold collected. by intros w. }
  apply respects_bind; [apply _|done|intros s]. apply respects_bind; [apply _| |intros _; respect].
  intros w. unfold note_no_op. case_match; [apply re_AddCollected|done].
Qed.

Lemma respects_Apply mig s : runs_respect mig → respects R (Apply mig s).
Proof.
  intros Hm. unfold Apply, runs_respect in *. revert s. induction (mig_Operations mig) as [|op ops IH]; intros s; [by intros w|].
  simpl. apply respects_bind; [apply _| |intros s'; apply IH; intros; apply Hm; by right].
  apply respects_with_comments. destruct (Hm op) as [|Hc]; [left|by left|right].
  apply respects_bind; [apply _|respect|intros s']. apply respects_bind; [apply _| |intros _; respect].
  apply respects_run_operation. by apply respects_operation.
Qed.

Lemma respects_Unapply FormatOperation mig s : runs_respect mig → respects R (Unapply FormatOperation mig s).
Proof.
  intros Hm. unfold Unapply. destruct (unapply_steps FormatOperation mig s) as [r|e|e] eqn:Hr; [|by intros w..].
  intros w. unfold mbind at 1, io_bind, lift. revert w. change (respects R (_ ← for_io r.1 (unapply_operation mig); mret s)).
  apply respects_bind; [apply _| |intros _; respect].
  assert (∀ st, st ∈ r.1 → us_op st ∈ mig_Operations mig) as Hin.
  { apply unapply_steps_ops in Hr. rewrite Forall_forall in Hr. exact Hr. }
  clear Hr. revert Hin. generalize (r.1). intros sts Hin. unfold for_io. induction sts as [|st sts IH]; [by intros w|]. simpl.
  apply respects_bind; [apply _| |intros []; apply IH; intros; apply Hin; by right].
  apply respects_with_comments. destruct (Hm (us_op st)) as [|Hc]; [apply Hin; left|by left|right].
  apply respects_run_operation. by apply respects_operation.
Qed.
End operations.
