(* ===== verification/Names.v ===== *)
(** * Names of indexes and constraints: backends/base/names.go

    Lengths are Go ints; a slice whose bound is out of range panics. *)

From S2P Require Import Prelude GoStd Keys Errors.

(** ** crypto/md5 and encoding/hex

    The digest the names of indexes and constraints end with. Words are 32
    bits wide, written as numbers below 2^32. *)

Section md5.
Local Open Scope Z_scope.

Definition word (z : Z) : Z := z mod 2 ^ 32.
Definition word_not (z : Z) : Z := 2 ^ 32 - 1 - z.
Definition rotate_left (x : Z) (s : Z) : Z := Z.lor (word (Z.shiftl x s)) (Z.shiftr x (32 - s)).

(** floor(2^32 |sin i|) for i from 1 to 64, and the rotations of a round *)
Definition md5_sines : list Z :=
  [0xd76aa478; 0xe8c7b756; 0x242070db; 0xc1bdceee; 0xf57c0faf; 0x4787c62a; 0xa8304613; 0xfd469501;
   0x698098d8; 0x8b44f7af; 0xffff5bb1; 0x895cd7be; 0x6b901122; 0xfd987193; 0xa679438e; 0x49b40821;
   0xf61e2562; 0xc040b340; 0x265e5a51; 0xe9b6c7aa; 0xd62f105d; 0x02441453; 0xd8a1e681; 0xe7d3fbc8;
   0x21e1cde6; 0xc33707d6; 0xf4d50d87; 0x455a14ed; 0xa9e3e905; 0xfcefa3f8; 0x676f02d9; 0x8d2a4c8a;
   0xfffa3942; 0x8771f681; 0x6d9d6122; 0xfde5380c; 0xa4beea44; 0x4bdecfa9; 0xf6bb4b60; 0xbebfbc70;
   0x289b7ec6; 0xeaa127fa; 0xd4ef3085; 0x04881d05; 0xd9d4d039; 0xe6db99e5; 0x1fa27cf8; 0xc4ac5665;
   0xf4292244; 0x432aff97; 0xab9423a7; 0xfc93a039; 0x655b59c3; 0x8f0ccc92; 0xffeff47d; 0x85845dd1;
   0x6fa87e4f; 0xfe2ce6e0; 0xa3014314; 0x4e0811a1; 0xf7537e82; 0xbd3af235; 0x2ad7d2bb; 0xeb86d391].
Definition md5_shifts : list Z :=
  concat (map (fun r => concat (replicate 4 r)) [[7; 12; 17; 22]; [5; 9; 14; 20]; [4; 11; 16; 23]; [6; 10; 15; 21]]).

Record digest := mkDigest { dg_a : Z; dg_b : Z; dg_c : Z; dg_d : Z }.

(** Step i of the 64 that a block of 16 words goes through *)
Definition md5_mix (i : nat) (b c d : Z) : Z * nat :=
  match (i / 16)%nat with
  | 0%nat => (Z.lor (Z.land b c) (Z.land (word_not b) d), i)
  | 1%nat => (Z.lor (Z.land d b) (Z.land (word_not d) c), (5 * i + 1) mod 16)%nat
  | 2%nat => (Z.lxor (Z.lxor b c) d, (3 * i + 5) mod 16)%nat
  | _ => (Z.lxor c (Z.lor b (word_not d)), (7 * i) mod 16)%nat
  end.

Definition md5_step (block : list Z) (h : digest) (i : nat) : digest :=
  let '(f, g) := md5_mix i (dg_b h) (dg_c h) (dg_d h) in
  let sum := word (f + dg_a h + nth i md5_sines 0 + nth g block 0) in
  mkDigest (dg_d h) (word (dg_b h + rotate_left sum (nth i md5_shifts 0))) (dg_b h) (dg_c h).

Definition md5_block (h : digest) (block : list Z) : digest :=
  let h' := fold_left (md5_step block) (seq 0 64) h in
  mkDigest (word (dg_a h + dg_a h')) (word (dg_b h + dg_b h')) (word (dg_c h + dg_c h')) (word (dg_d h + dg_d h')).

(** Little-endian bytes *)
Fixpoint le_bytes (n : nat) (z : Z) : list Z :=
  match n with O => [] | S n => z mod 256 :: le_bytes n (z / 256) end.
Definition le_word (bs : list Z) : Z := foldr (fun b acc => b + 256 * acc) 0 bs.

(** The message with its padding: a one bit, zeroes, and its length in bits *)
Definition md5_padded (bs : list Z) : list Z :=
  let zeroes := Z.to_nat ((55 - Z.of_nat (length bs)) mod 64) in
  bs ++ [128] ++ replicate zeroes 0 ++ le_bytes 8 ((8 * Z.of_nat (length bs)) mod 2 ^ 64).

Fixpoint chunks {A} (fuel size : nat) (l : list A) : list (list A) :=
  match fuel with
  | O => []
  | S fuel => match l with [] => [] | _ => take size l :: chunks fuel size (drop size l) end
  end.

Definition initial_digest : digest := mkDigest 0x67452301 0xefcdab89 0x98badcfe 0x10325476.

(** md5.Sum *)
Definition md5_sum (bs : list Z) : list Z :=
  let padded := md5_padded bs in
  let blocks := chunks (length padded) 64 padded in
  let h := fold_left (fun h b => md5_block h (map le_word (chunks 16 4 b))) blocks initial_digest in
  le_bytes 4 (dg_a h) ++ le_bytes 4 (dg_b h) ++ le_bytes 4 (dg_c h) ++ le_bytes 4 (dg_d h).

Definition string_bytes (s : string) : list Z := map (fun c => Z.of_N (N_of_ascii c)) (list_ascii_of_string s).

(** hex.EncodeToString *)
Fixpoint hex_encode (bs : list Z) : string :=
  match bs with
  | [] => ""
  | b :: bs => String (hex_digit (Z.to_N (b / 16))) (String (hex_digit (Z.to_N (b mod 16))) (hex_encode bs))
  end.

(** The suite of RFC 1321 *)
Example md5_empty : hex_encode (md5_sum []) = "d41d8cd98f00b204e9800998ecf8427e".
Proof. vm_compute. reflexivity. Qed.
Example md5_abc : hex_encode (md5_sum (string_bytes "abc")) = "900150983cd24fb0d6963f7d28e17f72".
Proof. vm_compute. reflexivity. Qed.
Example md5_digits :
  hex_encode (md5_sum (string_bytes "12345678901234567890123456789012345678901234567890123456789012345678901234567890")) =
  "57edf4a22be3c955ac49da2e2107b67a".
Proof. vm_compute. reflexivity. Qed.

(** ** Lemmas *)

Lemma le_bytes_length n z : length (le_bytes n z) = n.
Proof. revert z. induction n; intros z; simpl; congruence. Qed.

Lemma md5_sum_length bs : length (md5_sum bs) = 16%nat.
Proof. unfold md5_sum. by rewrite !length_app, !le_bytes_length. Qed.

Lemma hex_encode_length bs : String.length (hex_encode bs) = (2 * length bs)%nat.
Proof. induction bs as [|b bs IH]; simpl; [done|]. rewrite IH. lia. Qed.

End md5.

Local Open Scope Z_scope.

(** ** Slices of strings *)

Definition len (s : string) : Z := Z.of_nat (String.length s).

Definition slice_out_of_range : error := PlainError "runtime error: slice bounds out of range".

(** s[:n] *)
Definition slice_to (s : string) (n : Z) : outcome string :=
  if (0 <=? n) && (n <=? len s) then Ok (String.substring 0 (Z.to_nat n) s) else Panic slice_out_of_range.

(** strings.Cut, for any separator *)
Fixpoint cut_string (s sep : string) : option (string * string) :=
  if String.prefix sep s then Some ("", String.substring (String.length sep) (String.length s - String.length sep) s)
  else match s with
       | EmptyString => None
       | String c s' => (fun '(a, b) => (String c a, b)) <$> cut_string s' sep
       end.

(** strings.TrimLeft and strings.Trim, for a cutset of one byte *)
Fixpoint trim_left_byte (c : ascii) (s : string) : string :=
  match s with
  | String d s' => if bool_decide (d = c) then trim_left_byte c s' else s
  | EmptyString => EmptyString
  end.
Fixpoint trim_right_byte (c : ascii) (s : string) : string :=
  match s with
  | EmptyString => EmptyString
  | String d s' =>
      match trim_right_byte c s' with
      | EmptyString => if bool_decide (d = c) then EmptyString else String d EmptyString
      | r => String d r
      end
  end.
Definition trim_byte (c : ascii) (s : string) : string := trim_right_byte c (trim_left_byte c s).

(** ** names.go *)

(** NamesDigest *)
Definition NamesDigest (length : Z) (args : list string) : outcome string :=
  slice_to (hex_encode (md5_sum (concat (map string_bytes args)))) length.

Definition identifier_separator : string := String dquote (String dot (String dquote EmptyString)).

(** SplitIdentifier *)
Definition SplitIdentifier (identifier : string) : string * string :=
  match cut_string identifier identifier_separator with
  | None => ("", trim_byte dquote identifier)
  | Some (ns, name) => (trim_byte dquote ns, trim_byte dquote name)
  end.

(** TruncateName *)
Definition TruncateName (identifier : string) (length hashLen : Z) : outcome string :=
  let '(ns, name) := SplitIdentifier identifier in
  if (length <=? 0) || (len name <=? length) then Ok identifier
  else
    digest ← NamesDigest hashLen [name];
    head ← slice_to name (length - hashLen);
    Ok ((if bool_decide (ns = "") then "" else ns +:+ identifier_separator) +:+ head +:+ digest).

(** The end of CreateIndexName: what it makes of a shortened name *)
Definition starts_badly (name : string) : bool :=
  match name with
  | String c _ => bool_decide (c = "_"%char) || byte_is_digit c
  | EmptyString => false
  end.

Definition mend_start (name : string) : outcome string :=
  match name with
  | EmptyString => Panic index_out_of_range
  | _ => if starts_badly name then head ← slice_to name (len name - 1); Ok ("D" +:+ head) else Ok name
  end.

(** At most n bytes of a string: if len(s) > n { s = s[:n] } *)
Definition cap (s : string) (n : Z) : outcome string := if n <? len s then slice_to s n else Ok s.

(** CreateIndexName *)
Definition CreateIndexName (maxLength : Z) (table : string) (columns : list string) (suffix : string)
    : outcome string :=
  let table := (SplitIdentifier table).2 in
  digest ← NamesDigest 8 (table :: columns);
  let hashSuffix := digest +:+ suffix in
  let maxLength := if maxLength <=? 0 then 200 else maxLength in
  let cols := Join columns "_" in
  let name := table +:+ "_" +:+ cols +:+ "_" +:+ hashSuffix in
  if len name <=? maxLength then Ok name
  else
    hashSuffix ← cap hashSuffix (Z.quot maxLength 3);
    let other := Z.quot (maxLength - len hashSuffix) 2 - 1 in
    table ← cap table other;
    cols ← cap cols other;
    mend_start (table +:+ "_" +:+ cols +:+ "_" +:+ hashSuffix).

(** ** Lemmas *)

Lemma len_nonneg s : 0 <= len s.
Proof. unfold len. lia. Qed.

Lemma len_app a b : len (a +:+ b) = len a + len b.
Proof. unfold len. rewrite str_app_length. lia. Qed.

Lemma len_cons c s : len (String c s) = 1 + len s.
Proof. unfold len. cbn [String.length]. lia. Qed.

Lemma substring_length n s : (n <= String.length s)%nat → String.length (String.substring 0 n s) = n.
Proof. revert s. induction n as [|n IH]; intros [|c s] Hn; simpl in *; try lia. rewrite IH; lia. Qed.

Lemma slice_to_ok s n : 0 <= n <= len s → ∃ r, slice_to s n = Ok r ∧ len r = n.
Proof.
  intros Hn. unfold slice_to. rewrite (proj2 (Z.leb_le 0 n)), (proj2 (Z.leb_le n (len s))) by lia.
  eexists. split; [done|]. unfold len in *. rewrite substring_length; lia.
Qed.

Lemma slice_to_panics s n : n < 0 → slice_to s n = Panic slice_out_of_range.
Proof. intros Hn. unfold slice_to. by rewrite (proj2 (Z.leb_gt 0 n)). Qed.

Lemma slice_to_0 s : slice_to s 0 = Ok "".
Proof. unfold slice_to. rewrite (proj2 (Z.leb_le 0 (len s))) by apply len_nonneg. by destruct s. Qed.

Lemma cap_ok s n : 0 <= n → ∃ r, cap s n = Ok r ∧ len r <= n.
Proof.
  intros Hn. unfold cap. destruct (Z.ltb_spec n (len s)); [|by exists s].
  destruct (slice_to_ok s n) as (r & -> & Hr); [lia|]. exists r. split; [done|lia].
Qed.

Lemma cap_panics s n : n < 0 → cap s n = Panic slice_out_of_range.
Proof.
  intros Hn. unfold cap. pose proof (len_nonneg s). rewrite (proj2 (Z.ltb_lt n (len s))) by lia. by apply slice_to_panics.
Qed.

Lemma digest_length args : len (hex_encode (md5_sum args)) = 32.
Proof. unfold len. by rewrite hex_encode_length, md5_sum_length. Qed.

Lemma NamesDigest_ok n args : 0 <= n <= 32 → ∃ r, NamesDigest n args = Ok r ∧ len r = n.
Proof. intros Hn. apply slice_to_ok. by rewrite digest_length. Qed.

Lemma mend_start_ok name :
  0 < len name → ∃ r, mend_start name = Ok r ∧ len r = len name ∧ starts_badly r = false.
Proof.
  destruct name as [|c s]; [unfold len; simpl; lia|]. intros _. unfold mend_start.
  destruct (starts_badly (String c s)) eqn:Hb; [|by exists (String c s)].
  destruct (slice_to_ok (String c s) (len (String c s) - 1)) as (r & -> & Hr).
  { rewrite len_cons. pose proof (len_nonneg s). lia. }
  exists ("D" +:+ r). split; [done|]. rewrite len_app, Hr. split; [unfold len at 1; simpl; lia|done].
Qed.

(** The name with nothing cut off *)
Definition full_index_name (table : string) (columns : list string) (hashSuffix : string) : string :=
  (SplitIdentifier table).2 +:+ "_" +:+ Join columns "_" +:+ "_" +:+ hashSuffix.

Definition name_limit (maxLength : Z) : Z := if maxLength <=? 0 then 200 else maxLength.

(** The end of CreateIndexName, for a limit that leaves room *)
Lemma shorten_ok M table cols hashSuffix : 2 <= M → ∃ name,
  (hashSuffix ← cap hashSuffix (Z.quot M 3);
   let other := Z.quot (M - len hashSuffix) 2 - 1 in
   table ← cap table other;
   cols ← cap cols other;
   mend_start (table +:+ "_" +:+ cols +:+ "_" +:+ hashSuffix)) = Ok name ∧ len name <= M ∧ starts_badly name = false.
Proof.
  intros HM. assert (0 <= M ÷ 3) as H3 by (apply Z.quot_pos; lia).
  destruct (cap_ok hashSuffix (M ÷ 3) H3) as (h & -> & Hlh). cbn -[len cap mend_start Z.quot].
  pose proof (len_nonneg h) as Hh0. rewrite Z.quot_div_nonneg in Hlh by lia.
  pose proof (Z.div_mod M 3). pose proof (Z.mod_pos_bound M 3).
  rewrite Z.quot_div_nonneg by lia. pose proof (Z.div_mod (M - len h) 2). pose proof (Z.mod_pos_bound (M - len h) 2).
  set (other := (M - len h) / 2 - 1) in *.
  destruct (cap_ok table other) as (t & -> & Hlt); [lia|]. cbn -[len cap mend_start].
  destruct (cap_ok cols other) as (c & -> & Hlc); [lia|]. cbn -[len cap mend_start].
  destruct (mend_start_ok (t +:+ "_" +:+ c +:+ "_" +:+ h)) as (r & -> & Hr & Hb).
  { rewrite !len_app. change (len "_") with 1. pose proof (len_nonneg t). pose proof (len_nonneg c). lia. }
  exists r. split; [done|]. split; [|done]. rewrite Hr, !len_app. change (len "_") with 1. lia.
Qed.

Lemma CreateIndexName_ok maxLength table columns suffix : 2 <= name_limit maxLength →
  ∃ name, CreateIndexName maxLength table columns suffix = Ok name.
Proof.
  intros HM. destruct (NamesDigest_ok 8 ((SplitIdentifier table).2 :: columns)) as (hash & Hh & _); [lia|].
  unfold CreateIndexName. rewrite Hh. fold (name_limit maxLength).
  cbn -[len cap mend_start Z.leb Z.quot Join SplitIdentifier name_limit]. destruct (_ <=? _); [by eexists|].
  destruct (shorten_ok (name_limit maxLength) (SplitIdentifier table).2 (Join columns "_") (hash +:+ suffix) HM) as (r & Hr & _).
  exists r. exact Hr.
Qed.

(** C39: the generated name of an index fits. For every limit but one byte
    CreateIndexName returns, without a slice out of range, a name of at most
    that many bytes (200 where the backend has no limit): the table, the
    columns and the digest in full when they fit, and otherwise a name that
    starts neither with a digit nor with an underscore. With a limit of one
    byte it panics. *)
Theorem CreateIndexName_bounded maxLength table columns suffix :
  ∃ hash, NamesDigest 8 ((SplitIdentifier table).2 :: columns) = Ok hash ∧
  let full := full_index_name table columns (hash +:+ suffix) in
  let r := CreateIndexName maxLength table columns suffix in
  if len full <=? name_limit maxLength then r = Ok full
  else if name_limit maxLength =? 1 then r = Panic slice_out_of_range
  else ∃ name, r = Ok name ∧ len name <= name_limit maxLength ∧ starts_badly name = false.
Proof.
  destruct (NamesDigest_ok 8 ((SplitIdentifier table).2 :: columns)) as (hash & Hh & Hl); [lia|].
  exists hash. split; [done|]. unfold CreateIndexName. rewrite Hh.
  change (if maxLength <=? 0 then 200 else maxLength) with (name_limit maxLength).
  set (M := name_limit maxLength). assert (0 < M) by (subst M; unfold name_limit; destruct (Z.leb_spec maxLength 0); lia).
  cbn -[len cap mend_start full_index_name Z.leb Z.eqb Z.quot Join SplitIdentifier].
  fold (full_index_name table columns (hash +:+ suffix)).
  destruct (Z.leb_spec (len (full_index_name table columns (hash +:+ suffix))) M) as [|Hlong]; [done|].
  destruct (Z.eqb_spec M 1) as [->|HM].
  - assert (cap (hash +:+ suffix) (1 ÷ 3) = Ok "") as ->.
    { change (1 ÷ 3) with 0. unfold cap. rewrite len_app, Hl. pose proof (len_nonneg suffix).
      rewrite (proj2 (Z.ltb_lt _ _)) by lia. apply slice_to_0. }
    cbn -[len cap mend_start Join SplitIdentifier]. change (Z.quot (1 - len "") 2 - 1) with (-1).
    by rewrite (cap_panics (SplitIdentifier table).2) by lia.
  - apply shorten_ok. lia.
Qed.

(** TruncateName keeps a prefix and ends with a digest. *)
Lemma TruncateName_bounded identifier length hashLen :
  0 <= hashLen <= 32 → hashLen <= length →
  ∃ r, TruncateName identifier length hashLen = Ok r ∧
       (r = identifier ∨ ∃ prefix t, r = prefix +:+ t ∧ len t = length).
Proof.
  intros Hh Hl. unfold TruncateName. destruct (SplitIdentifier identifier) as [ns name].
  destruct (Z.leb_spec length 0); simpl; [by eauto|]. destruct (Z.leb_spec (len name) length); [by eauto|].
  destruct (NamesDigest_ok hashLen [name] Hh) as (dg & -> & Hd). simpl.
  destruct (slice_to_ok name (length - hashLen)) as (hd & -> & Hhd); [lia|]. simpl.
  eexists. split; [done|]. right. eexists _, (hd +:+ dg). split; [done|]. rewrite len_app. lia.
Qed.

(** What the program names its constraints *)
Example unique_name :
  CreateIndexName 63 "blog_post" ["title"; "author"] "_uniq" = Ok "blog_post_title_author_6968e6ba_uniq".
Proof. vm_compute. reflexivity. Qed.
