(* ===== verification/Grammar.v ===== *)
(** * The spelling of statements: backends/base/grammar.go

    A Grammar method takes a struct whose fields are already quoted; here the
    fields come one by one, in the order of the struct, but for CREATE INDEX
    and ADD FOREIGN KEY, whose structs are records. *)

From S2P Require Import Prelude GoStd.

(** CreateIndex *)
Record CreateIndexArgs := mkCreateIndexArgs {
  ci_Name : string; ci_Table : string; ci_Columns : string;
  ci_Include : string; ci_Using : string; ci_Comment : string; ci_Option : string; ci_Condition : string;
  ci_NullsDistinct : string;
  ci_Unique : bool;
  ci_Class : string;
  ci_Concurrently : bool;
  ci_Trailing : string;
}.

(** AddForeignKey *)
Record AddForeignKeyArgs := mkAddForeignKeyArgs {
  afk_Table : string; afk_Name : string; afk_Column : string; afk_ToTable : string; afk_ToColumn : string;
  afk_OnDelete : string; afk_OnUpdate : string;
  afk_Inline : bool;
}.

Class Grammar := {
  (* CreateTable Table Definition, RenameTable OldTable NewTable, DropTable Table, TableComment Table Comment *)
  g_CreateTable : string → string → string;
  g_RenameTable : string → string → string;
  g_DropTable : string → string;
  g_TableComment : string → string → string;
  (* Table Column Definition; Table Column; Table OldColumn NewColumn; Table Column Type Comment; Table Column Default *)
  g_AddColumn : string → string → string → string;
  g_DropColumn : string → string → string;
  g_RenameColumn : string → string → string → string;
  g_ColumnComment : string → string → string → string → string;
  g_FillColumnDefault : string → string → string → string;
  (* Table Changes; Column Type Collation Comment Using; Column Type, twice; Column Type Default, three times *)
  g_AlterTable : string → string → string;
  g_AlterColumnType : string → string → string → string → string → string;
  g_AlterColumnNull : string → string → string;
  g_AlterColumnNotNull : string → string → string;
  g_AlterColumnDefault : string → string → string → string;
  g_AlterColumnDropDefault : string → string → string → string;
  g_AlterColumnDropDefaultNull : string → string → string → string;
  (* Name Constraint; Columns; Columns Deferrable; Check *)
  g_NamedConstraint : string → string → string;
  g_PrimaryKeyConstraint : string → string;
  g_UniqueConstraint : string → string → string;
  g_CheckConstraint : string → string;
  (* Table Name Check; Table Name Columns NullsDistinct Deferrable; Table Name Columns *)
  g_AddCheck : string → string → string → string;
  g_AddUnique : string → string → string → string → string → string;
  g_AddPrimaryKey : string → string → string → string;
  g_AddForeignKey : AddForeignKeyArgs → string;
  (* Table Name, five times *)
  g_DropCheck : string → string → string;
  g_DropUnique : string → string → string;
  g_DropPrimaryKey : string → string → string;
  g_DropForeignKey : string → string → string;
  g_DropConstraint : string → string → string;
  (* The indexes; DropIndex Table Name Concurrently, RenameIndex Table OldName NewName *)
  g_CreateIndex : CreateIndexArgs → string;
  g_CreateUniqueIndex : CreateIndexArgs → string;
  g_DropIndex : string → string → bool → string;
  g_RenameIndex : string → string → string → string;
}.

(** dropConstraint *)
Definition dropConstraint (table name : string) : string := "ALTER TABLE " +:+ table +:+ " DROP CONSTRAINT " +:+ name.

(** indexClass *)
Definition indexClass (c : CreateIndexArgs) : string :=
  if ci_Unique c then "UNIQUE " else if bool_decide (ci_Class c = "") then "" else ci_Class c +:+ " ".

(** BaseGrammar.AddForeignKey, CreateIndex and CreateUniqueIndex *)
Definition base_AddForeignKey (c : AddForeignKeyArgs) : string :=
  let body := "CONSTRAINT " +:+ afk_Name c +:+ " FOREIGN KEY (" +:+ afk_Column c +:+ ") REFERENCES " +:+
              afk_ToTable c +:+ " (" +:+ afk_ToColumn c +:+ ")" +:+ afk_OnDelete c +:+ afk_OnUpdate c in
  if afk_Inline c then body else "ALTER TABLE " +:+ afk_Table c +:+ " ADD " +:+ body.

Definition base_CreateIndex (c : CreateIndexArgs) : string :=
  "CREATE " +:+ indexClass c +:+ "INDEX " +:+ ci_Name c +:+ " ON " +:+ ci_Table c +:+ " (" +:+ ci_Columns c +:+ ")" +:+
  ci_Include c +:+ ci_Using c +:+ ci_Comment c +:+ ci_Option c +:+ ci_Condition c +:+ ci_Trailing c.

Definition base_CreateUniqueIndex (c : CreateIndexArgs) : string :=
  "CREATE UNIQUE INDEX " +:+ ci_Name c +:+ " ON " +:+ ci_Table c +:+ " (" +:+ ci_Columns c +:+ ")" +:+
  ci_Include c +:+ ci_NullsDistinct c +:+ ci_Condition c.

(** BaseGrammar *)
Definition BaseGrammar : Grammar := {|
  g_CreateTable table definition := "CREATE TABLE " +:+ table +:+ " (" +:+ definition +:+ ")";
  g_RenameTable old new := "ALTER TABLE " +:+ old +:+ " RENAME TO " +:+ new;
  g_DropTable table := "DROP TABLE " +:+ table;
  g_TableComment table comment := "COMMENT ON TABLE " +:+ table +:+ " IS " +:+ comment;
  g_AddColumn table column definition := "ALTER TABLE " +:+ table +:+ " ADD COLUMN " +:+ column +:+ " " +:+ definition;
  g_DropColumn table column := "ALTER TABLE " +:+ table +:+ " DROP COLUMN " +:+ column;
  g_RenameColumn table old new := "ALTER TABLE " +:+ table +:+ " RENAME COLUMN " +:+ old +:+ " TO " +:+ new;
  g_ColumnComment table column _ comment := "COMMENT ON COLUMN " +:+ table +:+ "." +:+ column +:+ " IS " +:+ comment;
  g_FillColumnDefault table column def :=
    "UPDATE " +:+ table +:+ " SET " +:+ column +:+ " = " +:+ def +:+ " WHERE " +:+ column +:+ " IS NULL";
  g_AlterTable table changes := "ALTER TABLE " +:+ table +:+ " " +:+ changes;
  g_AlterColumnType column typ collation _ _ := "ALTER COLUMN " +:+ column +:+ " TYPE " +:+ typ +:+ collation;
  g_AlterColumnNull column _ := "ALTER COLUMN " +:+ column +:+ " DROP NOT NULL";
  g_AlterColumnNotNull column _ := "ALTER COLUMN " +:+ column +:+ " SET NOT NULL";
  g_AlterColumnDefault column _ def := "ALTER COLUMN " +:+ column +:+ " SET DEFAULT " +:+ def;
  g_AlterColumnDropDefault column _ _ := "ALTER COLUMN " +:+ column +:+ " DROP DEFAULT";
  g_AlterColumnDropDefaultNull column _ _ := "ALTER COLUMN " +:+ column +:+ " DROP DEFAULT";
  g_NamedConstraint name constraint := "CONSTRAINT " +:+ name +:+ " " +:+ constraint;
  g_PrimaryKeyConstraint columns := "PRIMARY KEY (" +:+ columns +:+ ")";
  g_UniqueConstraint columns deferrable := "UNIQUE (" +:+ columns +:+ ")" +:+ deferrable;
  g_CheckConstraint check := "CHECK (" +:+ check +:+ ")";
  g_AddCheck table name check := "ALTER TABLE " +:+ table +:+ " ADD CONSTRAINT " +:+ name +:+ " CHECK (" +:+ check +:+ ")";
  g_AddUnique table name columns nulls deferrable :=
    "ALTER TABLE " +:+ table +:+ " ADD CONSTRAINT " +:+ name +:+ " UNIQUE" +:+ nulls +:+ " (" +:+ columns +:+ ")" +:+
    deferrable;
  g_AddPrimaryKey table name columns :=
    "ALTER TABLE " +:+ table +:+ " ADD CONSTRAINT " +:+ name +:+ " PRIMARY KEY (" +:+ columns +:+ ")";
  g_AddForeignKey := base_AddForeignKey;
  g_DropCheck := dropConstraint;
  g_DropUnique := dropConstraint;
  g_DropPrimaryKey := dropConstraint;
  g_DropForeignKey := dropConstraint;
  g_DropConstraint := dropConstraint;
  g_CreateIndex := base_CreateIndex;
  g_CreateUniqueIndex := base_CreateUniqueIndex;
  g_DropIndex _ name _ := "DROP INDEX " +:+ name;
  g_RenameIndex _ old new := "ALTER INDEX " +:+ old +:+ " RENAME TO " +:+ new;
|}.
