(* ===== verification/References.v ===== *)
(** * Deferred statements: backends/base/ddl_references.go

    A deferred statement keeps references to tables and columns, which follow
    renames until it runs. Its rendering is a closure over those references:
    here a function of their current texts, in the order of the list. The
    Quote function of every reference is the QuoteName of its editor. *)

From S2P Require Import Prelude GoStd Keys Errors Names.

(** Name *)
Record NameRef := mkNameRef {
  nr_Value : string;
  nr_Table : string;
  nr_Columns : list string;
  nr_ToTable : string;
  nr_ToColumns : list string;
  nr_Suffix : string;
  nr_MaxLength : Z;
}.

(** StatementKind *)
Inductive StatementKind :=
| StatementOther
| StatementAddForeignKey
| StatementAddInlineForeignKey
| StatementCreateIndex
| StatementAddUnique
| StatementDropForeignKey.

#[export] Instance StatementKind_eq_dec : EqDecision StatementKind.
Proof. solve_decision. Defined.

(** Reference: a Table, Columns, a Name, Expressions, or a Statement that is a
    clause of another *)
Inductive Reference :=
| RTable (Name : string)
| RColumns (Table : string) (Names Suffixes : list string)
| RName (n : NameRef)
| RExpressions (Table SQL : string)
| RClause (refs : list Reference) (render : list string → string).

(** Statement. [st_name] is the position of its Name among its references. *)
Record Statement := mkStatement {
  st_refs : list Reference;
  st_render : StatementKind → list string → string;
  st_kind : StatementKind;
  st_name : option nat;
}.

Definition st_set_kind (k : StatementKind) (s : Statement) : Statement :=
  mkStatement (st_refs s) (st_render s) k (st_name s).

(** ** What a reference refers to *)

(** Columns.ReferencesColumn and the closure has of Name.ReferencesColumn *)
Definition has (t : string) (cols : list string) (table column : string) : bool :=
  bool_decide (t = table) && existsb (fun c => bool_decide (c = column)) cols.

Fixpoint ReferencesTable (table : string) (r : Reference) : bool :=
  match r with
  | RTable name => bool_decide (name = table)
  | RColumns t _ _ => bool_decide (t = table)
  | RName n => bool_decide (nr_Table n = table) ||
               (negb (bool_decide (nr_ToTable n = "")) && bool_decide (nr_ToTable n = table))
  | RExpressions t _ => bool_decide (t = table)
  | RClause refs _ => existsb (ReferencesTable table) refs
  end.

Fixpoint ReferencesColumn (table column : string) (r : Reference) : bool :=
  match r with
  | RColumns t names _ => has t names table column
  | RName n => has (nr_Table n) (nr_Columns n) table column || has (nr_ToTable n) (nr_ToColumns n) table column
  | RTable _ | RExpressions _ _ => false
  | RClause refs _ => existsb (ReferencesColumn table column) refs
  end.

(** ** Renames *)

(** renameIn *)
Definition renameIn (xs : list string) (old new : string) : list string :=
  map (fun x => if bool_decide (x = old) then new else x) xs.

Definition rename_one (x old new : string) : string := if bool_decide (x = old) then new else x.

Fixpoint RenameTableReferences (oldTable newTable : string) (r : Reference) : Reference :=
  match r with
  | RTable name => RTable (rename_one name oldTable newTable)
  | RColumns t names suffixes => RColumns (rename_one t oldTable newTable) names suffixes
  | RName n => RName (mkNameRef (nr_Value n) (rename_one (nr_Table n) oldTable newTable) (nr_Columns n)
                        (rename_one (nr_ToTable n) oldTable newTable) (nr_ToColumns n) (nr_Suffix n) (nr_MaxLength n))
  | RExpressions t sql => RExpressions (rename_one t oldTable newTable) sql
  | RClause refs render => RClause (map (RenameTableReferences oldTable newTable) refs) render
  end.

Fixpoint RenameColumnReferences (table oldColumn newColumn : string) (r : Reference) : Reference :=
  let rename t cols := if bool_decide (t = table) then renameIn cols oldColumn newColumn else cols in
  match r with
  | RColumns t names suffixes => RColumns t (rename t names) suffixes
  | RName n => RName (mkNameRef (nr_Value n) (nr_Table n) (rename (nr_Table n) (nr_Columns n))
                        (nr_ToTable n) (rename (nr_ToTable n) (nr_ToColumns n)) (nr_Suffix n) (nr_MaxLength n))
  | RTable _ | RExpressions _ _ => r
  | RClause refs render => RClause (map (RenameColumnReferences table oldColumn newColumn) refs) render
  end.

(** ** Texts *)

Section text.
Context (QuoteName : string → string).

(** Columns.String *)
Fixpoint columns_parts (names suffixes : list string) : list string :=
  match names with
  | [] => []
  | n :: names =>
      let suffix := hd "" suffixes in
      (QuoteName n +:+ (if bool_decide (suffix = "") then "" else " " +:+ suffix)) :: columns_parts names (tl suffixes)
  end.

(** Name.String: a name with a suffix is derived when it is rendered. *)
Definition Name_String (n : NameRef) : outcome string :=
  if bool_decide (nr_Suffix n = "") then Ok (QuoteName (nr_Value n))
  else QuoteName <$> CreateIndexName (nr_MaxLength n) (nr_Table n) (nr_Columns n) (nr_Suffix n).

Fixpoint mapM_outcome {A B} (f : A → outcome B) (l : list A) : outcome (list B) :=
  match l with
  | [] => Ok []
  | x :: l => y ← f x; ys ← mapM_outcome f l; Ok (y :: ys)
  end.

Fixpoint Reference_String (r : Reference) : outcome string :=
  match r with
  | RTable name => Ok (QuoteName name)
  | RColumns _ names suffixes => Ok (Join (columns_parts names suffixes) ", ")
  | RName n => Name_String n
  | RExpressions _ sql => Ok sql
  | RClause refs render => parts ← mapM_outcome Reference_String refs; Ok (render parts)
  end.

(** Statement.String *)
Definition Statement_String (s : Statement) : outcome string :=
  parts ← mapM_outcome Reference_String (st_refs s); Ok (st_render s (st_kind s) parts).

(** ReferencesIndex, of a reference and of a statement *)
Fixpoint ReferencesIndex (table index : string) (r : Reference) : bool :=
  match r with
  | RTable name => bool_decide (name = table) && bool_decide (QuoteName name = index)
  | RClause refs _ => existsb (ReferencesIndex table index) refs
  | _ => false
  end.

Definition Statement_ReferencesIndex (table index : string) (s : Statement) : bool :=
  existsb (ReferencesIndex table index) (st_refs s).
End text.

(** ** Statements *)

Definition Statement_ReferencesTable (table : string) (s : Statement) : bool :=
  existsb (ReferencesTable table) (st_refs s).
Definition Statement_ReferencesColumn (table column : string) (s : Statement) : bool :=
  existsb (ReferencesColumn table column) (st_refs s).

Definition Statement_RenameTableReferences (oldTable newTable : string) (s : Statement) : Statement :=
  mkStatement (map (RenameTableReferences oldTable newTable) (st_refs s)) (st_render s) (st_kind s) (st_name s).
Definition Statement_RenameColumnReferences (table oldColumn newColumn : string) (s : Statement) : Statement :=
  mkStatement (map (RenameColumnReferences table oldColumn newColumn) (st_refs s)) (st_render s) (st_kind s) (st_name s).

(** Statement.Name *)
Definition Statement_Name (s : Statement) : option NameRef :=
  i ← st_name s; match st_refs s !! i with Some (RName n) => Some n | _ => None end.

(** ** Laws of renaming *)

(** References are nested: a law of every kind of reference that a clause
    inherits from its parts holds of all. *)
Lemma Reference_nested_ind (P : Reference → Prop) :
  (∀ r, (∀ refs render, r ≠ RClause refs render) → P r) →
  (∀ refs render, Forall P refs → P (RClause refs render)) → ∀ r, P r.
Proof.
  intros Hleaf Hclause. fix IH 1. intros [name|t names suffixes|n|t sql|refs render].
  1-4: by apply Hleaf.
  apply Hclause. revert refs. fix IHl 1. intros [|r refs]; constructor; [apply IH|apply IHl].
Qed.

Lemma existsb_map_law {A} (f : A → A) (p q : A → bool) l :
  Forall (fun x => p (f x) = q x) l → existsb p (map f l) = existsb q l.
Proof. induction 1 as [|x l Hx _ IH]; simpl; [done|]. by rewrite Hx, IH. Qed.

Lemma rename_one_old x old new : old ≠ new → rename_one x old new ≠ old.
Proof. intros Hne. unfold rename_one. by case_bool_decide. Qed.

(** After a rename no reference to the old table is left. *)
Lemma RenameTableReferences_old old new r :
  old ≠ new → ReferencesTable old (RenameTableReferences old new r) = false.
Proof.
  intros Hne. assert (∀ x, bool_decide (rename_one x old new = old) = false) as Hone
    by (intros x; by apply bool_decide_eq_false_2, rename_one_old).
  induction r as [r Hr|refs render IH] using Reference_nested_ind; simpl.
  - destruct r as [name|t names suffixes|n|t sql|refs render]; simpl; rewrite ?Hone; simpl;
      rewrite ?andb_false_r; try done. by destruct (Hr refs render).
  - rewrite (existsb_map_law _ _ (fun _ => false)) by done. clear IH. by induction refs.
Qed.

Lemma rename_in_old cols old new table t column :
  old ≠ new → column = old → t = table → has t (renameIn cols old new) table column = false.
Proof.
  intros Hne -> ->. unfold has, renameIn. rewrite bool_decide_eq_true_2 by done. simpl.
  induction cols as [|c cols IH]; simpl; [done|]. rewrite IH, orb_false_r. by apply bool_decide_eq_false_2, rename_one_old.
Qed.

(** After a rename no reference to the old column is left. *)
Lemma RenameColumnReferences_old table old new r :
  old ≠ new → ReferencesColumn table old (RenameColumnReferences table old new r) = false.
Proof.
  intros Hne.
  assert (∀ t cols, has t (if bool_decide (t = table) then renameIn cols old new else cols) table old = false) as Hone.
  { intros t cols. case_bool_decide as Ht; [by apply rename_in_old|]. unfold has. by rewrite bool_decide_eq_false_2. }
  induction r as [r Hr|refs render IH] using Reference_nested_ind; simpl.
  - destruct r as [name|t names suffixes|n|t sql|refs render]; simpl; rewrite ?Hone; try done. by destruct (Hr refs render).
  - rewrite (existsb_map_law _ _ (fun _ => false)) by done. clear IH. by induction refs.
Qed.
