(* ===== verification/Backend.v ===== *)
(** * Backends, connections and the life of an editor

    backends/base/backend.go, features.go, conn.go, and of editor.go what
    does not depend on a statement's shape: Begin, Finish, Execute and the
    deferred statements. The database, with gorm in front of it, is a type D;
    what gorm, the dialector and the driver do on it is the class [Backend]. *)

From S2P Require Import Prelude GoStd Keys Errors Fields Index ModelState Apps ProjectState Operation SchemaEditor.
From S2P Require Import Effects Names Grammar References.

(** Features, those that the modelled code consults *)
Record Features := mkFeatures {
  SupportsTransactions : bool;
  CanRollbackDDL : bool;
  SupportsCombinedAlters : bool;
  SupportsForeignKeys : bool;
  CanCreateInlineFK : bool;
  SupportsComments : bool;
  SupportsCommentsInline : bool;
  SupportsPartialIndexes : bool;
  SupportsExpressionIndexes : bool;
  SupportsCoveringIndexes : bool;
  SupportsDeferrableUniqueConstraints : bool;
  SupportsNullsDistinctUniqueConstraints : bool;
  SupportsIndexColumnOrdering : bool;
  SupportsTableCheckConstraints : bool;
  CanRenameIndex : bool;
  InterpretsEmptyStringsAsNulls : bool;
  AllowsMultipleConstraintsOnSameFields : bool;
  feat_IgnoresTableNameCase : bool;
  feat_PadsSizedStrings : bool;
  feat_NoAutoIncrementOnInsert : bool;
}.

(** ConstraintInfo, as far as the editor reads it *)
Record ConstraintInfo := mkConstraintInfo {
  coi_Columns : list string;
  coi_PrimaryKey : bool;
  coi_Unique : bool;
  coi_ForeignKey : option (string * list string);
  coi_Check : bool;
  coi_Index : bool;
}.

(** gorm's schema.Field, as far as SchemaField fills it in *)
Record GormField := mkGormField {
  gf_Name : string;
  gf_DBName : string;
  gf_DataType : DataType;
  gf_PrimaryKey : bool;
  gf_AutoIncrement : bool;
  gf_AutoIncrementIncrement : Z;
  gf_HasDefaultValue : bool;
  gf_DefaultValue : string;
  gf_DefaultValueInterface : option any;
  gf_NotNull : bool;
  gf_Unique : bool;
  gf_Comment : string;
  gf_Size : Z;
  gf_Precision : Z;
  gf_Scale : Z;
  gf_FieldType : string;
  gf_TagSettings : gmap string string;
  gf_SchemaName : string;
  gf_SchemaTable : string;
}.

(** ** The editor's state *)

Record EditorState := mkEditorState {
  es_collect : bool;
  es_sqls : list string;
  es_deferred : list Statement;
  es_atomicMigration : bool;
  es_begun : bool;
  es_tx : bool;
  es_dropped : gmap string (gset string);
}.

Definition es_set_sqls (v : list string) (e : EditorState) : EditorState :=
  mkEditorState (es_collect e) v (es_deferred e) (es_atomicMigration e) (es_begun e) (es_tx e) (es_dropped e).
Definition es_set_deferred (v : list Statement) (e : EditorState) : EditorState :=
  mkEditorState (es_collect e) (es_sqls e) v (es_atomicMigration e) (es_begun e) (es_tx e) (es_dropped e).
Definition es_set_begun (v : bool) (e : EditorState) : EditorState :=
  mkEditorState (es_collect e) (es_sqls e) (es_deferred e) (es_atomicMigration e) v (es_tx e) (es_dropped e).
Definition es_set_tx (v : bool) (e : EditorState) : EditorState :=
  mkEditorState (es_collect e) (es_sqls e) (es_deferred e) (es_atomicMigration e) (es_begun e) v (es_dropped e).
Definition es_set_dropped (v : gmap string (gset string)) (e : EditorState) : EditorState :=
  mkEditorState (es_collect e) (es_sqls e) (es_deferred e) (es_atomicMigration e) (es_begun e) (es_tx e) v.

(** What an editor acts on: the database behind its connection, how many
    clock readings there have been, the connection's atomicDepth, and the
    editor itself *)
Record World (D : Type) := mkWorld { w_db : D; w_clock : nat; w_depth : nat; w_editor : EditorState }.
Arguments mkWorld {D}.
Arguments w_db {D}.
Arguments w_clock {D}.
Arguments w_depth {D}.
Arguments w_editor {D}.

Definition set_db {D} (d : D) (w : World D) : World D := mkWorld d (w_clock w) (w_depth w) (w_editor w).
Definition tick {D} (w : World D) : World D := mkWorld (w_db w) (S (w_clock w)) (w_depth w) (w_editor w).
Definition set_depth {D} (n : nat) (w : World D) : World D := mkWorld (w_db w) (w_clock w) n (w_editor w).
Definition set_editor {D} (e : EditorState) (w : World D) : World D := mkWorld (w_db w) (w_clock w) (w_depth w) e.
Definition on_editor {D} (f : EditorState → EditorState) (w : World D) : World D := set_editor (f (w_editor w)) w.

(** A connection's world with every editor made on it: an editor is known by
    its position. *)
Record Session (D : Type) := mkSession { s_db : D; s_clock : nat; s_depth : nat; s_editors : list EditorState }.
Arguments mkSession {D}.
Arguments s_db {D}.
Arguments s_clock {D}.
Arguments s_depth {D}.
Arguments s_editors {D}.

Definition fresh_editor : EditorState := mkEditorState false [] [] false false false ∅.
Definition editor_at {D} (n : nat) (s : Session D) : EditorState := default fresh_editor (s_editors s !! n).
Definition world_at {D} (n : nat) (s : Session D) : World D := mkWorld (s_db s) (s_clock s) (s_depth s) (editor_at n s).
Definition put_world {D} (n : nat) (w : World D) (s : Session D) : Session D :=
  mkSession (w_db w) (w_clock w) (w_depth w) (<[n := w_editor w]> (s_editors s)).

(** What one of the editors does *)
Definition by_editor {D A} (n : nat) (m : io (World D) A) : io (Session D) A := zoom (world_at n) (put_world n) m.

(** ** Backends *)

Class Backend (D : Type) := {
  (* Backend, and the alias and the routers of its connection *)
  be_Vendor : string;
  be_Features : Features;
  be_RecorderDeleteSettings : string;
  be_alias : string;
  Routers : list (string → string → Hints → option bool);
  MaxNameLength : Z;
  (* Ops *)
  be_QuoteName : string → string;
  be_QuoteValue : option any → outcome string;
  be_PrepareSQLScript : string → list string;
  (* The Grammar the backend gives its editors *)
  be_Grammar : Grammar;
  (* Introspection *)
  be_IdentifierConverter : string → string;
  Constraints : string → io D (gmap string ConstraintInfo);
  be_TableNames : io D (list string);
  be_TableDescription : string → io D (list string);
  (* gorm: Exec, Begin, Commit and Rollback on the current handle, the last
     two with the return to the session *)
  db_Exec : string → list any → io D unit;
  db_Begin : io D unit;
  db_Commit : io D unit;
  db_Rollback : io D unit;
  (** Raw and Rows, with the loop that reads what the query gives: the
      records of the migrations table, and the count of an extension *)
  db_Rows : string → io D (list (Z * string * string * any));
  db_count_extension : string → io D Z;
  (** gorm's Transaction: a block in a transaction, or behind a savepoint *)
  db_Transaction : io (Session D) unit → io (Session D) unit;
  (* gorm: the naming strategy, the dialector, and custom types by their name *)
  NamingUniqueName : string → string → string;
  DataTypeOf : GormField → string;
  GormDBDataType : string → GormField → option string;
  (* fmt.Sprint, time.Now, a default's function, and GoExpr.Literal *)
  Sprint : option any → string;
  time_at : nat → any;
  call_func : GoFunc → nat → option any;
  expr_Literal : string → option (option any);
  (** The PreCommit hook a backend sets *)
  PreCommit : option (io (World D) unit);
  (** The code of a RunGo operation, compiled into the command *)
  run_go : RunGoFunc → Apps → io (Session D) unit;
}.

Section backend.
Context {D : Type} `{Backend D}.
Notation IO A := (io (World D) A).

(** What the database does *)
Definition on_db {A} (m : io D A) : IO A := zoom w_db set_db m.

(** ** Connections: conn.go *)

(** Conn.InAtomicBlock, Conn.Exec *)
Definition conn_InAtomicBlock (w : World D) : bool := 0 <? w_depth w.
Definition conn_Exec (sql : string) (args : list any) : IO unit := on_db (db_Exec sql args).

(** Conn.AllowMigrate: the first router with an opinion has its way. *)
Fixpoint first_opinion (routers : list (string → string → Hints → option bool)) (app : string) (h : Hints) : bool :=
  match routers with
  | [] => true
  | r :: routers => match r be_alias app h with Some v => v | None => first_opinion routers app h end
  end.
Definition be_AllowMigrate (app : string) (h : Hints) : bool := first_opinion Routers app h.

(** Conn.Atomic: the depth is put back whatever happens. *)
Definition ses_set_depth (n : nat) (s : Session D) : Session D := mkSession (s_db s) (s_clock s) n (s_editors s).

Definition conn_Atomic (fn : io (Session D) unit) : io (Session D) unit := fun s =>
  if SupportsTransactions be_Features then
    let '(s', r) := db_Transaction fn (ses_set_depth (S (s_depth s)) s) in (ses_set_depth (pred (s_depth s')) s', r)
  else fn s.

(** ** The editor's life: editor.go *)

Definition editor_state : IO EditorState := w ← get_state; mret (w_editor w).
Definition edit (f : EditorState → EditorState) : IO unit := modify (on_editor f).

(** NewEditor *)
Definition Editor_New (collectSQL atomic : bool) : EditorState :=
  mkEditorState collectSQL [] [] (CanRollbackDDL be_Features && atomic) false false ∅.

(** Editor.AddCollected *)
Definition Editor_AddCollected (lines : list string) : IO unit := edit (fun e => es_set_sqls (es_sqls e ++ lines) e).

(** Editor.Begin, with beginTx *)
Definition beginTx : IO unit :=
  _ ← on_db db_Begin;
  _ ← edit (es_set_tx true);
  modify (fun w => set_depth (S (w_depth w)) w).

Definition Editor_Begin : IO unit :=
  _ ← edit (fun e => es_set_begun true (es_set_deferred [] e));
  e ← editor_state;
  if es_atomicMigration e && negb (es_collect e) then beginTx else mret tt.

(** Editor.interpolate: a question mark without an argument stays. *)
Fixpoint interpolate (sql : string) (args : list any) : outcome string :=
  match sql with
  | EmptyString => Ok ""
  | String c rest =>
      match bool_decide (c = "?"%char), args with
      | true, a :: args => q ← be_QuoteValue (Some a); r ← interpolate rest args; Ok (q +:+ r)
      | _, _ => r ← interpolate rest args; Ok (String c r)
      end
  end.

(** strings.TrimRight(sql, " \t\r\n") ends with a semicolon *)
Definition is_blank (c : ascii) : bool :=
  bool_decide (c = " "%char ∨ N_of_ascii c = 9%N ∨ N_of_ascii c = 13%N ∨ N_of_ascii c = 10%N).

Fixpoint ends_with_semicolon (sql : string) : bool :=
  match sql with
  | EmptyString => false
  | String c rest => ends_with_semicolon rest || (bool_decide (c = ";"%char) && forallb is_blank (list_ascii_of_string rest))
  end.

Definition transaction_management_error : error :=
  PlainError ("executing DDL statements while in a transaction on databases that can't perform a rollback is " +:+
              "prohibited").

(** Editor.Execute *)
Definition Editor_Execute (sql : string) (args : list any) : IO unit :=
  w ← get_state;
  if negb (es_collect (w_editor w)) && conn_InAtomicBlock w && negb (CanRollbackDDL be_Features)
  then lift (Err transaction_management_error)
  else if es_collect (w_editor w) then
    sql ← lift (if bool_decide (args = []) then Ok sql else interpolate sql args);
    edit (fun e => es_set_sqls (es_sqls e ++ [sql +:+ (if ends_with_semicolon sql then "" else ";")]) e)
  else conn_Exec sql args.

(** A statement, rendered when it runs *)
Definition exec_statement (s : Statement) : IO unit :=
  sql ← lift (Statement_String be_QuoteName s); Editor_Execute sql [].

(** The loop of Finish: what has run is dropped from the list as it goes. *)
Fixpoint run_deferred (deferred : list Statement) : IO unit :=
  match deferred with
  | [] => mret tt
  | s :: rest => _ ← exec_statement s; _ ← edit (es_set_deferred rest); run_deferred rest
  end.

(** The end of Finish: the transaction, when one was opened. A failed
    rollback is joined to the error. *)
Definition leave_tx (err : option error) : IO (option error) :=
  e ← editor_state;
  if es_tx e then
    r ← attempt (on_db (match err with None => db_Commit | Some _ => db_Rollback end));
    _ ← modify (fun w => set_depth (pred (w_depth w)) w);
    _ ← edit (es_set_tx false);
    mret match err, r with
         | None, r => error_of r
         | Some x, inl _ => Some (JoinedError [Error x])
         | Some x, inr y => Some (JoinedError [Error x; Error y])
         end
  else mret err.

(** Editor.Finish: the deferred statements and the hook, unless there is an
    error already, and then the transaction. *)
Definition finish_statements (err : option error) : IO (option error) :=
  err ← match err with
        | Some x => mret (Some x)
        | None => r ← attempt (e ← editor_state; run_deferred (es_deferred e)); mret (error_of r)
        end;
  match err, PreCommit with
  | None, Some hook => r ← attempt hook; mret (error_of r)
  | _, _ => mret err
  end.

Definition Editor_Finish (err : option error) : IO unit :=
  err ← finish_statements err;
  err ← leave_tx err;
  match err with None => mret tt | Some x => lift (Err x) end.

(** ** The deferred statements *)

(** Editor.Defer *)
Definition Defer (s : option Statement) : IO unit :=
  match s with
  | Some s => edit (fun e => es_set_deferred (es_deferred e ++ [s]) e)
  | None => mret tt
  end.

(** Editor.RemoveDeferred *)
Definition RemoveDeferred (fn : Statement → bool) : IO unit :=
  edit (fun e => es_set_deferred (filter (fun s => fn s = false) (es_deferred e)) e).

(** Editor.DeferFK: a pending creation of the same constraint is replaced. *)
Definition same_creation (s d : Statement) : bool :=
  match Statement_Name s, Statement_Name d with
  | Some name, Some dn =>
      bool_decide (st_kind d = st_kind s) && bool_decide (nr_Table dn = nr_Table name) &&
      bool_decide (nr_Value dn = nr_Value name)
  | _, _ => false
  end.

Definition DeferFK (s : Statement) : IO unit := _ ← RemoveDeferred (same_creation s); Defer (Some s).

(** Editor.ExecDrop: while SQL is collected the drop is remembered. *)
Definition remember_drop (table name : string) (e : EditorState) : EditorState :=
  if es_collect e
  then es_set_dropped (<[table := {[name]} ∪ default ∅ (es_dropped e !! table)]> (es_dropped e)) e
  else e.

Definition Editor_ExecDrop (table name : string) (st : Statement) : IO unit :=
  _ ← exec_statement st; edit (remember_drop table name).

(** Editor.IsDropped *)
Definition IsDropped (table name : string) (e : EditorState) : bool :=
  bool_decide (name ∈ default ∅ (es_dropped e !! table)).
End backend.
