(* ===== verification/EditorSQL.v ===== *)
(** * The SQL of an editor: the rendering half of backends/base/editor.go

    Each method that returns SQL or a statement, over the [Overrides] the
    editor was given: a method that a backend may replace is reached through
    [outer], never directly. A rendering may read the clock, and a few change
    the deferred statements. *)

From S2P Require Import Prelude GoStd Keys Errors Fields Index ModelState Apps ProjectState Operation SchemaEditor.
From S2P Require Import Effects Names Grammar References Backend.

(** ** Overrides: the interfaces Dialect and Steps *)

Record Overrides (D : Type) := mkOverrides {
  (* Dialect *)
  o_ColumnSQL : ModelPtr → FieldPtr → bool → io (World D) string;
  o_SkipDefault : FieldPtr → io (World D) bool;
  o_SkipDefaultOnAlter : FieldPtr → io (World D) bool;
  o_DBDefaultSQL : FieldPtr → io (World D) string;
  o_TableSQL : ModelPtr → io (World D) string;
  o_UniqueName : ModelPtr → FieldPtr → string;
  (** The fragment, and the statements that run after it *)
  o_AlterColumnTypeSQL : ModelPtr → FieldPtr → FieldPtr → string → io (World D) (string * list string);
  o_AlterColumnNullSQL : ModelPtr → FieldPtr → FieldPtr → io (World D) string;
  o_AlterColumnDefaultSQL : ModelPtr → option FieldPtr → FieldPtr → bool → io (World D) string;
  o_AlterColumnDatabaseDefaultSQL : ModelPtr → FieldPtr → FieldPtr → bool → io (World D) string;
  o_AlterColumnCommentSQL : ModelPtr → FieldPtr → string → string → io (World D) string;
  o_RenameFieldSQL : string → FieldPtr → FieldPtr → string → string;
  o_CreateFKSQL : ModelPtr → FieldPtr → io (World D) Statement;
  (** None for a nil statement *)
  o_CompositeFKSQL : ModelPtr → ForeignKeyConstraint → io (World D) (option Statement);
  o_CreateIndexSQL : ModelPtr → Index → io (World D) (option Statement);
  o_DeleteIndexSQL : ModelPtr → string → io (World D) Statement;
  o_RenameIndexSQL : ModelPtr → string → string → Statement;
  o_CreatePrimaryKeySQL : ModelPtr → list string → io (World D) Statement;
  o_ConstraintSQL : ModelPtr → Constraint → io (World D) string;
  o_CreateConstraintSQL : ModelPtr → Constraint → io (World D) (option Statement);
  o_RemoveConstraintSQL : ModelPtr → Constraint → io (World D) (option Statement);
  (* Steps *)
  o_PerformAlterField : ModelPtr → FieldPtr → FieldPtr → string → string → bool → io (World D) unit;
  o_ExecDrop : string → string → Statement → io (World D) unit;
  o_DeletePrimaryKey : ModelPtr → bool → io (World D) unit;
  o_DeleteComposedIndex : ModelPtr → list string → io (World D) unit;
  o_AddIndex : ModelPtr → Index → io (World D) unit;
  o_RemoveIndex : ModelPtr → Index → io (World D) unit;
  o_AlterDBTableComment : ModelPtr → string → string → io (World D) unit;
}.
Arguments o_ColumnSQL {D}. Arguments o_SkipDefault {D}. Arguments o_SkipDefaultOnAlter {D}.
Arguments o_DBDefaultSQL {D}. Arguments o_TableSQL {D}. Arguments o_UniqueName {D}.
Arguments o_AlterColumnTypeSQL {D}. Arguments o_AlterColumnNullSQL {D}. Arguments o_AlterColumnDefaultSQL {D}.
Arguments o_AlterColumnDatabaseDefaultSQL {D}. Arguments o_AlterColumnCommentSQL {D}. Arguments o_RenameFieldSQL {D}.
Arguments o_CreateFKSQL {D}. Arguments o_CompositeFKSQL {D}. Arguments o_CreateIndexSQL {D}.
Arguments o_DeleteIndexSQL {D}. Arguments o_RenameIndexSQL {D}. Arguments o_CreatePrimaryKeySQL {D}.
Arguments o_ConstraintSQL {D}. Arguments o_CreateConstraintSQL {D}. Arguments o_RemoveConstraintSQL {D}.
Arguments o_PerformAlterField {D}. Arguments o_ExecDrop {D}. Arguments o_DeletePrimaryKey {D}.
Arguments o_DeleteComposedIndex {D}. Arguments o_AddIndex {D}. Arguments o_RemoveIndex {D}.
Arguments o_AlterDBTableComment {D}.

(** ** Column types *)

(** goType, by the name of the type *)
Definition goType (d : Field) : string :=
  let t := fld_Type d in
  if bool_decide (t = Bool_) then "bool"
  else if bool_decide (t = Int_) then
    if bool_decide (fld_Size d = 8%Z) then "int8" else if bool_decide (fld_Size d = 16%Z) then "int16"
    else if bool_decide (fld_Size d = 32%Z) then "int32" else "int64"
  else if bool_decide (t = Uint_) then
    if bool_decide (fld_Size d = 8%Z) then "uint8" else if bool_decide (fld_Size d = 16%Z) then "uint16"
    else if bool_decide (fld_Size d = 32%Z) then "uint32" else "uint64"
  else if bool_decide (t = Float_) then if bool_decide (fld_Size d = 32%Z) then "float32" else "float64"
  else if bool_decide (t = Time_) then "time.Time"
  else if bool_decide (t = Bytes_) then "[]uint8"
  else "string".

Definition isStringLike (f : Field) : bool := bool_decide (fld_Type f = String_ ∨ fld_Type f = Bytes_).

(** pkColumns *)
Definition pkColumns (m : Model) : list string := map mf_Column (PK m).

Definition model_options (m : Model) : Options := ms_Options (m_State m).

(** deferrableSQL, nullsDistinctSQL, conditionSQL *)
Definition deferrableSQL (d : string) : string :=
  if bool_decide (d = Deferred) then " DEFERRABLE INITIALLY DEFERRED"
  else if bool_decide (d = Immediate) then " DEFERRABLE INITIALLY IMMEDIATE" else "".
Definition nullsDistinctSQL (nd : option bool) : string :=
  match nd with None => "" | Some true => " NULLS DISTINCT" | Some false => " NULLS NOT DISTINCT" end.
Definition conditionSQL (cond : string) : string := if bool_decide (cond = "") then "" else " WHERE " +:+ cond.

(** strings.TrimPrefix *)
Definition TrimPrefix (s prefix : string) : string :=
  if HasPrefix s prefix then String.substring (String.length prefix) (String.length s - String.length prefix) s else s.

(** unicode.IsSpace of the character at the beginning of a text of valid
    UTF-8, by the length of its encoding: tab to carriage return, the space;
    U+0085 and U+00A0; U+1680, U+2000 to U+200A, U+2028, U+2029, U+202F,
    U+205F and U+3000 *)
Definition is_space (c : ascii) : bool := bool_decide (c = " "%char) || ((9 <=? N_of_ascii c)%N && (N_of_ascii c <=? 13)%N).
Definition is_space_2 (c d : ascii) : bool :=
  (N_of_ascii c =? 194)%N && ((N_of_ascii d =? 133)%N || (N_of_ascii d =? 160)%N).
Definition is_space_3 (c d e : ascii) : bool :=
  match N_of_ascii c, N_of_ascii d, N_of_ascii e with
  | 225, 154, 128 | 226, 129, 159 | 227, 128, 128 => true
  | 226, 128, n => (128 <=? n) && (n <=? 138) || (n =? 168) || (n =? 169) || (n =? 175)
  | _, _, _ => false
  end%N.

(** strings.TrimSpace *)
Fixpoint trim_left_space (s : string) : string :=
  match s with
  | String c s1 =>
      if is_space c then trim_left_space s1
      else match s1 with
           | String d s2 =>
               if is_space_2 c d then trim_left_space s2
               else match s2 with
                    | String e s3 => if is_space_3 c d e then trim_left_space s3 else s
                    | EmptyString => s
                    end
           | EmptyString => s
           end
  | EmptyString => EmptyString
  end.
Fixpoint trim_right_space (s : string) : string :=
  match s with
  | EmptyString => EmptyString
  | String c s' => if bool_decide (trim_left_space s = "") then EmptyString else String c (trim_right_space s')
  end.
Definition TrimSpace (s : string) : string := trim_right_space (trim_left_space s).

(** strings.ToUpper on ASCII, and strings.Contains *)
Definition byte_to_upper (c : ascii) : ascii := if byte_is_lower c then ascii_of_N (N_of_ascii c - 32) else c.
Definition ToUpper (s : string) : string := string_of_list_ascii (map byte_to_upper (list_ascii_of_string s)).
Fixpoint Contains (s needle : string) : bool :=
  String.prefix needle s || match s with String _ s' => Contains s' needle | EmptyString => false end.

(** ON DELETE and ON UPDATE *)
Definition action_clause (what : string) (action : ReferentialAction) : string :=
  if bool_decide (action = "") then "" else what +:+ action.

(** ConstraintFilter *)
Record ConstraintFilter := mkConstraintFilter {
  cf_Unique : option bool;
  cf_PrimaryKey : option bool;
  cf_Index : option bool;
  cf_ForeignKey : bool;
  cf_Check : option bool;
  cf_Exclude : gset string;
}.

(** The model a field's pointer leads to, and its column *)
Definition fp_Remote (f : FieldPtr) : option Model := k ← mf_Remote (fp_Field f); apps_models (fp_Apps f) !! k.
Definition fp_RemoteField (f : FieldPtr) : option ModelField :=
  r ← mf_RemoteField (fp_Field f); m ← apps_models (fp_Apps f) !! r.1; m_Fields m !! r.2.
Definition fp_Model (f : FieldPtr) : option ModelPtr :=
  mkModelPtr (fp_Apps f) <$> (apps_models (fp_Apps f) !! mf_Model (fp_Field f)).

(** relatedObjects *)
Definition by_name (f g : FieldPtr) : Prop := str_le (mf_Name (fp_Field f)) (mf_Name (fp_Field g)).
#[export] Instance by_name_dec f g : Decision (by_name f g).
Proof. unfold by_name. apply _. Defined.

Definition relatedObjects (m : ModelPtr) (f : FieldPtr) : list FieldPtr :=
  merge_sort by_name
    (filter (fun rel => mf_Column <$> fp_RemoteField rel = Some (mf_Column (fp_Field f))) (related_ptrs m)).

(** compositeFKsOn *)
Definition compositeFKsOn (m : Model) (columns : list string) : list ForeignKeyConstraint :=
  omap (fun x => match x with
                 | CForeignKey c =>
                     if existsb (fun col => negb (bool_decide (col = "")) && bool_decide (col ∈ elems (fkc_Fields c))) columns
                     then Some c else None
                 | _ => None
                 end) (opt_Constraints (model_options m)).

(** compositeFKsReferencing *)
Definition compositeFKsReferencing (m : ModelPtr) (column : string) : list (ModelPtr * ForeignKeyConstraint) :=
  flat_map (fun other =>
    omap (fun x => match x with
                   | CForeignKey c =>
                       if bool_decide (fkc_Target c (m_App other) = Model_Key (mp_Model m)) &&
                          bool_decide (column ∈ elems (fkc_ToFields c))
                       then Some (mkModelPtr (mp_Apps m) other, c) else None
                   | _ => None
                   end) (opt_Constraints (model_options other))) (Apps_Models (mp_Apps m)).

(** ** Statement parts *)

(** The text of the i-th reference of a statement, inside its rendering *)
Definition part (i : nat) (parts : list string) : string := nth i parts "".

Definition plain_name (value table : string) (columns : list string) : NameRef :=
  mkNameRef value table columns "" [] "" 0.

(** A statement that drops something of a table by name *)
Definition deleteConstraintSQL (kind : StatementKind) (drop : string → string → string) (quote : string → string)
    (m : Model) (name : string) : Statement :=
  mkStatement [RTable (m_Table m)] (fun _ parts => drop (part 0 parts) (quote name)) kind None.

Section sql.
Context {D : Type} `{Backend D} (outer : Overrides D).
Notation IO A := (io (World D) A).
#[local] Existing Instance be_Grammar.

Definition QuoteName : string → string := be_QuoteName.
Definition QuoteValue (v : any) : IO string := lift (be_QuoteValue (Some v)).
Definition feat : Features := be_Features.

(** SchemaField *)
Definition SchemaField (m : Model) (f : ModelField) : GormField :=
  let d := mf_Field f in
  let put (cond : bool) (k v : string) (t : gmap string string) := if cond then <[k := v]> t else t in
  let tags :=
    put (negb (bool_decide (fld_Size d = 0%Z))) "SIZE" (itoa (fld_Size d))
      (put (negb (bool_decide (fld_Comment d = ""))) "COMMENT" (fld_Comment d)
        (put (fld_AutoIncrement d) "AUTOINCREMENT" "AUTOINCREMENT"
          (put (fld_Unique d) "UNIQUE" "UNIQUE"
            (put (fld_PrimaryKey d) "PRIMARYKEY" "PRIMARYKEY" (default ∅ (fld_Tags d)))))) in
  mkGormField (mf_Name f) (mf_Column f) (fld_Type d) (fld_PrimaryKey d) (fld_AutoIncrement d)
    (if bool_decide (fld_AutoIncrementIncrement d = 0%Z) then 1%Z else fld_AutoIncrementIncrement d)
    (bool_decide (is_Some (fld_DBDefault d)) || fld_AutoIncrement d)
    (match fld_DBDefault d with
     | Some x => if bool_decide (dbd_Expr x = "") then Sprint (dbd_Value x) else dbd_Expr x
     | None => ""
     end)
    (match fld_DBDefault d with
     | Some x => if bool_decide (dbd_Expr x = "") then dbd_Value x else None
     | None => None
     end)
    (negb (fld_Null d)) (fld_Unique d) (fld_Comment d) (fld_Size d) (fld_Precision d) (fld_Scale d)
    (match fld_Custom d with
     | Some r => if bool_decide (tr_Type r = "") then goType d else tr_Type r
     | None => goType d
     end)
    tags (m_Name m) (m_Table m).

(** Editor.ColumnType; a reflect.Type that is nil is the empty name. *)
Definition ColumnType (m : Model) (f : ModelField) : outcome string :=
  let sf := SchemaField m f in
  let dialect :=
    if bool_decide (gf_DataType sf = "")
    then Err (PlainError ("gormgate: field " +:+ m_Table m +:+ "." +:+ mf_Column f +:+ " has no data type"))
    else Ok (DataTypeOf sf) in
  match fld_Custom (mf_Field f) with
  | None => dialect
  | Some r =>
      if bool_decide (tr_Type r = "")
      then Err (PlainError ("gormgate: custom type " +:+ TypeRef_String (Some r) +:+ " of " +:+ m_Table m +:+ "." +:+
                  mf_Column f +:+ " is not linked into the binary"))
      else match GormDBDataType (tr_Type r) sf with
           | Some t => if bool_decide (t = "") then dialect else Ok t
           | None => dialect
           end
  end.

(** Field.DefaultValue, which may call a function, and EffectiveDefault *)
Definition DefaultValue (f : Field) : IO (option any) :=
  match fld_Default f with
  | None => mret None
  | Some (AnyGoExpr src) => mret (match expr_Literal src with Some v => v | None => Some (AnyGoExpr src) end)
  | Some (AnyFunc fn) =>
      if bool_decide (fn_NumIn fn = 0 ∧ fn_NumOut fn = 1)
      then w ← get_state; _ ← modify tick; mret (call_func fn (w_clock w))
      else mret (Some (AnyFunc fn))
  | Some v => mret (Some v)
  end.

Definition EffectiveDefault (f : ModelField) : IO (option any) :=
  let d := mf_Field f in
  if HasDefault d then DefaultValue d
  else if (fld_AutoNow d || fld_AutoNowAdd d) && bool_decide (fld_Type d = Time_)
  then w ← get_state; _ ← modify tick; mret (Some (time_at (w_clock w)))
  else mret None.

(** Editor.DBDefaultSQL *)
Definition Editor_DBDefaultSQL (f : FieldPtr) : IO string :=
  d ← lift (deref (fld_DBDefault (mf_Field f)));
  if bool_decide (dbd_Expr d = "") then lift (be_QuoteValue (dbd_Value d)) else mret (dbd_Expr d).

(** Whether the definition of a column leaves the default out *)
Definition skips_default (f : FieldPtr) : IO bool :=
  skip ← o_SkipDefault outer f;
  if skip : bool then mret true
  else if fld_Null (mf_Field (fp_Field f)) then o_SkipDefaultOnAlter outer f else mret false.

(** The DEFAULT clause of a column definition *)
Definition default_clause (f : FieldPtr) (includeDefault : bool) : IO (list string) :=
  let d := mf_Field f in
  match fld_DBDefault d with
  | Some _ => ds ← o_DBDefaultSQL outer f; mret ["DEFAULT " +:+ ds]
  | None =>
      skip ← (if includeDefault then skips_default f else mret true);
      if skip : bool then mret []
      else
        v ← EffectiveDefault f;
        match v with Some v => q ← QuoteValue v; mret ["DEFAULT " +:+ q] | None => mret [] end
  end.

(** Editor.ColumnSQL *)
Definition Editor_ColumnSQL (m : ModelPtr) (f : FieldPtr) (includeDefault : bool) : IO string :=
  let d := mf_Field f in
  typ ← lift (ColumnType m f);
  def ← default_clause f includeDefault;
  let null := fld_Null d || (isStringLike d && negb (fld_PrimaryKey d) && InterpretsEmptyStringsAsNulls feat) in
  comment ← (if SupportsCommentsInline feat && negb (bool_decide (fld_Comment d = ""))
             then c ← QuoteValue (AnyString (fld_Comment d)); mret ["COMMENT " +:+ c] else mret []);
  mret (Join ([typ] ++ def ++ (if null then [] else ["NOT NULL"]) ++ comment) " ").

(** Editor.QuoteColumns, Editor.UniqueName *)
Definition QuoteColumns (cols : list string) : string := Join (map QuoteName cols) ", ".
Definition Editor_UniqueName (m : ModelPtr) (f : FieldPtr) : string := NamingUniqueName (m_Table m) (mf_Column f).

(** ** Foreign keys *)

(** CreateFKSQL and CompositeFKSQL share their statement. *)
Definition foreign_key_statement (table name : string) (columns : list string) (toTable : string) (toColumns : list string)
    (onDelete onUpdate : ReferentialAction) : Statement :=
  mkStatement
    [RTable table; RName (mkNameRef name table columns toTable toColumns "" 0); RColumns table columns [];
     RTable toTable; RColumns toTable toColumns []]
    (fun kind parts => g_AddForeignKey (mkAddForeignKeyArgs (part 0 parts) (part 1 parts) (part 2 parts) (part 3 parts)
       (part 4 parts) (action_clause " ON DELETE " onDelete) (action_clause " ON UPDATE " onUpdate)
       (bool_decide (kind = StatementAddInlineForeignKey))))
    StatementAddForeignKey (Some 1).

(** Editor.CreateFKSQL *)
Definition Editor_CreateFKSQL (m : ModelPtr) (f : FieldPtr) : IO Statement :=
  fk ← lift (deref (fld_ForeignKey (mf_Field f)));
  remote ← lift (deref (fp_Remote f));
  remoteField ← lift (deref (fp_RemoteField f));
  mret (foreign_key_statement (m_Table m) (fk_Name fk) [mf_Column f] (m_Table remote) [mf_Column remoteField]
          (fk_OnDelete fk) (fk_OnUpdate fk)).

(** Editor.CompositeFKSQL *)
Definition Editor_CompositeFKSQL (m : ModelPtr) (c : ForeignKeyConstraint) : IO (option Statement) :=
  remote ← lift (RelatedModel (mp_Apps m) m (fkc_To c));
  mret (Some (foreign_key_statement (m_Table m) (fkc_Name c) (elems (fkc_Fields c)) (m_Table remote)
                (elems (fkc_ToFields c)) (fkc_OnDelete c) (fkc_OnUpdate c))).

(** Editor.DeleteFKSQL, Editor.DeleteUniqueSQL, Editor.DeleteCheckSQL *)
Definition DeleteFKSQL (m : Model) (name : string) : Statement :=
  deleteConstraintSQL StatementDropForeignKey g_DropForeignKey QuoteName m name.
Definition DeleteUniqueSQL (m : Model) (name : string) : Statement :=
  deleteConstraintSQL StatementOther g_DropUnique QuoteName m name.
Definition DeleteCheckSQL (m : Model) (name : string) : Statement :=
  deleteConstraintSQL StatementOther g_DropCheck QuoteName m name.

(** ** Indexes *)

(** Editor.includeSQL: the INCLUDE clause, when there is one *)
Definition includeSQL (m : Model) (cols : list string) : list Reference :=
  if bool_decide (cols = []) || negb (SupportsCoveringIndexes feat) then []
  else [RClause [RColumns (m_Table m) cols []] (fun parts => " INCLUDE (" +:+ part 0 parts +:+ ")")].

(** Editor.IndexColumnsSQL *)
Definition index_column_sql (withLength : bool) (f : IndexField) : string :=
  (if negb (bool_decide (if_Expression f = "")) then if_Expression f
   else QuoteName (if_Column f) +:+
        (if withLength && (0 <? if_Length f)%Z then "(" +:+ itoa (if_Length f) +:+ ")" else "")) +:+
  (if bool_decide (if_Collate f = "") then "" else " COLLATE " +:+ if_Collate f) +:+
  (if negb (bool_decide (if_Sort f = "")) && SupportsIndexColumnOrdering feat then " " +:+ if_Sort f else "").

Definition IndexColumnsSQL (ix : Index) (withLength : bool) : list string :=
  map (index_column_sql withLength) (elems (ix_Fields ix)).

(** Editor.indexColumns *)
Definition indexColumns (m : Model) (ix : Index) (withLength : bool) : Reference :=
  if HasExpressions ix then RExpressions (m_Table m) (Join (IndexColumnsSQL ix withLength) ", ")
  else RColumns (m_Table m) (map if_Column (elems (ix_Fields ix)))
         (map (fun f => TrimSpace (TrimPrefix (index_column_sql withLength f) (QuoteName (if_Column f))))
            (elems (ix_Fields ix))).

(** Editor.CreateIndexSQL: the arguments of CREATE INDEX that do not follow
    renames, and the statement over its columns *)
Definition index_args (ix : Index) : IO CreateIndexArgs :=
  comment ← (if bool_decide (ix_Comment ix = "") then mret ""
             else q ← QuoteValue (AnyString (ix_Comment ix)); mret (" COMMENT " +:+ q));
  let usingSQL := if bool_decide (ix_Type ix = "") then "" else " USING " +:+ ix_Type ix in
  let optionSQL := if bool_decide (ix_Option ix = "") then "" else " " +:+ ix_Option ix in
  let condition := if negb (bool_decide (ix_Where ix = "")) && SupportsPartialIndexes feat
                   then " WHERE " +:+ ix_Where ix else "" in
  mret (mkCreateIndexArgs "" "" "" "" usingSQL comment optionSQL condition "" (ix_Unique ix) (ix_Class ix) false "").

Definition index_statement (m : Model) (ix : Index) (columns : Reference) (a : CreateIndexArgs) : Statement :=
  mkStatement
    ([RName (plain_name (ix_Name ix) (m_Table m) (Index_Columns ix)); RTable (m_Table m); columns]
       ++ includeSQL m (elems (ix_Include ix)))
    (fun _ parts => g_CreateIndex (mkCreateIndexArgs (part 0 parts) (part 1 parts) (part 2 parts) (part 3 parts)
       (ci_Using a) (ci_Comment a) (ci_Option a) (ci_Condition a) (ci_NullsDistinct a) (ci_Unique a) (ci_Class a)
       (ci_Concurrently a) (ci_Trailing a)))
    StatementCreateIndex (Some 0).

Definition Editor_CreateIndexSQL (m : ModelPtr) (ix : Index) : IO (option Statement) :=
  args ← index_args ix; mret (Some (index_statement m ix (indexColumns m ix true) args)).

(** Editor.DeleteIndexSQL: deferred statements that would create the index
    are forgotten. *)
Definition creates_index (table quoted : string) (s : Statement) : bool :=
  match Statement_Name s with
  | Some n => bool_decide (nr_Table n = table) &&
              match Name_String QuoteName n with Ok name => bool_decide (name = quoted) | _ => false end
  | None => false
  end || Statement_ReferencesIndex QuoteName table quoted s.

Definition drop_index_statement (table quoted : string) (concurrently : bool) : Statement :=
  mkStatement [RTable table] (fun _ parts => g_DropIndex (part 0 parts) quoted concurrently) StatementOther None.

Definition Editor_DeleteIndexSQL (m : ModelPtr) (name : string) : IO Statement :=
  let quoted := QuoteName name in
  _ ← RemoveDeferred (creates_index (m_Table m) quoted);
  mret (drop_index_statement (m_Table m) quoted false).

(** Editor.RenameIndexSQL *)
Definition Editor_RenameIndexSQL (m : ModelPtr) (oldName newName : string) : Statement :=
  mkStatement [RTable (m_Table m)]
    (fun _ parts => g_RenameIndex (part 0 parts) (QuoteName oldName) (QuoteName newName)) StatementOther None.

(** ** Unique constraints and primary keys *)

Definition unique_statement (name : NameRef) (table : string) (columns : list string) (nulls deferrable : string)
    : Statement :=
  mkStatement [RTable table; RName name; RColumns table columns []]
    (fun _ parts => g_AddUnique (part 0 parts) (part 1 parts) (part 2 parts) nulls deferrable)
    StatementAddUnique (Some 1).

(** Editor.CreateUniqueFieldSQL *)
Definition CreateUniqueFieldSQL (m : ModelPtr) (f : FieldPtr) : Statement :=
  unique_statement (plain_name (o_UniqueName outer m f) (m_Table m) [mf_Column f]) (m_Table m) [mf_Column f] "" "".

(** Editor.createUniqueTogetherSQL *)
Definition createUniqueTogetherSQL (m : Model) (fields : list string) : outcome Statement :=
  match List.find (fun f => bool_decide (Model_Field m f = None)) fields with
  | Some f => Err (FieldDoesNotExist (m_Name m +:+ " has no field named '" +:+ f +:+ "'"))
  | None =>
      name ← CreateIndexName MaxNameLength (m_Table m) fields "_uniq";
      Ok (unique_statement (mkNameRef name (m_Table m) fields "" [] "_uniq" MaxNameLength) (m_Table m) fields "" "")
  end.

(** Editor.CreatePrimaryKeySQL *)
Definition Editor_CreatePrimaryKeySQL (m : ModelPtr) (columns : list string) : IO Statement :=
  name ← lift (CreateIndexName MaxNameLength (m_Table m) columns "_pk");
  mret (mkStatement [RTable (m_Table m); RColumns (m_Table m) columns []]
          (fun _ parts => g_AddPrimaryKey (part 0 parts) (QuoteName name) (part 1 parts)) StatementOther None).
End sql.
