(* ===== verification/EditorOps.v ===== *)
(** * What an editor does to tables: the other half of backends/base/editor.go

    Constraints, the definition of a table, the clauses that alter a column,
    and every operation of the SchemaEditor interface. *)

From S2P Require Import Prelude GoStd Keys Errors Fields Index ModelState Apps ProjectState Operation SchemaEditor.
From S2P Require Import Effects Names Grammar References Backend EditorSQL.

Section ops.
Context {D : Type} `{Backend D} (outer : Overrides D).
Notation IO A := (io (World D) A).
#[local] Existing Instance be_Grammar.

(** ** Constraints *)

(** Editor.uniqueSupported *)
Definition uniqueSupported (c : UniqueConstraint) : bool :=
  (bool_decide (uc_Condition c = "") || SupportsPartialIndexes feat) &&
  (bool_decide (uc_Deferrable c = "") || SupportsDeferrableUniqueConstraints feat) &&
  (bool_decide (elems (uc_Include c) = []) || SupportsCoveringIndexes feat) &&
  (bool_decide (uc_NullsDistinct c = None) || SupportsNullsDistinctUniqueConstraints feat).

(** A unique constraint that only an index can express *)
Definition needs_index (c : UniqueConstraint) : bool :=
  negb (bool_decide (uc_Condition c = "")) || negb (bool_decide (elems (uc_Include c) = [])).

(** Editor.CreateConstraintSQL *)
Definition unique_index_statement (m : Model) (c : UniqueConstraint) : Statement :=
  mkStatement
    ([RTable (m_Table m); RName (plain_name (uc_Name c) (m_Table m) (elems (uc_Fields c)));
      RColumns (m_Table m) (elems (uc_Fields c)) []] ++ includeSQL m (elems (uc_Include c)))
    (fun _ parts => g_CreateUniqueIndex (mkCreateIndexArgs (part 1 parts) (part 0 parts) (part 2 parts) (part 3 parts)
       "" "" "" (conditionSQL (uc_Condition c)) (nullsDistinctSQL (uc_NullsDistinct c)) false "" false ""))
    StatementCreateIndex (Some 1).

Definition Editor_CreateConstraintSQL (m : ModelPtr) (c : Constraint) : IO (option Statement) :=
  match c with
  | CCheck x =>
      if SupportsTableCheckConstraints feat
      then mret (Some (mkStatement [RTable (m_Table m)]
             (fun _ parts => g_AddCheck (part 0 parts) (QuoteName (cc_Name x)) (cc_Check x)) StatementOther None))
      else mret None
  | CUnique x =>
      if negb (uniqueSupported x) then mret None
      else if needs_index x then mret (Some (unique_index_statement m x))
      else mret (Some (unique_statement (plain_name (uc_Name x) (m_Table m) (elems (uc_Fields x))) (m_Table m)
             (elems (uc_Fields x)) (nullsDistinctSQL (uc_NullsDistinct x)) (deferrableSQL (uc_Deferrable x))))
  | CForeignKey x => if SupportsForeignKeys feat then o_CompositeFKSQL outer m x else mret None
  end.

(** Editor.RemoveConstraintSQL *)
Definition Editor_RemoveConstraintSQL (m : ModelPtr) (c : Constraint) : IO (option Statement) :=
  match c with
  | CCheck x => mret (if SupportsTableCheckConstraints feat then Some (DeleteCheckSQL m (cc_Name x)) else None)
  | CUnique x =>
      if negb (uniqueSupported x) then mret None
      else if needs_index x then st ← o_DeleteIndexSQL outer m (uc_Name x); mret (Some st)
      else mret (Some (DeleteUniqueSQL m (uc_Name x)))
  | CForeignKey x => mret (if SupportsForeignKeys feat then Some (DeleteFKSQL m (fkc_Name x)) else None)
  end.

(** A foreign key of a table that is being created: inline, or deferred *)
Definition inline_or_deferred (st : option Statement) : IO (list string) :=
  if CanCreateInlineFK feat
  then st ← lift (deref st); s ← lift (Statement_String QuoteName (st_set_kind StatementAddInlineForeignKey st)); mret [s]
  else st ← lift (deref st); _ ← DeferFK st; mret [].

(** Editor.ConstraintSQL: the empty text when the constraint is created
    separately *)
Definition Editor_ConstraintSQL (m : ModelPtr) (c : Constraint) : IO string :=
  match c with
  | CCheck x =>
      mret (if SupportsTableCheckConstraints feat
            then g_NamedConstraint (QuoteName (cc_Name x)) (g_CheckConstraint (cc_Check x)) else "")
  | CUnique x =>
      if negb (uniqueSupported x) then mret ""
      else if needs_index x || negb (bool_decide (uc_NullsDistinct x = None))
      then st ← o_CreateConstraintSQL outer m (CUnique x); _ ← Defer st; mret ""
      else mret (g_NamedConstraint (QuoteName (uc_Name x))
                   (g_UniqueConstraint (QuoteColumns (elems (uc_Fields x))) (deferrableSQL (uc_Deferrable x))))
  | CForeignKey x =>
      if SupportsForeignKeys feat
      then st ← o_CompositeFKSQL outer m x; l ← inline_or_deferred st; mret (hd "" l)
      else mret ""
  end.

(** ** Tables *)

(** A loop that collects what its body gives *)
Definition collect_io {A B} (l : list A) (f : A → IO (list B)) : IO (list B) :=
  fold_io (fun acc x => ys ← f x; mret (acc ++ ys)) [] l.

Definition model_fields (m : ModelPtr) : list FieldPtr := map (mkFieldPtr (mp_Apps m)) (m_Fields m).

Definition is_foreign (f : FieldPtr) : bool := bool_decide (is_Some (fld_ForeignKey (mf_Field f))) && SupportsForeignKeys feat.
Definition has_own_unique (f : FieldPtr) : bool := fld_Unique (mf_Field f) && negb (fld_PrimaryKey (mf_Field f)).

(** Editor.TableSQL *)
Definition Editor_TableSQL (m : ModelPtr) : IO string :=
  _ ← for_io (opt_UniqueTogether (model_options m)) (fun ut =>
        st ← lift (createUniqueTogetherSQL m ut); Defer (Some st));
  columns ← collect_io (model_fields m) (fun f => def ← o_ColumnSQL outer m f false; mret [(f, def)]);
  let pkInType := existsb (fun c => Contains (ToUpper c.2) "PRIMARY KEY") columns in
  let defs := map (fun c => QuoteName (mf_Column (fp_Field c.1)) +:+ " " +:+ c.2) columns in
  let pk := if bool_decide (pkColumns m = []) || pkInType then [] else [g_PrimaryKeyConstraint (QuoteColumns (pkColumns m))] in
  fks ← collect_io (model_fields m) (fun f =>
          if is_foreign f then st ← o_CreateFKSQL outer m f; inline_or_deferred (Some st) else mret []);
  let uniques := omap (fun f => if has_own_unique f
                   then Some (g_NamedConstraint (QuoteName (o_UniqueName outer m f))
                                (g_UniqueConstraint (QuoteName (mf_Column (fp_Field f))) "")) else None) (model_fields m) in
  constraints ← collect_io (opt_Constraints (model_options m)) (fun c =>
          s ← o_ConstraintSQL outer m c; mret (if bool_decide (s = "") then [] else [s]));
  mret (g_CreateTable (QuoteName (m_Table m)) (Join (defs ++ pk ++ fks ++ uniques ++ constraints) ", ")).

Definition Execute_ (sql : string) : IO unit := Editor_Execute sql [].

(** The comment of a column, as a statement of its own *)
Definition comment_column (m : ModelPtr) (f : FieldPtr) : IO unit :=
  typ ← lift (ColumnType m f);
  s ← o_AlterColumnCommentSQL outer m f typ (fld_Comment (mf_Field f));
  Execute_ s.

Definition has_comment (f : FieldPtr) : bool := negb (bool_decide (fld_Comment (mf_Field f) = "")).

(** Editor.deferModelIndexes *)
Definition skips_index (ix : Index) : bool := HasExpressions ix && negb (SupportsExpressionIndexes feat).

Definition deferModelIndexes (m : ModelPtr) : IO unit :=
  if negb (Managed m) then mret tt
  else for_io (opt_Indexes (model_options m)) (fun ix =>
         if skips_index ix then mret tt else st ← o_CreateIndexSQL outer m ix; Defer st).

(** Editor.CreateModel *)
Definition Editor_CreateModel (m : ModelPtr) : IO unit :=
  sql ← o_TableSQL outer m;
  _ ← Execute_ sql;
  _ ← (if SupportsComments feat then
         _ ← (let c := opt_DBTableComment (model_options m) in
              if bool_decide (c = "") then mret tt else o_AlterDBTableComment outer m "" c);
         if SupportsCommentsInline feat then mret tt
         else for_io (model_fields m) (fun f => if has_comment f then comment_column m f else mret tt)
       else mret tt);
  deferModelIndexes m.

(** Editor.DeleteModel *)
Definition Editor_DeleteModel (m : ModelPtr) : IO unit :=
  _ ← Execute_ (g_DropTable (QuoteName (m_Table m)));
  RemoveDeferred (Statement_ReferencesTable (m_Table m)).

(** Editor.AlterDBTable *)
Definition same_table (oldTable newTable : string) : bool :=
  bool_decide (oldTable = newTable) || (feat_IgnoresTableNameCase feat && EqualFold oldTable newTable).

Definition Editor_AlterDBTable (m : ModelPtr) (oldTable newTable : string) : IO unit :=
  if same_table oldTable newTable then mret tt
  else
    _ ← Execute_ (g_RenameTable (QuoteName oldTable) (QuoteName newTable));
    edit (fun e => es_set_deferred (map (Statement_RenameTableReferences oldTable newTable) (es_deferred e)) e).

(** Editor.AlterDBTableComment: the empty text where there is none *)
Definition Editor_AlterDBTableComment (m : ModelPtr) (oldComment newComment : string) : IO unit :=
  if negb (SupportsComments feat) then mret tt
  else
    q ← QuoteValue (AnyString newComment);
    let sql := g_TableComment (QuoteName (m_Table m)) q in
    if bool_decide (sql = "") then mret tt else Execute_ sql.

(** ** Indexes and constraints *)

Definition exec_pointer (st : option Statement) : IO unit := st ← lift (deref st); exec_statement st.

(** Editor.AddIndex, Editor.RemoveIndex, Editor.RenameIndex *)
Definition Editor_AddIndex (m : ModelPtr) (ix : Index) : IO unit :=
  if skips_index ix then mret tt else st ← o_CreateIndexSQL outer m ix; exec_pointer st.

Definition Editor_RemoveIndex (m : ModelPtr) (ix : Index) : IO unit :=
  if skips_index ix then mret tt else st ← o_DeleteIndexSQL outer m (ix_Name ix); exec_statement st.

Definition Editor_RenameIndex (m : ModelPtr) (old new : Index) : IO unit :=
  if CanRenameIndex feat then exec_statement (o_RenameIndexSQL outer m (ix_Name old) (ix_Name new))
  else _ ← o_RemoveIndex outer m old; o_AddIndex outer m new.

(** Editor.AddConstraint, Editor.RemoveConstraint *)
Definition Editor_AddConstraint (m : ModelPtr) (c : Constraint) : IO unit :=
  st ← o_CreateConstraintSQL outer m c;
  match st with None => mret tt | Some st => exec_statement st end.

Definition Editor_RemoveConstraint (m : ModelPtr) (c : Constraint) : IO unit :=
  st ← o_RemoveConstraintSQL outer m c;
  match st, c with
  | None, _ => mret tt
  | Some st, CForeignKey _ => o_ExecDrop outer (m_Table m) (ConstraintName c) st
  | Some st, _ => exec_statement st
  end.

(** ** Constraints by introspection *)

Definition flag_fits (want : option bool) (have : bool) : bool :=
  match want with None => true | Some b => eqb have b end.

Definition constraint_fits (want : option (list string)) (f : ConstraintFilter) (info : ConstraintInfo) : bool :=
  match want with None => true | Some cols => bool_decide (cols = coi_Columns info) end &&
  flag_fits (cf_Unique f) (coi_Unique info) && flag_fits (cf_PrimaryKey f) (coi_PrimaryKey info) &&
  flag_fits (cf_Index f) (coi_Index info) && flag_fits (cf_Check f) (coi_Check info) &&
  (negb (cf_ForeignKey f) || bool_decide (is_Some (coi_ForeignKey info))).

(** Editor.ConstraintNames; no columns at all is a nil slice. *)
Definition ConstraintNames (m : Model) (columns : option (list string)) (f : ConstraintFilter) : IO (list string) :=
  want ← lift (mapM_outcome (fun c => n ← TruncateName c MaxNameLength 4; Ok (be_IdentifierConverter n))
                 (default [] columns));
  cons ← on_db (Constraints (m_Table m));
  e ← editor_state;
  mret (omap (fun n => match cons !! n with
          | Some info =>
              if constraint_fits (match columns with None => None | Some _ => Some want end) f info &&
                 negb (bool_decide (n ∈ cf_Exclude f)) && negb (IsDropped (m_Table m) n e)
              then Some n else None
          | None => None
          end) (sort_strings (map fst (map_to_list cons)))).

Definition drop_all (table : string) (names : list string) (st : string → Statement) : IO unit :=
  for_io names (fun n => o_ExecDrop outer table n (st n)).

Definition of_foreign_key : ConstraintFilter := mkConstraintFilter None None None true None ∅.
Definition of_unique (exclude : gset string) : ConstraintFilter :=
  mkConstraintFilter (Some true) (Some false) None false None exclude.

Definition wrong_number (names : list string) (what whom : string) : error :=
  PlainError ("found wrong number (" +:+ itoa (Z.of_nat (length names)) +:+ ") of " +:+ what +:+ " for " +:+ whom).

(** The names the options of a model give to constraints and indexes *)
Definition declared_names (m : Model) : gset string :=
  list_to_set (map ConstraintName (opt_Constraints (model_options m)) ++ map ix_Name (opt_Indexes (model_options m))).

(** Editor.DeletePrimaryKey *)
Definition Editor_DeletePrimaryKey (m : ModelPtr) (strict : bool) : IO unit :=
  names ← ConstraintNames m None (mkConstraintFilter None (Some true) None false None ∅);
  if strict && negb (bool_decide (length names = 1)) then lift (Err (wrong_number names "PK constraints" (m_Table m)))
  else drop_all (m_Table m) names (deleteConstraintSQL StatementOther g_DropPrimaryKey QuoteName m).

(** togetherKeys, as the entries in the order of their keys: two entries with
    the same fields are one *)
Definition together_key (fields : list string) : string := Join fields (String (ascii_of_nat 0) EmptyString).
Definition togetherKeys (t : list (list string)) : gmap string (list string) :=
  fold_left (fun acc x => <[together_key x := x]> acc) t ∅.
Definition in_order {A} (m : gmap string A) : list (string * A) :=
  omap (fun k => (fun x => (k, x)) <$> (m !! k)) (sort_strings (map fst (map_to_list m))).

(** Editor.AlterUniqueTogether *)
Definition Editor_AlterUniqueTogether (m : ModelPtr) (old new : list (list string)) : IO unit :=
  let olds := togetherKeys old in
  let news := togetherKeys new in
  _ ← for_io (in_order olds) (fun k =>
        if bool_decide (is_Some (news !! k.1)) then mret tt else o_DeleteComposedIndex outer m k.2);
  for_io (in_order news) (fun k =>
    if bool_decide (is_Some (olds !! k.1)) then mret tt
    else st ← lift (createUniqueTogetherSQL m k.2); exec_statement st).

(** Editor.DeleteComposedIndex *)
Definition composed_exclude (m : ModelPtr) : gset string :=
  declared_names m ∪
  list_to_set (map (o_UniqueName outer m) (filter (fun f => fld_Unique (mf_Field (fp_Field f)) = true) (model_fields m))).

Definition Editor_DeleteComposedIndex (m : ModelPtr) (fields : list string) : IO unit :=
  names ← ConstraintNames m (Some fields) (of_unique (composed_exclude m));
  names ← (if negb (bool_decide (names = [])) && AllowsMultipleConstraintsOnSameFields feat then
             def ← lift (CreateIndexName MaxNameLength (m_Table m) fields "_uniq");
             mret (if bool_decide (be_IdentifierConverter def ∈ names) then [be_IdentifierConverter def] else names)
           else mret names);
  match names with
  | [n] => o_ExecDrop outer (m_Table m) n (DeleteUniqueSQL m n)
  | _ => lift (Err (wrong_number names "constraints" (m_Table m +:+ "(" +:+ Join fields ", " +:+ ")")))
  end.
End ops.
