(* ===== verification/EditorAlter.v ===== *)
(** * Altering columns: AddField, RemoveField and AlterField of editor.go

    PerformAlterField is a long function; its paragraphs are definitions
    here, named after its comments, and run in its order. *)

From S2P Require Import Prelude GoStd Keys Errors Fields Index ModelState Apps ProjectState Operation SchemaEditor.
From S2P Require Import Effects Names Grammar References Backend EditorSQL EditorOps.

(** SameDBDefault, and reflect.DeepEqual on two values that may be nil *)
Definition SameDBDefault (a b : option DBDefault) : bool :=
  match a, b with
  | None, None => true
  | Some x, Some y => DBDefault_DeepEqual x y
  | _, _ => false
  end.
Definition same_value (a b : option any) : bool :=
  match a, b with
  | None, None => true
  | Some x, Some y => any_DeepEqual x y
  | _, _ => false
  end.

(** fkEqual *)
Definition fkEqual (a b : option ForeignKey) : bool :=
  match a, b with
  | None, None => true
  | Some x, Some y =>
      bool_decide (fk_Name x = fk_Name y) && bool_decide (fk_ToField x = fk_ToField y) &&
      bool_decide (fk_OnDelete x = fk_OnDelete y) && bool_decide (fk_OnUpdate x = fk_OnUpdate y)
  | _, _ => false
  end.

(** The closure strip of FieldShouldBeAltered *)
Definition same_remote (old new : FieldPtr) : bool :=
  match fp_Remote old, fp_Remote new with
  | Some r, Some s => bool_decide (m_Table r = m_Table s)
  | _, _ => false
  end.

Definition strip (old new : FieldPtr) (ignoreComment : bool) (f : Field) : Field :=
  let forget := bool_decide (is_Some (fld_ForeignKey (mf_Field (fp_Field old)))) &&
                bool_decide (is_Some (fld_ForeignKey (mf_Field (fp_Field new)))) && same_remote old new in
  mkField (fld_Type f) (fld_Size f) (fld_Precision f) (fld_Scale f) (fld_PrimaryKey f)
    (fld_AutoIncrement f) (fld_AutoIncrementIncrement f) (fld_Null f) (fld_Unique f)
    (fld_DBDefault f) (fld_Default f) (if ignoreComment then "" else fld_Comment f) (fld_Custom f) None
    ((fun fk => if forget then fk_set_To "" fk else fk) <$> fld_ForeignKey f) false false "".

(** Editor.FieldShouldBeAltered *)
Definition FieldShouldBeAltered (old new : FieldPtr) (ignoreComment : bool) : bool :=
  if negb (bool_decide (mf_Column (fp_Field old) = mf_Column (fp_Field new))) then true
  else negb (Field_Equal (strip old new ignoreComment (Field_Clone (mf_Field (fp_Field old))))
               (strip old new ignoreComment (Field_Clone (mf_Field (fp_Field new))))).

(** Editor.UniqueShouldBeAdded *)
Definition UniqueShouldBeAdded (old new : FieldPtr) : bool :=
  let o := mf_Field (fp_Field old) in
  let n := mf_Field (fp_Field new) in
  negb (fld_PrimaryKey n) && fld_Unique n && (negb (fld_Unique o) || fld_PrimaryKey o).

Section alter.
Context {D : Type} `{Backend D} (outer : Overrides D).
Notation IO A := (io (World D) A).
#[local] Existing Instance be_Grammar.
Notation fld f := (mf_Field (fp_Field f)) (only parsing).
Notation col f := (mf_Column (fp_Field f)) (only parsing).

(** ** Clauses *)

(** Editor.AlterColumnNullSQL *)
Definition Editor_AlterColumnNullSQL (m : ModelPtr) (old new : FieldPtr) : IO string :=
  if InterpretsEmptyStringsAsNulls feat && isStringLike (fld new) then mret ""
  else
    typ ← lift (ColumnType m new);
    mret (if fld_Null (fld new) then g_AlterColumnNull (QuoteName (col new)) typ
          else g_AlterColumnNotNull (QuoteName (col new)) typ).

(** Editor.AlterColumnDefaultSQL *)
Definition Editor_AlterColumnDefaultSQL (m : ModelPtr) (old : option FieldPtr) (new : FieldPtr) (drop : bool) : IO string :=
  typ ← lift (ColumnType m new);
  if drop then
    mret (if fld_Null (fld new) then g_AlterColumnDropDefaultNull (QuoteName (col new)) typ ""
          else g_AlterColumnDropDefault (QuoteName (col new)) typ "")
  else
    v ← EffectiveDefault new;
    def ← lift (be_QuoteValue v);
    mret (g_AlterColumnDefault (QuoteName (col new)) typ def).

(** Editor.AlterColumnDatabaseDefaultSQL *)
Definition Editor_AlterColumnDatabaseDefaultSQL (m : ModelPtr) (old new : FieldPtr) (drop : bool) : IO string :=
  typ ← lift (ColumnType m new);
  if drop then mret (g_AlterColumnDropDefault (QuoteName (col new)) typ "")
  else def ← o_DBDefaultSQL outer new; mret (g_AlterColumnDefault (QuoteName (col new)) typ def).

(** Editor.AlterColumnCommentSQL *)
Definition Editor_AlterColumnCommentSQL (m : ModelPtr) (f : FieldPtr) (newType comment : string) : IO string :=
  q ← QuoteValue (AnyString comment);
  mret (g_ColumnComment (QuoteName (m_Table m)) (QuoteName (col f)) newType q).

(** Editor.AlterColumnTypeSQL *)
Definition comment_changes (old new : FieldPtr) : bool :=
  SupportsComments feat && negb (bool_decide (fld_Comment (fld old) = fld_Comment (fld new))).

Definition Editor_AlterColumnTypeSQL (m : ModelPtr) (old new : FieldPtr) (newType : string) : IO (string * list string) :=
  other ← (if comment_changes old new then
             s ← o_AlterColumnCommentSQL outer m new newType (fld_Comment (fld new));
             mret (if bool_decide (s = "") then [] else [s])
           else mret []);
  oldType ← lift (ColumnType m old);
  mret (if bool_decide (oldType = newType) then "" else g_AlterColumnType (QuoteName (col new)) newType "" "" "", other).

(** Editor.RenameFieldSQL *)
Definition Editor_RenameFieldSQL (table : string) (old new : FieldPtr) (newType : string) : string :=
  g_RenameColumn (QuoteName table) (QuoteName (col old)) (QuoteName (col new)).

Definition alter_table (table changes : string) : IO unit := Execute_ (g_AlterTable (QuoteName table) changes).

(** ** AddField and RemoveField *)

(** The default is dropped again from the column that has been added. *)
Definition drop_added_default (m : ModelPtr) (f : FieldPtr) : IO unit :=
  skip ← (if bool_decide (fld_DBDefault (fld f) = None) then o_SkipDefaultOnAlter outer f else mret true);
  if skip : bool then mret tt
  else
    v ← EffectiveDefault f;
    match v with
    | None => mret tt
    | Some _ =>
        s ← o_AlterColumnDefaultSQL outer m None f true;
        if bool_decide (s = "") then mret tt else alter_table (m_Table m) s
    end.

(** Editor.AddField *)
Definition Editor_AddField (m : ModelPtr) (f : FieldPtr) : IO unit :=
  def ← o_ColumnSQL outer m f true;
  _ ← (if is_foreign f then st ← o_CreateFKSQL outer m f; DeferFK st else mret tt);
  _ ← Execute_ (g_AddColumn (QuoteName (m_Table m)) (QuoteName (col f)) def);
  _ ← (if has_own_unique f then exec_statement (CreateUniqueFieldSQL outer m f) else mret tt);
  _ ← drop_added_default m f;
  if has_comment f && SupportsComments feat && negb (SupportsCommentsInline feat)
  then comment_column outer m f else mret tt.

(** The foreign keys of a column, as the database names them *)
Definition column_fks (m : Model) (column : string) : IO (list string) :=
  ConstraintNames m (Some [column]) of_foreign_key.

(** Editor.RemoveField *)
Definition Editor_RemoveField (m : ModelPtr) (f : FieldPtr) : IO unit :=
  _ ← (if is_foreign f then
         names ← column_fks m (col f); drop_all outer (m_Table m) names (DeleteFKSQL m)
       else mret tt);
  _ ← Execute_ (g_DropColumn (QuoteName (m_Table m)) (QuoteName (col f)));
  RemoveDeferred (Statement_ReferencesColumn (m_Table m) (col f)).

(** ** PerformAlterField *)

(** A table-level foreign key to add back, with its model (fkcRecreate) *)
Notation recreate := (list (ModelPtr * ForeignKeyConstraint)).

Definition drop_composite (r : ModelPtr * ForeignKeyConstraint) : IO unit :=
  o_ExecDrop outer (m_Table (mp_Model r.1)) (fkc_Name r.2) (DeleteFKSQL (mp_Model r.1) (fkc_Name r.2)).

(** Drop the table-level foreign keys that cover the column. *)
Definition drop_covering (m : ModelPtr) (old new : FieldPtr) : IO recreate :=
  if SupportsForeignKeys feat && FieldShouldBeAltered old new true then
    let fkcs := map (pair m) (compositeFKsOn m [col old; col new]) in
    _ ← for_io fkcs drop_composite; mret fkcs
  else mret [].

(** Drop foreign keys of the column: whether there were any *)
Definition drop_own_fks (m : ModelPtr) (old new : FieldPtr) (strict : bool) : IO bool :=
  if SupportsForeignKeys feat && IsRelation (fld old) && FieldShouldBeAltered old new true then
    names ← column_fks m (col old);
    if strict && negb (bool_decide (length names = 1))
    then lift (Err (wrong_number names "foreign key constraints" (m_Table m +:+ "." +:+ col old)))
    else _ ← drop_all outer (m_Table m) names (DeleteFKSQL m); mret (negb (bool_decide (names = [])))
  else mret false.

(** Drop the field-level unique constraint. *)
Definition drop_own_unique (m : ModelPtr) (old new : FieldPtr) (strict : bool) : IO unit :=
  if fld_Unique (fld old) && (negb (fld_Unique (fld new)) || (negb (fld_PrimaryKey (fld old)) && fld_PrimaryKey (fld new)))
  then
    names ← ConstraintNames m (Some [col old]) (of_unique (declared_names m));
    if strict && negb (bool_decide (length names = 1))
    then lift (Err (wrong_number names "unique constraints" (m_Table m +:+ "." +:+ col old)))
    else drop_all outer (m_Table m) names (DeleteUniqueSQL m)
  else mret tt.

(** Drop incoming foreign keys when a referenced key changes type. *)
Definition drops_incoming (old new : FieldPtr) (oldType newType : string) : bool :=
  SupportsForeignKeys feat &&
  ((fld_PrimaryKey (fld old) && fld_PrimaryKey (fld new)) || (fld_Unique (fld old) && fld_Unique (fld new))) &&
  negb (bool_decide (oldType = newType)).

Definition already_dropped (readd : recreate) (r : ModelPtr * ForeignKeyConstraint) : bool :=
  existsb (fun x => bool_decide (m_Table (mp_Model x.1) = m_Table (mp_Model r.1)) &&
                    bool_decide (fkc_Name x.2 = fkc_Name r.2)) readd.

Definition drop_incoming (readd : recreate) (new : FieldPtr) : IO (recreate * list FieldPtr) :=
  model ← lift (deref (fp_Model new));
  readd ← fold_io (fun readd r => if already_dropped readd r then mret readd
                                  else _ ← drop_composite r; mret (readd ++ [r]))
            readd (compositeFKsReferencing model (col new));
  let rels := relatedObjects model new in
  _ ← for_io rels (fun rel =>
        relModel ← lift (deref (fp_Model rel));
        names ← column_fks relModel (col rel);
        drop_all outer (m_Table (mp_Model relModel)) names (DeleteFKSQL relModel));
  mret (readd, rels).

(** Rename the column. *)
Definition rename_column (m : ModelPtr) (old new : FieldPtr) (newType : string) : IO unit :=
  if bool_decide (col old = col new) then mret tt
  else
    _ ← Execute_ (o_RenameFieldSQL outer (m_Table m) old new newType);
    edit (fun e => es_set_deferred
      (map (Statement_RenameColumnReferences (m_Table m) (col old) (col new)) (es_deferred e)) e).

(** The type and the database default: clauses, and statements for later *)
Definition type_actions (m : ModelPtr) (old new : FieldPtr) (oldType newType : string) : IO (list string * list string) :=
  if negb (bool_decide (oldType = newType)) || comment_changes old new then
    r ← o_AlterColumnTypeSQL outer m old new newType;
    mret (if bool_decide (r.1 = "") then [] else [r.1], r.2)
  else mret ([], []).

Definition default_actions (m : ModelPtr) (old new : FieldPtr) : IO (list string) :=
  match fld_DBDefault (fld new) with
  | Some _ =>
      if SameDBDefault (fld_DBDefault (fld old)) (fld_DBDefault (fld new)) then mret []
      else s ← o_AlterColumnDatabaseDefaultSQL outer m old new false; mret [s]
  | None =>
      if bool_decide (is_Some (fld_DBDefault (fld old)))
      then s ← o_AlterColumnDatabaseDefaultSQL outer m old new true; mret [s] else mret []
  end.

(** One-off default for NULL -> NOT NULL. *)
Definition becomes_not_null (old new : FieldPtr) : bool := fld_Null (fld old) && negb (fld_Null (fld new)).

Definition one_off_default (m : ModelPtr) (old new : FieldPtr) (newDefault : option any) : IO (list string) :=
  if becomes_not_null old new && bool_decide (fld_DBDefault (fld new) = None) then
    oldDefault ← EffectiveDefault old;
    skip ← o_SkipDefaultOnAlter outer new;
    if negb skip && negb (same_value oldDefault newDefault) && bool_decide (is_Some newDefault)
    then s ← o_AlterColumnDefaultSQL outer m (Some old) new false; mret [s] else mret []
  else mret [].

Definition null_actions (m : ModelPtr) (old new : FieldPtr) : IO (list string) :=
  if Bool.eqb (fld_Null (fld old)) (fld_Null (fld new)) then mret []
  else s ← o_AlterColumnNullSQL outer m old new; mret (if bool_decide (s = "") then [] else [s]).

(** Running the clauses; a default for the rows without a value comes between
    the others and NOT NULL. *)
Definition four_way (old new : FieldPtr) : bool :=
  (HasDefault (fld new) || bool_decide (is_Some (fld_DBDefault (fld new)))) && becomes_not_null old new.

Definition combined (actions : list string) : list string :=
  if SupportsCombinedAlters feat && negb (bool_decide (actions = [])) then [Join actions ", "] else actions.

Definition fill_default (m : ModelPtr) (new : FieldPtr) (newDefault : option any) : IO unit :=
  def ← (if bool_decide (fld_DBDefault (fld new) = None) then lift (be_QuoteValue newDefault) else o_DBDefaultSQL outer new);
  Execute_ (g_FillColumnDefault (QuoteName (m_Table m)) (QuoteName (col new)) def).

Definition run_actions (m : ModelPtr) (old new : FieldPtr) (newDefault : option any) (actions nullActions : list string)
    : IO unit :=
  if bool_decide (actions = []) && bool_decide (nullActions = []) then mret tt
  else if four_way old new then
    _ ← for_io (combined actions) (alter_table (m_Table m));
    _ ← fill_default m new newDefault;
    for_io nullActions (alter_table (m_Table m))
  else for_io (combined (actions ++ nullActions)) (alter_table (m_Table m)).

(** Primary key changes. *)
Definition alter_keys (m : ModelPtr) (old new : FieldPtr) (strict : bool) : IO unit :=
  _ ← (if fld_PrimaryKey (fld old) && negb (fld_PrimaryKey (fld new)) then o_DeletePrimaryKey outer m strict else mret tt);
  _ ← (if UniqueShouldBeAdded old new
       then model ← lift (deref (fp_Model new)); exec_statement (CreateUniqueFieldSQL outer model new) else mret tt);
  if negb (fld_PrimaryKey (fld old)) && fld_PrimaryKey (fld new) then
    _ ← (if bool_decide (pkColumns m = []) then mret tt else o_DeletePrimaryKey outer m false);
    model ← lift (deref (fp_Model new));
    st ← o_CreatePrimaryKeySQL outer m (pkColumns (mp_Model model));
    exec_statement st
  else mret tt.

Definition related_after (old new : FieldPtr) (rels : list FieldPtr) : IO (list FieldPtr) :=
  if negb (fld_PrimaryKey (fld old)) && fld_PrimaryKey (fld new)
  then model ← lift (deref (fp_Model new)); mret (relatedObjects model new) else mret rels.

(** Alter the referencing columns to the new type. *)
Definition alter_related (oldType newType : string) (rel : FieldPtr) : IO unit :=
  model ← lift (deref (fp_Model rel));
  relType ← lift (ColumnType model rel);
  if bool_decide (relType = oldType) || bool_decide (relType = newType) then mret tt
  else
    r ← o_AlterColumnTypeSQL outer model rel rel relType;
    _ ← (if bool_decide (r.1 = "") then mret tt else alter_table (m_Table (mp_Model model)) r.1);
    for_io r.2 Execute_.

(** Recreate the column's foreign key. *)
Definition recreate_own_fk (m : ModelPtr) (old new : FieldPtr) (fksDropped : bool) : IO unit :=
  if SupportsForeignKeys feat && IsRelation (fld new) &&
     (fksDropped || negb (IsRelation (fld old)) || negb (fkEqual (fld_ForeignKey (fld old)) (fld_ForeignKey (fld new))))
  then
    _ ← (if IsRelation (fld old) && negb fksDropped
         then names ← column_fks m (col old); drop_all outer (m_Table m) names (DeleteFKSQL m) else mret tt);
    model ← lift (deref (fp_Model new));
    st ← o_CreateFKSQL outer model new;
    DeferFK st
  else mret tt.

(** Recreate the incoming foreign keys, and the table-level ones. *)
Definition recreate_incoming (rels : list FieldPtr) : IO unit :=
  for_io rels (fun rel =>
    if IsRelation (fld rel) then model ← lift (deref (fp_Model rel)); st ← o_CreateFKSQL outer model rel; DeferFK st
    else mret tt).

Definition recreate_composite (r : ModelPtr * ForeignKeyConstraint) : IO unit :=
  st ← o_CompositeFKSQL outer r.1 r.2;
  match st with Some st => DeferFK st | None => mret tt end.

(** Editor.PerformAlterField *)
Definition Editor_PerformAlterField (m : ModelPtr) (old new : FieldPtr) (oldType newType : string) (strict : bool)
    : IO unit :=
  readd ← drop_covering m old new;
  fksDropped ← drop_own_fks m old new strict;
  _ ← drop_own_unique m old new strict;
  let incoming := drops_incoming old new oldType newType in
  dropped ← (if incoming then drop_incoming readd new else mret (readd, []));
  _ ← rename_column m old new newType;
  typeActions ← type_actions m old new oldType newType;
  defaultActions ← default_actions m old new;
  newDefault ← EffectiveDefault new;
  oneOff ← one_off_default m old new newDefault;
  nullActions ← null_actions m old new;
  _ ← run_actions m old new newDefault (typeActions.1 ++ defaultActions ++ oneOff) nullActions;
  _ ← for_io typeActions.2 Execute_;
  _ ← alter_keys m old new strict;
  rels ← related_after old new dropped.2;
  _ ← (if incoming || (negb (fld_PrimaryKey (fld old)) && fld_PrimaryKey (fld new))
       then for_io rels (alter_related oldType newType) else mret tt);
  _ ← recreate_own_fk m old new fksDropped;
  _ ← (if incoming then recreate_incoming rels else mret tt);
  _ ← for_io dropped.1 recreate_composite;
  if bool_decide (oneOff = []) then mret tt
  else s ← o_AlterColumnDefaultSQL outer m (Some old) new true; alter_table (m_Table m) s.

(** Editor.AlterField. Its first part: the types are rendered when the fields
    compare equal, and nothing is left to do when they agree too. *)
Definition Editor_AlterField (m : ModelPtr) (old new : FieldPtr) (strict : bool) : IO unit :=
  let go := oldType ← lift (ColumnType m old); newType ← lift (ColumnType m new);
            o_PerformAlterField outer m old new oldType newType strict in
  if FieldShouldBeAltered old new false then go
  else
    match ColumnType m old, ColumnType m new with
    | Ok oldType, Ok newType => if bool_decide (oldType = newType) then mret tt else go
    | Panic x, _ | Ok _, Panic x | Err _, Panic x => lift (Panic x)
    | Err x, Ok _ => lift (Err (JoinedError [Error x]))
    | Ok _, Err y => lift (Err (JoinedError [Error y]))
    | Err x, Err y => lift (Err (JoinedError [Error x; Error y]))
    end.
End alter.
