(* ===== verification/BaseEditor.v ===== *)
(** * The base editor as a schema editor, and a connection with it

    The methods of editor.go put together: [layer] gives the overrides a
    backend starts from, [base_SchemaEditor] the SchemaEditor the operations
    work on, and [base_Conn] the connection the recorder and the executor do. *)

From S2P Require Import Prelude GoStd Keys Errors Fields Index ModelState Apps ProjectState Operation SchemaEditor.
From S2P Require Import OpDatabase Effects Recorder Names Grammar References Backend EditorSQL EditorOps EditorAlter.

Section editor.
Context {D : Type} `{Backend D}.

(** The overridable methods of Editor itself, each of which reaches the
    others through [outer] *)
Definition layer (outer : Overrides D) : Overrides D := {|
  o_ColumnSQL := Editor_ColumnSQL outer;
  o_SkipDefault := fun _ => mret false;
  o_SkipDefaultOnAlter := fun _ => mret false;
  o_DBDefaultSQL := Editor_DBDefaultSQL;
  o_TableSQL := Editor_TableSQL outer;
  o_UniqueName := Editor_UniqueName;
  o_AlterColumnTypeSQL := Editor_AlterColumnTypeSQL outer;
  o_AlterColumnNullSQL := Editor_AlterColumnNullSQL;
  o_AlterColumnDefaultSQL := Editor_AlterColumnDefaultSQL;
  o_AlterColumnDatabaseDefaultSQL := Editor_AlterColumnDatabaseDefaultSQL outer;
  o_AlterColumnCommentSQL := Editor_AlterColumnCommentSQL;
  o_RenameFieldSQL := Editor_RenameFieldSQL;
  o_CreateFKSQL := Editor_CreateFKSQL;
  o_CompositeFKSQL := Editor_CompositeFKSQL;
  o_CreateIndexSQL := Editor_CreateIndexSQL;
  o_DeleteIndexSQL := Editor_DeleteIndexSQL;
  o_RenameIndexSQL := Editor_RenameIndexSQL;
  o_CreatePrimaryKeySQL := Editor_CreatePrimaryKeySQL;
  o_ConstraintSQL := Editor_ConstraintSQL outer;
  o_CreateConstraintSQL := Editor_CreateConstraintSQL outer;
  o_RemoveConstraintSQL := Editor_RemoveConstraintSQL outer;
  o_PerformAlterField := Editor_PerformAlterField outer;
  o_ExecDrop := Editor_ExecDrop;
  o_DeletePrimaryKey := Editor_DeletePrimaryKey outer;
  o_DeleteComposedIndex := Editor_DeleteComposedIndex outer;
  o_AddIndex := Editor_AddIndex outer;
  o_RemoveIndex := Editor_RemoveIndex outer;
  o_AlterDBTableComment := Editor_AlterDBTableComment;
|}.

Section connection.
Context (outer : Overrides D) (pg : nat → option (PgEditor (Session D))).

(** A method that is handed nil: it reads through the pointer at once. *)
Definition with_field {A} (f : option FieldPtr) (k : FieldPtr → io (World D) A) : io (World D) A :=
  f ← lift (deref f); k f.

(** Editor.Atomic *)
Definition Editor_Atomic (collect : bool) (fn : io (Session D) unit) : io (Session D) unit :=
  if collect then fn else conn_Atomic fn.

(** The n-th editor, made with these options *)
Definition base_SchemaEditor (n : nat) (collect atomic : bool) : SchemaEditor (Session D) := {|
  Vendor := be_Vendor;
  AllowMigrate := be_AllowMigrate;
  InAtomicBlock := Some (fun s => 0 <? s_depth s);
  count_extension name := by_editor n (on_db (db_count_extension name));
  AtomicMigration := CanRollbackDDL be_Features && atomic;
  Atomic := Editor_Atomic collect;
  CollectSQL := collect;
  CollectedSQL s := es_sqls (editor_at n s);
  AddCollected lines := by_editor n (Editor_AddCollected lines);
  Execute sql args := by_editor n (Editor_Execute sql args);
  PrepareSQLScript := Some be_PrepareSQLScript;
  ed_CreateModel m := by_editor n (Editor_CreateModel outer m);
  ed_DeleteModel m := by_editor n (Editor_DeleteModel m);
  ed_AddField m f := by_editor n (with_field f (Editor_AddField outer m));
  ed_RemoveField m f := by_editor n (with_field f (Editor_RemoveField outer m));
  ed_AlterField m old new strict :=
    by_editor n (with_field old (fun old => with_field new (fun new => Editor_AlterField outer m old new strict)));
  ed_AlterDBTable m old new := by_editor n (Editor_AlterDBTable m old new);
  ed_AlterDBTableComment m old new := by_editor n (o_AlterDBTableComment outer m old new);
  ed_AlterUniqueTogether m old new := by_editor n (Editor_AlterUniqueTogether outer m old new);
  ed_AddIndex m ix := by_editor n (o_AddIndex outer m ix);
  ed_RemoveIndex m ix := by_editor n (o_RemoveIndex outer m ix);
  ed_RenameIndex m old new := by_editor n (Editor_RenameIndex outer m old new);
  ed_AddConstraint m c := by_editor n (Editor_AddConstraint outer m c);
  ed_RemoveConstraint m c := by_editor n (Editor_RemoveConstraint outer m c);
  pg_Editor := pg n;
  run_code := run_go;
|}.

Definition base_MigrationEditor (n : nat) (collect atomic : bool) : MigrationEditor (Session D) := {|
  med_Editor := base_SchemaEditor n collect atomic;
  med_Begin := by_editor n Editor_Begin;
  med_Finish := fun err => by_editor n (Editor_Finish err);
  med_Deferred := fun s => length (es_deferred (editor_at n s));
|}.

Definition base_NewEditor (collect atomic : bool) (s : Session D) : Session D * MigrationEditor (Session D) :=
  (mkSession (s_db s) (s_clock s) (s_depth s) (s_editors s ++ [Editor_New collect atomic]),
   base_MigrationEditor (length (s_editors s)) collect atomic).

(** What the connection itself does on its database *)
Definition on_session {A} (m : io D A) : io (Session D) A :=
  zoom s_db (fun d s => mkSession d (s_clock s) (s_depth s) (s_editors s)) m.

Definition record_of (r : Z * string * string * any) : Record_ :=
  let '(id, app, name, applied) := r in mkRecord id app name applied.

Definition base_Conn : Conn (Session D) := {|
  PadsSizedStrings := feat_PadsSizedStrings be_Features;
  NoAutoIncrementOnInsert := feat_NoAutoIncrementOnInsert be_Features;
  IgnoresTableNameCase := feat_IgnoresTableNameCase be_Features;
  RecorderDeleteSettings := be_RecorderDeleteSettings;
  Recorder.QuoteName := be_QuoteName;
  NewEditor := base_NewEditor;
  IdentifierConverter := be_IdentifierConverter;
  TableNames := on_session be_TableNames;
  TableDescription table := on_session (be_TableDescription table);
  conn_AllowMigrate := be_AllowMigrate;
  Exec sql args := on_session (db_Exec sql args);
  Rows query := rs ← on_session (db_Rows query); mret (map record_of rs);
  Now := fun s => (mkSession (s_db s) (S (s_clock s)) (s_depth s) (s_editors s), Ok (time_at (s_clock s)));
|}.
End connection.
End editor.
