(* ===== verification/EditorLemmas.v ===== *)
(** * What the methods of an editor keep

    Whatever Execute, the clock, the deferred statements and introspection
    respect, every method of the base editor respects, as long as the methods
    a backend replaces do. *)

From S2P Require Import Prelude GoStd Keys Errors Fields Index ModelState Apps ProjectState Operation SchemaEditor.
From S2P Require Import OpDatabase Effects Respects Recorder Names Grammar References Backend EditorSQL EditorOps.
From S2P Require Import EditorAlter BaseEditor.

(** ** The primitives of an editor *)

Class WorldRespects {D} `{Backend D} (R : relation (World D)) := {
  wr_preorder :: PreOrder R;
  wr_tick w : R w (tick w);
  wr_deferred ds w : R w (on_editor (es_set_deferred ds) w);
  wr_dropped ds w : R w (on_editor (es_set_dropped ds) w);
  wr_sqls lines w : R w (on_editor (fun e => es_set_sqls (es_sqls e ++ lines) e) w);
  wr_execute sql args : respects R (Editor_Execute sql args);
  wr_constraints table : respects R (on_db (Constraints table));
}.

(** ** Overrides *)

Class OverridesRespect {D} `{Backend D} (R : relation (World D)) (outer : Overrides D) := {
  or_ColumnSQL m f b : respects R (o_ColumnSQL outer m f b);
  or_SkipDefault f : respects R (o_SkipDefault outer f);
  or_SkipDefaultOnAlter f : respects R (o_SkipDefaultOnAlter outer f);
  or_DBDefaultSQL f : respects R (o_DBDefaultSQL outer f);
  or_TableSQL m : respects R (o_TableSQL outer m);
  or_AlterColumnTypeSQL m old new t : respects R (o_AlterColumnTypeSQL outer m old new t);
  or_AlterColumnNullSQL m old new : respects R (o_AlterColumnNullSQL outer m old new);
  or_AlterColumnDefaultSQL m old new drop : respects R (o_AlterColumnDefaultSQL outer m old new drop);
  or_AlterColumnDatabaseDefaultSQL m old new drop : respects R (o_AlterColumnDatabaseDefaultSQL outer m old new drop);
  or_AlterColumnCommentSQL m f t c : respects R (o_AlterColumnCommentSQL outer m f t c);
  or_CreateFKSQL m f : respects R (o_CreateFKSQL outer m f);
  or_CompositeFKSQL m c : respects R (o_CompositeFKSQL outer m c);
  or_CreateIndexSQL m ix : respects R (o_CreateIndexSQL outer m ix);
  or_DeleteIndexSQL m name : respects R (o_DeleteIndexSQL outer m name);
  or_CreatePrimaryKeySQL m cols : respects R (o_CreatePrimaryKeySQL outer m cols);
  or_ConstraintSQL m c : respects R (o_ConstraintSQL outer m c);
  or_CreateConstraintSQL m c : respects R (o_CreateConstraintSQL outer m c);
  or_RemoveConstraintSQL m c : respects R (o_RemoveConstraintSQL outer m c);
  or_PerformAlterField m old new t1 t2 strict : respects R (o_PerformAlterField outer m old new t1 t2 strict);
  or_ExecDrop table name st : respects R (o_ExecDrop outer table name st);
  or_DeletePrimaryKey m strict : respects R (o_DeletePrimaryKey outer m strict);
  or_DeleteComposedIndex m fields : respects R (o_DeleteComposedIndex outer m fields);
  or_AddIndex m ix : respects R (o_AddIndex outer m ix);
  or_RemoveIndex m ix : respects R (o_RemoveIndex outer m ix);
  or_AlterDBTableComment m old new : respects R (o_AlterDBTableComment outer m old new);
}.
#[export] Hint Resolve wr_execute wr_constraints or_ColumnSQL or_SkipDefault or_SkipDefaultOnAlter or_DBDefaultSQL or_TableSQL or_AlterColumnTypeSQL
  or_AlterColumnNullSQL or_AlterColumnDefaultSQL or_AlterColumnDatabaseDefaultSQL or_AlterColumnCommentSQL or_CreateFKSQL
  or_CompositeFKSQL or_CreateIndexSQL or_DeleteIndexSQL or_CreatePrimaryKeySQL or_ConstraintSQL or_CreateConstraintSQL
  or_RemoveConstraintSQL or_PerformAlterField or_ExecDrop or_DeletePrimaryKey or_DeleteComposedIndex or_AddIndex
  or_RemoveIndex or_AlterDBTableComment : respects.

Section methods.
Context {D : Type} `{Backend D} (R : relation (World D)) `{!WorldRespects R}.

Lemma respects_editor_state : respects R editor_state.
Proof. unfold editor_state. respect. Qed.

Lemma respects_defer s : respects R (Defer s).
Proof. unfold Defer, edit, modify. destruct s; [|respect]. intros w. apply wr_deferred. Qed.

Lemma respects_remove_deferred fn : respects R (RemoveDeferred fn).
Proof. intros w. apply wr_deferred. Qed.

Lemma respects_map_deferred f : respects R (edit (fun e => es_set_deferred (map f (es_deferred e)) e)).
Proof. intros w. apply wr_deferred. Qed.

Lemma respects_collected lines : respects R (Editor_AddCollected lines).
Proof. intros w. apply wr_sqls. Qed.

Lemma respects_clock {A} (f : nat → A) : respects R (w ← get_state; _ ← modify tick; mret (f (w_clock w))).
Proof. intros w. apply wr_tick. Qed.

Hint Resolve respects_editor_state respects_defer respects_remove_deferred respects_map_deferred respects_clock : respects.

Lemma respects_deferFK s : respects R (DeferFK s).
Proof. unfold DeferFK. respect. Qed.

Lemma respects_exec s : respects R (exec_statement s).
Proof. unfold exec_statement. respect. Qed.

Lemma respects_execute_ sql : respects R (Execute_ sql).
Proof. apply wr_execute. Qed.

Hint Resolve respects_deferFK respects_exec respects_execute_ : respects.

Lemma respects_ExecDrop table name st : respects R (Editor_ExecDrop table name st).
Proof.
  unfold Editor_ExecDrop. respect. intros w. unfold edit, modify, remember_drop, on_editor. simpl.
  destruct (es_collect (w_editor w)); [|by destruct w]. apply wr_dropped.
Qed.

Lemma respects_QuoteValue v : respects R (QuoteValue v).
Proof. unfold QuoteValue. respect. Qed.

Lemma respects_DefaultValue f : respects R (DefaultValue f).
Proof. unfold DefaultValue. respect. Qed.

Hint Resolve respects_ExecDrop respects_QuoteValue respects_DefaultValue : respects.

Lemma respects_EffectiveDefault f : respects R (EffectiveDefault f).
Proof. unfold EffectiveDefault. respect. apply (respects_clock (fun n => Some (time_at n))). Qed.

Lemma respects_ConstraintNames m columns f : respects R (ConstraintNames m columns f).
Proof. unfold ConstraintNames. respect. Qed.

Lemma respects_collect_io {A B} (l : list A) (f : A → io (World D) (list B)) :
  (∀ x, respects R (f x)) → respects R (collect_io l f).
Proof. intros Hf. unfold collect_io. respect. Qed.

Hint Resolve respects_EffectiveDefault respects_ConstraintNames : respects.

Lemma respects_inline_or_deferred st : respects R (inline_or_deferred st).
Proof. unfold inline_or_deferred. respect. Qed.

Lemma respects_column_fks m c : respects R (column_fks m c).
Proof. unfold column_fks. respect. Qed.

Hint Resolve respects_inline_or_deferred respects_column_fks : respects.

Context (outer : Overrides D) `{!OverridesRespect R outer}.

Lemma respects_drop_all table names st : respects R (drop_all outer table names st).
Proof. unfold drop_all. respect. Qed.

Lemma respects_drop_composite r : respects R (drop_composite outer r).
Proof. unfold drop_composite. respect. Qed.

Lemma respects_comment_column m f : respects R (comment_column outer m f).
Proof. unfold comment_column. respect. Qed.

Lemma respects_alter_table table changes : respects R (alter_table table changes).
Proof. unfold alter_table. respect. Qed.

Lemma respects_default_clause f b : respects R (default_clause outer f b).
Proof. unfold default_clause, skips_default. respect. Qed.

Hint Resolve respects_drop_all respects_drop_composite respects_comment_column respects_alter_table
  respects_default_clause : respects.

(** ** PerformAlterField *)

Lemma respects_drop_covering m old new : respects R (drop_covering outer m old new).
Proof. unfold drop_covering. respect. Qed.
Lemma respects_drop_own_fks m old new strict : respects R (drop_own_fks outer m old new strict).
Proof. unfold drop_own_fks. respect. Qed.
Lemma respects_drop_own_unique m old new strict : respects R (drop_own_unique outer m old new strict).
Proof. unfold drop_own_unique. respect. Qed.
Lemma respects_drop_incoming readd new : respects R (drop_incoming outer readd new).
Proof. unfold drop_incoming. respect. Qed.
Lemma respects_rename_column m old new t : respects R (rename_column outer m old new t).
Proof. unfold rename_column. respect. Qed.
Lemma respects_type_actions m old new t1 t2 : respects R (type_actions outer m old new t1 t2).
Proof. unfold type_actions. respect. Qed.
Lemma respects_default_actions m old new : respects R (default_actions outer m old new).
Proof. unfold default_actions. respect. Qed.
Lemma respects_one_off_default m old new d : respects R (one_off_default outer m old new d).
Proof. unfold one_off_default. respect. Qed.
Lemma respects_null_actions m old new : respects R (null_actions outer m old new).
Proof. unfold null_actions. respect. Qed.
Lemma respects_fill_default m new d : respects R (fill_default outer m new d).
Proof. unfold fill_default. respect. Qed.
Hint Resolve respects_fill_default : respects.
Lemma respects_run_actions m old new d a n : respects R (run_actions outer m old new d a n).
Proof. unfold run_actions. respect. Qed.
Lemma respects_alter_keys m old new strict : respects R (alter_keys outer m old new strict).
Proof. unfold alter_keys. respect. Qed.
Lemma respects_related_after (old new : FieldPtr) rels : respects R (related_after old new rels).
Proof. unfold related_after. respect. Qed.
Lemma respects_alter_related t1 t2 rel : respects R (alter_related outer t1 t2 rel).
Proof. unfold alter_related. respect. Qed.
Lemma respects_recreate_own_fk m old new b : respects R (recreate_own_fk outer m old new b).
Proof. unfold recreate_own_fk. respect. Qed.
Lemma respects_recreate_incoming rels : respects R (recreate_incoming outer rels).
Proof. unfold recreate_incoming. respect. Qed.
Lemma respects_recreate_composite r : respects R (recreate_composite outer r).
Proof. unfold recreate_composite. respect. Qed.
Hint Resolve respects_drop_covering respects_drop_own_fks respects_drop_own_unique respects_drop_incoming
  respects_rename_column respects_type_actions respects_default_actions respects_one_off_default respects_null_actions
  respects_run_actions respects_alter_keys respects_related_after respects_alter_related respects_recreate_own_fk
  respects_recreate_incoming respects_recreate_composite : respects.

Lemma respects_PerformAlterField m old new t1 t2 strict :
  respects R (Editor_PerformAlterField outer m old new t1 t2 strict).
Proof. unfold Editor_PerformAlterField. respect. Qed.
Hint Resolve respects_PerformAlterField : respects.

(** ** The methods themselves *)

#[export] Instance layer_respects : OverridesRespect R (layer outer).
Proof.
  split; intros; simpl;
    unfold Editor_ColumnSQL, Editor_DBDefaultSQL, Editor_TableSQL, Editor_AlterColumnTypeSQL, Editor_AlterColumnNullSQL,
      Editor_AlterColumnDefaultSQL, Editor_AlterColumnDatabaseDefaultSQL, Editor_AlterColumnCommentSQL,
      Editor_CreateFKSQL, Editor_CompositeFKSQL, Editor_CreateIndexSQL, index_args, Editor_DeleteIndexSQL, Editor_CreatePrimaryKeySQL,
      Editor_ConstraintSQL, Editor_CreateConstraintSQL, Editor_RemoveConstraintSQL, Editor_DeletePrimaryKey,
      Editor_DeleteComposedIndex, Editor_AddIndex, Editor_RemoveIndex, Editor_AlterDBTableComment, collect_io, exec_pointer;
    respect.
Qed.

Lemma respects_CreateModel m : respects R (Editor_CreateModel outer m).
Proof. unfold Editor_CreateModel, deferModelIndexes. respect. Qed.
Lemma respects_DeleteModel m : respects R (Editor_DeleteModel m).
Proof. unfold Editor_DeleteModel. respect. Qed.
Lemma respects_AddField m f : respects R (Editor_AddField outer m f).
Proof. unfold Editor_AddField, drop_added_default. respect. Qed.
Lemma respects_RemoveField m f : respects R (Editor_RemoveField outer m f).
Proof. unfold Editor_RemoveField. respect. Qed.
Lemma respects_AlterField m old new strict : respects R (Editor_AlterField outer m old new strict).
Proof. unfold Editor_AlterField. respect. Qed.
Lemma respects_AlterDBTable m old new : respects R (Editor_AlterDBTable m old new).
Proof. unfold Editor_AlterDBTable. respect. Qed.
Lemma respects_AlterUniqueTogether m old new : respects R (Editor_AlterUniqueTogether outer m old new).
Proof. unfold Editor_AlterUniqueTogether. respect. Qed.
Lemma respects_RenameIndex m old new : respects R (Editor_RenameIndex outer m old new).
Proof. unfold Editor_RenameIndex. respect. Qed.
Lemma respects_AddConstraint m c : respects R (Editor_AddConstraint outer m c).
Proof. unfold Editor_AddConstraint. respect. Qed.
Lemma respects_RemoveConstraint m c : respects R (Editor_RemoveConstraint outer m c).
Proof. unfold Editor_RemoveConstraint. respect. Qed.

Lemma respects_run_deferred l : respects R (run_deferred l).
Proof.
  induction l as [|s l IH]; simpl; [respect|]. apply respects_bind; [apply _|respect|intros _].
  apply respects_bind; [apply _| |by intros []]. intros w. apply wr_deferred.
Qed.
End methods.
#[export] Hint Resolve respects_CreateModel respects_DeleteModel respects_AddField respects_RemoveField respects_AlterField
  respects_AlterDBTable respects_AlterUniqueTogether respects_RenameIndex respects_AddConstraint respects_RemoveConstraint
  respects_collected respects_run_deferred : respects.

(** Without a transaction Finish has nothing to end. *)
Lemma leave_tx_outside {D} `{Backend D} err (w : World D) : es_tx (w_editor w) = false → leave_tx err w = (w, Ok err).
Proof. intros Ht. unfold leave_tx, editor_state, mbind, io_bind, get_state. simpl. by rewrite Ht. Qed.

(** ** On a session *)

(** What the n-th editor respects, seen from its session *)
Definition at_editor {D} (R : relation (World D)) (n : nat) : relation (Session D) := fun s s' =>
  length (s_editors s') = length (s_editors s) ∧ (n < length (s_editors s) → R (world_at n s) (world_at n s')).

Section session.
Context {D : Type} `{Backend D} (R : relation (World D)) `{!PreOrder R} (n : nat).

#[export] Instance at_editor_preorder : PreOrder (at_editor R n).
Proof.
  split; [by intros s|]. intros s1 s2 s3 [Hl1 H1] [Hl2 H2]. split; [congruence|].
  intros Hn. transitivity (world_at n s2); [by apply H1|]. apply H2. lia.
Qed.

Lemma world_at_put (w : World D) (s : Session D) : n < length (s_editors s) → world_at n (put_world n w s) = w.
Proof.
  intros Hn. unfold world_at, put_world, editor_at. simpl. rewrite list_lookup_insert_eq by done. by destruct w.
Qed.

Lemma respects_by_editor {A} (m : io (World D) A) : respects R m → respects (at_editor R n) (by_editor n m).
Proof.
  intros Hm s. unfold by_editor, zoom. specialize (Hm (world_at n s)). destruct (m (world_at n s)) as [w r]. simpl in *.
  split; simpl; [by rewrite length_insert|]. intros Hn. by rewrite world_at_put.
Qed.
End session.

(** ** What an editor collects *)

(** An editor that collects goes on collecting, and keeps what it has. *)
Definition collects {D} : relation (World D) := fun w w' =>
  es_collect (w_editor w) = true → es_collect (w_editor w') = true ∧ ∃ l, es_sqls (w_editor w') = es_sqls (w_editor w) ++ l.

#[export] Instance collects_preorder {D} : PreOrder (@collects D).
Proof.
  split.
  - intros w Hc. split; [done|]. exists []. by rewrite app_nil_r.
  - intros w1 w2 w3 H12 H23 Hc. destruct (H12 Hc) as [Hc2 [l1 H1]]. destruct (H23 Hc2) as [Hc3 [l2 H2]].
    split; [done|]. exists (l1 ++ l2). by rewrite H2, H1, app_assoc.
Qed.

(** A statement as it is collected *)
Definition terminated (sql : string) : string := sql +:+ (if ends_with_semicolon sql then "" else ";").

Section collecting.
Context {D : Type} `{Backend D}.

Lemma Execute_collects sql (w : World D) : es_collect (w_editor w) = true →
  Execute_ sql w = (on_editor (fun e => es_set_sqls (es_sqls e ++ [terminated sql]) e) w, Ok tt).
Proof. intros Hc. unfold Execute_, Editor_Execute, mbind, io_bind, get_state. by rewrite Hc. Qed.

#[export] Instance collects_respects : WorldRespects (@collects D).
Proof.
  split; try (by intros; intros Hc; split; [done|]; exists []; rewrite app_nil_r).
  - apply _.
  - intros lines w Hc. split; [done|]. by exists lines.
  - intros sql args w Hc. unfold Editor_Execute, mbind, io_bind, get_state. rewrite Hc. cbn [negb andb].
    destruct (bool_decide (args = [])); [|destruct (interpolate sql args)]; cbn; (split; [done|]);
      first [by eexists | exists []; by rewrite app_nil_r].
  - intros table w Hc. unfold on_db, zoom. destruct (Constraints table (w_db w)). split; [done|]. exists [].
    by rewrite app_nil_r.
Qed.

Lemma respects_collecting {A} (m : io (World D) A) w w' r : respects collects m → m w = (w', r) →
  es_collect (w_editor w) = true → es_collect (w_editor w') = true ∧ ∃ l, es_sqls (w_editor w') = es_sqls (w_editor w) ++ l.
Proof. intros Hm Hw Hc. specialize (Hm w Hc). by rewrite Hw in Hm. Qed.
End collecting.
