(* ===== verification/EditorTheorems.v ===== *)
(** * The theorems on the base editor

    Collecting SQL leaves the database alone; a migration that fails in a
    transaction leaves nothing behind; and the statements an editor keeps for
    later follow the tables and columns they refer to, and run in order. *)

From S2P Require Import Prelude GoStd Keys Errors Fields Index ModelState Apps ProjectState Operation.
From S2P Require Import SchemaEditor Effects Recorder OpDatabase Migration Loader Executor Respects Names.
From S2P Require Import Grammar References Backend EditorSQL EditorOps EditorAlter BaseEditor EditorLemmas.

(** ** Collecting SQL does not touch the database

    sqlmigrate, from Executor.CollectSQL down to the statements of the base
    editor. *)

(** An editor that collects, outside any transaction, leaves the database
    alone and goes on collecting. *)
Definition collecting (e : EditorState) : Prop := es_collect e = true ∧ es_tx e = false.

Definition leaves_db {D} : relation (World D) := fun w w' =>
  collecting (w_editor w) → w_db w' = w_db w ∧ collecting (w_editor w').

#[export] Instance leaves_db_preorder {D} : PreOrder (@leaves_db D).
Proof.
  split; [by intros w|]. intros w1 w2 w3 H1 H2 Hc. destruct (H1 Hc) as [<- Hc2]. by apply H2.
Qed.

(** Reading the catalogue changes nothing. *)
Class ReadOnly (D : Type) `{Backend D} := {
  Constraints_quiet table : quiet (Constraints table);
  count_extension_quiet name : quiet (db_count_extension name);
}.

Section collect.
Context {D : Type} `{Backend D} `{!ReadOnly D}.

Lemma on_db_quiet {A} (m : io D A) : quiet m → respects leaves_db (on_db m).
Proof.
  intros Hm w Hc. unfold on_db, zoom. specialize (Hm (w_db w)). destruct (m (w_db w)). simpl in *. by subst.
Qed.

#[export] Instance collect_respects : WorldRespects leaves_db.
Proof.
  split; try by intros.
  - apply _.
  - intros sql args w [Hc Ht]. unfold Editor_Execute, mbind, io_bind, get_state. rewrite Hc. simpl.
    destruct (bool_decide (args = [])); simpl; [by split|]. by destruct (interpolate sql args).
  - intros table. apply on_db_quiet, Constraints_quiet.
Qed.

Lemma Begin_collects : respects leaves_db Editor_Begin.
Proof. intros w [Hc Ht]. unfold Editor_Begin, editor_state, mbind, io_bind, get_state, edit, modify. simpl. rewrite Hc, andb_false_r. by split. Qed.

Lemma leave_tx_collects err : respects leaves_db (leave_tx err).
Proof. intros w [Hc Ht]. unfold leave_tx, editor_state, mbind, io_bind, get_state. simpl. rewrite Ht. by split. Qed.

Context (Hhook : ∀ hook, PreCommit = Some hook → respects leaves_db hook).

Lemma Finish_collects err : respects leaves_db (Editor_Finish err).
Proof.
  unfold Editor_Finish, finish_statements. apply respects_bind; [apply _| |intros err2].
  { apply respects_bind; [apply _| |intros err1]; [destruct err; respect|]. destruct err1, PreCommit eqn:Hp; respect. }
  apply respects_bind; [apply _|apply leave_tx_collects|intros err3]. destruct err3; respect.
Qed.

Context (outer : Overrides D) (pg : nat → option (PgEditor (Session D))).
Context `{!OverridesRespect leaves_db outer}.
Context (Hpg : ∀ n p, pg n = Some p →
  (∀ m ix, respects (at_editor leaves_db n) (pg_AddIndexConcurrently p m ix)) ∧
  (∀ m ix, respects (at_editor leaves_db n) (pg_RemoveIndexConcurrently p m ix)) ∧
  (∀ m c, respects (at_editor leaves_db n) (pg_AddConstraintNotValid p m c)) ∧
  (∀ m name, respects (at_editor leaves_db n) (pg_ValidateConstraint p m name))).

#[local] Instance conn : Conn (Session D) := base_Conn outer pg.

#[local] Instance collecting_editor n atomic : EditorRespects (at_editor leaves_db n) (base_SchemaEditor outer pg n true atomic).
Proof.
  split; simpl; intros; try (apply respects_by_editor; unfold with_field; respect).
  - apply _.
  - apply on_db_quiet, count_extension_quiet.
  - done.
  - by apply Hpg.
Qed.

(** What sqlmigrate may be asked to show: every operation that runs Go code
    is one it only mentions. *)
Definition shows_code (mig : Migration) : Prop :=
  Forall (fun op => ReducesToSQL op = false ∨ go_free op = true) (mig_Operations mig).

Lemma shows_code_runs n atomic mig :
  shows_code mig → @runs_respect _ (base_SchemaEditor outer pg n true atomic) (at_editor leaves_db n) mig.
Proof.
  intros Hm op Hop. eapply Forall_forall in Hm; [|done]. destruct Hm as [Hr|Hg]; [by left|right; by left].
Qed.

(** The n-th editor collects, and the database is as it was. *)
Definition untouched (d : D) (n : nat) (s : Session D) : Prop :=
  n < length (s_editors s) ∧ collecting (editor_at n s) ∧ s_db s = d.

Lemma untouched_respects {A} d n (m : io (Session D) A) s :
  respects (at_editor leaves_db n) m → untouched d n s → untouched d n (m s).1.
Proof.
  intros Hm (Hn & Hc & Hd). destruct (Hm s) as [Hl Hr]. specialize (Hr Hn Hc) as [Hdb Hc'].
  split; [by rewrite Hl|]. split; [done|]. simpl in Hdb. congruence.
Qed.

Context (RealModels : list ModelState) (FormatOperation : Operation → string).

(** Whatever the n-th editor does, the database stays. *)
Lemma untouched_step {A} d n (m : io (Session D) A) :
  respects (at_editor leaves_db n) m → always (untouched d n) m (fun _ => untouched d n) (fun s => s_db s = d).
Proof.
  intros Hm. eapply always_weaken; [apply always_step; intros s Hs; by apply (untouched_respects d n m s Hm)|done|].
  by intros s (_ & _ & Hd).
Qed.

Lemma untouched_db {A} d n (m : io (Session D) A) Q :
  always (fun s => s_db s = d) m Q (fun s => s_db s = d) → always (untouched d n) m Q (fun s => s_db s = d).
Proof. intros Hm s (_ & _ & Hd). by apply Hm. Qed.

Lemma new_editor_untouched d atomic :
  always (fun s => s_db s = d) (new_editor true atomic)
    (fun ed s => ∃ n, ed = base_MigrationEditor outer pg n true atomic ∧ untouched d n s) (fun s => s_db s = d).
Proof.
  intros s Hs. simpl. exists (length (s_editors s)). split; [done|]. split; [simpl; rewrite length_app; simpl; lia|].
  split; [|done]. unfold editor_at. simpl. by rewrite list_lookup_middle.
Qed.

Lemma run_step_untouched n atomic l mig (backwards : bool) state :
  shows_code mig →
  respects (at_editor leaves_db n) (
    state ← match state with
            | Some s => mret s
            | None => lift (Loader_ProjectState l (Some [Migration_Key mig]) false RealModels)
            end;
    if backwards then @Unapply _ (base_SchemaEditor outer pg n true atomic) FormatOperation mig state
    else @Apply _ (base_SchemaEditor outer pg n true atomic) mig state).
Proof.
  intros Hm. apply respects_bind; [apply _|destruct state; respect|intros state'].
  destruct backwards.
  - by apply (@respects_Unapply _ (base_SchemaEditor outer pg n true atomic) _ _), shows_code_runs.
  - by apply (@respects_Apply _ (base_SchemaEditor outer pg n true atomic) _ _), shows_code_runs.
Qed.

Lemma collect_loop_untouched l plan out state d :
  (∀ st, st ∈ plan → shows_code (pst_Migration st)) →
  always (fun s => s_db s = d) (collect_loop RealModels FormatOperation l out state plan) (fun _ s => s_db s = d)
    (fun s => s_db s = d).
Proof.
  revert out state. induction plan as [|st plan IH]; intros out state Hplan; [by intros s Hs|].
  cbn [collect_loop]. eapply always_bind; [apply new_editor_untouched|].
  intros ed. apply always_exist. intros n. apply always_pull. intros ->. set (ed := base_MigrationEditor _ _ _ _ _).
  assert (∀ e, respects (at_editor leaves_db n) (med_Finish ed e)) as Hfin
    by (intros e; apply respects_by_editor, Finish_collects; apply _).
  eapply always_bind; [apply untouched_step, respects_attempt, respects_by_editor, Begin_collects; apply _|].
  intros [b|x].
  2:{ eapply always_bind; [by apply untouched_step|]. intros a. apply untouched_db, always_ret. }
  eapply always_bind.
  { apply untouched_step, respects_attempt. apply run_step_untouched, Hplan. left. }
  intros r. eapply always_bind; [by apply untouched_step|]. intros a.
  eapply always_bind; [apply untouched_step; respect|]. intros s.
  apply untouched_db, IH. intros st' Hst'. apply Hplan. by right.
Qed.

(** C6: sqlmigrate shows and does not touch. Executor.CollectSQL leaves the
    database as it was, whatever the plan and however it ends: every method
    of the base editor, the deferred statements and Finish included, only
    writes to the list of collected statements. This asks of a backend that
    what it replaces does so too, and that it reads the catalogue without
    changing it, and of the migrations that no Go code hides inside a
    SeparateDatabaseAndState: such code would be run. *)
Theorem CollectSQL_touches_nothing l plan s :
  (∀ st, st ∈ plan → shows_code (pst_Migration st)) →
  s_db (Executor.CollectSQL RealModels FormatOperation l plan s).1 = s_db s.
Proof. intros Hplan. by apply (always_final _ _ _ s (collect_loop_untouched l plan [] None (s_db s) Hplan)). Qed.
End collect.

(** ** A migration that fails leaves nothing behind

    ApplyMigration on the base editor of a database that can roll back DDL. *)

(** What a transaction promises: [saved] is the state it started from. A
    statement stays inside it; what is not committed is discarded. *)
Class Transactional (D : Type) `{Backend D} := {
  saved : D → option D;
  begin_law d : saved d = None →
    match db_Begin d with (d', Ok _) => saved d' = Some d | (d', _) => d' = d end;
  exec_law sql args d : saved (db_Exec sql args d).1 = saved d;
  commit_law d d0 : saved d = Some d0 → is_ok (db_Commit d).2 = false → (db_Commit d).1 = d0;
  rollback_law d d0 : saved d = Some d0 → (db_Rollback d).1 = d0;
}.

(** A step of an editor stays inside the transaction the editor opened. *)
Definition stays_inside {D} `{Transactional D} : relation (World D) := fun w w' =>
  saved (w_db w') = saved (w_db w) ∧ es_tx (w_editor w') = es_tx (w_editor w).

Section atomic.
Context {D : Type} `{Backend D} `{!ReadOnly D} `{!Transactional D}.

#[export] Instance stays_inside_preorder : PreOrder stays_inside.
Proof. split; [by intros w|]. intros w1 w2 w3 [H1 H2] [H3 H4]. split; congruence. Qed.

Lemma on_db_inside {A} (m : io D A) : (∀ d, saved (m d).1 = saved d) → respects stays_inside (on_db m).
Proof. intros Hm w. unfold on_db, zoom. specialize (Hm (w_db w)). by destruct (m (w_db w)). Qed.

#[export] Instance inside_respects : WorldRespects stays_inside.
Proof.
  split; try by intros.
  - apply _.
  - intros sql args. unfold Editor_Execute. apply respects_bind; [apply _|respect|intros w].
    case_match; [respect|]. case_match; [|apply on_db_inside, exec_law].
    apply respects_bind; [apply _|respect|]. by intros a w'.
  - intros table. apply on_db_inside. intros d. by rewrite Constraints_quiet.
Qed.

Context (Hhook : ∀ hook, PreCommit = Some hook → respects stays_inside hook).
Context (outer : Overrides D) (pg : nat → option (PgEditor (Session D))).
Context `{!OverridesRespect stays_inside outer}.
Context (Hpg : ∀ n p, pg n = Some p →
  (∀ m ix, respects (at_editor stays_inside n) (pg_AddIndexConcurrently p m ix)) ∧
  (∀ m ix, respects (at_editor stays_inside n) (pg_RemoveIndexConcurrently p m ix)) ∧
  (∀ m c, respects (at_editor stays_inside n) (pg_AddConstraintNotValid p m c)) ∧
  (∀ m name, respects (at_editor stays_inside n) (pg_ValidateConstraint p m name))).
Context (Hrollback : CanRollbackDDL be_Features = true).

#[local] Instance conn_inside : Conn (Session D) := base_Conn outer pg.

#[local] Instance editor_inside n : EditorRespects (at_editor stays_inside n) (base_SchemaEditor outer pg n false true).
Proof.
  split; simpl; intros; try (apply respects_by_editor; unfold with_field; respect).
  - apply _.
  - apply on_db_inside. intros d. by rewrite count_extension_quiet.
  - by rewrite Hrollback in *.
  - by apply Hpg.
Qed.

(** ** The n-th editor inside its transaction *)

Definition inside (d0 : D) (n : nat) (s : Session D) : Prop :=
  n < length (s_editors s) ∧ es_tx (editor_at n s) = true ∧ saved (s_db s) = Some d0.

(** No transaction was opened, and nothing has happened. *)
Definition outside (d0 : D) (n : nat) (s : Session D) : Prop :=
  n < length (s_editors s) ∧ es_tx (editor_at n s) = false ∧ s_db s = d0.

Lemma inside_respects_step {A} d0 n (m : io (Session D) A) s :
  respects (at_editor stays_inside n) m → inside d0 n s → inside d0 n (m s).1.
Proof.
  intros Hm (Hn & Ht & Hd). destruct (Hm s) as [Hl Hr]. destruct (Hr Hn) as [Hs He]. simpl in Hs, He.
  split; [by rewrite Hl|]. split; congruence.
Qed.

Lemma Begin_inside d0 n s :
  n < length (s_editors s) → es_collect (editor_at n s) = false → es_atomicMigration (editor_at n s) = true →
  es_tx (editor_at n s) = false → saved d0 = None → s_db s = d0 →
  match by_editor n Editor_Begin s with
  | (s', Ok _) => inside d0 n s'
  | (s', _) => outside d0 n s'
  end.
Proof.
  intros Hn Hc Ha Ht Hs <-. unfold by_editor, zoom, Editor_Begin, beginTx, editor_state, mbind, io_bind, get_state, edit, modify.
  simpl. rewrite Ha, Hc. simpl. unfold on_db, zoom. simpl. pose proof (begin_law (s_db s) Hs) as Hb.
  assert (∀ e, editor_at n (mkSession (s_db s) (s_clock s) (s_depth s) (<[n := e]> (s_editors s))) = e) as Hat
    by (intros e; unfold editor_at; simpl; by rewrite list_lookup_insert_eq).
  destruct (db_Begin (s_db s)) as [d' [[]|x|x]].
  - split; [simpl; by rewrite length_insert|]. split; [|done]. unfold editor_at. simpl. by rewrite list_lookup_insert_eq.
  - subst d'. split; [simpl; by rewrite length_insert|]. split; [|done]. unfold editor_at. simpl.
    by rewrite list_lookup_insert_eq.
  - subst d'. split; [simpl; by rewrite length_insert|]. split; [|done]. unfold editor_at. simpl.
    by rewrite list_lookup_insert_eq.
Qed.

(** What is not committed is gone after the end of the transaction. *)
Lemma leave_tx_inside d0 err w :
  es_tx (w_editor w) = true → saved (w_db w) = Some d0 →
  match leave_tx err w with
  | (w', Ok None) => err = None
  | (w', _) => w_db w' = d0
  end.
Proof.
  intros Ht Hd. unfold leave_tx, editor_state, mbind, io_bind, get_state. simpl. rewrite Ht.
  unfold attempt, on_db, zoom, modify, edit. destruct err as [x|].
  - pose proof (rollback_law _ _ Hd) as Hr. destruct (db_Rollback (w_db w)) as [d [a|y|y]]; done.
  - pose proof (commit_law _ _ Hd) as Hr. destruct (db_Commit (w_db w)) as [d [a|y|y]]; simpl in *; auto.
Qed.

Lemma finish_statements_inside err : respects stays_inside (finish_statements err).
Proof.
  apply respects_bind; [apply _| |intros err1].
  - destruct err; respect.
  - destruct err1, PreCommit eqn:Hp; respect.
Qed.

Lemma finish_statements_no_error err : fails (fun _ => True) (finish_statements err) (fun _ => False).
Proof.
  eapply fails_bind; [apply ensures_true| |intros err1].
  - destruct err; [apply fails_ret|]. eapply fails_bind; [apply ensures_true|apply fails_attempt|intros r; apply fails_ret].
  - destruct err1; [apply fails_ret|]. destruct PreCommit; [|apply fails_ret].
    eapply fails_bind; [apply ensures_true|apply fails_attempt|intros r; apply fails_ret].
Qed.

(** Finish, on an editor inside its transaction: without an error it has
    committed, with one everything is undone. *)
Lemma Finish_inside d0 n err s s' x :
  inside d0 n s → by_editor n (Editor_Finish err) s = (s', Err x) → s_db s' = d0.
Proof.
  intros (Hn & Ht & Hd). unfold by_editor, zoom, Editor_Finish.
  pose proof (finish_statements_inside err (world_at n s)) as Hs.
  pose proof (finish_statements_no_error err (world_at n s)) as He. revert Hs He. unfold mbind, io_bind.
  destruct (finish_statements err (world_at n s)) as [w [err2|y|y]]; [|intros _ He; by destruct (He w y)|done].
  intros [Hs2 Ht2] _. simpl in Hs2, Ht2. rewrite Hd in Hs2. rewrite Ht in Ht2.
  pose proof (leave_tx_inside d0 err2 w Ht2 Hs2) as Hl.
  destruct (leave_tx err2 w) as [w3 [[err3|]|y|y]]; [|done|by intros [= <- _]|done]. by intros [= <- _].
Qed.

Lemma Finish_outside d0 n x s s' y :
  outside d0 n s → by_editor n (Editor_Finish (Some x)) s = (s', Err y) → s_db s' = d0.
Proof.
  intros (Hn & Ht & Hd). unfold by_editor, zoom, Editor_Finish, finish_statements, mbind, io_bind, mret, io_ret.
  simpl. rewrite leave_tx_outside by exact Ht. by intros [= <- _].
Qed.

(** ** The recorder, whose table is there *)

Definition recorder_inside n : relation (Recorder (Session D)) := fun r r' =>
  rc_hasTable r = true → rc_hasTable r' = true ∧ at_editor stays_inside n (rc_world r) (rc_world r').

#[local] Instance recorder_inside_preorder n : PreOrder (recorder_inside n).
Proof.
  split; [by intros r Hr; split|]. intros r1 r2 r3 H1 H2 Hr. destruct (H1 Hr) as [Hr2 Ha]. destruct (H2 Hr2) as [Hr3 Hb].
  split; [done|]. by etransitivity.
Qed.

Lemma session_inside {A} n (m : io D A) :
  (∀ d, saved (m d).1 = saved d) → respects (at_editor stays_inside n) (on_session m).
Proof.
  intros Hm s. unfold on_session, zoom. specialize (Hm (s_db s)). by destruct (m (s_db s)).
Qed.

Lemma conn_step_inside {A} n (m : io (Session D) A) :
  respects (at_editor stays_inside n) m → respects (recorder_inside n) (on_conn m).
Proof. apply respects_zoom; [apply _|]. by intros r t Ht Hr. Qed.

Lemma EnsureSchema_inside n : respects (recorder_inside n) EnsureSchema.
Proof.
  intros r Hr. unfold EnsureSchema, HasTable, mbind, io_bind, get_state. rewrite Hr. by split.
Qed.

Lemma insert_row_inside n app name : respects (at_editor stays_inside n) (insert_row app name).
Proof.
  apply respects_bind; [apply _|by intros s|intros now]. apply session_inside, exec_law.
Qed.

Lemma record_migration_inside n fuel dm forward k : respects (recorder_inside n) (record_migration fuel dm forward k).
Proof.
  revert k. induction fuel as [|fuel IH]; intros k; [apply respects_lift; apply _|]. cbn [record_migration].
  apply respects_bind; [apply _| |intros _].
  - destruct (dm !! k); [apply respects_for; [apply _|done]|by apply respects_ret; apply _].
  - destruct forward; apply respects_bind; try apply _; try apply EnsureSchema_inside; intros _; apply conn_step_inside.
    + apply insert_row_inside.
    + apply session_inside, exec_law.
Qed.

(** ** The executor *)

Definition running_inside (d0 : D) n (e : Executor (Session D)) : Prop :=
  rc_hasTable (ex_Recorder e) = true ∧ inside d0 n (rc_world (ex_Recorder e)).

Lemma on_world_step {A} d0 n (m : io (Session D) A) :
  respects (at_editor stays_inside n) m → ensures (running_inside d0 n) (attempt (on_world m)) (fun _ => running_inside d0 n).
Proof.
  intros Hm e e' r [Ht Hin] He. pose proof (inside_respects_step d0 n m _ Hm Hin) as Hs. revert He.
  unfold attempt, on_world, on_recorder, on_conn, zoom. destruct (m _) as [s [a|x|x]]; intros [= <- _]; by split.
Qed.

Lemma on_recorder_step {A} d0 n (m : io (Recorder (Session D)) A) :
  respects (recorder_inside n) m → ensures (running_inside d0 n) (attempt (on_recorder m)) (fun _ => running_inside d0 n).
Proof.
  intros Hm e e' r [Ht (Hn & Hx & Hd)] He. destruct (Hm (ex_Recorder e) Ht) as [Ht' [Hl Hs]]. specialize (Hs Hn) as [Hsaved Htx].
  simpl in Hsaved, Htx. revert He.
  unfold attempt, on_recorder, zoom. destruct (m _) as [rc [a|x|x]]; simpl in *; intros [= <- _];
    (split; [done|]; split; [simpl; lia|]; split; simpl; congruence).
Qed.

Lemma RecordMigration_step d0 n app name forward :
  ensures (running_inside d0 n) (attempt (RecordMigration app name forward)) (fun _ => running_inside d0 n).
Proof.
  intros e e' r He Hr. unfold RecordMigration in Hr.
  exact (on_recorder_step d0 n _ (record_migration_inside n (record_fuel (ex_Loader e)) (ld_DiskMigrations (ex_Loader e)) forward (mkKey app name)) e e' r He Hr).
Qed.

(** An editor that is about to begin *)
Definition starting (d0 : D) n (e : Executor (Session D)) : Prop :=
  let s := rc_world (ex_Recorder e) in
  rc_hasTable (ex_Recorder e) = true ∧ n < length (s_editors s) ∧ editor_at n s = Editor_New false true ∧
  saved d0 = None ∧ s_db s = d0.

Definition running_outside (d0 : D) n (e : Executor (Session D)) : Prop := outside d0 n (rc_world (ex_Recorder e)).

Lemma begin_starting d0 n :
  ensures (starting d0 n) (attempt (on_world (by_editor n Editor_Begin)))
    (fun r e => match r with inl _ => running_inside d0 n e | inr _ => running_outside d0 n e end).
Proof.
  intros e e' r (Ht & Hn & Hed & Hs & Hd) He.
  pose proof (Begin_inside d0 n (rc_world (ex_Recorder e)) Hn) as Hb. rewrite Hed in Hb. simpl in Hb.
  rewrite Hrollback in Hb. specialize (Hb eq_refl eq_refl eq_refl Hs Hd). revert He.
  unfold attempt, on_world, on_recorder, on_conn, zoom. destruct (by_editor n Editor_Begin _) as [s' [a|x|x]]; intros [= <- <-].
  - by split.
  - done.
Qed.

Context (RealModels : list ModelState) (Progress : Event → option Migration → bool → Session D → Session D).

(** The migrations this is about: one transaction, and no Go code but such as
    stays inside it *)
Definition one_transaction (mig : Migration) : Prop :=
  IsAtomic mig = true ∧
  ∀ n op, op ∈ mig_Operations mig → @code_respects _ (base_SchemaEditor outer pg n false true) (at_editor stays_inside n) op.

Lemma Apply_inside n mig state :
  one_transaction mig →
  respects (at_editor stays_inside n) (Apply_pointer (base_SchemaEditor outer pg n false true) mig state).
Proof.
  intros [_ Hm]. unfold Apply_pointer. destruct state as [st|]; [|respect].
  apply respects_bind; [apply _| |intros st'; respect].
  apply (@respects_Apply _ (base_SchemaEditor outer pg n false true) _ _). intros op Hop. right. by apply Hm.
Qed.

Lemma apply_in_editor_inside d0 n state mig :
  one_transaction mig →
  ensures (starting d0 n) (apply_in_editor (base_MigrationEditor outer pg n false true) state mig)
    (fun r e => running_inside d0 n e ∨ is_Some r.2 ∧ running_outside d0 n e).
Proof.
  intros Hm. unfold apply_in_editor. eapply ensures_bind; [apply begin_starting|]. intros [[]|x].
  2:{ intros e e' r He [= <- <-]. right. by split. }
  eapply ensures_bind; [by apply on_world_step, Apply_inside|]. intros [state'|x].
  2:{ intros e e' r He [= <- <-]. by left. }
  eapply ensures_bind; [apply ensures_get_any|]. intros e0. case_bool_decide.
  2:{ intros e e' r He [= <- <-]. by left. }
  eapply ensures_bind; [apply RecordMigration_step|]. intros r e e' q He [= <- <-]. by left.
Qed.

Lemma apply_in_editor_no_error (ed : MigrationEditor (Session D)) state mig :
  fails (fun _ => True) (apply_in_editor ed state mig) (fun _ => False).
Proof.
  unfold apply_in_editor. eapply fails_bind; [apply ensures_true|apply fails_attempt|]. intros [[]|x]; [|apply fails_ret].
  eapply fails_bind; [apply ensures_true|apply fails_attempt|]. intros [state'|x]; [|apply fails_ret].
  eapply fails_bind; [apply ensures_true|apply fails_get|]. intros e0. case_bool_decide; [|apply fails_ret].
  eapply fails_bind; [apply ensures_true|apply fails_attempt|intros r; apply fails_ret].
Qed.

(** Begin, the operations and Finish *)
Lemma run_forwards_undone state mig e e' x :
  one_transaction mig → rc_hasTable (ex_Recorder e) = true → saved (s_db (rc_world (ex_Recorder e))) = None →
  run_forwards state mig e = (e', Err x) → s_db (rc_world (ex_Recorder e')) = s_db (rc_world (ex_Recorder e)).
Proof.
  intros Hm Ht Hs. set (d0 := s_db (rc_world (ex_Recorder e))) in *. unfold run_forwards.
  rewrite (proj1 Hm). set (n := length (s_editors (rc_world (ex_Recorder e)))).
  unfold mbind at 1, io_bind at 1, on_world at 1, on_recorder at 1, on_conn at 1, zoom, new_editor. simpl.
  set (e1 := ex_set_Recorder _ e).
  assert (starting d0 n e1) as Hst.
  { split; [done|]. split; [simpl; rewrite length_app; simpl; lia|]. split; [|done].
    unfold editor_at. simpl. by rewrite list_lookup_middle. }
  revert Hst. generalize e1. clear e1. intros e1 Hst. revert e1 e' x Hst.
  change (fails (starting d0 n) (r ← apply_in_editor (base_MigrationEditor outer pg n false true) state mig;
    _ ← on_world (by_editor n (Editor_Finish r.2)); mret r.1) (fun e' => s_db (rc_world (ex_Recorder e')) = d0)).
  eapply fails_bind; [by apply apply_in_editor_inside|..].
  - intros e2 e3 y _ Hf. by destruct (apply_in_editor_no_error _ _ _ e2 e3 y I Hf).
  - intros r. eapply fails_bind; [apply ensures_true| |intros; apply fails_ret].
    intros e2 e3 y Hin Hf. simpl in Hf. unfold on_world, on_recorder, on_conn, zoom in Hf.
    destruct (by_editor n (Editor_Finish r.2) (rc_world (ex_Recorder e2))) as [s' o] eqn:Hfin. injection Hf as <- ->. simpl.
    destruct Hin as [[_ Hin]|[[z Hz] Hout]]; [by eapply Finish_inside|]. rewrite Hz in Hfin. by eapply Finish_outside.
Qed.

(** C5: all of a migration or nothing. On a backend that can roll back DDL,
    when ApplyMigration of an atomic migration fails (an operation, a
    statement deferred to the end, the record, the commit), the database is
    what it was before, whatever the migration did to it until then. There is
    one exception: when the migration leaves statements to Finish, its row is
    written after the commit, and may be all that is missing. *)
Theorem ApplyMigration_atomic state mig e e' x :
  one_transaction mig → rc_hasTable (ex_Recorder e) = true → saved (s_db (rc_world (ex_Recorder e))) = None →
  (∀ ev m f s, s_db (Progress ev m f s) = s_db s) →
  ApplyMigration RealModels Progress state mig false false e = (e', Err x) →
  s_db (rc_world (ex_Recorder e')) = s_db (rc_world (ex_Recorder e)) ∨
  ∃ e1 state', run_forwards state mig (progress Progress ApplyStart (Some mig) false e).1 = (e1, Ok (state', false)) ∧
    RecordMigration (mig_App mig) (mig_Name mig) true e1 = (e', Err x).
Proof.
  intros Hm Ht Hs Hp. unfold ApplyMigration. set (e0 := (progress Progress ApplyStart (Some mig) false e).1).
  unfold mbind, io_bind. change (progress Progress ApplyStart (Some mig) false e) with (e0, Ok tt).
  cbn [fst snd negb andb]. change (mret (M := io _) (false, state) e0) with (e0, Ok (false, state)). cbn [fst snd].
  destruct (run_forwards state mig e0) as [e1 [[state' recorded]|y|y]] eqn:Hr; cbn [fst snd].
  - destruct recorded; [by intros [=]|]. destruct (RecordMigration _ _ true e1) as [e2 [a|y|y]] eqn:Hrec; [by intros [=]| |by intros [=]].
    intros [= <- <-]. right. by exists e1, state'.
  - intros [= <- <-]. left. assert (s_db (rc_world (ex_Recorder e0)) = s_db (rc_world (ex_Recorder e))) as He0 by apply Hp.
    rewrite <- He0. rewrite <- He0 in Hs. by apply (run_forwards_undone state mig e0 e1 y Hm Ht Hs).
  - done.
Qed.
End atomic.

(** ** Deferred statements follow what they refer to *)

Section deferred.
Context {D : Type} `{Backend D}.

(** ** Execute does not look at them *)

Definition with_deferred (ds : list Statement) (w : World D) : World D := on_editor (es_set_deferred ds) w.

(** A computation that neither reads nor changes the deferred statements *)
Definition no_deferred {A} (m : io (World D) A) : Prop :=
  ∀ ds w, m (with_deferred ds w) = (with_deferred ds (m w).1, (m w).2) ∧
          es_deferred (w_editor (m w).1) = es_deferred (w_editor w).

Lemma no_deferred_Execute sql args : no_deferred (Editor_Execute sql args).
Proof.
  intros ds w. unfold Editor_Execute, mbind, io_bind, get_state, conn_InAtomicBlock, edit, modify, conn_Exec, on_db, zoom. simpl.
  destruct (negb (es_collect (w_editor w)) && (0 <? w_depth w) && negb (CanRollbackDDL be_Features)); [done|].
  destruct (es_collect (w_editor w)); simpl.
  - destruct (if bool_decide (args = []) then _ else _); done.
  - destruct (db_Exec sql args (w_db w)). done.
Qed.

Lemma no_deferred_exec s : no_deferred (exec_statement s).
Proof.
  intros ds w. unfold exec_statement, mbind, io_bind, lift. destruct (Statement_String be_QuoteName s) as [sql|x|x]; [|done|done].
  apply no_deferred_Execute.
Qed.

Lemma with_deferred_same w : with_deferred (es_deferred (w_editor w)) w = w.
Proof. by destruct w as [d c n []]. Qed.

Lemma exec_keeps s w : es_deferred (w_editor (exec_statement s w).1) = es_deferred (w_editor w).
Proof. apply (no_deferred_exec s []). Qed.

(** ** Finish *)

Definition exec_all (l : list Statement) : io (World D) unit := for_io l exec_statement.

Lemma exec_all_cons s l w :
  exec_all (s :: l) w = match exec_statement s w with
                        | (w', Ok _) => exec_all l w'
                        | (w', Err x) => (w', Err x)
                        | (w', Panic x) => (w', Panic x)
                        end.
Proof. unfold exec_all, for_io. simpl. unfold mbind, io_bind. by destruct (exec_statement s w) as [w' [[]|x|x]]. Qed.

Lemma exec_all_with_deferred l ds w :
  exec_all l (with_deferred ds w) = (with_deferred ds (exec_all l w).1, (exec_all l w).2).
Proof.
  revert w. induction l as [|s l IH]; intros w; [done|]. rewrite !exec_all_cons, (proj1 (no_deferred_exec s ds w)).
  destruct (exec_statement s w) as [w2 [[]|x|x]]; [apply IH|done|done].
Qed.

(** Nor is the transaction ended. *)
Definition same_tx : relation (World D) := fun w w' => es_tx (w_editor w') = es_tx (w_editor w).

#[local] Instance same_tx_preorder : PreOrder same_tx.
Proof. split; [by intros w|]. intros w1 w2 w3 H1 H2. unfold same_tx in *. congruence. Qed.

Lemma exec_all_tx l : respects same_tx (exec_all l).
Proof.
  apply respects_for; [apply _|]. intros s. apply respects_bind; [apply _|apply respects_lift, _|intros sql w].
  unfold same_tx, Editor_Execute, mbind, io_bind, get_state, edit, modify, conn_Exec, on_db, zoom.
  destruct (negb (es_collect (w_editor w)) && conn_InAtomicBlock w && negb (CanRollbackDDL be_Features)); [done|].
  destruct (es_collect (w_editor w)); [done|]. by destruct (db_Exec sql [] (w_db w)).
Qed.

(** A run of statements that goes through up to the rest, and stops there
    because the first of it fails *)
Definition stops_at (went rest : list Statement) (w : World D) : Prop :=
  (exec_all went w).2 = Ok tt ∧
  match rest with [] => True | s :: _ => is_ok (exec_statement s (exec_all went w).1).2 = false end.

(** The list shrinks from the front as its statements run. *)
Lemma run_deferred_spec l w :
  es_deferred (w_editor w) = l →
  ∃ went rest, l = went ++ rest ∧ stops_at went rest w ∧
    run_deferred l w = (with_deferred rest (exec_all l w).1, (exec_all l w).2).
Proof.
  revert w. induction l as [|s l IH]; intros w Hw.
  - exists [], []. split; [done|]. split; [done|]. simpl. by rewrite <- Hw, with_deferred_same.
  - rewrite exec_all_cons. cbn [run_deferred]. unfold mbind, io_bind. pose proof (exec_keeps s w) as Hs.
    destruct (exec_statement s w) as [w1 [[]|x|x]] eqn:He; simpl in Hs.
    2,3: exists [], (s :: l); split; [done|]; split; [split; [done|simpl; by rewrite He]|];
      by rewrite <- Hw, <- Hs, with_deferred_same.
    unfold edit, modify. change (on_editor (es_set_deferred l) w1) with (with_deferred l w1).
    destruct (IH (with_deferred l w1) eq_refl) as (went & rest & -> & [Hok Hstop] & Hrun). rewrite Hrun.
    rewrite exec_all_with_deferred in Hok, Hstop, Hrun |- *. simpl in *. exists (s :: went), rest.
    split; [done|]. split; [|done]. unfold stops_at. rewrite exec_all_cons, He. split; [done|].
    destruct rest as [|t rest]; [done|]. rewrite (proj1 (no_deferred_exec t _ _)) in Hstop. exact Hstop.
Qed.

(** What went through in the whole list is what went through before the stop. *)
Lemma exec_all_stops went rest w : stops_at went rest w → is_ok (exec_all (went ++ rest) w).2 = bool_decide (rest = []).
Proof.
  revert w. induction went as [|s went IH]; intros w [Hok Hstop].
  - destruct rest as [|t rest]; [done|]. simpl app. rewrite exec_all_cons. simpl in Hstop.
    by destruct (exec_statement t w) as [w1 [[]|x|x]].
  - unfold stops_at in Hok, Hstop. simpl app. rewrite exec_all_cons in Hok, Hstop |- *.
    destruct (exec_statement s w) as [w1 [[]|x|x]]; [|done|done]. by apply IH.
Qed.

(** C29: Finish runs what has been deferred, in order. Outside a transaction
    and without a hook, Editor.Finish does what executing the deferred
    statements one after the other does. The list is those that went through
    and then those that are left: the first of what is left is the one that
    failed, and its error is the result; when all went through, Finish
    succeeds and nothing is left. *)
Theorem Finish_runs_deferred w :
  PreCommit = None → es_tx (w_editor w) = false →
  ∃ went rest, es_deferred (w_editor w) = went ++ rest ∧ (exec_all went w).2 = Ok tt ∧
    match rest with [] => True | s :: _ => is_ok (exec_statement s (exec_all went w).1).2 = false end ∧
    (is_ok (Editor_Finish None w).2 = true ↔ rest = []) ∧
    Editor_Finish None w =
      (with_deferred rest (exec_all (es_deferred (w_editor w)) w).1, (exec_all (es_deferred (w_editor w)) w).2).
Proof.
  intros Hp Ht. destruct (run_deferred_spec _ w eq_refl) as (went & rest & Heq & Hstop & Hrun). exists went, rest.
  split; [done|]. split; [apply Hstop|]. split; [apply Hstop|].
  assert (Editor_Finish None w =
    (with_deferred rest (exec_all (es_deferred (w_editor w)) w).1, (exec_all (es_deferred (w_editor w)) w).2)) as Hfinish;
    [|split; [|done]; rewrite Hfinish; cbn [snd]; rewrite Heq, (exec_all_stops _ _ _ Hstop); apply bool_decide_eq_true].
  pose proof (exec_all_tx (es_deferred (w_editor w)) w) as Htx. unfold same_tx in Htx. rewrite Ht in Htx.
  unfold Editor_Finish, finish_statements, editor_state, attempt, mbind, io_bind, get_state, mret, io_ret. simpl. rewrite Hrun.
  destruct (exec_all (es_deferred (w_editor w)) w) as [w1 [[]|x|x]]; simpl; rewrite ?Hp; [| |done];
    (rewrite leave_tx_outside; [done|exact Htx]).
Qed.

(** ** Renames and drops *)

Lemma edit_after {A} (m : io (World D) A) f w w' :
  no_deferred m → (_ ← m; edit (fun e => es_set_deferred (f (es_deferred e)) e)) w = (w', Ok tt) →
  es_deferred (w_editor w') = f (es_deferred (w_editor w)).
Proof.
  intros Hm. unfold mbind, io_bind, edit, modify. destruct (Hm [] w) as [_ Hd].
  destruct (m w) as [w1 [a|x|x]]; [|done|done]. intros [= <-]. simpl in *. by rewrite Hd.
Qed.

Lemma refer_nowhere (p : Statement → bool) (ds : list Statement) :
  ∀ s, s ∈ filter (fun s => p s = false) ds → p s = false.
Proof. intros s Hs. by apply list_elem_of_filter in Hs as [Hs _]. Qed.

Lemma renamed_nowhere (p : Statement → bool) f (ds : list Statement) :
  (∀ s, p (f s) = false) → ∀ s, s ∈ map f ds → p s = false.
Proof. intros Hf s (s0 & -> & _)%list_elem_of_fmap. apply Hf. Qed.

Lemma rename_table_nowhere old new s :
  old ≠ new → Statement_ReferencesTable old (Statement_RenameTableReferences old new s) = false.
Proof.
  intros Hne. unfold Statement_ReferencesTable. simpl. rewrite (existsb_map_law _ _ (fun _ => false)).
  - by induction (st_refs s).
  - apply Forall_forall. intros r _. by apply RenameTableReferences_old.
Qed.

Lemma rename_column_nowhere table old new s :
  old ≠ new → Statement_ReferencesColumn table old (Statement_RenameColumnReferences table old new s) = false.
Proof.
  intros Hne. unfold Statement_ReferencesColumn. simpl. rewrite (existsb_map_law _ _ (fun _ => false)).
  - by induction (st_refs s).
  - apply Forall_forall. intros r _. by apply RenameColumnReferences_old.
Qed.

(** What is removed last is gone, whatever came before. *)
Lemma removed_last {A B} (before : io (World D) A) (m : io (World D) B) p w w' :
  no_deferred m → (_ ← before; _ ← m; RemoveDeferred p) w = (w', Ok tt) →
  ∀ s, s ∈ es_deferred (w_editor w') → p s = false.
Proof.
  intros Hm. unfold mbind at 1, io_bind at 1. destruct (before w) as [w1 [a|x|x]]; [|done|done]. intros Hr s Hs.
  apply (edit_after _ (filter _)) in Hr; [|done]. rewrite Hr in Hs. by eapply refer_nowhere.
Qed.

(** C28: deferred statements follow the schema. Where these methods succeed,
    DeleteModel keeps exactly the deferred statements that do not mention the
    table, RemoveField none that mentions the column, and a rename of a table
    or of a column renames every statement, after which none mentions the old
    name: no statement is left for Finish that refers to what is gone. *)
Theorem Deferred_follow outer (m : ModelPtr) (f new : FieldPtr) oldTable newTable t w w' :
  (Editor_DeleteModel m w = (w', Ok tt) →
     es_deferred (w_editor w') =
       filter (fun s => Statement_ReferencesTable (m_Table m) s = false) (es_deferred (w_editor w))) ∧
  (Editor_RemoveField outer m f w = (w', Ok tt) →
     ∀ s, s ∈ es_deferred (w_editor w') → Statement_ReferencesColumn (m_Table m) (mf_Column f) s = false) ∧
  (Editor_AlterDBTable m oldTable newTable w = (w', Ok tt) → same_table oldTable newTable = false →
     es_deferred (w_editor w') = map (Statement_RenameTableReferences oldTable newTable) (es_deferred (w_editor w)) ∧
     ∀ s, s ∈ es_deferred (w_editor w') → Statement_ReferencesTable oldTable s = false) ∧
  (rename_column outer m f new t w = (w', Ok tt) → mf_Column f ≠ mf_Column new →
     es_deferred (w_editor w') =
       map (Statement_RenameColumnReferences (m_Table m) (mf_Column f) (mf_Column new)) (es_deferred (w_editor w)) ∧
     ∀ s, s ∈ es_deferred (w_editor w') → Statement_ReferencesColumn (m_Table m) (mf_Column f) s = false).
Proof.
  split; [|split; [|split]].
  2: { apply removed_last, no_deferred_Execute. }
  - intros Hr. by apply (edit_after _ (filter _)) in Hr; [|apply no_deferred_Execute].
  - unfold Editor_AlterDBTable. intros Hr Hs. rewrite Hs in Hr.
    apply (edit_after _ (map _)) in Hr; [|apply no_deferred_Execute]. split; [done|]. rewrite Hr.
    apply renamed_nowhere. intros s. apply rename_table_nowhere. intros ->. unfold same_table in Hs.
    by rewrite bool_decide_eq_true_2 in Hs.
  - unfold rename_column. intros Hr Hne. rewrite bool_decide_eq_false_2 in Hr by done.
    apply (edit_after _ (map _)) in Hr; [|apply no_deferred_Execute]. split; [done|]. rewrite Hr.
    apply renamed_nowhere. intros s. by apply rename_column_nowhere.
Qed.
End deferred.
