(* ===== verification/BackendExample.v ===== *)
(** * A backend for the examples

    A database that keeps the statements it has been given, with a
    transaction, and the base editor with the standard grammar on top of it;
    the theorems on collecting and on transactions at this backend. *)

From S2P Require Import Prelude GoStd Keys Errors Fields Index ModelState Apps ProjectState Operation SchemaEditor.
From S2P Require Import OpDatabase Migration Loader Effects Respects Recorder Executor Names Grammar References Backend.
From S2P Require Import EditorSQL EditorOps EditorAlter BaseEditor EditorLemmas EditorTheorems.
From S2P Require Import Examples.

(** ** The database *)

(** The statements it has been given, and those before the transaction that
    is open *)
Record sql_db := mkSqlDb { sdb_log : list string; sdb_before : option (list string) }.

(** It refuses one statement. *)
Definition refused : string := "UPDATE nothing".

Definition sql_exec (sql : string) (args : list any) : io sql_db unit := fun d =>
  if bool_decide (sql = refused) then (d, Err (PlainError "syntax error"))
  else (mkSqlDb (sdb_log d ++ [sql]) (sdb_before d), Ok tt).

Definition sql_begin : io sql_db unit := fun d =>
  match sdb_before d with
  | None => (mkSqlDb (sdb_log d) (Some (sdb_log d)), Ok tt)
  | Some _ => (d, Err (PlainError "already in a transaction"))
  end.

Definition sql_commit : io sql_db unit := fun d => (mkSqlDb (sdb_log d) None, Ok tt).
Definition sql_rollback : io sql_db unit := fun d => (mkSqlDb (default (sdb_log d) (sdb_before d)) None, Ok tt).

Definition sql_features : Features :=
  mkFeatures true true true true true true false true true true true true true true true false true false false false.

Definition sql_type (f : GormField) : string :=
  let t := gf_DataType f in
  if bool_decide (t = Int_ ∨ t = Uint_) then if gf_AutoIncrement f then "bigserial" else "bigint"
  else if bool_decide (t = Bool_) then "boolean"
  else "text".

Definition sql_quote (v : option any) : outcome string :=
  match v with
  | None => Ok "NULL"
  | Some (AnyString s) => Ok ("'" +:+ s +:+ "'")
  | Some (AnyBool true) => Ok "true"
  | Some (AnyBool false) => Ok "false"
  | Some _ => Err (PlainError "unsupported value")
  end.

#[export] Instance sql_backend : Backend sql_db := {|
  be_Vendor := "postgresql";
  be_Features := sql_features;
  be_RecorderDeleteSettings := "";
  be_alias := "default";
  Routers := [];
  MaxNameLength := 63;
  be_QuoteName := fun s => s;
  be_QuoteValue := sql_quote;
  be_PrepareSQLScript := fun s => [s];
  be_Grammar := BaseGrammar;
  be_IdentifierConverter := fun s => s;
  Constraints := fun _ => mret ∅;
  be_TableNames := mret [Table];
  be_TableDescription := fun _ => mret [];
  db_Exec := sql_exec;
  db_Begin := sql_begin;
  db_Commit := sql_commit;
  db_Rollback := sql_rollback;
  db_Rows := fun _ => mret [];
  db_count_extension := fun _ => mret 0%Z;
  db_Transaction := fun fn => fn;
  NamingUniqueName := fun table column => "uni_" +:+ table +:+ "_" +:+ column;
  DataTypeOf := sql_type;
  GormDBDataType := fun _ _ => None;
  Sprint := fun v => match v with Some (AnyString s) => s | _ => "" end;
  time_at := fun n => AnyOther "time.Time" "now";
  call_func := fun _ _ => None;
  expr_Literal := fun _ => None;
  PreCommit := None;
  run_go := fun _ _ => on_session (sql_exec "INSERT INTO authors" []);
|}.

#[export] Instance sql_read_only : ReadOnly sql_db.
Proof. by split. Qed.

#[export] Instance sql_transactional : Transactional sql_db.
Proof.
  refine {| saved := fun d => (fun l => mkSqlDb l None) <$> sdb_before d |}.
  - intros [l [b|]] Hd; [discriminate Hd|reflexivity].
  - intros sql args d. unfold db_Exec, sql_backend, sql_exec. by destruct (bool_decide _).
  - intros d d0 _ Hc. discriminate Hc.
  - intros [l [b|]] d0 Hd; [|discriminate Hd]. by injection Hd as <-.
Defined.

(** ** The editor *)

(** No backend overrides anything: the methods of the base editor, each over
    the layer below; the lowest one is never reached. *)
Definition unreached {A} : io (World sql_db) A := lift (Panic out_of_fuel).
Definition nothing : Statement := mkStatement [] (fun _ _ => "") StatementOther None.
Definition bottom : Overrides sql_db :=
  mkOverrides _ (fun _ _ _ => unreached) (fun _ => unreached) (fun _ => unreached) (fun _ => unreached) (fun _ => unreached)
    (fun _ _ => "") (fun _ _ _ _ => unreached) (fun _ _ _ => unreached) (fun _ _ _ _ => unreached)
    (fun _ _ _ _ => unreached) (fun _ _ _ _ => unreached) (fun _ _ _ _ => "") (fun _ _ => unreached)
    (fun _ _ => unreached) (fun _ _ => unreached) (fun _ _ => unreached) (fun _ _ _ => nothing)
    (fun _ _ => unreached) (fun _ _ => unreached) (fun _ _ => unreached) (fun _ _ => unreached)
    (fun _ _ _ _ _ _ => unreached) (fun _ _ _ => unreached) (fun _ _ => unreached) (fun _ _ => unreached)
    (fun _ _ => unreached) (fun _ _ => unreached) (fun _ _ _ => unreached).
Definition layers : Overrides sql_db := layer (layer (layer (layer bottom))).

#[export] Instance bottom_respects {B : Backend sql_db} R `{!PreOrder R} : OverridesRespect R bottom.
Proof. split; intros; by intros w. Qed.

Lemma layers_respect R `{!WorldRespects R} : OverridesRespect R layers.
Proof. repeat (apply layer_respects; [apply _|]). apply bottom_respects, wr_preorder. Qed.

Definition no_pg (n : nat) : option (PgEditor (Session sql_db)) := None.
Definition sql_connection : Conn (Session sql_db) := base_Conn layers no_pg.

Definition empty_session : Session sql_db := mkSession (mkSqlDb [] None) 0 0 [].

(** ** The project *)

Definition sql_table (name table : string) (fields : list NamedField) (indexes : list Index) : Operation :=
  CreateModel name table fields (mkOptions None "" [] indexes [] false None).
Definition id_field : NamedField := mkNamedField "id" (int_field true).
Definition author_ref : NamedField :=
  mkNamedField "author" (mkField Int_ 64 0 0 false false 0 false false None None "" None None
    (Some (mkForeignKey "blog.Author" "" Cascade NoAction "fk_orders_author")) false false "").
Definition by_author : Index :=
  mkIndex "idx_orders_author" (Some [mkIndexField "author" "" "" "" 0]) false "" "" "" None None "" "".

Definition author1 : Migration :=
  migration "blog" "0001_initial" [] [] [sql_table "Author" "authors" [id_field] []].
Definition author2 : Migration := migration "blog" "0002_name" [Dep "blog" "0001_initial"] [] [add_name].
Definition order1 : Migration :=
  migration "shop" "0001_initial" [Dep "blog" "0002_name"] []
    [sql_table "Order" "orders" [id_field; author_ref] [by_author]].
Definition authors : list Migration := [author1; author2; order1].
Definition authors_plan : list PlanStep := map (fun mig => mkPlanStep mig false) authors.

(** ** Collecting *)

Definition sqlmigrated : Session sql_db * outcome (list string) :=
  @Executor.CollectSQL _ sql_connection [] Describe (loader authors false []) authors_plan empty_session.

Example collected_statements : sqlmigrated.2 = Ok
  ["--"; "-- create model Author"; "--"; "CREATE TABLE authors (id bigserial NOT NULL, PRIMARY KEY (id));";
   "--"; "-- add field name to Author"; "--"; "ALTER TABLE authors ADD COLUMN name text DEFAULT '?' NOT NULL;";
   "ALTER TABLE authors ALTER COLUMN name DROP DEFAULT;";
   "--"; "-- create model Order"; "--";
   "CREATE TABLE orders (id bigserial NOT NULL, author bigint NOT NULL, PRIMARY KEY (id), " +:+
   "CONSTRAINT fk_orders_author FOREIGN KEY (author) REFERENCES authors (id) ON DELETE CASCADE ON UPDATE NO ACTION);";
   "CREATE INDEX idx_orders_author ON orders (author);"].
Proof. vm_compute. reflexivity. Qed.

Lemma CollectSQL_touches_nothing_witness : s_db sqlmigrated.1 = mkSqlDb [] None.
Proof.
  apply (CollectSQL_touches_nothing (D := sql_db)).
  - intros hook Hh. discriminate Hh.
  - exact (layers_respect _).
  - intros n p Hp. discriminate Hp.
  - assert (Forall (fun st => shows_code (pst_Migration st)) authors_plan) as Hall.
    { repeat constructor; by right. }
    intros st Hst. by eapply Forall_forall in Hall.
Defined.

(** Code inside a SeparateDatabaseAndState is run all the same. *)
Definition hidden_code : Migration :=
  migration "blog" "0003_code" [Dep "blog" "0002_name"] [] [SeparateDatabaseAndState [RunGo (Some "main.Fill") None None ∅ false] []].

Example hidden_code_runs :
  s_db (@Executor.CollectSQL _ sql_connection [] Describe (loader (hidden_code :: authors) false []) [mkPlanStep hidden_code false]
          empty_session).1 = mkSqlDb ["INSERT INTO authors"] None.
Proof. vm_compute. reflexivity. Qed.

(** ** One transaction *)

(** The first statement goes through, the second one does not. *)
Definition halfway : Migration :=
  migration "blog" "0001_initial" [] []
    [sql_table "Author" "authors" [id_field] [];
     RunSQL (Some (Statements [refused])) None [] ∅ false].

Definition executor_on (s : Session sql_db) : Executor (Session sql_db) :=
  mkExecutor (mkRecorder s true) (loader authors false []) false.

Definition session_progress (ev : Event) (mig : option Migration) (fake : bool) (s : Session sql_db) : Session sql_db := s.

Definition sql_apply (mig : Migration) : Executor (Session sql_db) * outcome (option ProjectState) :=
  @ApplyMigration _ sql_connection [] session_progress (Some NewProjectState) mig false false (executor_on empty_session).

Example applied_statements :
  s_db (rc_world (ex_Recorder (sql_apply author1).1)) =
  mkSqlDb ["CREATE TABLE authors (id bigserial NOT NULL, PRIMARY KEY (id))";
           "INSERT INTO gormgate_migrations (app, name, applied) VALUES (?, ?, ?)"] None.
Proof. vm_compute. reflexivity. Qed.

Lemma sql_one_transaction mig :
  IsAtomic mig = true → forallb go_free (mig_Operations mig) = true → one_transaction layers no_pg mig.
Proof.
  intros Ha Hg. split; [done|]. intros n op Hop. left. rewrite forallb_forall in Hg. apply Hg.
  by apply list_elem_of_In.
Qed.

Lemma sql_no_hook hook : PreCommit = Some hook → respects (@stays_inside sql_db _ _) hook.
Proof. intros Hh. discriminate Hh. Qed.

Lemma ApplyMigration_atomic_witness :
  is_ok (sql_apply halfway).2 = false ∧ s_db (rc_world (ex_Recorder (sql_apply halfway).1)) = mkSqlDb [] None.
Proof.
  split; [vm_compute; reflexivity|].
  assert (match (sql_apply halfway).2 with Err _ => true | _ => false end = true) as Herr by (vm_compute; reflexivity).
  assert (is_ok (@run_forwards _ sql_connection (Some NewProjectState) halfway
    (@progress _ session_progress ApplyStart (Some halfway) false (executor_on empty_session)).1).2 = false) as Hrun
    by (vm_compute; reflexivity).
  destruct (sql_apply halfway) as [e' [a|x|x]] eqn:He; [discriminate Herr| |discriminate Herr].
  destruct (ApplyMigration_atomic (D := sql_db) sql_no_hook layers no_pg (OverridesRespect0 := layers_respect _)
    (fun n p (Hp : None = Some p) => ltac:(discriminate Hp))
    eq_refl [] session_progress
    (Some NewProjectState) halfway (executor_on empty_session) e' x) as [Hd|(e1 & st & Hr & _)].
  - apply sql_one_transaction; reflexivity.
  - reflexivity.
  - reflexivity.
  - reflexivity.
  - exact He.
  - exact Hd.
  - discriminate (eq_trans (eq_sym Hrun) (f_equal (fun r => is_ok r.2) Hr)).
Defined.

(** ** Deferred statements *)

Definition orders_key : Statement :=
  foreign_key_statement "orders" "fk_orders_author" ["author"] "authors" ["id"] Cascade NoAction.
Definition shops_key : Statement :=
  foreign_key_statement "shops" "fk_shops_owner" ["owner"] "people" ["id"] Cascade NoAction.

Definition world_with (ds : list Statement) : World sql_db :=
  mkWorld (mkSqlDb [] None) 0 0 (es_set_deferred ds (Editor_New (D := sql_db) false false)).

Example finished_statements : sdb_log (w_db (Editor_Finish None (world_with [orders_key; shops_key])).1) =
  ["ALTER TABLE orders ADD CONSTRAINT fk_orders_author FOREIGN KEY (author) REFERENCES authors (id) " +:+
   "ON DELETE CASCADE ON UPDATE NO ACTION";
   "ALTER TABLE shops ADD CONSTRAINT fk_shops_owner FOREIGN KEY (owner) REFERENCES people (id) " +:+
   "ON DELETE CASCADE ON UPDATE NO ACTION"].
Proof. vm_compute. reflexivity. Qed.

Lemma Finish_runs_deferred_witness :
  ∃ rest, Editor_Finish None (world_with [orders_key; shops_key]) =
    (with_deferred rest (exec_all [orders_key; shops_key] (world_with [orders_key; shops_key])).1, Ok tt) ∧ rest = [].
Proof.
  destruct (Finish_runs_deferred (H := sql_backend) (world_with [orders_key; shops_key]) eq_refl eq_refl)
    as (went & rest & _ & _ & _ & Hok & Hfin).
  assert (rest = []) as Hrest by (apply Hok; vm_compute; reflexivity). exists rest. split; [|exact Hrest].
  rewrite Hfin. f_equal.
Defined.

(** The tables of the project *)
Definition authors_apps : outcome (Apps * ProjectState) :=
  st ← foldM (fun st mig => MutateState mig st false) NewProjectState authors; ps_Apps st.
Definition no_model : Model :=
  mkModel (mkModelState "" "" "" [] zero_Options) "" "" "" [].
Definition model_of (app name : string) : ModelPtr :=
  match authors_apps with
  | Ok (apps, _) => match GetModel_ptr apps app name with Ok m => m | _ => mkModelPtr apps no_model end
  | _ => mkModelPtr (mkApps ∅ []) no_model
  end.
Definition Author : ModelPtr := model_of "blog" "Author".
Definition Author_id : FieldPtr :=
  default (mkFieldPtr (mp_Apps Author) (mkModelField (mkModelKey "" "") "" (int_field true) "" None None)) (field_ptr Author "id").

Lemma Deferred_follow_witness :
  es_deferred (w_editor (Editor_DeleteModel Author (world_with [orders_key; shops_key])).1) = [shops_key] ∧
  ∀ s, s ∈ es_deferred (w_editor (Editor_AlterDBTable Author "authors" "writers" (world_with [orders_key; shops_key])).1) →
    Statement_ReferencesTable "authors" s = false.
Proof.
  split.
  - rewrite (proj1 (Deferred_follow layers Author Author_id Author_id "" "" "" (world_with [orders_key; shops_key])
      (Editor_DeleteModel Author (world_with [orders_key; shops_key])).1)); vm_compute; reflexivity.
  - refine (proj2 (proj1 (proj2 (proj2 (Deferred_follow layers Author Author_id Author_id "authors" "writers" ""
      (world_with [orders_key; shops_key]) _))) _ _)); vm_compute; reflexivity.
Defined.
