(* ===== verification/Questioner.v ===== *)
(** * Questions: internal/questioner/questioner.go

    What the autodetector asks, as a class over the state of whoever answers,
    and the two implementations that ask nobody: Base and NonInteractive.
    Interactive is in [Interactive]. *)

From S2P Require Import Prelude GoStd Keys Errors Fields Index ModelState SchemaEditor Effects Migration.

(** A *GoExpr, by what can be told of it: nil, the sentinel NotProvided, or
    an expression *)
Inductive answer := NoDefault | NotProvided | Expr (Source : string).

#[export] Instance answer_eq_dec : EqDecision answer.
Proof. solve_decision. Defined.

(** The same pointer once it is the value of an interface: nil of this type
    is not the nil interface. *)
Definition nil_GoExpr : any := AnyOther "*migrations.GoExpr" "<nil>".
Definition answer_any (a : answer) : any :=
  match a with
  | NoDefault => nil_GoExpr
  | NotProvided => AnyGoExpr "<NOT_PROVIDED>"
  | Expr src => AnyGoExpr src
  end.

Class Questioner (Q : Type) := {
  AskInitial : string → Q → Q * bool;
  AskNotNullAddition : string → string → io Q answer;
  AskNotNullAlteration : string → string → io Q answer;
  AskRename : string → string → string → Field → io Q bool;
  AskRenameModel : ModelState → ModelState → io Q bool;
  AskMerge : string → io Q bool;
  AskAutoNowAddAddition : string → string → io Q answer;
  AskUniqueCallableDefaultAddition : string → string → io Q unit;
}.

(** ** Base *)

(** Defaults *)
Record Defaults := mkDefaults { df_Initial : bool; df_Rename : bool; df_RenameModel : bool; df_Merge : bool }.

(** Base; a MigrationsDir gives the directory, disabled and installed, and
    [bs_ReadDir] is os.ReadDir, None for an error. *)
Record Base := mkBase {
  bs_Defaults : Defaults;
  bs_SpecifiedApps : gset string;
  bs_DryRun : bool;
  bs_Dirs : option (string → string * bool * bool);
  bs_ReadDir : string → option (list string);
}.

(** migrationFile *)
Fixpoint word_go (s : string) : bool :=
  bool_decide (s = ".go") || match s with String c s' => word_char c && word_go s' | EmptyString => false end.

Definition migrationFile (s : string) : bool :=
  match s with
  | String a (String b (String c (String d (String e rest)))) =>
      byte_is_digit a && byte_is_digit b && byte_is_digit c && byte_is_digit d && bool_decide (e = "_"%char) && word_go rest
  | _ => false
  end.

(** Base.AskInitial *)
Definition base_AskInitial (q : Base) (app : string) : bool :=
  if bool_decide (app ∈ bs_SpecifiedApps q) then true
  else match bs_Dirs q with
       | None => df_Initial (bs_Defaults q)
       | Some dirs =>
           let '(dir, disabled, installed) := dirs app in
           if negb installed || disabled then df_Initial (bs_Defaults q)
           else match bs_ReadDir q dir with
                | None => df_Initial (bs_Defaults q)
                | Some names => negb (existsb migrationFile names)
                end
       end.

(** A Base does not change while it answers. *)
Definition base_Questioner (q : Base) : Questioner unit := {|
  AskInitial app := fun w => (w, base_AskInitial q app);
  AskNotNullAddition _ _ := mret NoDefault;
  AskNotNullAlteration _ _ := mret NoDefault;
  AskRename _ _ _ _ := mret (df_Rename (bs_Defaults q));
  AskRenameModel _ _ := mret (df_RenameModel (bs_Defaults q));
  AskMerge _ := mret (df_Merge (bs_Defaults q));
  AskAutoNowAddAddition _ _ := mret NoDefault;
  AskUniqueCallableDefaultAddition _ _ := mret tt;
|}.

(** ** NonInteractive: its state is what it has written to Log. *)

Definition ErrNoAnswer : error := PlainError "no answer available".

(** errors.Is with it: a sentinel is known by its text here. *)
Definition is_no_answer (e : error) : bool :=
  match e with PlainError msg => bool_decide (msg = "no answer available") | _ => false end.

(** NonInteractive.logLackOfMigration *)
Definition logLackOfMigration (verbosity : Z) (field model reason : string) : io (list string) unit :=
  if (0 <? verbosity)%Z then modify (fun log => log ++ [model +:+ "." +:+ field +:+ " not migrated: " +:+ reason])
  else mret tt.

Definition noninteractive_Questioner (q : Base) (verbosity : Z) : Questioner (list string) := {|
  AskInitial app := fun w => (w, base_AskInitial q app);
  AskNotNullAddition field model :=
    _ ← logLackOfMigration verbosity field model
          "it is impossible to add a non-nullable field without specifying a default";
    lift (Err ErrNoAnswer);
  AskNotNullAlteration field model :=
    _ ← modify (fun log => log ++ ["Field '" +:+ field +:+ "' on model '" +:+ model +:+
                                   "' given a default of NOT PROVIDED and must be corrected."]);
    mret NotProvided;
  AskRename _ _ _ _ := mret (df_Rename (bs_Defaults q));
  AskRenameModel _ _ := mret (df_RenameModel (bs_Defaults q));
  AskMerge _ := mret (df_Merge (bs_Defaults q));
  AskAutoNowAddAddition field model :=
    _ ← logLackOfMigration verbosity field model
          "it is impossible to add a field with 'autoCreateTime' without specifying a default";
    lift (Err ErrNoAnswer);
  AskUniqueCallableDefaultAddition _ _ := mret tt;
|}.
