(* ===== verification/TopoSort.v ===== *)
(** * The order of generated operations: topoSorter of
    internal/autodetector/autodetector.go

    Nodes are pointers there; here a node is a number, the position of its
    operation in the list that is sorted. *)

From S2P Require Import Prelude Errors.

(** topoInfo, topoSorter *)
Record topoInfo := mkTopoInfo { ti_npred : Z; ti_successors : list nat }.
Record topoSorter := mkTopoSorter { ts_added : list nat; ts_info : gmap nat topoInfo }.

Definition new_topoSorter : topoSorter := mkTopoSorter [] ∅.

(** topoSorter.get: the node is there afterwards. *)
Definition topo_get (n : nat) (t : topoSorter) : topoSorter :=
  match ts_info t !! n with
  | Some _ => t
  | None => mkTopoSorter (ts_added t ++ [n]) (<[n := mkTopoInfo 0 []]> (ts_info t))
  end.

Definition info_update (f : topoInfo → topoInfo) (n : nat) (t : topoSorter) : topoSorter :=
  mkTopoSorter (ts_added t) (alter f n (ts_info t)).

Definition more_preds (k : nat) (i : topoInfo) : topoInfo := mkTopoInfo (ti_npred i + Z.of_nat k) (ti_successors i).
Definition more_successors (n : nat) (i : topoInfo) : topoInfo := mkTopoInfo (ti_npred i) (ti_successors i ++ [n]).
Definition one_pred_less (i : topoInfo) : topoInfo := mkTopoInfo (ti_npred i - 1) (ti_successors i).

(** topoSorter.add *)
Definition topo_add (n : nat) (preds : list nat) (t : topoSorter) : topoSorter :=
  foldl (fun t p => info_update (more_successors n) p (topo_get p t))
    (info_update (more_preds (length preds)) n (topo_get n t)) preds.

Definition npred (info : gmap nat topoInfo) (n : nat) : Z :=
  match info !! n with Some i => ti_npred i | None => 0 end.
Definition successors (info : gmap nat topoInfo) (n : nat) : list nat :=
  match info !! n with Some i => ti_successors i | None => [] end.

(** One successor of one node of a group *)
Definition release (acc : gmap nat topoInfo * list nat) (s : nat) : gmap nat topoInfo * list nat :=
  let info := alter one_pred_less s acc.1 in
  (info, if bool_decide (npred info s = 0%Z) then acc.2 ++ [s] else acc.2).

(** A group: what it makes ready *)
Definition release_group (info : gmap nat topoInfo) (group : list nat) : gmap nat topoInfo * list nat :=
  foldl (fun acc n => foldl release acc (successors acc.1 n)) (info, []) group.

(** The loop of order *)
Fixpoint order_loop (fuel : nat) (info : gmap nat topoInfo) (ready out : list nat) : option (list nat) :=
  match fuel with
  | 0 => None
  | S fuel =>
      match ready with
      | [] => Some out
      | _ => let '(info, ready') := release_group info ready in order_loop fuel info ready' (out ++ ready)
      end
  end.

(** topoSorter.order; [None] when it does not return. *)
Definition order (t : topoSorter) : option (outcome (list nat)) :=
  (fun out => if bool_decide (length out = length (ts_added t)) then Ok out
              else Err (PlainError "nodes are in a cycle"))
  <$> order_loop (2 + length (ts_added t)) (ts_info t)
        (filter (fun n => npred (ts_info t) n = 0%Z) (ts_added t)) [].

(** ** topoSorter orders what can be ordered *)

(** ** What a sorter represents *)

Notation edges := (list (nat * nat)).

(** The sorter counts these edges, and knows those: an edge leads from a node
    to one that waits for it, and is there as often as it was added. *)
Record represents (t : topoSorter) (E1 E2 : edges) : Prop := {
  rp_nodup : NoDup (ts_added t);
  rp_nodes n : n ∈ ts_added t ↔ is_Some (ts_info t !! n);
  rp_npred n : npred (ts_info t) n = Z.of_nat (length (filter (fun e => e.2 = n) E1));
  rp_successors n : successors (ts_info t) n = map snd (filter (fun e => e.1 = n) E2);
  rp_ends1 e : e ∈ E1 → e.2 ∈ ts_added t;
  rp_ends2 e : e ∈ E2 → e.1 ∈ ts_added t;
}.

Lemma represents_new : represents new_topoSorter [] [].
Proof.
  split; simpl; try done; [apply NoDup_nil_2| | |]; [|set_solver..]. intros n. rewrite lookup_empty.
  split; [set_solver|by intros []].
Qed.

Lemma represents_get n t E1 E2 : represents t E1 E2 → represents (topo_get n t) E1 E2 ∧ n ∈ ts_added (topo_get n t).
Proof.
  intros Ht. unfold topo_get. destruct (ts_info t !! n) as [i|] eqn:Hi.
  { split; [done|]. apply (rp_nodes _ _ _ Ht). by eexists. }
  assert (n ∉ ts_added t) as Hn by (rewrite (rp_nodes _ _ _ Ht), Hi; by intros []).
  split; [|set_solver]. split; simpl.
  - apply NoDup_app. split; [apply Ht|]. split; [set_solver|apply NoDup_singleton].
  - intros m. rewrite elem_of_app, (rp_nodes _ _ _ Ht), list_elem_of_singleton. destruct (decide (m = n)) as [->|Hne].
    + rewrite lookup_insert_eq. split; [by eexists|by right].
    + rewrite lookup_insert_ne by done. naive_solver.
  - intros m. unfold npred. destruct (decide (m = n)) as [->|Hne].
    + rewrite lookup_insert_eq. simpl. rewrite filter_none; [done|]. intros e He Heq. apply Hn. rewrite <- Heq.
      by apply (rp_ends1 _ _ _ Ht).
    + rewrite lookup_insert_ne by done. apply Ht.
  - intros m. unfold successors. destruct (decide (m = n)) as [->|Hne].
    + rewrite lookup_insert_eq. simpl. rewrite filter_none; [done|]. intros e He Heq. apply Hn. rewrite <- Heq.
      by apply (rp_ends2 _ _ _ Ht).
    + rewrite lookup_insert_ne by done. apply Ht.
  - intros e He. apply elem_of_app. left. by apply (rp_ends1 _ _ _ Ht).
  - intros e He. apply elem_of_app. left. by apply (rp_ends2 _ _ _ Ht).
Qed.

Lemma represents_update f n t : ts_added (info_update f n t) = ts_added t.
Proof. done. Qed.

Lemma nodes_update f n t :
  (∀ m, m ∈ ts_added t ↔ is_Some (ts_info t !! m)) → ∀ m, m ∈ ts_added t ↔ is_Some (alter f n (ts_info t) !! m).
Proof. intros Ht m. rewrite Ht. by rewrite lookup_alter_is_Some. Qed.

(** The edges of one operation to those it waits for *)
Definition waits (n : nat) (preds : list nat) : edges := map (fun p => (p, n)) preds.

Lemma represents_count n preds t E1 E2 :
  represents t E1 E2 → n ∈ ts_added t → represents (info_update (more_preds (length preds)) n t) (E1 ++ waits n preds) E2.
Proof.
  intros Ht Hn. split; simpl; try apply Ht.
  - apply nodes_update, Ht.
  - intros m. rewrite filter_app, length_app. pose proof (rp_npred _ _ _ Ht m) as Hp. unfold npred in *.
    destruct (decide (m = n)) as [->|Hne].
    + rewrite lookup_alter_eq. apply (rp_nodes _ _ _ Ht) in Hn as [i Hi]. rewrite Hi in *. simpl. rewrite Hp.
      rewrite (filter_all _ (waits n preds)); [unfold waits; rewrite length_map; lia|]. unfold waits. intros e (p & -> & _)%list_elem_of_fmap. done.
    + rewrite lookup_alter_ne, Hp by done. rewrite (filter_none _ (waits _ _)); [simpl; f_equal; lia|].
      unfold waits. intros e (p & -> & _)%list_elem_of_fmap. simpl. congruence.
  - intros m. pose proof (rp_successors _ _ _ Ht m) as Hs. unfold successors in *.
    destruct (decide (m = n)) as [->|Hne]; [|by rewrite lookup_alter_ne].
    rewrite lookup_alter_eq. by destruct (ts_info t !! n).
  - intros e [He|He]%elem_of_app; [by apply (rp_ends1 _ _ _ Ht)|]. unfold waits in He.
    by apply list_elem_of_fmap in He as (p & -> & _).
Qed.

Lemma represents_successor n p t E1 E2 :
  represents t E1 E2 → p ∈ ts_added t → represents (info_update (more_successors n) p t) E1 (E2 ++ [(p, n)]).
Proof.
  intros Ht Hp. split; simpl; try apply Ht.
  - apply nodes_update, Ht.
  - intros m. pose proof (rp_npred _ _ _ Ht m) as Hm. unfold npred in *. destruct (decide (m = p)) as [->|Hne].
    + rewrite lookup_alter_eq. by destruct (ts_info t !! p).
    + by rewrite lookup_alter_ne.
  - intros m. rewrite filter_app, map_app. pose proof (rp_successors _ _ _ Ht m) as Hs. unfold successors in *.
    rewrite <- Hs. destruct (decide (m = p)) as [->|Hne].
    + rewrite lookup_alter_eq. apply (rp_nodes _ _ _ Ht) in Hp as [i ->]. simpl. by rewrite filter_cons_True.
    + rewrite lookup_alter_ne by done. rewrite filter_cons_False by (simpl; congruence). simpl. by rewrite app_nil_r.
  - intros e [He|He%list_elem_of_singleton]%elem_of_app; [by apply (rp_ends2 _ _ _ Ht)|]. by subst e.
Qed.

Lemma represents_add n preds t E :
  represents t E E → represents (topo_add n preds t) (E ++ waits n preds) (E ++ waits n preds).
Proof.
  intros Ht. unfold topo_add. destruct (represents_get n t E E Ht) as [Hg Hn].
  pose proof (represents_count n preds _ E E Hg Hn) as Hc. revert Hc.
  generalize (info_update (more_preds (length preds)) n (topo_get n t)) as t1. clear Ht Hg Hn t.
  generalize (E ++ waits n preds) at 1 2 as E1. revert E. induction preds as [|p preds IH]; intros E E1 t Ht; simpl.
  { by rewrite app_nil_r. }
  destruct (represents_get p t _ _ Ht) as [Hg Hp]. apply (represents_successor n p) in Hg; [|done].
  specialize (IH _ _ _ Hg). by rewrite <- app_assoc in IH.
Qed.

(** ** One group *)

Notation count := (count_occ Nat.eq_dec).

(** What decrements do to the counts, and what they make ready *)
Lemma release_spec L info acc :
  (∀ x, x ∈ L → is_Some (info !! x)) → (∀ x, (Z.of_nat (count L x) ≤ npred info x)%Z) →
  ∃ new, foldl release (info, acc) L = ((foldl release (info, acc) L).1, acc ++ new) ∧ NoDup new ∧
    (∀ x, npred (foldl release (info, acc) L).1 x = (npred info x - Z.of_nat (count L x))%Z) ∧
    (∀ x, x ∈ new ↔ x ∈ L ∧ npred info x = Z.of_nat (count L x)) ∧
    (∀ x, successors (foldl release (info, acc) L).1 x = successors info x) ∧
    (∀ x, is_Some ((foldl release (info, acc) L).1 !! x) ↔ is_Some (info !! x)).
Proof.
  revert info acc. induction L as [|s L IH]; intros info acc Hdom Hle; cbn [foldl].
  { exists []. simpl. rewrite app_nil_r. split_and!; try done; [by constructor|intros; lia|set_solver]. }
  set (info1 := alter one_pred_less s info).
  assert (∀ x, npred info1 x = if decide (x = s) then (npred info x - 1)%Z else npred info x) as Hn1.
  { intros x. unfold npred, info1. destruct (decide (x = s)) as [->|Hne]; [|by rewrite lookup_alter_ne].
    rewrite lookup_alter_eq. destruct (Hdom s) as [i ->]; [left|done]. }
  assert (∀ x, successors info1 x = successors info x) as Hs1.
  { intros x. unfold successors, info1. destruct (decide (x = s)) as [->|Hne]; [|by rewrite lookup_alter_ne].
    rewrite lookup_alter_eq. by destruct (info !! s). }
  assert (∀ x, is_Some (info1 !! x) ↔ is_Some (info !! x)) as Hd1.
  { intros x. unfold info1. by rewrite lookup_alter_is_Some. }
  assert (∀ x, count (s :: L) x = (if decide (x = s) then 1 else 0) + count L x) as Hcount.
  { intros x. simpl. destruct (Nat.eq_dec s x), (decide (x = s)); congruence || lia. }
  assert (∀ x, (Z.of_nat (count L x) ≤ npred info1 x)%Z) as Hle1.
  { intros x. specialize (Hle x). rewrite Hcount in Hle. rewrite Hn1. destruct (decide (x = s)); lia. }
  assert (∀ x, x ∈ L → is_Some (info1 !! x)) as Hdom1 by (intros x Hx; rewrite Hd1; apply Hdom; by right).
  set (acc1 := if bool_decide (npred info1 s = 0%Z) then acc ++ [s] else acc).
  change (release (info, acc) s) with (info1, acc1).
  destruct (IH info1 acc1 Hdom1 Hle1) as (new & Hf & Hnd & Hnp & Hnew & Hsucc & Hdm). clear IH.
  exists ((if bool_decide (npred info1 s = 0%Z) then [s] else []) ++ new).
  assert (npred info1 s = 0%Z → s ∉ L) as Hout.
  { intros Hz Hin. specialize (Hle1 s). rewrite Hz in Hle1. apply list_elem_of_In, (count_occ_In Nat.eq_dec) in Hin. lia. }
  split_and!.
  - rewrite Hf at 1. f_equal. subst acc1. case_bool_decide; by rewrite <- ?app_assoc.
  - case_bool_decide as Hz; [|done]. apply NoDup_app. split; [apply NoDup_singleton|]. split; [|done].
    intros x ->%list_elem_of_singleton. rewrite Hnew. intros [Hin _]. by apply Hout.
  - intros x. rewrite Hnp, Hn1, Hcount. destruct (decide (x = s)); lia.
  - intros x. rewrite elem_of_app, elem_of_cons, Hnew, (Hn1 x), Hcount.
    pose proof (Hle1 x) as Hx. rewrite Hn1 in Hx.
    assert (x ∈ L ↔ count L x > 0) as HxL by (rewrite <- (count_occ_In Nat.eq_dec), list_elem_of_In; done).
    case_bool_decide as Hz; rewrite ?list_elem_of_singleton, ?elem_of_nil; rewrite (Hn1 s) in Hz;
      destruct (decide (s = s)); try done; destruct (decide (x = s)) as [->|Hne].
    + split; [intros _; split; [by left|]|by left]. assert (count L s = 0) as -> by lia. lia.
    + split; [intros [?|[? ?]]; [done|]; split; [by right|lia]|]. intros [[?|?] ?]; [done|]. right. split; [done|lia].
    + split; [intros [[]|[? ?]]; split; [by left|lia]|]. intros [_ Hc]. right. split; [|lia]. apply HxL. lia.
    + split; [intros [[]|[? ?]]; split; [by right|lia]|]. intros [[?|?] ?]; [done|]. right. split; [done|lia].
  - intros x. by rewrite Hsucc, Hs1.
  - intros x. by rewrite Hdm, Hd1.
Qed.

Lemma release_successors L st x : successors (foldl release st L).1 x = successors st.1 x.
Proof.
  revert st. induction L as [|s L IH]; intros st; simpl; [done|]. rewrite IH. unfold release. simpl. unfold successors.
  destruct (decide (x = s)) as [->|Hne]; [|by rewrite lookup_alter_ne]. rewrite lookup_alter_eq. by destruct (st.1 !! s).
Qed.

Lemma release_group_flat info group :
  release_group info group = foldl release (info, []) (flat_map (successors info) group).
Proof.
  unfold release_group. generalize (@nil nat) as acc. intros acc.
  assert (∀ x, successors info x = successors (info, acc).1 x) as Hs by done. revert Hs.
  generalize (info, acc) as st. induction group as [|n group IH]; intros st Hs; simpl; [done|].
  rewrite foldl_app, <- Hs. apply IH. intros x. by rewrite release_successors.
Qed.

(** How often a node waits for one of a group *)
Lemma count_group (E : edges) R x :
  NoDup R →
  count (flat_map (fun n => map snd (filter (fun e => e.1 = n) E)) R) x =
  length (filter (fun e => e.2 = x ∧ e.1 ∈ R) E).
Proof.
  intros HR. induction E as [|[p n] E IH]; simpl.
  { assert (flat_map (fun _ => []) R = ([] : list nat)) as -> by (by clear; induction R). done. }
  rewrite (filter_cons (fun e => e.2 = x ∧ e.1 ∈ R)). simpl.
  assert (count (flat_map (fun r => map snd (filter (fun e => e.1 = r) ((p, n) :: E))) R) x =
          (if decide (n = x ∧ p ∈ R) then 1 else 0) +
          count (flat_map (fun r => map snd (filter (fun e => e.1 = r) E)) R) x) as ->.
  { clear IH. induction HR as [|r R Hr _ IHR]; simpl.
    - by destruct (decide (n = x ∧ p ∈ [])) as [[_ ?%elem_of_nil]|].
    - rewrite filter_cons. simpl. rewrite !count_occ_app, IHR.
      destruct (decide (p = r)) as [->|Hne]; simpl.
      + destruct (Nat.eq_dec n x), (decide (n = x ∧ r ∈ R)), (decide (n = x ∧ r ∈ r :: R)); try set_solver; lia.
      + destruct (decide (n = x ∧ p ∈ R)), (decide (n = x ∧ p ∈ r :: R)); try set_solver; lia. }
  rewrite IH. by destruct (decide (n = x ∧ p ∈ R)).
Qed.

(** ** The loop *)

(** x comes before y *)
Definition before {A} (l : list A) (x y : A) : Prop := ∃ l1 l2, l = l1 ++ y :: l2 ∧ x ∈ l1.

Lemma before_app {A} (l l' : list A) x y : before l x y → before (l ++ l') x y.
Proof. intros (l1 & l2 & -> & Hx). exists l1, (l2 ++ l'). by rewrite <- app_assoc. Qed.

Lemma before_later {A} (l l' : list A) x y : x ∈ l → y ∈ l' → before (l ++ l') x y.
Proof. intros Hx (l1 & l2 & ->)%list_elem_of_split. exists (l ++ l1), l2. rewrite <- app_assoc. set_solver. Qed.

Lemma NoDup_split_unique {A} (x : A) l1 l2 m1 m2 :
  NoDup (l1 ++ x :: l2) → l1 ++ x :: l2 = m1 ++ x :: m2 → l1 = m1.
Proof.
  revert m1. induction l1 as [|y l1 IH]; intros [|z m1]; simpl; intros Hnd Heq; [done|..]; simplify_eq.
  - apply NoDup_cons in Hnd as [Hx _]. set_solver.
  - apply NoDup_cons in Hnd as [Hx _]. set_solver.
  - f_equal. apply NoDup_cons in Hnd as [_ Hnd]. by eapply IH.
Qed.

Section loop.
Context (nodes : list nat) (E : edges).
Hypothesis Hends : ∀ e, e ∈ E → e.1 ∈ nodes ∧ e.2 ∈ nodes.

Definition open_edges (P : list nat) (x : nat) : edges := filter (fun e => e.2 = x ∧ e.1 ∉ P) E.

(** P has been put out, R is ready. *)
Record ordering (P R : list nat) (info : gmap nat topoInfo) : Prop := {
  or_nodup : NoDup (P ++ R);
  or_nodes x : x ∈ P ++ R → x ∈ nodes;
  or_npred x : npred info x = Z.of_nat (length (open_edges P x));
  or_succ x : successors info x = map snd (filter (fun e => e.1 = x) E);
  or_dom x : is_Some (info !! x) ↔ x ∈ nodes;
  or_ready x : x ∈ nodes → x ∈ P ++ R ↔ npred info x = 0%Z;
  or_before p n : (p, n) ∈ E → n ∈ P → before P p n;
}.

Lemma open_edges_split P R x :
  NoDup (P ++ R) →
  length (open_edges P x) = length (filter (fun e => e.2 = x ∧ e.1 ∈ R) E) + length (open_edges (P ++ R) x).
Proof.
  intros Hnd. unfold open_edges. clear Hends. induction E as [|[p n] E' IH]; [done|].
  rewrite !filter_cons. simpl.
  assert (p ∈ R → p ∉ P) as Hd by (apply NoDup_app in Hnd as (_ & Hd & _); intros ? ?; by eapply Hd).
  destruct (decide (n = x ∧ p ∉ P)), (decide (n = x ∧ p ∈ R)), (decide (n = x ∧ p ∉ P ++ R)); simpl; try lia; set_solver.
Qed.

Lemma ready_preds P R info p n : ordering P R info → n ∈ R → (p, n) ∈ E → p ∈ P.
Proof.
  intros Ho Hn He. destruct (decide (p ∈ P)) as [Hp|Hp]; [done|].
  assert (npred info n = 0%Z) as Hz.
  { apply (or_ready _ _ _ Ho); [|set_solver]. apply (or_nodes _ _ _ Ho). set_solver. }
  rewrite (or_npred _ _ _ Ho) in Hz.
  assert ((p, n) ∈ open_edges P n) as Hin by (by apply list_elem_of_filter).
  destruct (open_edges P n); [by apply elem_of_nil in Hin|]. simpl in Hz. lia.
Qed.

Lemma ordering_step P R info :
  ordering P R info →
  ordering (P ++ R) (release_group info R).2 (release_group info R).1.
Proof.
  intros Ho. pose proof (or_nodup _ _ _ Ho) as Hnd. rewrite release_group_flat.
  assert (flat_map (successors info) R = flat_map (fun n => map snd (filter (fun e => e.1 = n) E)) R) as ->
    by (apply flat_map_ext; intros n; apply (or_succ _ _ _ Ho)).
  set (L := flat_map _ R).
  assert (∀ x, count L x = length (filter (fun e => e.2 = x ∧ e.1 ∈ R) E)) as Hc.
  { intros x. apply count_group. by apply NoDup_app in Hnd as (_ & _ & ?). }
  assert (∀ x, npred info x = (Z.of_nat (count L x) + Z.of_nat (length (open_edges (P ++ R) x)))%Z) as Hn.
  { intros x. rewrite Hc, (or_npred _ _ _ Ho), (open_edges_split P R) by done. lia. }
  assert (∀ x, x ∈ L → x ∈ nodes) as HL.
  { intros x (n & _ & Hx)%list_elem_of_In%in_flat_map. apply list_elem_of_In, list_elem_of_fmap in Hx as (e & -> & He).
    apply list_elem_of_filter in He as [_ He]. by apply Hends. }
  assert (∀ x, x ∈ L ↔ count L x > 0) as HcL by (intros x; rewrite <- (count_occ_In Nat.eq_dec), list_elem_of_In; done).
  destruct (release_spec L info []) as (new & Hf & Hnew & Hnp & Hin & Hsucc & Hdom).
  { intros x Hx. by apply (or_dom _ _ _ Ho), HL. }
  { intros x. rewrite Hn. lia. }
  rewrite Hf. cbn [fst snd app]. set (info' := (foldl release (info, []) L).1) in *.
  assert (∀ x, x ∈ new → x ∉ P ++ R) as Hfresh.
  { intros x Hx Hpr. pose proof (or_nodes _ _ _ Ho x Hpr) as Hxn. apply Hin in Hx as [HxL Hx]. apply HcL in HxL.
    apply (or_ready _ _ _ Ho) in Hpr; [|done]. lia. }
  assert (∀ x, npred info' x = Z.of_nat (length (open_edges (P ++ R) x))) as Hn' by (intros x; rewrite Hnp, Hn; lia).
  split; try done.
  - apply NoDup_app. split; [done|]. split; [|done]. intros x Hx Hxn. by apply (Hfresh x).
  - intros x [Hx|Hx]%elem_of_app; [by apply (or_nodes _ _ _ Ho)|]. apply HL. by apply Hin.
  - intros x. by rewrite Hsucc, (or_succ _ _ _ Ho).
  - intros x. by rewrite Hdom, (or_dom _ _ _ Ho).
  - intros x Hx. rewrite Hn', elem_of_app, (or_ready _ _ _ Ho), Hin, HcL by done. rewrite Hn. lia.
  - intros p n He [Hp|HR]%elem_of_app; [by apply before_app, (or_before _ _ _ Ho)|].
    apply before_later; [|done]. by eapply ready_preds.
Qed.

(** The loop ends, with what can be put out. *)
Lemma order_loop_spec fuel P R info :
  ordering P R info → length nodes < fuel + length P →
  ∃ out info', order_loop fuel info R P = Some out ∧ ordering out [] info'.
Proof.
  revert P R info. induction fuel as [|fuel IH]; intros P R info Ho Hfuel.
  { assert (length (P ++ R) ≤ length nodes) as Hle.
    { apply submseteq_length, NoDup_submseteq; [apply Ho|]. intros x. apply (or_nodes _ _ _ Ho). }
    rewrite length_app in Hle. lia. }
  simpl. destruct R as [|r R]; [by exists P, info|].
  pose proof (ordering_step P (r :: R) info Ho) as Hs. destruct (release_group info (r :: R)) as [info' R']. simpl in Hs.
  apply IH in Hs; [done|]. rewrite length_app. simpl. lia.
Qed.

(** Nodes that all wait for one another *)
Definition deadlock (S : list nat) : Prop :=
  S ≠ [] ∧ (∀ n, n ∈ S → n ∈ nodes) ∧ ∀ n, n ∈ S → ∃ p, p ∈ S ∧ (p, n) ∈ E.

Lemma ordered_no_deadlock out S :
  NoDup out → (∀ n, n ∈ nodes → n ∈ out) → (∀ p n, (p, n) ∈ E → before out p n) → ¬ deadlock S.
Proof.
  intros Hnd Hall Hb (Hne & HS & Hd).
  cut (∀ k n, n ∈ S → ∀ l1 l2, out = l1 ++ n :: l2 → length l1 < k → False).
  { intros Hk. destruct S as [|n S]; [done|]. assert (n ∈ out) as (l1 & l2 & Hout)%list_elem_of_split
      by (apply Hall, HS; left). eapply (Hk (Datatypes.S (length l1)) n); [left|done|lia]. }
  induction k as [|k IH]; intros n Hn l1 l2 Hout Hk; [lia|].
  destruct (Hd n Hn) as (p & Hp & He). destruct (Hb p n He) as (m1 & m2 & Hout' & Hm).
  assert (m1 = l1) as ->.
  { subst out. apply (NoDup_split_unique n m1 m2 l1 l2); congruence. }
  apply list_elem_of_split in Hm as (a & b & ->). eapply (IH p Hp a (b ++ n :: l2)); [|rewrite length_app in Hk; simpl in Hk; lia].
  rewrite Hout, <- app_assoc. done.
Qed.
End loop.

(** order puts every node after those it waits for, and fails exactly when
    some nodes wait for one another. *)
Lemma order_spec t E :
  represents t E E →
  (∃ out, order t = Some (Ok out) ∧ out ≡ₚ ts_added t ∧ ∀ p n, (p, n) ∈ E → before out p n) ∨
  (∃ x S, order t = Some (Err x) ∧ deadlock (ts_added t) E S).
Proof.
  intros Ht. set (nodes := ts_added t).
  assert (∀ e, e ∈ E → e.1 ∈ nodes ∧ e.2 ∈ nodes) as Hends
    by (intros e He; split; [by apply (rp_ends2 _ _ _ Ht)|by apply (rp_ends1 _ _ _ Ht)]).
  set (R := filter (fun n => npred (ts_info t) n = 0%Z) nodes).
  assert (ordering nodes E [] R (ts_info t)) as Ho.
  { split; simpl.
    - apply NoDup_filter, Ht.
    - intros x Hx. by apply list_elem_of_filter in Hx as [_ Hx].
    - intros x. rewrite (rp_npred _ _ _ Ht). unfold open_edges. do 2 f_equal. apply filter_iff_list. intros e He.
      set_solver.
    - apply (rp_successors _ _ _ Ht).
    - intros x. by rewrite <- (rp_nodes _ _ _ Ht).
    - intros x Hx. unfold R. rewrite list_elem_of_filter. naive_solver.
    - intros p n _ Hn. by apply elem_of_nil in Hn. }
  destruct (order_loop_spec nodes E Hends (2 + length nodes) [] R (ts_info t) Ho ltac:(simpl; lia)) as (out & info & Hl & Hend).
  unfold order. fold nodes R. rewrite Hl. simpl.
  pose proof (or_nodup _ _ _ _ _ Hend) as Hnd. rewrite app_nil_r in Hnd.
  assert (out ⊆+ nodes) as Hsub.
  { apply NoDup_submseteq; [done|]. intros x Hx. apply (or_nodes _ _ _ _ _ Hend). set_solver. }
  case_bool_decide as Hlen.
  - left. exists out. split; [done|].
    assert (out ≡ₚ nodes) as Hp by (apply submseteq_length_Permutation; [done|lia]). split; [done|].
    intros p n He. apply (or_before _ _ _ _ _ Hend p n He). rewrite Hp. by apply (Hends (p, n)).
  - right. eexists _, (filter (fun n => n ∉ out) nodes). split; [done|]. split_and!.
    + intros Hnil. apply Hlen. apply Permutation_length, (anti_symm submseteq); [done|].
      apply NoDup_submseteq; [apply Ht|]. intros x Hx. destruct (decide (x ∈ out)) as [?|Hx']; [done|].
      by destruct (filter_nil_not_elem_of _ _ x Hnil Hx').
    + intros n Hn. by apply list_elem_of_filter in Hn as [_ Hn].
    + intros n [Hn Hnn]%list_elem_of_filter.
      assert (npred info n ≠ 0%Z) as Hz by (rewrite <- (or_ready _ _ _ _ _ Hend) by done; by rewrite app_nil_r).
      rewrite (or_npred _ _ _ _ _ Hend) in Hz. destruct (open_edges E out n) as [|[p n'] l] eqn:Hopen; [done|].
      assert ((p, n') ∈ open_edges E out n) as Hin by (rewrite Hopen; left). unfold open_edges in Hin.
      apply list_elem_of_filter in Hin as [[Heq Hp] He]. simpl in Heq, Hp. subst n'. exists p. split; [|done].
      apply list_elem_of_filter. split; [done|]. by apply (Hends (p, n)).
Qed.
