(* ===== verification/AutoDeps.v ===== *)
(** * Generated operations and what they wait for:
    internal/autodetector/autodetector.go

    The dependencies of an operation, the comparison of field definitions,
    and the state of an Autodetector. *)

From S2P Require Import Prelude GoStd Keys Errors Fields Index ModelState Apps ProjectState Operation SchemaEditor.
From S2P Require Import Effects Migration.

(** ** Dependencies *)

(** modelDepType, fieldDepType *)
Inductive modelDepType := modelCreated | modelDeleted.
Inductive fieldDepType := fieldCreated | fieldRemoved | fieldAltered | uniqueTogetherAltered | indexOrConstraintRemoved.

(** opDep: a modelDep or a fieldDep *)
Inductive opDep :=
| modelDep (App Model : string) (type : modelDepType)
| fieldDep (App Model field : string) (type : fieldDepType).

#[export] Instance modelDepType_eq_dec : EqDecision modelDepType.
Proof. solve_decision. Defined.
#[export] Instance fieldDepType_eq_dec : EqDecision fieldDepType.
Proof. solve_decision. Defined.
#[export] Instance opDep_eq_dec : EqDecision opDep.
Proof. solve_decision. Defined.

Definition dep_app (d : opDep) : string := match d with modelDep a _ _ | fieldDep a _ _ _ => a end.

(** modelDep.satisfiedBy, fieldDep.satisfiedBy *)
Definition satisfiedBy (d : opDep) (op : Operation) : bool :=
  match d with
  | modelDep _ m modelCreated => match op with CreateModel n _ _ _ => EqualFold n m | _ => false end
  | modelDep _ m modelDeleted => match op with DeleteModel n => EqualFold n m | _ => false end
  | fieldDep _ m f fieldCreated =>
      match op with
      | CreateModel n _ fields _ => EqualFold n m && bool_decide (is_Some (Fields_Index fields f))
      | AddField m' n _ _ => EqualFold m' m && EqualFold n f
      | _ => false
      end
  | fieldDep _ m f fieldRemoved =>
      match op with RemoveField m' n => EqualFold m' m && EqualFold n f | _ => false end
  | fieldDep _ m f fieldAltered =>
      match op with AlterField m' n _ _ => EqualFold m' m && EqualFold n f | _ => false end
  | fieldDep _ m _ uniqueTogetherAltered =>
      match op with AlterUniqueTogether n _ => EqualFold n m | _ => false end
  | fieldDep _ m _ indexOrConstraintRemoved =>
      match op with RemoveIndex m' _ | RemoveConstraint m' _ => EqualFold m' m | _ => false end
  end.

(** genOp *)
Record genOp := mkGenOp { go_op : Operation; go_deps : list opDep }.

(** dependenciesForForeignKey, on a field that is one *)
Definition created (k : ModelKey) : opDep := modelDep (mk_App k) (mk_Model k) modelCreated.
Definition dependenciesForForeignKey (app : string) (f : Field) : outcome (list opDep) :=
  fk ← deref (fld_ForeignKey f); Ok [created (Target fk app)].

(** dependenciesForConstraint *)
Definition dependenciesForConstraint (app : string) (c : Constraint) : list opDep :=
  match c with CForeignKey fk => [created (fkc_Target fk app)] | _ => [] end.

(** The dependencies of a list of fields on the models they point at *)
Definition relation_dependencies (app : string) (fs : Fields) : list opDep :=
  omap (fun f => (fun fk => created (Target fk app)) <$> fld_ForeignKey (nf_Field f)) fs.

(** dedupDeps *)
Fixpoint dedup_from (seen deps : list opDep) : list opDep :=
  match deps with
  | [] => []
  | d :: rest => if bool_decide (d ∈ seen) then dedup_from seen rest else d :: dedup_from (d :: seen) rest
  end.
Definition dedupDeps (deps : list opDep) : list opDep := dedup_from [] deps.

(** ** Keys *)

(** fieldKey *)
Record fieldKey := mkFieldKey { fk_App : string; fk_Model : string; fk_Field : string }.

#[export] Instance fieldKey_eq_dec : EqDecision fieldKey.
Proof. solve_decision. Defined.
#[export] Instance fieldKey_countable : Countable fieldKey.
Proof.
  apply (inj_countable' (fun k => (fk_App k, fk_Model k, fk_Field k)) (fun '(a, m, f) => mkFieldKey a m f)). by intros [].
Defined.

(** sortFieldKeys *)
Definition compare_field_keys (a b : fieldKey) : comparison :=
  match String.compare (fk_App a) (fk_App b) with
  | Eq => match String.compare (fk_Model a) (fk_Model b) with
          | Eq => String.compare (fk_Field a) (fk_Field b)
          | c => c
          end
  | c => c
  end.
Definition field_key_le (a b : fieldKey) : Prop := compare_field_keys a b ≠ Gt.
#[export] Instance field_key_le_dec a b : Decision (field_key_le a b).
Proof. unfold field_key_le. apply _. Defined.
Definition sortFieldKeys (keys : list fieldKey) : list fieldKey := merge_sort field_key_le keys.

(** keySet.sorted; difference, intersect and union are those of gset. *)
Definition keys_sorted (s : gset ModelKey) : list ModelKey := sortKeys (elements s).

(** fieldKeysMinus, fieldKeysAnd *)
Definition fieldKeysMinus (a b : gset fieldKey) : list fieldKey := sortFieldKeys (elements (a ∖ b)).
Definition fieldKeysAnd (a b : gset fieldKey) : list fieldKey := sortFieldKeys (elements (a ∩ b)).

(** ** Definitions of fields *)

(** qualifyRelationTarget *)
Definition qualify_value (app : string) (v : KVValue) : KVValue :=
  match v with
  | VForeignKey fk => if ContainsByte (fk_To fk) dot then v else VForeignKey (fk_set_To (app +:+ "." +:+ fk_To fk) fk)
  | _ => v
  end.
Definition qualifyRelationTarget (dec : list KV) (app : string) : list KV :=
  map (fun kv => mkKV (kv_Key kv) (qualify_value app (kv_Value kv))) dec.

(** deconstructWithoutTo *)
Definition without_to (v : KVValue) : KVValue :=
  match v with VForeignKey fk => VForeignKey (fk_set_To "" fk) | _ => v end.
Definition deconstructWithoutTo (f : Field) : list KV :=
  map (fun kv => mkKV (kv_Key kv) (without_to (kv_Value kv))) (Deconstruct f).

(** onlyRelationAgnosticFields *)
Definition onlyRelationAgnosticFields (fs : Fields) : list (list KV) :=
  map (fun f => deconstructWithoutTo (nf_Field f)) (sort_fields fs).

(** kvEqual, fieldDefsEqual *)
Definition kv_same (x y : KV) : bool :=
  bool_decide (kv_Key x = kv_Key y) &&
  match kv_Value x, kv_Value y with
  | VTypeRef a, VTypeRef b => bool_decide (TypeRef_String (Some a) = TypeRef_String (Some b))
  | a, b => DeepEqual a b
  end.
Definition kvEqual (a b : list KV) : bool := all_pairs kv_same a b.
Definition fieldDefsEqual (a b : list (list KV)) : bool := all_pairs kvEqual a b.

(** boolPtrEqual *)
Definition boolPtrEqual (a b : option bool) : bool :=
  match a, b with
  | None, None => true
  | Some x, Some y => Bool.eqb x y
  | _, _ => false
  end.

(** ** The state of an Autodetector, without the two project states it
    compares and what it computes from them once *)

(** renamedOp, alteredIndexes with its renamedIndex, alteredConstraints *)
Record renamedOp := mkRenamedOp { ro_rem : fieldKey; ro_new : fieldKey; ro_field : Field }.
Record alteredIndexes := mkAlteredIndexes {
  ai_key : ModelKey; ai_added : list Index; ai_removed : list Index; ai_renamed : list (string * string)
}.
Record alteredConstraints := mkAlteredConstraints {
  ac_key : ModelKey; ac_added : list Constraint; ac_removed : list Constraint; ac_altered : list Constraint
}.

Record Autodetector (Q : Type) := mkAutodetector {
  ad_q : Q;
  ad_generated : gmap string (list genOp);
  ad_generatedApps : list string;
  ad_oldModelKeys : gset ModelKey;
  ad_oldFieldKeys : gset fieldKey;
  ad_newFieldKeys : gset fieldKey;
  (** New key to old model name *)
  ad_renamedModels : gmap ModelKey string;
  (** "app.old" to "app.new" *)
  ad_renamedModelsRel : gmap string string;
  (** New field key to old field name *)
  ad_renamedFields : gmap fieldKey string;
  ad_renamedOps : list renamedOp;
  ad_altIndexes : list alteredIndexes;
  ad_altConstraints : list alteredConstraints;
  ad_migrations : gmap string (list Migration);
  ad_migrationApps : list string;
}.
Arguments mkAutodetector {Q}. Arguments ad_q {Q}. Arguments ad_generated {Q}. Arguments ad_generatedApps {Q}.
Arguments ad_oldModelKeys {Q}. Arguments ad_oldFieldKeys {Q}. Arguments ad_newFieldKeys {Q}.
Arguments ad_renamedModels {Q}. Arguments ad_renamedModelsRel {Q}. Arguments ad_renamedFields {Q}.
Arguments ad_renamedOps {Q}. Arguments ad_altIndexes {Q}. Arguments ad_altConstraints {Q}.
Arguments ad_migrations {Q}. Arguments ad_migrationApps {Q}.

Section setters.
Context {Q : Type}.
Implicit Types (a : Autodetector Q).
Definition ad_set_q (v : Q) a : Autodetector Q :=
  mkAutodetector v (ad_generated a) (ad_generatedApps a) (ad_oldModelKeys a) (ad_oldFieldKeys a) (ad_newFieldKeys a)
    (ad_renamedModels a) (ad_renamedModelsRel a) (ad_renamedFields a) (ad_renamedOps a) (ad_altIndexes a) (ad_altConstraints a)
    (ad_migrations a) (ad_migrationApps a).
Definition ad_set_generated (g : gmap string (list genOp)) (apps : list string) a : Autodetector Q :=
  mkAutodetector (ad_q a) g apps (ad_oldModelKeys a) (ad_oldFieldKeys a) (ad_newFieldKeys a)
    (ad_renamedModels a) (ad_renamedModelsRel a) (ad_renamedFields a) (ad_renamedOps a) (ad_altIndexes a) (ad_altConstraints a)
    (ad_migrations a) (ad_migrationApps a).
Definition ad_set_oldModelKeys (v : gset ModelKey) a : Autodetector Q :=
  mkAutodetector (ad_q a) (ad_generated a) (ad_generatedApps a) v (ad_oldFieldKeys a) (ad_newFieldKeys a)
    (ad_renamedModels a) (ad_renamedModelsRel a) (ad_renamedFields a) (ad_renamedOps a) (ad_altIndexes a) (ad_altConstraints a)
    (ad_migrations a) (ad_migrationApps a).
Definition ad_set_fieldKeys (old new : gset fieldKey) a : Autodetector Q :=
  mkAutodetector (ad_q a) (ad_generated a) (ad_generatedApps a) (ad_oldModelKeys a) old new
    (ad_renamedModels a) (ad_renamedModelsRel a) (ad_renamedFields a) (ad_renamedOps a) (ad_altIndexes a) (ad_altConstraints a)
    (ad_migrations a) (ad_migrationApps a).
Definition ad_set_renamedModels (models : gmap ModelKey string) (rel : gmap string string) a : Autodetector Q :=
  mkAutodetector (ad_q a) (ad_generated a) (ad_generatedApps a) (ad_oldModelKeys a) (ad_oldFieldKeys a) (ad_newFieldKeys a)
    models rel (ad_renamedFields a) (ad_renamedOps a) (ad_altIndexes a) (ad_altConstraints a)
    (ad_migrations a) (ad_migrationApps a).
Definition ad_set_renamedFields (fields : gmap fieldKey string) (ops : list renamedOp) a : Autodetector Q :=
  mkAutodetector (ad_q a) (ad_generated a) (ad_generatedApps a) (ad_oldModelKeys a) (ad_oldFieldKeys a) (ad_newFieldKeys a)
    (ad_renamedModels a) (ad_renamedModelsRel a) fields ops (ad_altIndexes a) (ad_altConstraints a)
    (ad_migrations a) (ad_migrationApps a).
Definition ad_set_altIndexes (v : list alteredIndexes) a : Autodetector Q :=
  mkAutodetector (ad_q a) (ad_generated a) (ad_generatedApps a) (ad_oldModelKeys a) (ad_oldFieldKeys a) (ad_newFieldKeys a)
    (ad_renamedModels a) (ad_renamedModelsRel a) (ad_renamedFields a) (ad_renamedOps a) v (ad_altConstraints a)
    (ad_migrations a) (ad_migrationApps a).
Definition ad_set_altConstraints (v : list alteredConstraints) a : Autodetector Q :=
  mkAutodetector (ad_q a) (ad_generated a) (ad_generatedApps a) (ad_oldModelKeys a) (ad_oldFieldKeys a) (ad_newFieldKeys a)
    (ad_renamedModels a) (ad_renamedModelsRel a) (ad_renamedFields a) (ad_renamedOps a) (ad_altIndexes a) v
    (ad_migrations a) (ad_migrationApps a).

Definition ad_set_migrations (v : gmap string (list Migration)) (apps : list string) a : Autodetector Q :=
  mkAutodetector (ad_q a) (ad_generated a) (ad_generatedApps a) (ad_oldModelKeys a) (ad_oldFieldKeys a) (ad_newFieldKeys a)
    (ad_renamedModels a) (ad_renamedModelsRel a) (ad_renamedFields a) (ad_renamedOps a) (ad_altIndexes a) (ad_altConstraints a)
    v apps.

(** New, for the answers of q *)
Definition Autodetector_New (q : Q) : Autodetector Q := mkAutodetector q ∅ [] ∅ ∅ ∅ ∅ ∅ ∅ [] [] [] ∅ [].

(** addOperation *)
Definition addOperation (app : string) (op : Operation) (deps : list opDep) (beginning : bool) : io (Autodetector Q) unit :=
  modify (fun a =>
    let g := mkGenOp op deps in
    let ops := default [] (ad_generated a !! app) in
    ad_set_generated (<[app := if beginning then g :: ops else ops ++ [g]]> (ad_generated a))
      (if bool_decide (is_Some (ad_generated a !! app)) then ad_generatedApps a else ad_generatedApps a ++ [app]) a).
End setters.
