(* ===== verification/DetectModels.v ===== *)
(** * What changed between two states, model by model:
    internal/autodetector/autodetector.go

    The sets of model keys an Autodetector compares, and the steps of
    detectChanges that rename, delete, create and re-describe whole models.
    Each step is a computation on the state of the Autodetector. *)

From S2P Require Import Prelude GoStd Keys Errors Fields Index ModelState Apps ProjectState Operation SchemaEditor.
From S2P Require Import Effects Migration Questioner AutoDeps.

(** The two states compared, and the apps being turned into migrated ones:
    the fields [from] and [to] of an Autodetector and the convertApps of one
    detection. *)
Class Comparison := mkComparison { from : ProjectState; to : ProjectState; convertApps : list string }.

Section detect.
Context {Q : Type} `{!Questioner Q} `{!Comparison}.
Local Abbreviation auto := (io (Autodetector Q)).

(** A question, put to the questioner *)
Definition ask {A} (m : io Q A) : auto A := zoom ad_q ad_set_q m.

(** ** The keys compared *)

Definition realApp (app : string) : bool := default false (ps_RealApps from !! app).
Definition keys_where (P : ModelKey → ModelState → bool) (s : ProjectState) : gset ModelKey :=
  dom (filter (fun p => P p.1 p.2 = true) (ps_Models s)).

(** oldModelKeys as detectChanges sets it; generateRenamedModels changes it *)
Definition first_oldModelKeys : gset ModelKey :=
  keys_where (fun k ms => IsManaged (ms_Options ms) && negb (realApp (mk_App k))) from.
Definition oldUnmanagedKeys : gset ModelKey := keys_where (fun _ ms => negb (IsManaged (ms_Options ms))) from.
Definition newModelKeys : gset ModelKey :=
  keys_where (fun k ms => IsManaged (ms_Options ms) &&
                          (negb (realApp (mk_App k)) || bool_decide (mk_App k ∈ convertApps))) to.
Definition newUnmanagedKeys : gset ModelKey := keys_where (fun _ ms => negb (IsManaged (ms_Options ms))) to.

(** keptModelKeys and keptUnmanaged: prepareFieldLists computes them after
    the last change of oldModelKeys. *)
Definition keptModelKeys (a : Autodetector Q) : gset ModelKey := ad_oldModelKeys a ∩ newModelKeys.
Definition keptUnmanaged : gset ModelKey := oldUnmanagedKeys ∩ newUnmanagedKeys.

(** ** Models before and after *)

Definition old_model (k : ModelKey) : outcome ModelState := deref (ps_Models from !! k).
Definition new_model (k : ModelKey) : outcome ModelState := deref (ps_Models to !! k).

(** oldName, oldState *)
Definition oldName (a : Autodetector Q) (k : ModelKey) : string := default (mk_Model k) (ad_renamedModels a !! k).
Definition oldState (a : Autodetector Q) (k : ModelKey) : outcome ModelState :=
  old_model (mkModelKey (mk_App k) (oldName a k)).

(** referencingFields *)
Definition referencingFields (s : ProjectState) (k : ModelKey) : list FieldReference := GetReferences s k "".

(** dependenciesForModel *)
Definition dependenciesForModel (k : ModelKey) : outcome (list opDep) :=
  ms ← new_model k; Ok (relation_dependencies (mk_App k) (ms_Fields ms)).

(** prepareFieldLists *)
Definition field_keys (k : ModelKey) (ms : ModelState) : gset fieldKey :=
  list_to_set (map (fun f => mkFieldKey (mk_App k) (mk_Model k) (nf_Name f)) (ms_Fields ms)).
Definition add_field_keys (a : Autodetector Q) (acc : gset fieldKey * gset fieldKey) (k : ModelKey)
    : outcome (gset fieldKey * gset fieldKey) :=
  old ← oldState a k;
  new ← new_model k;
  Ok (acc.1 ∪ field_keys k old, acc.2 ∪ field_keys k new).
Definition prepareFieldLists : auto unit :=
  a ← get_state;
  keys ← lift (foldM (add_field_keys a) (∅, ∅) (elements (keptModelKeys a)));
  modify (ad_set_fieldKeys keys.1 keys.2).

(** ** Renamed models *)

(** The inner loop of generateRenamedModels, over the models that are gone *)
Definition rename_dependencies (k : ModelKey) (ms : ModelState) : list opDep :=
  relation_dependencies (mk_App k) (ms_Fields ms) ++ map (fun r => created (fr_Model r)) (referencingFields to k).
Definition record_renamed_model (k rk : ModelKey) (ms rms : ModelState) (a : Autodetector Q) : Autodetector Q :=
  ad_set_oldModelKeys ({[k]} ∪ (ad_oldModelKeys a ∖ {[rk]}))
    (ad_set_renamedModels (<[k := mk_Model rk]> (ad_renamedModels a))
       (<[ms_App rms +:+ "." +:+ NameLower rms := ms_App ms +:+ "." +:+ NameLower ms]> (ad_renamedModelsRel a)) a).

Fixpoint rename_to (k : ModelKey) (ms : ModelState) (gone : list ModelKey) : auto unit :=
  match gone with
  | [] => mret tt
  | rk :: gone =>
      if negb (bool_decide (mk_App rk = mk_App k)) then rename_to k ms gone
      else
        rms ← lift (old_model rk);
        if negb (fieldDefsEqual (onlyRelationAgnosticFields (ms_Fields ms)) (onlyRelationAgnosticFields (ms_Fields rms)))
        then rename_to k ms gone
        else
          ok ← ask (AskRenameModel rms ms);
          if negb ok then rename_to k ms gone
          else
            _ ← addOperation (mk_App k) (RenameModel (ms_Name rms) (ms_Name ms)) (rename_dependencies k ms) false;
            modify (record_renamed_model k rk ms rms)
  end.

(** generateRenamedModels *)
Definition generateRenamedModels : auto unit :=
  _ ← modify (ad_set_renamedModels ∅ ∅);
  a ← get_state;
  for_io (keys_sorted (newModelKeys ∖ ad_oldModelKeys a)) (fun k =>
    ms ← lift (new_model k);
    a ← get_state;
    rename_to k ms (keys_sorted (ad_oldModelKeys a ∖ newModelKeys))).

(** ** Created models *)

(** The relations of a model that are added after it, by field name; a key
    of the primary key stays in CreateModel. *)
Definition related_fields (fs : Fields) : gmap string Field :=
  foldl (fun m f => if IsRelation (nf_Field f) && negb (fld_PrimaryKey (nf_Field f))
                    then <[nf_Name f := nf_Field f]> m else m) ∅ fs.
Definition pk_relations (app : string) (fs : Fields) : list ModelKey :=
  omap (fun f => match fld_ForeignKey (nf_Field f) with
                 | Some fk => if fld_PrimaryKey (nf_Field f) then Some (Target fk app) else None
                 | None => None
                 end) fs.

Definition without_indexes (o : Options) : Options :=
  opt_set_UniqueTogether [] (opt_set_Constraints [] (opt_set_Indexes [] (Options_Clone o))).

(** The operation that creates a model, and what it waits for *)
Definition create_operation (ms : ModelState) : Operation :=
  CreateModel (ms_Name ms) (ms_Table ms)
    (map (fun f => mkNamedField (nf_Name f) (Field_Clone (nf_Field f)))
       (filter (fun f => related_fields (ms_Fields ms) !! nf_Name f = None) (ms_Fields ms)))
    (without_indexes (ms_Options ms)).
Definition create_dependencies (k : ModelKey) (ms : ModelState) : list opDep :=
  modelDep (mk_App k) (mk_Model k) modelDeleted :: map created (pk_relations (mk_App k) (ms_Fields ms)).

(** What follows the creation of a managed model: its relations, its
    indexes, its constraints and its unique_together *)
Definition add_related (k : ModelKey) (related : gmap string Field) (name : string) : auto unit :=
  let f := default zero_Field (related !! name) in
  d ← lift (dependenciesForForeignKey (mk_App k) f);
  addOperation (mk_App k) (AddField (mk_Model k) name (Field_Clone f) None) (d ++ [created k]) false.

Definition related_dependencies (k : ModelKey) (names : list string) : list opDep :=
  map (fun name => fieldDep (mk_App k) (mk_Model k) name fieldCreated) names ++ [created k].

Definition complete_model (k : ModelKey) (ms : ModelState) : auto unit :=
  let opts := Options_Clone (ms_Options ms) in
  let related := related_fields (ms_Fields ms) in
  let names := sort_strings (map fst (map_to_list related)) in
  let deps := related_dependencies k names in
  _ ← for_io names (add_related k related);
  _ ← for_io (opt_Indexes opts) (fun ix => addOperation (mk_App k) (AddIndex (mk_Model k) ix) deps false);
  _ ← for_io (opt_Constraints opts) (fun c =>
        addOperation (mk_App k) (AddConstraint (mk_Model k) c) (deps ++ dependenciesForConstraint (mk_App k) c) false);
  if bool_decide (opt_UniqueTogether opts = []) then mret tt
  else addOperation (mk_App k) (AlterUniqueTogether (mk_Model k) (opt_UniqueTogether opts)) deps false.

Definition create_model (k : ModelKey) : auto unit :=
  ms ← lift (new_model k);
  _ ← addOperation (mk_App k) (create_operation ms) (create_dependencies k ms) true;
  if negb (IsManaged (ms_Options ms)) then mret tt else complete_model k ms.

(** generateCreatedModels *)
Definition generateCreatedModels : auto unit :=
  a ← get_state;
  let oldKeys := ad_oldModelKeys a ∪ oldUnmanagedKeys in
  for_io (reverse (keys_sorted (newModelKeys ∖ oldKeys)) ++ reverse (keys_sorted (newUnmanagedKeys ∖ oldKeys))) create_model.

(** ** Deleted models *)

Definition delete_dependencies (k : ModelKey) (related : list string) : list opDep :=
  concat (map (fun r => [fieldDep (mk_App (fr_Model r)) (mk_Model (fr_Model r)) (fr_Name r) fieldRemoved;
                         fieldDep (mk_App (fr_Model r)) (mk_Model (fr_Model r)) (fr_Name r) fieldAltered])
              (referencingFields from k)) ++
  map (fun name => fieldDep (mk_App k) (mk_Model k) name fieldRemoved) related.

Definition relation_names (fs : Fields) : list string :=
  sort_strings (map nf_Name (filter (fun f => IsRelation (nf_Field f) = true) fs)).

Definition delete_model (k : ModelKey) : auto unit :=
  ms ← lift (old_model k);
  let app := mk_App k in
  let opts := ms_Options ms in
  let related := relation_names (ms_Fields ms) in
  _ ← (if bool_decide (opt_UniqueTogether opts = []) then mret tt
       else addOperation app (AlterUniqueTogether (mk_Model k) []) [] false);
  _ ← for_io (opt_Indexes opts) (fun ix => addOperation app (RemoveIndex (mk_Model k) (ix_Name ix)) [] false);
  _ ← for_io (opt_Constraints opts) (fun c => addOperation app (RemoveConstraint (mk_Model k) (ConstraintName c)) [] false);
  _ ← for_io related (fun name =>
        addOperation app (RemoveField (mk_Model k) name) [fieldDep app (mk_Model k) name indexOrConstraintRemoved] false);
  addOperation app (DeleteModel (ms_Name ms)) (dedupDeps (delete_dependencies k related)) false.

(** generateDeletedModels *)
Definition generateDeletedModels : auto unit :=
  a ← get_state;
  let newKeys := newModelKeys ∪ newUnmanagedKeys in
  for_io (keys_sorted (ad_oldModelKeys a ∖ newKeys) ++ keys_sorted (oldUnmanagedKeys ∖ newKeys)) delete_model.

(** ** Changed descriptions of a model *)

(** For every key: an operation when the two states of the model call for it *)
Definition compare_models (keys : Autodetector Q → gset ModelKey) (change : ModelKey → ModelState → ModelState → option Operation)
    : auto unit :=
  a ← get_state;
  for_io (keys_sorted (keys a)) (fun k =>
    old ← lift (oldState a k);
    new ← lift (new_model k);
    match change k old new with
    | Some op => addOperation (mk_App k) op [] false
    | None => mret tt
    end).

(** generateAlteredDBTable *)
Definition generateAlteredDBTable : auto unit :=
  compare_models (fun a => keptModelKeys a ∪ keptUnmanaged) (fun k old new =>
    if bool_decide (ms_Table old = ms_Table new) then None else Some (AlterModelTable (mk_Model k) (ms_Table new))).

(** generateAlteredDBTableComment *)
Definition generateAlteredDBTableComment : auto unit :=
  compare_models (fun a => keptModelKeys a ∪ keptUnmanaged) (fun k old new =>
    let comment := opt_DBTableComment (ms_Options new) in
    if bool_decide (opt_DBTableComment (ms_Options old) = comment) then None
    else Some (AlterModelTableComment (mk_Model k) comment)).

(** generateAlteredOptions *)
Definition generateAlteredOptions : auto unit :=
  compare_models (fun a => keptModelKeys a ∪ keptUnmanaged ∪ (oldUnmanagedKeys ∩ newModelKeys)
                           ∪ (ad_oldModelKeys a ∩ newUnmanagedKeys)) (fun k old new =>
    let managed := opt_Managed (ms_Options new) in
    if boolPtrEqual (opt_Managed (ms_Options old)) managed then None else Some (AlterModelOptions (mk_Model k) managed)).
End detect.
