(* ===== verification/DetectFields.v ===== *)
(** * What changed between two states, inside the models:
    internal/autodetector/autodetector.go

    The steps of detectChanges that rename, remove, add and alter fields,
    indexes, constraints and unique_together, and all the steps in order. *)

From S2P Require Import Prelude GoStd Keys Errors Fields Index ModelState Apps ProjectState Operation SchemaEditor.
From S2P Require Import Effects Migration Questioner AutoDeps DetectModels.

(** ** Callable defaults *)

(** identPath: identifiers joined by dots. [start] is true where an
    identifier begins. *)
Definition letter (c : ascii) : bool := byte_is_upper c || byte_is_lower c || bool_decide (c = "_"%char).
Fixpoint identPath (start : bool) (s : string) : bool :=
  match s with
  | EmptyString => negb start
  | String c s => if start then letter c && identPath false s
                  else (word_char c && identPath false s) || (bool_decide (c = dot) && identPath true s)
  end.

(** isCallableDefault *)
Definition isCallableDefault (v : option any) : outcome bool :=
  match v with
  | None => Ok false
  | Some (AnyGoExpr src) =>
      Ok (identPath true src && negb (bool_decide (src ∈ ["nil"; "true"; "false"])))
  | Some (AnyFunc _) => Ok true
  | Some v => if bool_decide (v = nil_GoExpr) then Panic nil_dereference else Ok false
  end.

(** ** Indexes, constraints and unique_together of one model *)

(** indexIgnoringName, containsIndex *)
Definition indexIgnoringName (ix : Index) : Index := ix_set_Name "" (Index_Clone ix).
Definition containsIndex (l : list Index) (ix : Index) : bool := existsb (fun x => Index_Equal x ix) l.

(** The body of createAlteredIndexes *)
Definition same_but_name (nix oix : Index) : bool :=
  Index_Equal (indexIgnoringName nix) (indexIgnoringName oix) && negb (bool_decide (ix_Name nix = ix_Name oix)).
Definition index_changes (k : ModelKey) (oldIx newIx : list Index) : alteredIndexes :=
  let added := filter (fun ix => containsIndex oldIx ix = false) newIx in
  let removed := filter (fun ix => containsIndex newIx ix = false) oldIx in
  let pairs := filter (fun p => same_but_name p.1 p.2 = true) (list_prod added removed) in
  mkAlteredIndexes k
    (filter (fun ix => containsIndex (map fst pairs) ix = false) added)
    (filter (fun ix => containsIndex (map snd pairs) ix = false) removed)
    (map (fun p => (ix_Name p.2, ix_Name p.1)) pairs).

(** containsConstraint *)
Definition containsConstraint (l : list Constraint) (c : Constraint) : bool := existsb (fun x => ConstraintEqual x c) l.

(** The body of createAlteredConstraints *)
Definition altered_pair (oc nc : Constraint) : bool :=
  negb (ConstraintEqual oc nc) && bool_decide (ConstraintName oc = ConstraintName nc) && ConstraintEqualIgnoringNonDB oc nc.
Definition constraint_changes (k : ModelKey) (oldC newC : list Constraint) : alteredConstraints :=
  let altered := map snd (filter (fun p => altered_pair p.1 p.2 = true) (list_prod oldC newC)) in
  let kept c := bool_decide (ConstraintName c ∈ map ConstraintName altered) in
  mkAlteredConstraints k
    (filter (fun c => containsConstraint oldC c = false ∧ kept c = false) newC)
    (filter (fun c => containsConstraint newC c = false ∧ kept c = false) oldC)
    altered.

(** togetherToSet, setIntersect, setEqual, setToTogether: a set of lists of
    names, keyed by the names joined with a zero byte *)
Definition together_key (t : list string) : string := Join t (String (ascii_of_nat 0) EmptyString).
Definition togetherToSet (t : list (list string)) : gmap string (list string) :=
  foldl (fun s x => <[together_key x := x]> s) ∅ t.
Definition setIntersect (a b : gmap string (list string)) : gmap string (list string) :=
  filter (fun p => is_Some (b !! p.1)) a.
Definition setEqual (a b : gmap string (list string)) : bool :=
  bool_decide (size a = size b) && bool_decide (∀ k, k ∈ dom a → k ∈ dom b).
Definition set_keys (s : gmap string (list string)) : list string := sort_strings (map fst (map_to_list s)).
Definition setToTogether (s : gmap string (list string)) : list (list string) :=
  map (fun k => default [] (s !! k)) (set_keys s).

(** togetherChange *)
Record togetherChange := mkTogetherChange {
  tc_old : gmap string (list string); tc_want : gmap string (list string); tc_key : ModelKey; tc_deps : list opDep
}.
Definition tc_removal (c : togetherChange) : gmap string (list string) := setIntersect (tc_want c) (tc_old c).

Section detect.
Context {Q : Type} `{!Questioner Q} `{!Comparison}.
Local Abbreviation auto := (io (Autodetector Q)).

(** A field that may be missing is the zero Field, as Fields.Get gives it. *)
Definition the_field (ms : ModelState) (name : string) : Field := default zero_Field (Fields_Get (ms_Fields ms) name).
Definition fk_model (k : fieldKey) : ModelKey := mkModelKey (fk_App k) (fk_Model k).

(** ** Renamed fields *)

(** The targets of an old deconstruction, under the new names of models *)
Definition retarget (rel : gmap string string) (dec : list KV) : list KV :=
  map (fun kv => match kv_Value kv with
                 | VForeignKey fk =>
                     if bool_decide (kv_Key kv = AttrForeignKey)
                     then mkKV (kv_Key kv) (VForeignKey (fk_set_To (default (fk_To fk) (rel !! fk_To fk)) fk))
                     else kv
                 | _ => kv
                 end) dec.

Definition old_definition (rel : gmap string string) (app : string) (field oldField : Field) : list KV :=
  let dec := qualifyRelationTarget (Deconstruct oldField) app in
  if IsRelation field then retarget rel dec else dec.

Definition record_renamed_field (nk rk : fieldKey) (field : Field) (a : Autodetector Q) : Autodetector Q :=
  ad_set_renamedFields (<[nk := fk_Field rk]> (ad_renamedFields a)) (ad_renamedOps a ++ [mkRenamedOp rk nk field]) a.

(** The inner loop of createRenamedFields, over the fields that are gone; it
    returns the field keys that count as old afterwards. *)
Fixpoint rename_field_to (nk : fieldKey) (oldMS : outcome ModelState) (field : Field) (oldKeys : gset fieldKey)
    (gone : list fieldKey) : auto (gset fieldKey) :=
  match gone with
  | [] => mret oldKeys
  | rk :: gone =>
      if negb (bool_decide (fk_model rk = fk_model nk)) then rename_field_to nk oldMS field oldKeys gone
      else
        ms ← lift oldMS;
        a ← get_state;
        if negb (kvEqual (old_definition (ad_renamedModelsRel a) (fk_App rk) field (the_field ms (fk_Field rk)))
                         (qualifyRelationTarget (Deconstruct field) (fk_App nk)))
        then rename_field_to nk oldMS field oldKeys gone
        else
          ok ← ask (AskRename (fk_Model nk) (fk_Field rk) (fk_Field nk) field);
          if negb ok then rename_field_to nk oldMS field oldKeys gone
          else
            _ ← modify (record_renamed_field nk rk field);
            mret ({[nk]} ∪ (oldKeys ∖ {[rk]}))
  end.

Definition rename_field (oldKeys : gset fieldKey) (nk : fieldKey) : auto (gset fieldKey) :=
  a ← get_state;
  newMS ← lift (new_model (fk_model nk));
  rename_field_to nk (oldState a (fk_model nk)) (the_field newMS (fk_Field nk)) oldKeys
    (fieldKeysMinus oldKeys (ad_newFieldKeys a)).

(** createRenamedFields *)
Definition createRenamedFields : auto unit :=
  _ ← modify (fun a => ad_set_renamedFields (ad_renamedFields a) [] a);
  a ← get_state;
  _ ← fold_io rename_field (ad_oldFieldKeys a) (fieldKeysMinus (ad_newFieldKeys a) (ad_oldFieldKeys a));
  mret tt.

(** generateRenamedFields *)
Definition generateRenamedFields : auto unit :=
  a ← get_state;
  for_io (ad_renamedOps a) (fun r =>
    _ ← addOperation (fk_App (ro_new r)) (RenameField (fk_Model (ro_new r)) (fk_Field (ro_rem r)) (fk_Field (ro_new r))) [] false;
    modify (fun a => ad_set_fieldKeys ({[ro_new r]} ∪ (ad_oldFieldKeys a ∖ {[ro_rem r]})) (ad_newFieldKeys a) a)).

(** ** Added, removed and altered fields *)

Definition preserveDefault (field : Field) : bool :=
  fld_Null field || HasDefault field || bool_decide (is_Some (fld_DBDefault field)) ||
  (bool_decide (fld_Type field = Time_) && fld_AutoNow field) || fld_AutoIncrement field.

Definition foreign_key_dependencies (app : string) (field : Field) : outcome (list opDep) :=
  if IsRelation field then dependenciesForForeignKey app field else Ok [].

(** The one-off default of a field that cannot do without: the answer is the
    value of an interface, so that a nil answer is not replaced. *)
Definition ask_default (name model : string) (field : Field) : auto Field :=
  def ← ask (if bool_decide (fld_Type field = Time_) && fld_AutoNowAdd field
             then AskAutoNowAddAddition name model else AskNotNullAddition name model);
  mret (fld_set_Default (Some (answer_any def)) (Field_Clone field)).

(** generateAddedField *)
Definition generateAddedField (k : fieldKey) : auto unit :=
  let '(mkFieldKey app model name) := k in
  ms ← lift (new_model (fk_model k));
  let field := the_field ms name in
  fkDeps ← lift (foreign_key_dependencies app field);
  let preserved := preserveDefault field in
  field ← (if preserved then mret field else ask_default name model field);
  callable ← lift (if fld_Unique field && HasDefault field then isCallableDefault (fld_Default field) else Ok false);
  _ ← (if callable : bool then ask (AskUniqueCallableDefaultAddition name model) else mret tt);
  addOperation app (AddField model name field (if preserved then None else Some false))
    (fieldDep app model name fieldRemoved :: fkDeps) false.

(** generateAddedFields *)
Definition generateAddedFields : auto unit :=
  a ← get_state; for_io (fieldKeysMinus (ad_newFieldKeys a) (ad_oldFieldKeys a)) generateAddedField.

(** generateRemovedField *)
Definition generateRemovedField (k : fieldKey) : auto unit :=
  let '(mkFieldKey app model name) := k in
  addOperation app (RemoveField model name)
    [fieldDep app model name uniqueTogetherAltered; fieldDep app model name indexOrConstraintRemoved] false.

(** generateRemovedFields *)
Definition generateRemovedFields : auto unit :=
  a ← get_state; for_io (fieldKeysMinus (ad_oldFieldKeys a) (ad_newFieldKeys a)) generateRemovedField.

(** The new field of generateAlteredFields, its target given the old name
    where the model or the field it points at was only renamed *)
Definition renamed_target (a : Autodetector Q) (app : string) (oldField newField : Field) : Field :=
  match fld_ForeignKey newField, fld_ForeignKey oldField with
  | Some fk, Some oldFk =>
      let key := Target fk app in
      let fk1 := if bool_decide (is_Some (ad_renamedModels a !! key)) then fk_set_To (fk_To oldFk) fk else fk in
      let fk2 := if negb (bool_decide (fk_ToField fk1 = "")) &&
                    bool_decide (is_Some (ad_renamedFields a !! mkFieldKey (mk_App key) (mk_Model key) (fk_ToField fk1)))
                 then fk_set_ToField (fk_ToField oldFk) (fk_set_To (fk_To oldFk) fk1) else fk1 in
      fld_set_ForeignKey (Some fk2) newField
  | _, _ => newField
  end.

(** The one-off default of a field that becomes not null *)
Definition ask_not_null (k : fieldKey) (oldField newField : Field) : auto (Field * option bool) :=
  if fld_Null oldField && negb (fld_Null newField) && negb (HasDefault newField) &&
     negb (bool_decide (is_Some (fld_DBDefault newField)))
  then
    def ← ask (AskNotNullAlteration (fk_Field k) (fk_Model k));
    mret match def with
         | NoDefault => (fld_set_Default (Some (AnyGoExpr "nil")) (Field_Clone newField), Some false)
         | NotProvided => (Field_Clone newField, None)
         | Expr src => (fld_set_Default (Some (AnyGoExpr src)) (Field_Clone newField), Some false)
         end
  else mret (newField, None).

(** The body of generateAlteredFields *)
Definition generateAlteredField (k : fieldKey) : auto unit :=
  let '(mkFieldKey app model name) := k in
  a ← get_state;
  old ← lift (oldState a (fk_model k));
  new ← lift (new_model (fk_model k));
  let oldFieldName := default name (ad_renamedFields a !! k) in
  let oldField := the_field old oldFieldName in
  let newField := renamed_target a app oldField (Field_Clone (the_field new name)) in
  deps ← lift (foreign_key_dependencies app newField);
  if kvEqual (qualifyRelationTarget (Deconstruct oldField) app) (qualifyRelationTarget (Deconstruct newField) app) ||
     negb (bool_decide (oldFieldName = name))
  then mret tt
  else
    r ← ask_not_null k oldField newField;
    addOperation app (AlterField model name r.1 r.2) deps false.

(** generateAlteredFields *)
Definition generateAlteredFields : auto unit :=
  a ← get_state; for_io (fieldKeysAnd (ad_oldFieldKeys a) (ad_newFieldKeys a)) generateAlteredField.

(** ** Indexes *)

(** What changed in every model that was kept *)
Definition compare_kept {C} (change : ModelKey → ModelState → ModelState → C) : auto (list C) :=
  a ← get_state;
  fold_io (fun acc k =>
    old ← lift (oldState a k);
    new ← lift (new_model k);
    mret (acc ++ [change k old new])) [] (keys_sorted (keptModelKeys a)).

(** createAlteredIndexes *)
Definition createAlteredIndexes : auto unit :=
  l ← compare_kept (fun k old new => index_changes k (opt_Indexes (ms_Options old)) (opt_Indexes (ms_Options new)));
  modify (fun a => ad_set_altIndexes (ad_altIndexes a ++ l) a).

(** generateAddedIndexes *)
Definition generateAddedIndexes : auto unit :=
  a ← get_state;
  for_io (ad_altIndexes a) (fun ai =>
    deps ← lift (dependenciesForModel (ai_key ai));
    for_io (ai_added ai) (fun ix => addOperation (mk_App (ai_key ai)) (AddIndex (mk_Model (ai_key ai)) ix) deps false)).

(** generateRemovedIndexes *)
Definition generateRemovedIndexes : auto unit :=
  a ← get_state;
  for_io (ad_altIndexes a) (fun ai =>
    for_io (ai_removed ai) (fun ix =>
      addOperation (mk_App (ai_key ai)) (RemoveIndex (mk_Model (ai_key ai)) (ix_Name ix)) [] false)).

(** generateRenamedIndexes *)
Definition generateRenamedIndexes : auto unit :=
  a ← get_state;
  for_io (ad_altIndexes a) (fun ai =>
    for_io (ai_renamed ai) (fun r =>
      addOperation (mk_App (ai_key ai)) (RenameIndex (mk_Model (ai_key ai)) r.2 r.1) [] false)).

(** ** Constraints *)

(** createAlteredConstraints *)
Definition createAlteredConstraints : auto unit :=
  l ← compare_kept (fun k old new =>
        constraint_changes k (opt_Constraints (ms_Options old)) (opt_Constraints (ms_Options new)));
  modify (fun a => ad_set_altConstraints (ad_altConstraints a ++ l) a).

(** generateAddedConstraints *)
Definition generateAddedConstraints : auto unit :=
  a ← get_state;
  for_io (ad_altConstraints a) (fun ac =>
    deps ← lift (dependenciesForModel (ac_key ac));
    for_io (ac_added ac) (fun c =>
      addOperation (mk_App (ac_key ac)) (AddConstraint (mk_Model (ac_key ac)) c)
        (deps ++ dependenciesForConstraint (mk_App (ac_key ac)) c) false)).

(** generateRemovedConstraints *)
Definition generateRemovedConstraints : auto unit :=
  a ← get_state;
  for_io (ad_altConstraints a) (fun ac =>
    for_io (ac_removed ac) (fun c =>
      addOperation (mk_App (ac_key ac)) (RemoveConstraint (mk_Model (ac_key ac)) (ConstraintName c)) [] false)).

(** generateAlteredConstraints *)
Definition generateAlteredConstraints : auto unit :=
  a ← get_state;
  for_io (ad_altConstraints a) (fun ac =>
    deps ← lift (dependenciesForModel (ac_key ac));
    for_io (ac_altered ac) (fun c =>
      addOperation (mk_App (ac_key ac)) (AlterConstraint (mk_Model (ac_key ac)) (ConstraintName c) c) deps false)).

(** ** unique_together *)

(** renamedFieldByOld *)
Definition renamedFieldByOld (a : Autodetector Q) (k : ModelKey) (n : string) : option string :=
  ad_renamedFields a !! mkFieldKey (mk_App k) (mk_Model k) n.

(** The dependencies of a change: the relations among the fields it names *)
Definition together_dependencies (app : string) (fs : Fields) (want : gmap string (list string)) : list opDep :=
  omap (fun name => f ← Fields_Get fs name; fk ← fld_ForeignKey f; Some (created (Target fk app)))
    (concat (setToTogether want)).

(** alteredUniqueTogether, for one model *)
Definition together_change (a : Autodetector Q) (k : ModelKey) (old new : ModelState) : option togetherChange :=
  let rename n := default n (renamedFieldByOld a k n) in
  let oldVal := togetherToSet (map (map rename) (opt_UniqueTogether (ms_Options old))) in
  let newVal := togetherToSet (opt_UniqueTogether (ms_Options new)) in
  if setEqual oldVal newVal then None
  else Some (mkTogetherChange oldVal newVal k (together_dependencies (mk_App k) (ms_Fields new) newVal)).

(** alteredUniqueTogether *)
Definition alteredUniqueTogether : auto (list togetherChange) :=
  a ← get_state;
  l ← compare_kept (together_change a);
  mret (omap id l).

(** generateRemovedAlteredUniqueTogether *)
Definition generateRemovedAlteredUniqueTogether : auto unit :=
  l ← alteredUniqueTogether;
  for_io l (fun c =>
    if bool_decide (tc_removal c ≠ ∅ ∨ tc_old c ≠ ∅) then
      addOperation (mk_App (tc_key c)) (AlterUniqueTogether (mk_Model (tc_key c)) (setToTogether (tc_removal c))) (tc_deps c) false
    else mret tt).

(** generateAlteredUniqueTogether *)
Definition generateAlteredUniqueTogether : auto unit :=
  l ← alteredUniqueTogether;
  for_io l (fun c =>
    if setEqual (tc_want c) (tc_removal c) then mret tt
    else addOperation (mk_App (tc_key c)) (AlterUniqueTogether (mk_Model (tc_key c)) (setToTogether (tc_want c))) (tc_deps c) false).

(** ** All the steps *)

Definition detection_steps : list (auto unit) := [
  generateRenamedModels; prepareFieldLists; generateDeletedModels; generateCreatedModels; generateAlteredOptions;
  generateAlteredDBTableComment; createRenamedFields; createAlteredIndexes; createAlteredConstraints;
  generateRemovedConstraints; generateRemovedIndexes; generateRenamedFields; generateRenamedIndexes;
  generateRemovedAlteredUniqueTogether; generateRemovedFields; generateAddedFields; generateAlteredFields;
  generateAlteredUniqueTogether; generateAddedIndexes; generateAddedConstraints; generateAlteredConstraints;
  generateAlteredDBTable ].

(** The beginning of detectChanges *)
Definition reset_detection (a : Autodetector Q) : Autodetector Q :=
  ad_set_oldModelKeys first_oldModelKeys (ad_set_renamedFields ∅ (ad_renamedOps a) (ad_set_generated ∅ (ad_generatedApps a) a)).

Definition run_steps (steps : list (auto unit)) : auto unit := for_io steps (fun step => step).

Definition detect : auto unit := _ ← modify reset_detection; run_steps detection_steps.
End detect.
