(* ===== verification/AutoBuild.v ===== *)
(** * From generated operations to migrations:
    internal/autodetector/autodetector.go

    sortMigrations, buildMigrationList and optimizeMigrations, the end of
    detectChanges. *)

From S2P Require Import Prelude GoStd Keys Errors Fields Index ModelState Apps ProjectState Operation SchemaEditor.
From S2P Require Import Effects Migration Graph Optimizer OptimizerTermination Filename Loader Questioner AutoDeps TopoSort.
From S2P Require Import DetectModels DetectFields.

(** ** sortMigrations *)

(** The positions of the operations a dependency waits for *)
Definition satisfying (ops : list genOp) (d : opDep) : list nat :=
  omap id (imap (fun i x => if satisfiedBy d (go_op x) then Some i else None) ops).

(** What the operation at position [i] adds to the sorter *)
Definition sorter_add_dep (app : string) (ops : list genOp) (i : nat) (t : topoSorter) (d : opDep) : topoSorter :=
  if bool_decide (dep_app d = app) then topo_add i (satisfying ops d) t else t.
Definition sorter_add (app : string) (ops : list genOp) (t : topoSorter) (iop : nat * genOp) : topoSorter :=
  foldl (sorter_add_dep app ops iop.1) (topo_add iop.1 [] t) (go_deps iop.2).
Definition build_sorter (app : string) (ops : list genOp) : topoSorter :=
  foldl (sorter_add app ops) new_topoSorter (imap pair ops).

Definition sort_app (app : string) (ops : list genOp) : outcome (list genOp) :=
  sorted ← settle (order (build_sorter app ops));
  Ok (omap (M:=list) (fun i => ops !! i) sorted).

(** The loop of sortMigrations, over the apps in order *)
Definition sort_step (generated : gmap string (list genOp)) (app : string) : outcome (gmap string (list genOp)) :=
  sorted ← sort_app app (default [] (generated !! app));
  Ok (<[app := sorted]> generated).
Definition sortMigrations (apps : list string) (generated : gmap string (list genOp))
    : outcome (gmap string (list genOp)) :=
  foldM sort_step generated (sort_strings apps).

(** ** buildMigrationList *)

(** Its state: what is still to be put in a migration, the migrations, the
    apps in the order of their first migration, and chopMode *)
Record building := mkBuilding {
  b_generated : gmap string (list genOp);
  b_migrations : gmap string (list Migration);
  b_migrationApps : list string;
  b_chopMode : bool;
}.

Definition generated_of (b : building) (app : string) : list genOp := default [] (b_generated b !! app).

(** formatGenerated *)
Definition formatGenerated (FormatOperation : Operation → string) (generated : gmap string (list genOp)) : string :=
  "{" +:+
  Join (map (fun app => Quote app +:+ ": [" +:+
                        Join (map (fun g => FormatOperation (go_op g)) (default [] (generated !! app))) ", " +:+ "]")
            (sort_strings (map fst (map_to_list generated)))) ", " +:+
  "}".

Section build.
Context (g : option Graph) (existingApps : gset string) (FormatOperation : Operation → string).

(** What stands for an app without migrations, in chopMode *)
Definition leaf_or_first (app : string) : outcome Key :=
  match g with
  | Some g => leaves ← LeafNodes g app; Ok (default (First app) (head leaves))
  | None => Ok (First app)
  end.

(** The migration a dependency on another app is resolved to, or [None] when
    it is not satisfied yet *)
Definition dep_key (b : building) (d : opDep) : outcome (option Key) :=
  if existsb (fun o => satisfiedBy d (go_op o)) (generated_of b (dep_app d)) then Ok None
  else match b_migrations b !! dep_app d with
       | Some migs => match last migs with
                      | Some mig => Ok (Some (mkKey (dep_app d) (mig_Name mig)))
                      | None => Panic index_out_of_range
                      end
       | None => if b_chopMode b then k ← leaf_or_first (dep_app d); Ok (Some k) else Ok None
       end.

(** The loop over the dependencies of one operation *)
Fixpoint dep_keys (b : building) (app : string) (deps : list opDep) : outcome (option (list Key)) :=
  match deps with
  | [] => Ok (Some [])
  | d :: deps =>
      if bool_decide (dep_app d = app) then dep_keys b app deps
      else
        k ← dep_key b d;
        match k with
        | None => Ok None
        | Some k => ks ← dep_keys b app deps; Ok (option_map (cons k) ks)
        end
  end.

(** addDep *)
Definition addDep (depOrder : list Key) (k : Key) : list Key := if bool_decide (k ∈ depOrder) then depOrder else depOrder ++ [k].

(** The inner loop: the operations of an app that can be put in a migration,
    the keys they depend on, and what is left *)
Fixpoint chop (b : building) (app : string) (chopped : list genOp) (depOrder : list Key) (ops : list genOp)
    : outcome (list genOp * list Key * list genOp) :=
  match ops with
  | [] => Ok (chopped, depOrder, [])
  | op :: rest =>
      ks ← dep_keys b app (go_deps op);
      match ks with
      | None => Ok (chopped, depOrder, op :: rest)
      | Some ks => chop b app (chopped ++ [op]) (foldl addDep depOrder ks) rest
      end
  end.

(** The migration made of the operations chopped off *)
Definition new_migration (b : building) (app : string) (chopped : list genOp) (depOrder : list Key) : Migration :=
  mkMigration app ("auto_" +:+ itoa (Z.of_nat (length (default [] (b_migrations b !! app))) + 1))
    depOrder [] [] (Some (negb (bool_decide (app ∈ existingApps)))) None (map go_op chopped) "".

Definition emit (b : building) (app : string) (mig : Migration) (rest : list genOp) : building :=
  mkBuilding (<[app := rest]> (b_generated b))
    (<[app := default [] (b_migrations b !! app) ++ [mig]]> (b_migrations b))
    (if bool_decide (is_Some (b_migrations b !! app)) then b_migrationApps b else b_migrationApps b ++ [app])
    false.

(** One app in one round *)
Definition build_app (b : building) (app : string) : outcome building :=
  r ← chop b app [] [] (generated_of b app);
  let '(chopped, depOrder, rest) := r in
  Ok (if bool_decide (depOrder = []) && bool_decide (chopped = []) then b
      else if bool_decide (rest = []) || b_chopMode b then emit b app (new_migration b app chopped depOrder) rest
      else b).

(** count *)
Definition count (generated : gmap string (list genOp)) : nat :=
  sum_list (map (fun p => length p.2) (map_to_list generated)).

Definition set_chopMode (b : building) : building :=
  mkBuilding (b_generated b) (b_migrations b) (b_migrationApps b) true.

(** The outer loop; [None] when the fuel ends. *)
Fixpoint build_loop (apps : list string) (fuel : nat) (b : building) : option (outcome building) :=
  let numOps := count (b_generated b) in
  if bool_decide (numOps = 0) then Some (Ok b)
  else match fuel with
  | 0 => None
  | S fuel =>
      match foldM build_app b (sort_strings apps) with
      | Ok b' =>
          if bool_decide (count (b_generated b') = numOps) then
            if b_chopMode b' then
              Some (Err (PlainError ("cannot resolve operation dependencies: " +:+
                                     formatGenerated FormatOperation (b_generated b'))))
            else build_loop apps fuel (set_chopMode b')
          else build_loop apps fuel b'
      | Err e => Some (Err e)
      | Panic e => Some (Panic e)
      end
  end.

(** Every second round puts an operation in a migration. *)
Definition build_fuel (generated : gmap string (list genOp)) : nat := 2 * count generated + 1.

(** buildMigrationList *)
Definition buildMigrationList (apps : list string) (generated : gmap string (list genOp)) (migrationApps : list string)
    : outcome building :=
  settle (build_loop apps (build_fuel generated) (mkBuilding generated ∅ migrationApps false)).
End build.

(** ** optimizeMigrations *)

(** Every migration of an app but the first depends on the one before it. *)
Fixpoint chain_from (app : string) (prev : Migration) (migs : list Migration) : list Migration :=
  match migs with
  | [] => []
  | mig :: migs =>
      let mig' := mig_set_Dependencies (mig_Dependencies mig ++ [mkKey app (mig_Name prev)]) mig in
      mig' :: chain_from app mig' migs
  end.
Definition chain (app : string) (migs : list Migration) : list Migration :=
  match migs with [] => [] | mig :: migs => mig :: chain_from app mig migs end.

Fixpoint dedup_keys_from (seen : list Key) (deps : list Key) : list Key :=
  match deps with
  | [] => []
  | d :: deps => if bool_decide (d ∈ seen) then dedup_keys_from seen deps else d :: dedup_keys_from (d :: seen) deps
  end.

Definition mig_set_Operations (ops : list Operation) (m : Migration) : Migration :=
  mkMigration (mig_App m) (mig_Name m) (mig_Dependencies m) (mig_RunBefore m) (mig_Replaces m)
    (mig_Initial m) (mig_Atomic m) ops (mig_File m).

Definition optimize_migration (app : string) (mig : Migration) : Migration :=
  mig_set_Operations (Optimize (mig_Operations mig) app)
    (mig_set_Dependencies (dedup_keys_from [] (mig_Dependencies mig)) mig).

(** optimizeMigrations *)
Definition optimizeMigrations (apps : list string) (migrations : gmap string (list Migration))
    : gmap string (list Migration) :=
  foldl (fun m app => alter (map (optimize_migration app)) app m)
    (foldl (fun m app => alter (chain app) app m) migrations apps) apps.

(** ** detectChanges *)

Section detectChanges.
Context {Q : Type} `{!Questioner Q} `{!Comparison}.

(** existingApps, as New computes it *)
Definition existingApps : gset string := set_map mk_App (dom (ps_Models from)).

(** The steps after those of [detect] *)
Definition build_migrations (FormatOperation : Operation → string) (g : option Graph) : io (Autodetector Q) unit :=
  a ← get_state;
  sorted ← lift (sortMigrations (ad_generatedApps a) (ad_generated a));
  b ← lift (buildMigrationList g existingApps FormatOperation (ad_generatedApps a) sorted (ad_migrationApps a));
  modify (fun a =>
    ad_set_migrations (optimizeMigrations (b_migrationApps b) (b_migrations b)) (b_migrationApps b)
      (ad_set_generated (b_generated b) (ad_generatedApps a) a)).

(** detectChanges *)
Definition detectChanges (FormatOperation : Operation → string) (g : option Graph)
    : io (Autodetector Q) (gmap string (list Migration)) :=
  _ ← detect;
  _ ← build_migrations FormatOperation g;
  a ← get_state;
  mret (ad_migrations a).
End detectChanges.
