(* ===== verification/Arrange.v ===== *)
(** * Names and places of generated migrations:
    internal/autodetector/autodetector.go

    ParseNumber, ArrangeForGraph, trimChangesToApps, Order and ChangesFor. *)

From S2P Require Import Prelude GoStd Keys Errors Fields Index ModelState Apps ProjectState Operation SchemaEditor.
From S2P Require Import Effects Migration Graph Loader Questioner AutoDeps DetectModels DetectFields AutoBuild.

(** The migrations of every app *)
Notation Changes := (gmap string (list Migration)).

(** ** Numbers *)

Definition newline : ascii := ascii_of_nat 10.

(** The digits a string begins with: leadingNumber, [\d+] *)
Fixpoint leading_digits (s : string) : string :=
  match s with
  | String c s => if byte_is_digit c then String c (leading_digits s) else EmptyString
  | EmptyString => EmptyString
  end.

Fixpoint drop_string (n : nat) (s : string) : string :=
  match n, s with
  | S n, String _ s => drop_string n s
  | _, _ => s
  end.

(** [_squashed_(\d+)], at the beginning of a string *)
Definition squashed_here (s : string) : option string :=
  if HasPrefix s "_squashed_" then
    let digits := leading_digits (drop_string 10 s) in if bool_decide (digits = "") then None else Some digits
  else None.

(** The last match in the first line: the [.*] before it is greedy and does
    not match the end of a line. *)
Fixpoint squashed_in_line (s : string) : option string :=
  match s with
  | EmptyString => None
  | String c rest =>
      if bool_decide (c = newline) then None
      else match squashed_in_line rest with Some digits => Some digits | None => squashed_here s end
  end.

(** squashedNumber: the first line that has a match *)
Fixpoint squashedNumber (s : string) : option string :=
  match squashed_in_line s with
  | Some digits => Some digits
  | None => match s with String _ s => squashedNumber s | EmptyString => None end
  end.

(** strconv.Atoi of digits *)
Definition Atoi (digits : string) : option Z :=
  let n := decimal 0 digits in if (n <=? maxInt)%Z then Some n else None.

(** ParseNumber *)
Definition ParseNumber (name : string) : option Z :=
  let digits := match squashedNumber name with Some digits => digits | None => leading_digits name end in
  if bool_decide (digits = "") then None else Atoi digits.

(** An int of 64 bits *)
Definition wrap_int (z : Z) : Z := ((z + 2 ^ 63) mod 2 ^ 64 - 2 ^ 63)%Z.

(** fmt.Sprintf("%04d", n) *)
Fixpoint zeros (n : nat) : string := match n with 0 => "" | S n => String "0"%char (zeros n) end.
Definition zero_pad (width : nat) (s : string) : string := zeros (width - String.length s) +:+ s.
Definition Sprintf_04d (n : Z) : string :=
  if (n <? 0)%Z then "-" +:+ zero_pad 3 (itoa (- n)) else zero_pad 4 (itoa n).

(** ** ArrangeForGraph *)

Definition mig_set_Name (n : string) (m : Migration) : Migration :=
  mkMigration (mig_App m) n (mig_Dependencies m) (mig_RunBefore m) (mig_Replaces m)
    (mig_Initial m) (mig_Atomic m) (mig_Operations m) (mig_File m).

Section arrange.
(** MigrationNameTimestamp, at the time it is called for a migration, and the
    name asked for *)
Context (timestamp : Migration → string) (migrationName : string).

(** The new name of a migration: the second of the parts and the number *)
Definition name_part (first : bool) (appLeaf : option Key) (mig : Migration) : string :=
  if negb (bool_decide (migrationName = "")) then migrationName
  else if first && negb (bool_decide (is_Some appLeaf)) then "initial"
  else String.substring 0 100 (SuggestName (timestamp mig) mig).

(** One migration of an app: its first depends on the leaf. *)
Definition place (first : bool) (appLeaf : option Key) (next : Z) (mig : Migration) : Migration :=
  let mig := match appLeaf with
             | Some leaf => if first then mig_set_Dependencies (mig_Dependencies mig ++ [leaf]) mig else mig
             | None => mig
             end in
  mig_set_Name (Sprintf_04d next +:+ "_" +:+ name_part first appLeaf mig) mig.

(** The loop over the migrations of an app: the migrations under their new
    names, and the names *)
Fixpoint place_all (app : string) (first : bool) (appLeaf : option Key) (next : Z) (nameMap : gmap Key Key)
    (migs : list Migration) : list Migration * gmap Key Key :=
  match migs with
  | [] => ([], nameMap)
  | mig :: migs =>
      let mig' := place first appLeaf next mig in
      let '(migs', nameMap) :=
        place_all app false appLeaf (wrap_int (next + 1)) (<[mkKey app (mig_Name mig) := mkKey app (mig_Name mig')]> nameMap) migs in
      (mig' :: migs', nameMap)
  end.

Definition first_number (appLeaf : option Key) : Z :=
  match appLeaf with
  | Some leaf => wrap_int (default 0%Z (ParseNumber (key_Name leaf)) + 1)
  | None => 1
  end.

(** Every migration of an app that does not get one stands for its first. *)
Definition forget_all (app : string) (migs : list Migration) (nameMap : gmap Key Key) : gmap Key Key :=
  foldl (fun m mig => <[mkKey app (mig_Name mig) := First app]> m) nameMap migs.

Definition rename_dependency (nameMap : gmap Key Key) (d : Key) : Key := default d (nameMap !! d).
Definition rename_dependencies_of (nameMap : gmap Key Key) (mig : Migration) : Migration :=
  mig_set_Dependencies (map (rename_dependency nameMap) (mig_Dependencies mig)) mig.


Section ask.
Context {Q : Type} `{!Questioner Q}.

Definition ask_initial (app : string) : io Q bool := fun q => let '(q, b) := AskInitial app q in (q, Ok b).

(** One app *)
Definition arrange_app (leaves : list Key) (acc : Changes * gmap Key Key) (app : string) : io Q (Changes * gmap Key Key) :=
  let '(changes, nameMap) := acc in
  match default [] (changes !! app) with
  | [] => mret acc
  | migs =>
      let appLeaf := find (fun k => bool_decide (key_App k = app)) leaves in
      yes ← (match appLeaf with Some _ => mret true | None => ask_initial app end);
      mret (if yes : bool then
              let '(migs', nameMap) := place_all app true appLeaf (first_number appLeaf) nameMap migs in
              (<[app := migs']> changes, nameMap)
            else (delete app changes, forget_all app migs nameMap))
  end.

(** ArrangeForGraph *)
Definition ArrangeForGraph (changes : Changes) (g : Graph) : io Q (gmap string (list Migration)) :=
  leaves ← lift (LeafNodes g "");
  acc ← fold_io (arrange_app leaves) (changes, ∅) (sort_strings (map fst (map_to_list changes)));
  mret (map (rename_dependencies_of acc.2) <$> acc.1).
End ask.
End arrange.

(** ** trimChangesToApps *)


(** appDeps: the apps the migrations of an app depend on *)
Definition appDeps (changes : Changes) (app : string) : gset string :=
  list_to_set (map key_App (default [] (changes !! app) ≫= mig_Dependencies)).

(** One round of the loop; an app found in it may be looked at in the same
    round or in the next, which is the order of a Go map's iteration. *)
Definition more_required (changes : Changes) (required : gset string) : gset string :=
  required ∪ ⋃ (map (appDeps changes) (elements required)).

Fixpoint trim_loop (changes : Changes) (fuel : nat) (required : gset string) : option (gset string) :=
  match fuel with
  | 0 => None
  | S fuel =>
      let required' := more_required changes required in
      if bool_decide (size required' = size required) then Some required'
      else trim_loop changes fuel required'
  end.

(** Every app some migration depends on *)
Definition all_appDeps (changes : Changes) : gset string := ⋃ (map (appDeps changes) (elements (dom changes))).

Definition trimChangesToApps (changes : Changes) (appLabels : list string) : option (gmap string (list Migration)) :=
  (fun required : gset string => filter (fun p => p.1 ∈ required) changes) <$>
  trim_loop changes (2 + size (all_appDeps changes)) (list_to_set appLabels).

(** ** Order *)

(** The loop over migrationApps: the apps of the changes, each once *)
Fixpoint first_apps (changes : Changes) (seen : list string) (apps : list string) : list string :=
  match apps with
  | [] => []
  | app :: apps =>
      if bool_decide (is_Some (changes !! app) ∧ app ∉ seen) then app :: first_apps changes (app :: seen) apps
      else first_apps changes seen apps
  end.

(** Order *)
Definition Order {Q} (a : Autodetector Q) (changes : Changes) : list string :=
  let out := first_apps changes [] (ad_migrationApps a) in
  out ++ sort_strings (filter (fun app => app ∉ out) (map fst (map_to_list changes))).

(** ** ChangesFor *)

(** ChangesOptions *)
Record ChangesOptions := mkChangesOptions { co_TrimToApps : list string; co_ConvertApps : list string; co_MigrationName : string }.

Section ChangesFor.
Context {Q : Type} `{!Questioner Q} (FormatOperation : Operation → string) (timestamp : Migration → string).

(** ChangesFor, of an Autodetector between two states *)
Definition ChangesFor (old new : ProjectState) (g : Graph) (opts : ChangesOptions)
    : io (Autodetector Q) (gmap string (list Migration)) :=
  changes ← @detectChanges Q _ (mkComparison old new (co_ConvertApps opts)) FormatOperation (Some g);
  changes ← ask (ArrangeForGraph timestamp (co_MigrationName opts) changes g);
  if bool_decide (co_TrimToApps opts = []) then mret changes
  else lift (settle (Ok <$> trimChangesToApps changes (co_TrimToApps opts))).
End ChangesFor.
