(* ===== verification/BuildTheorems.v ===== *)
(** * buildMigrationList puts every operation in a migration that follows what
    the operation waits for

    An invariant of the rounds, what a round does, and that they end. *)

From S2P Require Import Prelude GoStd Keys Errors Operation Migration Graph GraphLemmas Loader.
From S2P Require Import AutoDeps TopoSort AutoBuild.

(** ** sortMigrations orders the operations of an app

    What the sorter of an app represents, and what that makes of the order of
    its operations. *)

(** ** The nodes of a sorter *)

Lemma elem_of_topo_get n t x E1 E2 :
  represents t E1 E2 → x ∈ ts_added (topo_get n t) ↔ x = n ∨ x ∈ ts_added t.
Proof.
  intros Ht. unfold topo_get. destruct (ts_info t !! n) eqn:Hn; simpl; [|set_solver].
  split; [auto|]. intros [->|Hx]; [|done]. apply (rp_nodes _ _ _ Ht). by eexists.
Qed.

Lemma elem_of_topo_preds n preds t E1 E2 x :
  represents t E1 E2 →
  x ∈ ts_added (foldl (fun t p => info_update (more_successors n) p (topo_get p t)) t preds) ↔ x ∈ preds ∨ x ∈ ts_added t.
Proof.
  revert t E2. induction preds as [|p preds IH]; intros t E2 Ht; simpl; [set_solver|].
  destruct (represents_get p t _ _ Ht) as [Hg Hp]. apply (represents_successor n p) in Hg; [|done].
  rewrite (IH _ _ Hg), represents_update, (elem_of_topo_get p t x _ _ Ht). set_solver.
Qed.

Lemma elem_of_topo_add n preds t E x :
  represents t E E → x ∈ ts_added (topo_add n preds t) ↔ x = n ∨ x ∈ preds ∨ x ∈ ts_added t.
Proof.
  intros Ht. unfold topo_add. destruct (represents_get n t E E Ht) as [Hg Hn].
  rewrite (elem_of_topo_preds n preds _ _ _ x (represents_count n preds _ E E Hg Hn)), represents_update,
    (elem_of_topo_get n t x _ _ Ht). tauto.
Qed.

(** ** The sorter of an app *)

Definition dep_edges (app : string) (ops : list genOp) (i : nat) (d : opDep) : edges :=
  if bool_decide (dep_app d = app) then waits i (satisfying ops d) else [].
Definition op_edges (app : string) (ops : list genOp) (iop : nat * genOp) : edges :=
  go_deps iop.2 ≫= dep_edges app ops iop.1.

Lemma elem_of_satisfying ops d p :
  p ∈ satisfying ops d ↔ ∃ x, ops !! p = Some x ∧ satisfiedBy d (go_op x) = true.
Proof.
  unfold satisfying. rewrite list_elem_of_omap. split.
  - intros (y & Hy & Hp). simpl in Hp. subst y. apply elem_of_lookup_imap in Hy as (i & x & Heq & Hx).
    case_match; [|done]. simplify_eq. eauto.
  - intros (x & Hx & Hs). exists (Some p). split; [|done]. apply elem_of_lookup_imap. exists p, x.
    by rewrite Hs.
Qed.

Lemma sorter_add_deps app ops i ds t E :
  represents t E E →
  represents (foldl (sorter_add_dep app ops i) t ds) (E ++ (ds ≫= dep_edges app ops i)) (E ++ (ds ≫= dep_edges app ops i)) ∧
  (i ∈ ts_added t → (∀ x, x ∈ ts_added t → x < length ops) → i < length ops →
   ∀ x, x ∈ ts_added t ∨ x ∈ ts_added (foldl (sorter_add_dep app ops i) t ds) →
        x ∈ ts_added (foldl (sorter_add_dep app ops i) t ds) ∧ x < length ops).
Proof.
  revert t E. induction ds as [|d ds IH]; intros t E Ht; simpl.
  { rewrite app_nil_r. split; [done|]. naive_solver. }
  unfold dep_edges at 1 3, sorter_add_dep at 2 4 6. case_bool_decide as Ha.
  - apply (represents_add i (satisfying ops d)) in Ht as Ht'. destruct (IH _ _ Ht') as [IH1 IH2].
    rewrite <- app_assoc in IH1. split; [done|]. intros Hi Hlen Hil x Hx.
    assert (∀ x, x ∈ ts_added (topo_add i (satisfying ops d) t) ↔ x = i ∨ x ∈ satisfying ops d ∨ x ∈ ts_added t) as Hm
      by (intros; by eapply elem_of_topo_add).
    apply IH2; [apply Hm; by left| |done|].
    + intros y [->|[(z & Hz & _)%elem_of_satisfying|Hy]]%Hm; [done| |by apply Hlen]. by apply lookup_lt_Some in Hz.
    + destruct Hx as [Hx|Hx]; [left; apply Hm; auto|by right].
  - apply (IH _ _ Ht).
Qed.

Lemma build_sorter_represents app ops :
  let E := imap pair ops ≫= op_edges app ops in
  represents (build_sorter app ops) E E ∧ ts_added (build_sorter app ops) ≡ₚ seq 0 (length ops).
Proof.
  simpl. unfold build_sorter.
  cut (∀ l t E, represents t E E → (∀ x, x ∈ ts_added t → x < length ops) → (∀ iop, iop ∈ l → iop.1 < length ops) →
         represents (foldl (sorter_add app ops) t l) (E ++ (l ≫= op_edges app ops)) (E ++ (l ≫= op_edges app ops)) ∧
         (∀ x, x ∈ ts_added (foldl (sorter_add app ops) t l) → x < length ops) ∧
         (∀ x, x ∈ ts_added t ∨ x ∈ map fst l → x ∈ ts_added (foldl (sorter_add app ops) t l))).
  { intros H. destruct (H (imap pair ops) new_topoSorter [] represents_new) as (Hr & Hlt & Hin).
    - simpl. set_solver.
    - intros iop (i & x & -> & Hx)%elem_of_lookup_imap. simpl. by apply lookup_lt_Some in Hx.
    - split; [done|]. apply NoDup_Permutation; [apply Hr|apply NoDup_seq|]. intros x. rewrite elem_of_seq. split.
      + intros Hx. specialize (Hlt x Hx). lia.
      + intros [_ Hx]. apply Hin. right. destruct (lookup_lt_is_Some_2 ops x Hx) as [y Hy].
        apply list_elem_of_fmap. exists (x, y). split; [done|]. apply elem_of_lookup_imap. eauto. }
  induction l as [|[i op] l IH]; intros t E Ht Hlt Hl; simpl.
  { rewrite app_nil_r. split_and!; [done..|set_solver]. }
  pose proof (represents_add i [] _ _ Ht) as H0. simpl in H0. rewrite app_nil_r in H0.
  assert (∀ x, x ∈ ts_added (topo_add i [] t) ↔ x = i ∨ x ∈ ts_added t) as Hm
    by (intros x; rewrite (elem_of_topo_add _ _ _ _ _ Ht); set_solver).
  assert (i < length ops) as Hi by (apply (Hl (i, op)); left).
  destruct (sorter_add_deps app ops i (go_deps op) _ _ H0) as [H1 H2].
  assert (∀ x, x ∈ ts_added (topo_add i [] t) → x < length ops) as Hlt0 by (intros x [->|Hx]%Hm; auto).
  specialize (H2 ltac:(apply Hm; by left) Hlt0 Hi).
  destruct (IH _ _ H1) as (Hr & Hlt' & Hin); [intros x Hx; apply H2; by right|intros; apply Hl; by right|].
  unfold sorter_add at 2 4 6. simpl. unfold op_edges at 1 3. simpl. rewrite <- app_assoc in Hr.
  split_and!; [done..|]. intros x Hx. apply Hin. rewrite elem_of_cons in Hx.
  destruct Hx as [Hx|[->|Hx]]; [left; apply H2; left; apply Hm; auto|left; apply H2; left; apply Hm; auto|by right].
Qed.

Lemma elem_of_edges app ops p n :
  (p, n) ∈ (imap pair ops ≫= op_edges app ops) ↔
  ∃ x y d, ops !! n = Some x ∧ ops !! p = Some y ∧ d ∈ go_deps x ∧ dep_app d = app ∧ satisfiedBy d (go_op y) = true.
Proof.
  rewrite list_elem_of_bind. setoid_rewrite elem_of_lookup_imap. unfold op_edges. split.
  - intros ([i x] & He & (j & x' & [= -> ->] & Hx)). simpl in He. apply list_elem_of_bind in He as (d & He & Hd).
    unfold dep_edges in He. case_bool_decide as Ha; [|set_solver].
    apply list_elem_of_fmap in He as (p' & [= -> ->] & (y & Hy & Hs)%elem_of_satisfying). eauto 10.
  - intros (x & y & d & Hx & Hy & Hd & Ha & Hs). exists (n, x). split; [|eauto]. simpl.
    apply list_elem_of_bind. exists d. split; [|done]. unfold dep_edges. rewrite bool_decide_eq_true_2 by done.
    apply list_elem_of_fmap. exists p. split; [done|]. apply elem_of_satisfying. eauto.
Qed.

(** ** The order *)

(** An operation of an app waits for another one of that app. *)
Definition waits_for (app : string) (x y : genOp) : Prop :=
  ∃ d, d ∈ go_deps x ∧ dep_app d = app ∧ satisfiedBy d (go_op y) = true.

(** Positions that hold the operations in order *)
Definition ordered_positions (app : string) (ops : list genOp) (out : list nat) : Prop :=
  out ≡ₚ seq 0 (length ops) ∧
  ∀ n p x y, ops !! n = Some x → ops !! p = Some y → waits_for app x y → before out p n.

(** Operations that all wait for one another *)
Definition op_deadlock (app : string) (ops : list genOp) (S : list nat) : Prop :=
  S ≠ [] ∧ ∀ n, n ∈ S → ∃ x p y, ops !! n = Some x ∧ p ∈ S ∧ ops !! p = Some y ∧ waits_for app x y.

Lemma sort_app_spec app ops :
  (∃ out, sort_app app ops = Ok (omap (M:=list) (fun i => ops !! i) out) ∧ ordered_positions app ops out) ∨
  (∃ e S, sort_app app ops = Err e ∧ op_deadlock app ops S).
Proof.
  destruct (build_sorter_represents app ops) as [Hr Hp].
  destruct (order_spec _ _ Hr) as [(out & Ho & Hout & Hb)|(e & S & Ho & Hne & _ & Hd)]; [left|right]; unfold sort_app; rewrite Ho.
  - exists out. split; [done|]. split; [by rewrite Hout|]. intros n p x y Hx Hy (d & Hd & Ha & Hs).
    apply Hb, elem_of_edges. eauto 10.
  - exists e, S. split; [done|]. split; [done|]. intros n Hn.
    destruct (Hd n Hn) as (p & Hp' & (x & y & d & Hx & Hy & Hdep & Ha & Hs)%elem_of_edges).
    exists x, p, y. split_and!; [done..|]. by exists d.
Qed.

Lemma omap_lookup_cons {A} (x : A) l s :
  omap (M:=list) (fun i => (x :: l) !! i) (S <$> s) = omap (fun i => l !! i) s.
Proof. induction s as [|i s IH]; [done|]. csimpl. by rewrite IH. Qed.

Lemma omap_lookup_seq {A} (l : list A) : omap (M:=list) (fun i => l !! i) (seq 0 (length l)) = l.
Proof.
  induction l as [|x l IH]; [done|]. simpl. f_equal. rewrite <- fmap_S_seq.
  rewrite <- IH at 2. apply omap_lookup_cons.
Qed.

Lemma ordered_positions_permutation app ops out :
  ordered_positions app ops out → omap (M:=list) (fun i => ops !! i) out ≡ₚ ops.
Proof. intros [Hp _]. rewrite Hp. by rewrite omap_lookup_seq. Qed.

(** What sortMigrations does to all the apps *)
Lemma sortMigrations_apps apps generated generated' :
  NoDup apps → sortMigrations apps generated = Ok generated' →
  ∀ app, (app ∈ apps → ∃ sorted, sort_app app (default [] (generated !! app)) = Ok sorted ∧ generated' !! app = Some sorted) ∧
         (app ∉ apps → generated' !! app = generated !! app).
Proof.
  unfold sortMigrations. intros Hnd Hf app. rewrite <- (merge_sort_Permutation str_le apps) in Hnd.
  rewrite <- (merge_sort_Permutation str_le apps). fold (sort_strings apps) in *. revert Hnd generated Hf.
  induction (sort_strings apps) as [|a l IH]; intros Hnd generated Hf.
  { simpl in Hf. simplify_eq. split; [set_solver|done]. }
  apply NoDup_cons in Hnd as [Ha Hnd]. rewrite foldM_cons in Hf. apply bind_Ok in Hf as (gen1 & H1 & Hf).
  unfold sort_step in H1. apply bind_Ok in H1 as (sorted & Hs & [= <-]). destruct (IH Hnd _ Hf) as [IH1 IH2]. split.
  - intros [->|Hin]%elem_of_cons.
    + exists sorted. split; [done|]. rewrite IH2 by done. by rewrite lookup_insert_eq.
    + specialize (IH1 Hin). by rewrite lookup_insert_ne in IH1 by (intros ->; done).
  - intros [Hne Hout]%not_elem_of_cons. rewrite IH2 by done. by rewrite lookup_insert_ne.
Qed.

Lemma sort_steps_total l generated :
  NoDup l →
  (∃ sorted, foldM sort_step generated l = Ok sorted) ∨
  (∃ e app S, foldM sort_step generated l = Err e ∧ app ∈ l ∧ op_deadlock app (default [] (generated !! app)) S).
Proof.
  intros Hnd. revert generated. induction l as [|a l IH]; intros generated; [left; by eexists|].
  apply NoDup_cons in Hnd as [Ha Hnd]. rewrite foldM_cons.
  destruct (sort_app_spec a (default [] (generated !! a))) as [(out & Ho & _)|(e & S & Ho & HS)];
    (match type of Ho with _ = ?r => assert (sort_step generated a = (sorted ← r; Ok (<[a := sorted]> generated))) as ->
       by (unfold sort_step; by rewrite Ho) end); simpl.
  - destruct (IH Hnd (<[a := omap (λ i, default [] (generated !! a) !! i) out]> generated)) as [?|(e & app & S & He & Hin & HS)];
      [by left|right]. exists e, app, S. split; [done|]. split; [by right|].
    by rewrite lookup_insert_ne in HS by (intros ->; done).
  - right. exists e, a, S. split; [done|]. split; [left|done].
Qed.

(** sortMigrations returns, and fails only when operations of an app all wait
    for one another. *)
Lemma sortMigrations_total apps generated :
  NoDup apps →
  (∃ sorted, sortMigrations apps generated = Ok sorted) ∨
  (∃ e app S, sortMigrations apps generated = Err e ∧ app ∈ apps ∧ op_deadlock app (default [] (generated !! app)) S).
Proof.
  intros Hnd. destruct (sort_steps_total (sort_strings apps) generated) as [?|(e & app & S & He & Hin & HS)];
    [unfold sort_strings; by rewrite merge_sort_Permutation|by left|right].
  exists e, app, S. split; [done|]. split; [|done]. unfold sort_strings in Hin. by rewrite merge_sort_Permutation in Hin.
Qed.

(** ** The migrations that are built *)

Definition migs_of (b : building) (app : string) : list Migration := default [] (b_migrations b !! app).
Definition auto_name (i : nat) : string := "auto_" +:+ itoa (Z.of_nat i).

(** ** One round, operation by operation *)

Section chop.
Context (g : option Graph) (b : building) (app : string).

Lemma dep_keys_Some deps ks :
  dep_keys g b app deps = Ok (Some ks) →
  ∀ d, d ∈ deps → dep_app d ≠ app → ∃ k, dep_key g b d = Ok (Some k) ∧ k ∈ ks.
Proof.
  revert ks. induction deps as [|d deps IH]; intros ks; simpl; [set_solver|].
  case_bool_decide as Ha.
  { intros Hks d' [->|Hd]%elem_of_cons Hne; [done|]. eauto. }
  intros (k & Hk & H)%bind_Ok. destruct k as [k|]; [|done]. apply bind_Ok in H as (ks' & Hks & [= H]).
  destruct ks' as [ks'|]; simpl in H; [|done]. injection H as [= <-].
  intros d' [->|Hd]%elem_of_cons Hne.
  - exists k. split; [done|left].
  - destruct (IH _ Hks d' Hd Hne) as (k' & Hk' & Hin). exists k'. split; [done|by right].
Qed.

Lemma dep_keys_None deps :
  dep_keys g b app deps = Ok None → ∃ d, d ∈ deps ∧ dep_app d ≠ app ∧ dep_key g b d = Ok None.
Proof.
  induction deps as [|d deps IH]; simpl; [done|]. case_bool_decide as Ha.
  { intros (d' & Hd & ?)%IH. exists d'. split; [by right|done]. }
  intros (k & Hk & H)%bind_Ok. destruct k as [k|].
  - apply bind_Ok in H as (r & Hks & H). destruct r; [done|]. destruct (IH Hks) as (d' & Hd & ?). exists d'. split; [by right|done].
  - exists d. split; [left|done].
Qed.

Lemma dep_keys_Ok deps :
  (∀ d, d ∈ deps → is_ok (dep_key g b d) = true) → ∃ r, dep_keys g b app deps = Ok r.
Proof.
  induction deps as [|d deps IH]; intros Hd; simpl; [eauto|]. destruct IH as [r Hr]; [intros; apply Hd; by right|].
  case_bool_decide; [eauto|]. specialize (Hd d ltac:(left)). destruct (dep_key g b d) as [k|e|e]; [|done..].
  simpl. destruct k; [|eauto]. rewrite Hr. simpl. eauto.
Qed.

Lemma elem_of_addDep ks acc k : k ∈ foldl addDep acc ks ↔ k ∈ acc ∨ k ∈ ks.
Proof.
  revert acc. induction ks as [|k' ks IH]; intros acc; simpl; [set_solver|].
  rewrite IH. unfold addDep. case_bool_decide; set_solver.
Qed.

(** What the inner loop takes, and why it stops *)
Lemma chop_spec chopped depOrder ops chopped' depOrder' rest :
  chop g b app chopped depOrder ops = Ok (chopped', depOrder', rest) →
  ∃ taken, ops = taken ++ rest ∧ chopped' = chopped ++ taken ∧ (∀ k, k ∈ depOrder → k ∈ depOrder') ∧
    (taken = [] → depOrder' = depOrder) ∧
    (∀ x d, x ∈ taken → d ∈ go_deps x → dep_app d ≠ app → ∃ k, dep_key g b d = Ok (Some k) ∧ k ∈ depOrder') ∧
    (∀ x rest', rest = x :: rest' → ∃ d, d ∈ go_deps x ∧ dep_app d ≠ app ∧ dep_key g b d = Ok None).
Proof.
  revert chopped depOrder. induction ops as [|op ops IH]; intros chopped depOrder; simpl.
  { intros [= <- <- <-]. exists []. rewrite !app_nil_r. split_and!; try done. by intros ?? ?%elem_of_nil. }
  intros (ks & Hks & H)%bind_Ok. destruct ks as [ks|].
  - apply IH in H as (taken & -> & -> & Hmono & _ & Htaken & Hstop). exists (op :: taken).
    split; [done|]. split; [by rewrite <- app_assoc|]. split_and!; [|done| |done].
    + intros k Hk. apply Hmono, elem_of_addDep. by left.
    + intros x d [->|Hx]%elem_of_cons Hd Hne; [|by eapply Htaken].
      destruct (dep_keys_Some _ _ Hks d Hd Hne) as (k & Hk & Hin). exists k. split; [done|].
      apply Hmono, elem_of_addDep. by right.
  - injection H as [= <- <- <-]. exists []. rewrite !app_nil_r. split_and!; try done; [by intros ?? ?%elem_of_nil|].
    intros x rest' [= <- <-]. by apply dep_keys_None.
Qed.

Lemma chop_Ok chopped depOrder ops :
  (∀ d, is_ok (dep_key g b d) = true) → ∃ r, chop g b app chopped depOrder ops = Ok r.
Proof.
  intros Hd. revert chopped depOrder. induction ops as [|op ops IH]; intros chopped depOrder; simpl; [eauto|].
  destruct (dep_keys_Ok (go_deps op)) as [r ->]; [auto|]. simpl. destruct r; eauto.
Qed.
End chop.

(** ** The invariant *)

Section invariant.
Context (g : option Graph) (existing : gset string) (G0 : gmap string (list genOp)).

Notation original app := (default [] (G0 !! app)).

(** A dependency of an operation on another app, in the migration [m]: it
    depends on the leaf of that app when none of its operations is the one
    waited for, and else on a migration after all of those. *)
Definition resolved (blocks : string → list (list genOp)) (m : Migration) (d : opDep) : Prop :=
  (∃ k, leaf_or_first g (dep_app d) = Ok k ∧ k ∈ mig_Dependencies m ∧
        ∀ y, y ∈ original (dep_app d) → satisfiedBy d (go_op y) = false) ∨
  (∃ i, i < length (blocks (dep_app d)) ∧ mkKey (dep_app d) (auto_name (S i)) ∈ mig_Dependencies m ∧
        ∀ y, y ∈ original (dep_app d) → satisfiedBy d (go_op y) = true →
             ∃ j block, j ≤ i ∧ blocks (dep_app d) !! j = Some block ∧ y ∈ block).

(** The blocks are the operations of the migrations, in order. *)
Record built (b : building) (blocks : string → list (list genOp)) : Prop := {
  bt_split app : original app = concat (blocks app) ++ generated_of b app;
  bt_migs app : Forall2 (fun m block => mig_App m = app ∧ block ≠ [] ∧ mig_Operations m = map go_op block)
                  (migs_of b app) (blocks app);
  bt_some app l : b_migrations b !! app = Some l → l ≠ [];
  bt_names app i m : migs_of b app !! i = Some m → mig_Name m = auto_name (S i);
  bt_deps app i m block x d :
    migs_of b app !! i = Some m → blocks app !! i = Some block → x ∈ block → d ∈ go_deps x → dep_app d ≠ app →
    resolved blocks m d;
}.

Lemma built_start migApps : built (mkBuilding G0 ∅ migApps false) (fun _ => []).
Proof.
  split; unfold migs_of, generated_of; simpl; try done.
Qed.

Lemma built_chopMode b blocks : built b blocks → built (set_chopMode b) blocks.
Proof. intros Hb. split; apply Hb. Qed.

Lemma resolved_mono blocks blocks' m d :
  (∀ app, blocks app `prefix_of` blocks' app) → resolved blocks m d → resolved blocks' m d.
Proof.
  intros Hp [(k & Hk)|(i & Hi & Hin & Hy)]; [by left; exists k|]. right. exists i. destruct (Hp (dep_app d)) as [l Hl].
  split; [rewrite Hl, length_app; lia|]. split; [done|]. intros y Hy0 Hs.
  destruct (Hy y Hy0 Hs) as (j & block & Hj & Hb & Hin'). exists j, block. split; [done|]. split; [|done].
  rewrite Hl. by apply lookup_app_l_Some.
Qed.

Lemma migs_of_emit b app m rest a :
  migs_of (emit b app m rest) a = if bool_decide (a = app) then migs_of b app ++ [m] else migs_of b a.
Proof.
  unfold migs_of, emit. simpl. case_bool_decide as Ha; [subst a; by rewrite lookup_insert_eq|by rewrite lookup_insert_ne].
Qed.

Lemma generated_of_emit b app m rest a :
  generated_of (emit b app m rest) a = if bool_decide (a = app) then rest else generated_of b a.
Proof.
  unfold generated_of, emit. simpl. case_bool_decide as Ha; [subst a; by rewrite lookup_insert_eq|by rewrite lookup_insert_ne].
Qed.

(** What a key for a dependency stands for *)
Lemma dep_key_resolves b blocks d k m :
  built b blocks → dep_key g b d = Ok (Some k) → k ∈ mig_Dependencies m → resolved blocks m d.
Proof.
  intros Hb. unfold dep_key. destruct (existsb _ _) eqn:He; [done|].
  assert (∀ y, y ∈ generated_of b (dep_app d) → satisfiedBy d (go_op y) = false) as Hgen.
  { intros y Hy. apply not_true_iff_false. intros Hs. apply not_true_iff_false in He. apply He.
    apply existsb_exists. exists y. split; [by apply list_elem_of_In|done]. }
  pose proof (bt_split _ _ Hb (dep_app d)) as Hsplit. pose proof (bt_migs _ _ Hb (dep_app d)) as Hmigs.
  destruct (b_migrations b !! dep_app d) as [migs|] eqn:Hm.
  - destruct (last migs) as [mig|] eqn:Hl; [|done]. intros [= <-] Hk. right.
    assert (migs_of b (dep_app d) = migs) as Hmo by (unfold migs_of; by rewrite Hm).
    rewrite last_lookup in Hl. exists (pred (length migs)). rewrite Hmo in Hmigs.
    pose proof (lookup_lt_Some _ _ _ Hl) as Hlt. rewrite <- (Forall2_length _ _ _ Hmigs). split; [done|].
    rewrite (bt_names _ _ Hb (dep_app d) (pred (length migs)) mig) in Hk by (by rewrite Hmo). split; [done|].
    intros y Hy Hs. rewrite Hsplit in Hy. apply elem_of_app in Hy as [Hy|Hy]; [|by rewrite Hgen in Hs].
    apply list_elem_of_In, in_concat in Hy as (block & Hblock%list_elem_of_In & Hy%list_elem_of_In).
    apply list_elem_of_lookup in Hblock as (j & Hj). exists j, block. split; [|done].
    apply lookup_lt_Some in Hj. rewrite <- (Forall2_length _ _ _ Hmigs) in Hj. lia.
  - destruct (b_chopMode b); [|done]. intros (k' & Hk' & [= ->])%bind_Ok Hk. left. exists k.
    split; [done|]. split; [done|]. assert (migs_of b (dep_app d) = []) as Hmo by (unfold migs_of; by rewrite Hm).
    rewrite Hmo in Hmigs. apply Forall2_nil_inv_l in Hmigs. rewrite Hmigs in Hsplit. simpl in Hsplit.
    intros y Hy. apply Hgen. by rewrite <- Hsplit.
Qed.

(** ** What a round does *)

Lemma built_emit b blocks app chopped depOrder rest :
  built b blocks → chop g b app [] [] (generated_of b app) = Ok (chopped, depOrder, rest) → chopped ≠ [] →
  ∃ blocks', built (emit b app (new_migration existing b app chopped depOrder) rest) blocks'.
Proof.
  intros Hb Hc Hne. apply chop_spec in Hc as (taken & Hgen & Heq & _ & _ & Htaken & _). simpl in Heq. subst taken.
  set (m := new_migration existing b app chopped depOrder).
  set (blocks' := fun a => if bool_decide (a = app) then blocks app ++ [chopped] else blocks a).
  assert (∀ a, blocks a `prefix_of` blocks' a) as Hp.
  { intros a. unfold blocks'. case_bool_decide; [subst a; by exists [chopped]|done]. }
  assert (length (migs_of b app) = length (blocks app)) as Hlen by apply (Forall2_length _ _ _ (bt_migs _ _ Hb app)).
  exists blocks'. split.
  - intros a. rewrite generated_of_emit, (bt_split _ _ Hb a). unfold blocks'. case_bool_decide as Ha; [|done].
    subst a. rewrite Hgen, concat_app. simpl. by rewrite app_nil_r, <- app_assoc.
  - intros a. rewrite migs_of_emit. unfold blocks'. case_bool_decide as Ha; [subst a|apply Hb].
    apply Forall2_app; [apply Hb|]. by repeat constructor.
  - intros a l. unfold emit. simpl. destruct (decide (a = app)) as [->|Ha].
    + rewrite lookup_insert_eq. intros [= <-]. by destruct (default [] _).
    + rewrite lookup_insert_ne by done. apply Hb.
  - intros a i m'. rewrite migs_of_emit. case_bool_decide as Ha; [subst a|apply Hb].
    intros [Hi|(Hi & Hm)]%lookup_app_Some; [by eapply Hb|]. apply list_lookup_singleton_Some in Hm as [Hi0 <-].
    simpl. unfold auto_name. fold (migs_of b app). do 2 f_equal. lia.
  - intros a i m' block x d Hm Hblk Hx Hd Hda. eapply (resolved_mono blocks); [done|].
    rewrite migs_of_emit in Hm. unfold blocks' in Hblk. case_bool_decide as Ha; [subst a|by eapply Hb].
    apply lookup_app_Some in Hm as [Hm|[Hi Hm]].
    + rewrite lookup_app_l in Hblk by (rewrite <- Hlen; by eapply lookup_lt_Some). by eapply Hb.
    + rewrite lookup_app_r in Hblk by lia. apply list_lookup_singleton_Some in Hm as [_ <-].
      apply list_lookup_singleton_Some in Hblk as [_ <-].
      destruct (Htaken x d Hx Hd Hda) as (k & Hk & Hin). by eapply dep_key_resolves.
Qed.

Lemma count_insert (m : gmap string (list genOp)) app l :
  m !! app = None → count (<[app := l]> m) = length l + count m.
Proof. intros Hm. unfold count. by rewrite map_to_list_insert. Qed.

Lemma count_replace (m : gmap string (list genOp)) app l :
  count (<[app := l]> m) + length (default [] (m !! app)) = length l + count m.
Proof.
  destruct (m !! app) as [l0|] eqn:Hm; simpl; [|rewrite count_insert by done; lia].
  rewrite <- (insert_delete_id m app l0) at 2 by done. rewrite <- insert_delete_eq.
  rewrite !count_insert by apply lookup_delete_eq. lia.
Qed.

Lemma count_zero b : count (b_generated b) = 0 ↔ ∀ app, generated_of b app = [].
Proof.
  unfold generated_of, count. split.
  - intros H app. destruct (b_generated b !! app) as [l|] eqn:Hl; [|done]. simpl. apply nil_length_inv.
    apply elem_of_map_to_list in Hl. apply list_elem_of_split in Hl as (l1 & l2 & Hl).
    rewrite Hl, map_app, sum_list_with_app in H. simpl in H. lia.
  - intros H. assert (∀ p, p ∈ map_to_list (b_generated b) → p.2 = []) as Hp.
    { intros [app l] Hp%elem_of_map_to_list. specialize (H app). by rewrite Hp in H. }
    induction (map_to_list _) as [|p l IH]; [done|]. simpl. rewrite (Hp p) by left. apply IH. intros. apply Hp. by right.
Qed.

Lemma count_nonzero b : count (b_generated b) ≠ 0 → ∃ app, generated_of b app ≠ [].
Proof.
  intros Hz. destruct (decide (Forall (fun p => p.2 = []) (map_to_list (b_generated b)))) as [Hall|Hex].
  - destruct Hz. apply count_zero. intros app. unfold generated_of. destruct (b_generated b !! app) as [l|] eqn:Hl; [|done].
    apply elem_of_map_to_list in Hl. rewrite Forall_forall in Hall. by apply (Hall _ Hl).
  - apply not_Forall_Exists in Hex; [|apply _]. apply Exists_exists in Hex as ([app l] & Hl%elem_of_map_to_list & Hne).
    exists app. unfold generated_of. by rewrite Hl.
Qed.

(** The leaf of any app can be asked for: every node of the graph is there. *)
Hypothesis leaf_Ok : ∀ app, is_ok (leaf_or_first g app) = true.

Lemma dep_key_Ok b blocks d : built b blocks → is_ok (dep_key g b d) = true.
Proof.
  intros Hb. unfold dep_key. destruct (existsb _ _); [done|].
  destruct (b_migrations b !! dep_app d) as [migs|] eqn:Hm.
  - pose proof (bt_some _ _ Hb _ _ Hm) as Hne. destruct (last migs) eqn:Hl; [done|]. by apply last_None in Hl.
  - destruct (b_chopMode b); [|done]. specialize (leaf_Ok (dep_app d)). by destruct (leaf_or_first g (dep_app d)).
Qed.

(** In chopMode an operation is held back only by one still to come. *)
Lemma dep_key_held b d :
  dep_key g b d = Ok None → b_chopMode b = true → ∃ y, y ∈ generated_of b (dep_app d) ∧ satisfiedBy d (go_op y) = true.
Proof.
  unfold dep_key. destruct (existsb _ _) eqn:He.
  - intros _ _. apply existsb_exists in He as (y & Hy%list_elem_of_In & Hs). eauto.
  - destruct (b_migrations b !! dep_app d) as [migs|]; [by destruct (last migs)|]. intros Hk Hc. rewrite Hc in Hk.
    by apply bind_Ok in Hk as (k & _ & [=]).
Qed.

(** The first operation of an app waits for one still to come in another. *)
Definition held (remaining : string → list genOp) (app : string) : Prop :=
  ∀ x rest, remaining app = x :: rest →
  ∃ d y, d ∈ go_deps x ∧ dep_app d ≠ app ∧ y ∈ remaining (dep_app d) ∧ satisfiedBy d (go_op y) = true.

(** A round changes nothing, or puts operations in a migration. *)
Definition progress (b b' : building) : Prop :=
  (∃ blocks, built b' blocks) ∧ count (b_generated b') < count (b_generated b) ∧ b_chopMode b' = false.

Lemma build_app_spec b blocks app :
  built b blocks →
  ∃ b', build_app g existing b app = Ok b' ∧
        (b' = b ∧ (b_chopMode b = true → held (generated_of b) app) ∨ progress b b').
Proof.
  intros Hb. unfold build_app.
  destruct (chop_Ok g b app [] [] (generated_of b app)) as [[[chopped depOrder] rest] Hc]; [intros; by eapply dep_key_Ok|].
  rewrite Hc. simpl. apply chop_spec in Hc as Hs. destruct Hs as (taken & Hgen & Heq & _ & Hnil & _ & Hstop).
  simpl in Heq. subst taken. eexists. split; [done|].
  destruct (decide (chopped = [])) as [->|Hne].
  - rewrite (Hnil eq_refl), !bool_decide_eq_true_2 by done. left. split; [done|]. intros Hchop x l Hx.
    rewrite Hgen in Hx. destruct (Hstop x l Hx) as (d & Hd & Hne & Hk).
    destruct (dep_key_held _ _ Hk Hchop) as (y & Hy & Hs). eauto 10.
  - rewrite (bool_decide_eq_false_2 (chopped = [])), andb_false_r by done. case_match eqn:Hcase.
    + right. split; [|split]; [by eapply built_emit| |done]. unfold emit. simpl.
      pose proof (count_replace (b_generated b) app rest) as Hcount. unfold generated_of in Hgen.
      rewrite Hgen, length_app in Hcount. destruct chopped; [done|]. simpl in Hcount. lia.
    + apply orb_false_iff in Hcase as [_ Hchop]. left. split; [done|]. by rewrite Hchop.
Qed.

Lemma build_round l b blocks :
  built b blocks →
  ∃ b', foldM (build_app g existing) b l = Ok b' ∧
        (b' = b ∧ (b_chopMode b = true → ∀ app, app ∈ l → held (generated_of b) app) ∨ progress b b').
Proof.
  revert b blocks. induction l as [|app l IH]; intros b blocks Hb; simpl.
  { exists b. split; [done|]. left. split; [done|]. intros _ app. by intros ?%elem_of_nil. }
  destruct (build_app_spec b blocks app Hb) as (b1 & -> & [[-> Hheld]|Hp]).
  - destruct (IH b blocks Hb) as (b' & Hf & [[-> Hl]|Hp]); [|by eauto]. exists b. split; [done|]. left. split; [done|].
    intros Hc a [->|Ha]%elem_of_cons; auto.
  - destruct Hp as ([blocks1 Hb1] & Hlt & Hchop). destruct (IH b1 blocks1 Hb1) as (b' & Hf & Hb').
    exists b'. split; [done|]. right. destruct Hb' as [[-> _]|(Hb' & Hlt' & Hchop')].
    + split; [by eexists|done].
    + split; [done|]. split; [lia|done].
Qed.

(** The rounds end: with everything in a migration, or in a deadlock of what
    is left. *)
Definition deadlocked (remaining : string → list genOp) : Prop :=
  (∀ app, remaining app `suffix_of` original app) ∧ (∃ app, remaining app ≠ []) ∧ ∀ app, held remaining app.

Lemma build_loop_spec FormatOperation apps fuel b blocks :
  (∀ app, is_Some (G0 !! app) → app ∈ apps) → built b blocks →
  2 * count (b_generated b) + (if b_chopMode b then 0 else 1) ≤ fuel →
  ∃ r, build_loop g existing FormatOperation apps fuel b = Some r ∧
       match r with
       | Ok b' => (∃ blocks', built b' blocks') ∧ ∀ app, generated_of b' app = []
       | Err _ => ∃ remaining, deadlocked remaining
       | Panic _ => False
       end.
Proof.
  intros Happs. revert b blocks. induction fuel as [|fuel IH]; intros b blocks Hb Hf; simpl.
  { rewrite bool_decide_eq_true_2 by lia. eexists. split; [done|]. split; [by eexists|]. apply count_zero. lia. }
  case_bool_decide as Hz.
  { eexists. split; [done|]. split; [by eexists|]. by apply count_zero. }
  destruct (build_round (sort_strings apps) b blocks Hb) as (b' & -> & Hb'). case_bool_decide as Hc.
  - destruct Hb' as [[-> Hheld]|(_ & Hlt & _)]; [|lia]. destruct (b_chopMode b) eqn:Hchop.
    + eexists. split; [done|]. exists (generated_of b). split_and!.
      * intros app. rewrite (bt_split _ _ Hb app). by exists (concat (blocks app)).
      * by apply count_nonzero.
      * intros app x rest Hx. cut (held (generated_of b) app); [intros Hh; by eapply Hh|]. apply Hheld; [done|].
        unfold sort_strings. rewrite merge_sort_Permutation. apply Happs. pose proof (bt_split _ _ Hb app) as Hs.
        rewrite Hx in Hs. destruct (G0 !! app); [by eexists|]. simpl in Hs. by destruct (concat (blocks app)).
    + apply (IH _ _ (built_chopMode b blocks Hb)). simpl. lia.
  - destruct Hb' as [[-> _]|([blocks' Hb'] & Hlt & Hchop)]; [done|]. apply (IH b' blocks' Hb'). rewrite Hchop. lia.
Qed.
End invariant.

(** ** The apps of the migrations *)

(** migrationApps lists the apps that have migrations, each once. *)
Definition listed (b : building) : Prop :=
  NoDup (b_migrationApps b) ∧ ∀ app, app ∈ b_migrationApps b ↔ is_Some (b_migrations b !! app).

Lemma listed_emit b app m rest : listed b → listed (emit b app m rest).
Proof.
  intros [Hnd Hin]. unfold listed, emit. simpl. split.
  - case_bool_decide as Hs; [done|]. assert (app ∉ b_migrationApps b) by (by rewrite Hin).
    apply NoDup_app. split; [done|]. split; [set_solver|]. apply NoDup_singleton.
  - intros a. destruct (decide (a = app)) as [->|Hne].
    + rewrite lookup_insert_eq. split; [by eexists|]. intros _. case_bool_decide as Hs; [by apply Hin|set_solver].
    + rewrite lookup_insert_ne by done. etrans; [|apply Hin]. case_bool_decide; set_solver.
Qed.

Lemma listed_round g existing l b b' : listed b → foldM (build_app g existing) b l = Ok b' → listed b'.
Proof.
  revert b. induction l as [|app l IH]; intros b Hb; [by intros [= <-]|]. rewrite foldM_cons.
  intros (b1 & H1 & Hf)%bind_Ok. apply (IH b1); [|done]. unfold build_app in H1.
  apply bind_Ok in H1 as ([[chopped depOrder] rest] & _ & [= <-]). repeat case_match; [done| |done]. by apply listed_emit.
Qed.

Lemma listed_loop g existing FormatOperation apps fuel b b' :
  listed b → build_loop g existing FormatOperation apps fuel b = Some (Ok b') → listed b'.
Proof.
  revert b. induction fuel as [|fuel IH]; intros b Hb; simpl; case_bool_decide; try done; try by intros [= <-].
  destruct (foldM _ _ _) as [b1| |] eqn:Hf; [|done..]. apply listed_round in Hf; [|done].
  case_bool_decide; [|by apply IH]. destruct (b_chopMode b1); [done|]. by apply IH.
Qed.
