(* ===== verification/AutoTheorems.v ===== *)
(** * What the autodetector makes of the operations it generates

    Each operation follows those it waits for: within its app by
    sortMigrations, between apps by buildMigrationList. *)

From S2P Require Import Prelude GoStd Keys Errors Fields Index ModelState Apps ProjectState Operation.
From S2P Require Import SchemaEditor Effects Respects Migration Questioner AutoDeps DetectModels DetectFields.
From S2P Require Import Graph GraphLemmas Loader LoaderLemmas TopoSort OptimizerTermination AutoBuild.
From S2P Require Import BuildTheorems.

(** ** What the steps of a detection leave alone

    Whatever a step does to the operations generated, it does by
    addOperation: the apps that have some are listed, each once. *)

(** A relation has a target: its dependencies can be computed. *)
Lemma foreign_key_dependencies_Ok app f : ∃ deps, foreign_key_dependencies app f = Ok deps.
Proof.
  unfold foreign_key_dependencies, dependenciesForForeignKey, IsRelation. destruct (fld_ForeignKey f); simpl; eauto.
Qed.

Section detect.
Context {Q : Type} `{!Questioner Q} `{!Comparison}.
Implicit Types a : Autodetector Q.

(** generatedApps lists the apps of the generated operations, each once. *)
Definition apps_ok a : Prop :=
  NoDup (ad_generatedApps a) ∧ ∀ app, app ∈ ad_generatedApps a ↔ is_Some (ad_generated a !! app).

Definition keeps_apps a a' : Prop := (apps_ok a → apps_ok a') ∧ ad_migrationApps a' = ad_migrationApps a.

#[export] Instance keeps_apps_preorder : PreOrder keeps_apps.
Proof. split; [by intros a|]. intros a b c [H1 E1] [H2 E2]. split; [auto|congruence]. Qed.

Lemma respects_modify (f : Autodetector Q → Autodetector Q) :
  (∀ a, keeps_apps a (f a)) → respects keeps_apps (modify f).
Proof. intros Hf a. apply Hf. Qed.

Lemma respects_ask {A} (m : io Q A) : respects keeps_apps (ask m).
Proof. intros a. unfold ask, zoom. by destruct (m (ad_q a)). Qed.

Lemma respects_addOperation app op deps beginning : respects keeps_apps (addOperation app op deps beginning).
Proof.
  intros a. split; [|done]. intros [Hnd Hin]. unfold apps_ok. simpl. case_bool_decide as Hs.
  - split; [done|]. intros a'. rewrite Hin, lookup_insert_is_Some'. naive_solver.
  - split.
    + apply NoDup_app. split; [done|]. split; [|apply NoDup_singleton].
      intros a' Ha' ->%list_elem_of_singleton. by apply Hs, Hin.
    + intros a'. rewrite lookup_insert_is_Some', elem_of_app, Hin, list_elem_of_singleton. naive_solver.
Qed.
Hint Resolve respects_ask respects_addOperation : respects.

(** Every other change of the state is one the operations do not see. *)
Ltac detect_step := first
  [ apply respects_modify; intros ?; split; [done|done]
  | respect_step ].
Ltac detects := repeat detect_step.

Lemma respects_rename_to k ms gone : respects keeps_apps (rename_to k ms gone).
Proof. induction gone as [|rk gone IH]; simpl; detects; apply IH. Qed.
Hint Resolve respects_rename_to : respects.

Lemma respects_rename_field_to nk oldMS field keys gone : respects keeps_apps (rename_field_to nk oldMS field keys gone).
Proof. induction gone as [|rk gone IH]; simpl; detects; apply IH. Qed.
Hint Resolve respects_rename_field_to : respects.

Lemma respects_steps : ∀ step, step ∈ detection_steps → respects keeps_apps step.
Proof.
  unfold detection_steps. intros step Hs.
  repeat (apply elem_of_cons in Hs as [->|Hs]; [|]); [..|by apply elem_of_nil in Hs].
  all: cbv delta [generateRenamedModels prepareFieldLists generateDeletedModels generateCreatedModels generateAlteredOptions
    generateAlteredDBTableComment createRenamedFields createAlteredIndexes createAlteredConstraints
    generateRemovedConstraints generateRemovedIndexes generateRenamedFields generateRenamedIndexes
    generateRemovedAlteredUniqueTogether generateRemovedFields generateAddedFields generateAlteredFields
    generateAlteredUniqueTogether generateAddedIndexes generateAddedConstraints generateAlteredConstraints
    generateAlteredDBTable delete_model create_model complete_model add_related compare_models compare_kept rename_field
    generateRemovedField generateAddedField generateAlteredField ask_default ask_not_null alteredUniqueTogether] beta.
  all: detects.
Qed.

Lemma respects_run_steps l : (∀ step, step ∈ l → respects keeps_apps step) → respects keeps_apps (run_steps l).
Proof.
  induction l as [|step l IH]; intros Hs; [by intros a|]. unfold run_steps, for_io. simpl.
  apply respects_bind; [apply _|apply Hs; left|]. intros []. apply IH. intros. apply Hs. by right.
Qed.
End detect.

(** ** The migrations *)

Definition ops_of (generated : gmap string (list genOp)) (app : string) : list genOp := default [] (generated !! app).

(** The graph of migrations the autodetector is given, if any, is well formed. *)
Definition graph_ok (g : option Graph) : Prop := match g with Some g => graph_wf g | None => True end.

Lemma leaf_or_first_Ok g app : graph_ok g → is_ok (leaf_or_first g app) = true.
Proof.
  destruct g as [g|]; [|done]. intros Hwf. simpl. destruct (LeafNodes_spec g app Hwf) as (leaves & -> & _). done.
Qed.

(** ** Between apps *)

(** The migrations of the apps hold these operations, block by block. *)
Definition holds_blocks (migrations : gmap string (list Migration)) (blocks : string → list (list genOp)) : Prop :=
  ∀ app, Forall2 (fun m block => mig_App m = app ∧ block ≠ [] ∧ mig_Operations m = map go_op block)
           (default [] (migrations !! app)) (blocks app) ∧
         ∀ i m, default [] (migrations !! app) !! i = Some m → mig_Name m = auto_name (S i).

(** Every dependency of an operation on another app is resolved by its
    migration. *)
Definition dependencies_resolved (g : option Graph) (generated : gmap string (list genOp))
    (migrations : gmap string (list Migration)) (blocks : string → list (list genOp)) : Prop :=
  ∀ app i m block x d,
    default [] (migrations !! app) !! i = Some m → blocks app !! i = Some block → x ∈ block → d ∈ go_deps x →
    dep_app d ≠ app → resolved g generated blocks m d.

(** buildMigrationList returns: either every operation of every app, in its
    order, is in one migration, under whose dependencies all it waits for in
    other apps comes before; or some of what is left waits for one another. *)
Lemma buildMigrationList_spec g existing FormatOperation apps generated :
  graph_ok g → (∀ app, is_Some (generated !! app) → app ∈ apps) →
  (∃ b blocks, buildMigrationList g existing FormatOperation apps generated [] = Ok b ∧ listed b ∧
     (∀ app, concat (blocks app) = ops_of generated app) ∧ holds_blocks (b_migrations b) blocks ∧
     dependencies_resolved g generated (b_migrations b) blocks) ∨
  (∃ e remaining, buildMigrationList g existing FormatOperation apps generated [] = Err e ∧
     deadlocked generated remaining).
Proof.
  intros Hg Happs. unfold buildMigrationList.
  destruct (build_loop_spec g existing generated (fun app => leaf_or_first_Ok g app Hg) FormatOperation apps
              (build_fuel generated) _ _ Happs (built_start g generated [])) as (r & Hl & Hr).
  { unfold build_fuel. simpl. lia. }
  rewrite Hl. destruct r as [b|e|e]; [left|right|done].
  - destruct Hr as [[blocks Hb] Hend]. exists b, blocks. split; [done|]. split_and!.
    + eapply listed_loop; [|exact Hl]. split; [apply NoDup_nil_2|]. simpl. intros app. rewrite lookup_empty.
      split; [set_solver|by intros []].
    + intros app. pose proof (bt_split _ _ _ _ Hb app) as Hs. rewrite Hend, app_nil_r in Hs. by symmetry.
    + intros app. split; [apply Hb|]. intros i m Hm. by eapply (bt_names _ _ _ _ Hb).
    + intros app i m block x d Hm. by apply (bt_deps _ _ _ _ Hb).
  - destruct Hr as [remaining Hr]. by exists e, remaining.
Qed.

(** What is resolved only depends on which operations there are, and on what
    the migration depends on. *)
Lemma resolved_mono_deps g G G' blocks m m' d :
  (∀ y, y ∈ ops_of G' (dep_app d) → y ∈ ops_of G (dep_app d)) →
  (∀ k, k ∈ mig_Dependencies m → k ∈ mig_Dependencies m') → resolved g G blocks m d → resolved g G' blocks m' d.
Proof.
  intros HG Hm [(k & Hl & Hk & Hy)|(i & Hi & Hk & Hy)]; [left; exists k|right; exists i]; split_and!; auto.
Qed.

(** Apps whose operations wait only for those of apps of a lower rank are not
    deadlocked. *)
Lemma ranked_no_deadlock (rank : string → nat) generated remaining :
  (∀ app x d y, x ∈ ops_of generated app → d ∈ go_deps x → dep_app d ≠ app → y ∈ ops_of generated (dep_app d) →
     satisfiedBy d (go_op y) = true → rank (dep_app d) < rank app) →
  ¬ deadlocked generated remaining.
Proof.
  intros Hrank (Hsuf & (app & Hne) & Hheld).
  cut (∀ n app, rank app < n → remaining app = []); [intros H; apply Hne, (H (S (rank app))); lia|].
  clear app Hne. induction n as [|n IH]; intros app Hn; [lia|]. destruct (remaining app) as [|x rest] eqn:Hr; [done|exfalso].
  destruct (Hheld app x rest Hr) as (d & y & Hd & Hda & Hy & Hs).
  assert (∀ a z, z ∈ remaining a → z ∈ ops_of generated a) as Hin.
  { intros a z Hz. destruct (Hsuf a) as [l Hl]. unfold ops_of. rewrite Hl. set_solver. }
  assert (rank (dep_app d) < rank app) by (eapply (Hrank app x d y); auto; apply Hin; rewrite Hr; left).
  rewrite (IH (dep_app d)) in Hy by lia. by apply elem_of_nil in Hy.
Qed.

(** ** optimizeMigrations *)

Lemma foldl_alter_lookup {A} (f : string → A → A) apps (m : gmap string A) a :
  NoDup apps →
  foldl (fun m app => alter (f app) app m) m apps !! a = if bool_decide (a ∈ apps) then f a <$> m !! a else m !! a.
Proof.
  revert m. induction apps as [|app apps IH]; intros m Hnd; simpl; [done|]. apply NoDup_cons in Hnd as [Hn Hnd].
  rewrite IH by done. destruct (decide (a = app)) as [->|Hne].
  - rewrite lookup_alter_eq, bool_decide_eq_false_2, bool_decide_eq_true_2 by set_solver. done.
  - rewrite lookup_alter_ne by done. repeat case_bool_decide; set_solver.
Qed.

Lemma optimizeMigrations_lookup apps migrations app :
  NoDup apps → (∀ app, is_Some (migrations !! app) → app ∈ apps) →
  optimizeMigrations apps migrations !! app = (fun l => map (optimize_migration app) (chain app l)) <$> migrations !! app.
Proof.
  intros Hnd Hin. unfold optimizeMigrations. rewrite !foldl_alter_lookup by done. case_bool_decide as Ha.
  - by destruct (migrations !! app).
  - destruct (migrations !! app) eqn:Hm; [|done]. destruct Ha. apply Hin. by eexists.
Qed.

Lemma elem_of_dedup_keys seen deps k : k ∈ dedup_keys_from seen deps ↔ k ∈ deps ∧ k ∉ seen.
Proof.
  revert seen. induction deps as [|d deps IH]; intros seen; simpl; [set_solver|].
  case_bool_decide; [rewrite IH; set_solver|]. rewrite elem_of_cons, IH. destruct (decide (k = d)); set_solver.
Qed.

(** A migration of an app in its place: it keeps what it has, and depends on
    the one before it. *)
Definition chained (app : string) (prev : option Migration) (m m' : Migration) : Prop :=
  mig_App m' = mig_App m ∧ mig_Name m' = mig_Name m ∧ mig_Operations m' = Optimize (mig_Operations m) app ∧
  (∀ k, k ∈ mig_Dependencies m → k ∈ mig_Dependencies m') ∧
  ∀ p, prev = Some p → mkKey app (mig_Name p) ∈ mig_Dependencies m'.

Lemma chain_from_lookup app prev l i m' :
  map (optimize_migration app) (chain_from app prev l) !! i = Some m' →
  ∃ m, l !! i = Some m ∧ chained app ((prev :: l) !! i) m m'.
Proof.
  revert prev i. induction l as [|m l IH]; intros prev i; simpl; [done|]. destruct i as [|i]; simpl.
  - intros [= <-]. exists m. split; [done|]. unfold chained. simpl. setoid_rewrite elem_of_dedup_keys. set_solver.
  - intros Hm. destruct (IH _ _ Hm) as (m0 & Hm0 & Hc). exists m0. split; [done|].
    destruct i as [|i]; [|done]. simpl in *. destruct Hc as (H1 & H2 & H3 & H4 & H5). split_and!; try done.
    intros p [= ->]. by apply (H5 _ eq_refl).
Qed.

Lemma chain_lookup app l i m' :
  map (optimize_migration app) (chain app l) !! i = Some m' →
  ∃ m, l !! i = Some m ∧ chained app (match i with 0 => None | S i => l !! i end) m m'.
Proof.
  destruct l as [|m l]; simpl; [done|]. destruct i as [|i]; simpl.
  - intros [= <-]. exists m. split; [done|]. unfold chained. simpl. setoid_rewrite elem_of_dedup_keys. set_solver.
  - apply chain_from_lookup.
Qed.

Lemma length_chain app l : length (map (optimize_migration app) (chain app l)) = length l.
Proof.
  rewrite length_map. destruct l as [|m l]; simpl; [done|]. f_equal. revert m.
  induction l as [|m' l IH]; intros m; simpl; [done|]. by rewrite IH.
Qed.

(** ** detectChanges *)

(** The migrations of the apps, in order: each is made of one block of
    operations, optimised, and depends on the one before it. *)
Definition made_of_blocks (changes : gmap string (list Migration)) (blocks : string → list (list genOp)) : Prop :=
  ∀ app, Forall2 (fun m block => mig_App m = app ∧ block ≠ [] ∧ mig_Operations m = Optimize (map go_op block) app)
           (default [] (changes !! app)) (blocks app) ∧
         ∀ i m, default [] (changes !! app) !! i = Some m →
                mig_Name m = auto_name (S i) ∧ (0 < i → mkKey app (auto_name i) ∈ mig_Dependencies m).

(** Every operation of an app is in one block, after all it waits for in the
    app. *)
Definition ordered_blocks (generated : gmap string (list genOp)) (blocks : string → list (list genOp)) : Prop :=
  ∀ app, ∃ out, ordered_positions app (ops_of generated app) out ∧
                concat (blocks app) = omap (M:=list) (fun i => ops_of generated app !! i) out.

Lemma optimised_blocks apps g G migrations blocks :
  NoDup apps → (∀ app, is_Some (migrations !! app) → app ∈ apps) →
  holds_blocks migrations blocks → dependencies_resolved g G migrations blocks →
  made_of_blocks (optimizeMigrations apps migrations) blocks ∧
  dependencies_resolved g G (optimizeMigrations apps migrations) blocks.
Proof.
  intros Hnd Hin Hh Hd.
  assert (∀ app, default [] (optimizeMigrations apps migrations !! app) =
                 map (optimize_migration app) (chain app (default [] (migrations !! app)))) as Hlook.
  { intros app. rewrite optimizeMigrations_lookup by done. by destruct (migrations !! app). }
  split.
  - intros app. rewrite Hlook. destruct (Hh app) as [Hf Hn]. split.
    + apply Forall2_same_length_lookup. rewrite length_chain. split; [by eapply Forall2_length|].
      intros i m' block Hm' Hb. apply chain_lookup in Hm' as (m & Hm & Ha & _ & Ho & _).
      destruct (Forall2_lookup_lr _ _ _ _ _ _ Hf Hm Hb) as (H1 & H2 & H3). split_and!; [congruence|done|congruence].
    + intros i m' Hm'. apply chain_lookup in Hm' as (m & Hm & _ & Hname & _ & _ & Hprev). split; [rewrite Hname; by apply Hn|].
      destruct i as [|i]; [lia|]. intros _. assert (i < length (default [] (migrations !! app))) as Hlt
        by (apply lookup_lt_Some in Hm; lia). apply lookup_lt_is_Some in Hlt as [p Hp]. rewrite <- (Hn i p Hp). by apply Hprev.
  - intros app i m' block x d. rewrite Hlook. intros Hm' Hb Hx Hdep Hne.
    apply chain_lookup in Hm' as (m & Hm & _ & _ & _ & Hk & _).
    eapply resolved_mono_deps; [done|exact Hk|by eapply Hd].
Qed.

Section detectChanges.
Context {Q : Type} `{!Questioner Q} `{!Comparison} (FormatOperation : Operation → string) (g : option Graph).

Lemma detect_apps q a1 r : detect (Autodetector_New q) = (a1, r) → apps_ok a1 ∧ ad_migrationApps a1 = [].
Proof.
  unfold detect, mbind, io_bind, modify. intros Hr.
  pose proof (respects_run_steps _ respects_steps) as Hres.
  specialize (Hres (reset_detection (Autodetector_New q))). rewrite Hr in Hres. simpl in Hres. destruct Hres as [Hok Hm].
  split; [|done]. apply Hok. split; simpl; [apply NoDup_nil_2|]. intros app. rewrite lookup_empty. split; [set_solver|by intros []].
Qed.

(** C4: What the operations generated are turned into: migrations in which every
    operation follows those it waits for, in its app and in others; or an
    error, when some of them all wait for one another. *)
Theorem detectChanges_ordered q a1 :
  graph_ok g → detect (Autodetector_New q) = (a1, Ok tt) →
  let G := ad_generated a1 in
  (∃ a2 changes blocks, detectChanges FormatOperation g (Autodetector_New q) = (a2, Ok changes) ∧
     ordered_blocks G blocks ∧ made_of_blocks changes blocks ∧ dependencies_resolved g G changes blocks) ∨
  (∃ a2 e, detectChanges FormatOperation g (Autodetector_New q) = (a2, Err e) ∧
     ((∃ app S, op_deadlock app (ops_of G app) S) ∨
      (∃ sorted remaining, sortMigrations (ad_generatedApps a1) G = Ok sorted ∧ deadlocked sorted remaining))).
Proof.
  intros Hg Hdet G. destruct (detect_apps q a1 _ Hdet) as [[Hnd Hin] Hmigs].
  unfold detectChanges, build_migrations, mbind, io_bind. rewrite Hdet. unfold get_state, lift. fold G.
  destruct (sortMigrations_total (ad_generatedApps a1) G Hnd) as [[sorted Hs]|(e & app & S & He & _ & HS)].
  2: { right. rewrite He. by eauto 10. }
  rewrite Hs. pose proof (sortMigrations_apps _ _ _ Hnd Hs) as Hsort.
  assert (∀ app, ∃ out, ordered_positions app (ops_of G app) out ∧
                        ops_of sorted app = omap (M:=list) (fun i => ops_of G app !! i) out) as Hord.
  { intros app. destruct (Hsort app) as [H1 H2]. destruct (decide (app ∈ ad_generatedApps a1)) as [Ha|Ha].
    - destruct (H1 Ha) as (s & Hsa & Hl). destruct (sort_app_spec app (ops_of G app)) as [(out & Ho & Hp)|(e & S & Ho & _)].
      + exists out. split; [done|]. unfold ops_of. rewrite Hl. simpl. unfold ops_of in Ho. congruence.
      + unfold ops_of in Ho. congruence.
    - exists []. unfold ops_of. rewrite H2 by done. destruct (G !! app) eqn:Heq; [destruct Ha; apply Hin; by eexists|].
      simpl. split; [|done]. split; [done|]. intros n p x y Hx. by rewrite lookup_nil in Hx. }
  assert (∀ app, is_Some (sorted !! app) → app ∈ ad_generatedApps a1) as Hsub.
  { intros app Ha. destruct (decide (app ∈ ad_generatedApps a1)) as [|Hn]; [done|].
    apply Hin. by rewrite (proj2 (Hsort app) Hn) in Ha. }
  destruct (buildMigrationList_spec g existingApps FormatOperation (ad_generatedApps a1) sorted Hg Hsub)
    as [(b & blocks & Hb & [Hbn Hbi] & Hc & Hh & Hd)|(e & remaining & He & Hdead)]; rewrite Hmigs.
  2: { right. rewrite He. eexists _, e. split; [done|]. right. eauto. }
  left. rewrite Hb. eexists _, _, blocks. split; [done|]. simpl.
  destruct (optimised_blocks (b_migrationApps b) g sorted (b_migrations b) blocks Hbn (fun app => proj2 (Hbi app)) Hh Hd)
    as [Hmade Hres]. split_and!; [|done|].
  - intros app. rewrite Hc. destruct (Hord app) as (out & Hout & Heq). by exists out.
  - intros app i m block x d Hm Hblk Hx Hdep Hne. eapply resolved_mono_deps; [|by auto|by eapply Hres].
    intros y Hy. destruct (Hord (dep_app d)) as (out & Hout & Heq). rewrite Heq.
    by rewrite (ordered_positions_permutation _ _ _ Hout).
Qed.
End detectChanges.
