(* ===== verification/NoChanges.v ===== *)
(** * Nothing changed, nothing to migrate

    An Autodetector that compares a state with itself generates no
    operation, asks no question and returns no migration. *)

From S2P Require Import Prelude GoStd Keys Errors Fields Index ModelState Apps ProjectState Operation SchemaEditor.
From S2P Require Import Effects Migration Graph Loader Questioner AutoDeps DetectModels DetectFields AutoTheorems AutoBuild.

(** ** A definition equals itself *)

(** Values reflection finds equal to themselves: anything but a function *)
Definition value_comparable (v : KVValue) : Prop := DeepEqual v v = true.

Lemma kv_same_refl kv : value_comparable (kv_Value kv) → kv_same kv kv = true.
Proof.
  unfold kv_same, value_comparable. intros Hv. rewrite bool_decide_eq_true_2 by done. simpl.
  destruct (kv_Value kv); try done. by rewrite bool_decide_eq_true_2.
Qed.

Lemma Deconstruct_comparable f kv : db_default_comparable f → kv ∈ Deconstruct f → value_comparable (kv_Value kv).
Proof.
  intros Hf ([k get] & Hin & Hkv)%list_elem_of_omap. apply fmap_Some in Hkv as (v & Hv & ->). simpl.
  unfold Field_attributes in Hin. unfold value_comparable, db_default_comparable in *.
  repeat (apply elem_of_cons in Hin as [[= -> ->]|Hin]; [|]); [..|by apply elem_of_nil in Hin].
  all: unfold at_string, at_int, at_bool in Hv; try (case_match; simplify_eq; by apply bool_decide_eq_true_2).
  all: apply fmap_Some in Hv as (x & Hx & ->); simpl; try by apply bool_decide_eq_true_2.
  - rewrite Hx in Hf. destruct x as [[[]|] e]; unfold DBDefault_DeepEqual; simpl; try done;
      by rewrite !bool_decide_eq_true_2.
  - destruct x; by apply bool_decide_eq_true_2.
Qed.

Lemma all_pairs_refl {A} (eqb : A → A → bool) l : (∀ x, x ∈ l → eqb x x = true) → all_pairs eqb l l = true.
Proof.
  induction l as [|x l IH]; intros Hl; simpl; [done|]. rewrite Hl by left. simpl. apply IH. intros. apply Hl. by right.
Qed.

Lemma definition_same f app :
  db_default_comparable f →
  kvEqual (qualifyRelationTarget (Deconstruct f) app) (qualifyRelationTarget (Deconstruct f) app) = true.
Proof.
  intros Hf. apply all_pairs_refl. intros kv (kv0 & -> & Hin)%list_elem_of_fmap. apply kv_same_refl. simpl.
  pose proof (Deconstruct_comparable f kv0 Hf Hin) as Hv. unfold qualify_value. destruct (kv_Value kv0); try done.
  case_match; by apply bool_decide_eq_true_2.
Qed.

(** ** Indexes, constraints and unique_together *)

Lemma contains_same l ix : ix ∈ l → containsIndex l ix = true.
Proof. intros Hin. apply existsb_exists. exists ix. split; [by apply list_elem_of_In|by apply Index_Equal_iff]. Qed.

Lemma no_index_changes k l : index_changes k l l = mkAlteredIndexes k [] [] [].
Proof.
  unfold index_changes. rewrite (filter_none _ l) by (intros ix Hix; by rewrite contains_same). done.
Qed.

Lemma no_constraint_changes k l :
  (∀ c c', c ∈ l → c' ∈ l → ConstraintName c = ConstraintName c' → c = c') →
  constraint_changes k l l = mkAlteredConstraints k [] [] [].
Proof.
  intros Hl. unfold constraint_changes.
  assert (filter (fun p => altered_pair p.1 p.2 = true) (list_prod l l) = []) as ->.
  { apply filter_none. intros [c c'] Hc%list_elem_of_In. apply in_prod_iff in Hc as [H1%list_elem_of_In H2%list_elem_of_In].
    simpl. unfold altered_pair. case_bool_decide as Hn; [|by rewrite andb_false_r].
    rewrite (Hl c c' H1 H2 Hn), (proj2 (ConstraintEqual_eq c' c')); done. }
  assert (∀ c, c ∈ l → containsConstraint l c = true) as Hc.
  { intros c Hin. apply existsb_exists. exists c. split; [by apply list_elem_of_In|by apply ConstraintEqual_eq]. }
  simpl. rewrite (filter_none _ l) by (intros c Hin; rewrite Hc by done; by intros []). done.
Qed.

Lemma setEqual_refl a : setEqual a a = true.
Proof. unfold setEqual. by rewrite !bool_decide_eq_true_2. Qed.

(** ** A state compared with itself *)

(** The constraints of a model are told apart by their names. *)
Definition names_distinct (l : list Constraint) : Prop :=
  Forall (fun c => Forall (fun c' => ConstraintName c = ConstraintName c' → c = c') l) l.

(** No field has a database default that is a function, and constraints have
    names of their own. *)
Definition state_comparable (s : ProjectState) : Prop :=
  map_Forall (fun _ ms => Forall (fun f => db_default_comparable (nf_Field f)) (ms_Fields ms) ∧
                           names_distinct (opt_Constraints (ms_Options ms))) (ps_Models s).

#[export] Instance state_comparable_dec s : Decision (state_comparable s).
Proof. unfold state_comparable, names_distinct. apply _. Defined.

Section unchanged.
Context {Q : Type} `{!Questioner Q} (s : ProjectState) (Hs : state_comparable s) (q : Q).
Instance same : Comparison := mkComparison s s [].

(** Nothing has been generated, found or asked. *)
Record idle (a : Autodetector Q) : Prop := {
  id_q : ad_q a = q;
  id_generated : ad_generated a = ∅;
  id_generatedApps : ad_generatedApps a = [];
  id_migrationApps : ad_migrationApps a = [];
  id_models : ad_oldModelKeys a = newModelKeys;
  id_fields : ad_oldFieldKeys a = ad_newFieldKeys a;
  id_field_model k : k ∈ ad_newFieldKeys a → is_Some (ps_Models s !! fk_model k);
  id_renamedModels : ad_renamedModels a = ∅;
  id_renamedFields : ad_renamedFields a = ∅;
  id_renamedOps : ad_renamedOps a = [];
  id_indexes ai : ai ∈ ad_altIndexes a → ∃ k, ai = mkAlteredIndexes k [] [] [] ∧ is_Some (ps_Models s !! k);
  id_constraints ac : ac ∈ ad_altConstraints a → ∃ k, ac = mkAlteredConstraints k [] [] [] ∧ is_Some (ps_Models s !! k);
}.

Notation idles m := (triple idle m (fun _ => idle) (fun _ => False)).

Lemma idles_bind {A B} (m : io (Autodetector Q) A) (f : A → io (Autodetector Q) B) R :
  triple idle m (fun x a => R x ∧ idle a) (fun _ => False) → (∀ x, R x → idles (f x)) → idles (m ≫= f).
Proof.
  intros Hm Hf. eapply triple_bind; [exact Hm|]. intros x. apply triple_pull, Hf.
Qed.

Lemma idles_lift {A B} (o : outcome A) (f : A → io (Autodetector Q) B) :
  (∃ x, o = Ok x ∧ idles (f x)) → idles (x ← lift o; f x).
Proof.
  intros (x & -> & Hf). apply (idles_bind _ _ (fun y => y = x)); [by intros a Ha|]. by intros y ->.
Qed.

Lemma idles_state {B} (f : Autodetector Q → io (Autodetector Q) B) R :
  (∀ a, idle a → triple idle (f a) R (fun _ => False)) → triple idle (a ← get_state; f a) R (fun _ => False).
Proof. intros Hf a Ha. by apply (Hf a Ha). Qed.

Lemma idles_for {X} (l : list X) f : (∀ x, x ∈ l → idles (f x)) → idles (for_io l f).
Proof.
  intros Hf. unfold for_io. induction l as [|x l IH]; simpl; [apply triple_skip|].
  apply (idles_bind _ _ (fun _ => True)).
  - eapply triple_weaken; [apply (Hf x); left|done..|by simpl|done].
  - intros [] _. apply IH. intros. apply Hf. by right.
Qed.

Lemma idles_none {X} (l : list X) f : l = [] → idles (for_io l f).
Proof. intros ->. apply triple_skip. Qed.

(** ** The keys *)

Lemma first_old_is_new : first_oldModelKeys = newModelKeys.
Proof.
  unfold first_oldModelKeys, newModelKeys, keys_where. simpl. f_equal. apply map_filter_ext. intros k ms _. simpl.
  by rewrite orb_false_r.
Qed.

Lemma keys_sorted_empty (x : gset ModelKey) : x = ∅ → keys_sorted x = [].
Proof. intros ->. reflexivity. Qed.

Lemma elem_of_keys_sorted (x : gset ModelKey) k : k ∈ keys_sorted x ↔ k ∈ x.
Proof. unfold keys_sorted, sortKeys. rewrite merge_sort_Permutation. apply elem_of_elements. Qed.

Lemma keys_where_model P k : k ∈ keys_where P s → is_Some (ps_Models s !! k).
Proof.
  unfold keys_where. rewrite elem_of_dom. intros [ms Hms]. apply map_lookup_filter_Some in Hms as [Hms _]. by eexists.
Qed.

Lemma kept_model k : k ∈ newModelKeys ∪ newUnmanagedKeys → ∃ ms, ps_Models s !! k = Some ms.
Proof. rewrite elem_of_union. intros [Hk|Hk]; by apply keys_where_model in Hk. Qed.

Lemma oldState_same a k ms : idle a → ps_Models s !! k = Some ms → oldState a k = Ok ms.
Proof.
  intros Ha Hk. unfold oldState, oldName. rewrite (id_renamedModels _ Ha), lookup_empty. simpl. destruct k. unfold old_model.
  simpl. by rewrite Hk.
Qed.

Lemma new_model_same k ms : ps_Models s !! k = Some ms → new_model k = Ok ms.
Proof. intros Hk. unfold new_model. simpl. by rewrite Hk. Qed.

Lemma idles_compare_models keys change :
  (∀ a, idle a → keys a ⊆ newModelKeys ∪ newUnmanagedKeys) → (∀ k ms, change k ms ms = None) →
  idles (compare_models keys change).
Proof.
  intros Hkeys Hchange. apply idles_state. intros a Ha. apply idles_for. intros k Hk.
  apply elem_of_keys_sorted, (Hkeys a Ha), kept_model in Hk as [ms Hk].
  apply idles_lift. exists ms. split; [by apply oldState_same|]. apply idles_lift. exists ms. split; [by apply new_model_same|].
  rewrite Hchange. apply triple_skip.
Qed.

Lemma idles_compare_kept {C} (change : ModelKey → ModelState → ModelState → C) R :
  (∀ k ms, ps_Models s !! k = Some ms → R (change k ms ms)) →
  triple idle (compare_kept change) (fun l a => Forall R l ∧ idle a) (fun _ => False).
Proof.
  intros HR. apply idles_state. intros a Ha.
  eapply triple_weaken; [apply (triple_fold (fun _ l a => Forall R l ∧ idle a) (fun _ => False))|by split|done..].
  intros done acc k rest Hk. apply triple_pull. intros Hacc.
  assert (k ∈ newModelKeys) as [ms Hms]%keys_where_model.
  { assert (k ∈ keys_sorted (keptModelKeys a)) as Hin by (rewrite Hk; set_solver).
    apply elem_of_keys_sorted in Hin. unfold keptModelKeys in Hin. set_solver. }
  intros a' Ha'. rewrite (oldState_same a k ms Ha Hms). simpl. rewrite (new_model_same k ms Hms). simpl. split; [|done].
  apply Forall_app. split; [done|]. constructor; [by apply HR|done].
Qed.

(** ** The steps *)

Lemma sorted_difference (x y : gset ModelKey) : x ⊆ y → keys_sorted (x ∖ y) = [].
Proof. intros Hxy. apply keys_sorted_empty. set_solver. Qed.

Lemma sorted_field_difference (x : gset fieldKey) : fieldKeysMinus x x = [].
Proof. unfold fieldKeysMinus. by rewrite difference_diag_L. Qed.

Lemma boolPtrEqual_refl b : boolPtrEqual b b = true.
Proof. destruct b as [[]|]; done. Qed.

Lemma idles_renamed_models : idles generateRenamedModels.
Proof.
  apply (idles_bind _ _ (fun _ => True)); [by intros a []|]. intros [] _. apply idles_state. intros a Ha. apply idles_none.
  rewrite (id_models _ Ha). by apply sorted_difference.
Qed.

Lemma field_keys_fold a l keys :
  idle a → (∀ k, k ∈ l → k ∈ newModelKeys) →
  (∀ fk, fk ∈ keys → is_Some (ps_Models s !! fk_model fk)) →
  ∃ keys', foldM (add_field_keys a) (keys, keys) l = Ok (keys', keys') ∧
           ∀ fk, fk ∈ keys' → is_Some (ps_Models s !! fk_model fk).
Proof.
  intros Ha. revert keys. induction l as [|k l IH]; intros keys Hl Hkeys; [by exists keys|]. rewrite foldM_cons.
  destruct (keys_where_model _ _ (Hl k (list_elem_of_here _ _))) as [ms Hms].
  assert (add_field_keys a (keys, keys) k = Ok (keys ∪ field_keys k ms, keys ∪ field_keys k ms)) as ->.
  { unfold add_field_keys. by rewrite (oldState_same a k ms Ha Hms), (new_model_same k ms Hms). }
  simpl. apply IH; [intros; apply Hl; by right|].
  intros fk [Hfk|Hfk]%elem_of_union; [by apply Hkeys|]. unfold field_keys in Hfk.
  apply elem_of_list_to_set, list_elem_of_fmap in Hfk as (f & -> & _). exists ms. by destruct k.
Qed.

Lemma idles_prepare : idles prepareFieldLists.
Proof.
  apply idles_state. intros a Ha. apply idles_lift.
  destruct (field_keys_fold a (elements (keptModelKeys a)) ∅ Ha) as (keys & Hf & Hkeys); [|set_solver|].
  { intros k Hk%elem_of_elements. unfold keptModelKeys in Hk. set_solver. }
  exists (keys, keys). split; [exact Hf|]. intros a' []. by split.
Qed.

Lemma idles_deleted : idles generateDeletedModels.
Proof.
  apply idles_state. intros a Ha. apply idles_none. rewrite (id_models _ Ha), !sorted_difference; [done| |].
  - change oldUnmanagedKeys with newUnmanagedKeys. set_solver.
  - set_solver.
Qed.

Lemma idles_created : idles generateCreatedModels.
Proof.
  apply idles_state. intros a Ha. apply idles_none. rewrite (id_models _ Ha), !sorted_difference; [done| |].
  - change oldUnmanagedKeys with newUnmanagedKeys. set_solver.
  - set_solver.
Qed.

Lemma idles_options : idles generateAlteredOptions.
Proof.
  apply idles_compare_models; [|intros k ms; simpl; by rewrite boolPtrEqual_refl]. intros a Ha. rewrite (id_models _ Ha).
  unfold keptModelKeys, keptUnmanaged. set_solver.
Qed.

Lemma idles_comment : idles generateAlteredDBTableComment.
Proof.
  apply idles_compare_models; [|intros k ms; simpl; by rewrite bool_decide_eq_true_2]. intros a Ha.
  unfold keptModelKeys, keptUnmanaged. set_solver.
Qed.

Lemma idles_table : idles generateAlteredDBTable.
Proof.
  apply idles_compare_models; [|intros k ms; simpl; by rewrite bool_decide_eq_true_2]. intros a Ha.
  unfold keptModelKeys, keptUnmanaged. set_solver.
Qed.

Lemma idles_renamed_fields : idles createRenamedFields.
Proof.
  apply (idles_bind _ _ (fun _ => True)); [by intros a []|]. intros [] _. apply idles_state. intros a Ha.
  rewrite (id_fields _ Ha), sorted_field_difference. by intros a' Ha'.
Qed.

Lemma idles_rename_operations : idles generateRenamedFields.
Proof. apply idles_state. intros a Ha. apply idles_none. apply Ha. Qed.

Lemma idles_altered_indexes : idles createAlteredIndexes.
Proof.
  apply (idles_bind _ _ (Forall (fun ai => ∃ k, ai = mkAlteredIndexes k [] [] [] ∧ is_Some (ps_Models s !! k)))).
  - apply idles_compare_kept. intros k ms Hms. exists k. split; [apply no_index_changes|by eexists].
  - intros l Hl a Ha. simpl. destruct Ha. split; try done. simpl. intros ai [Hai|Hai]%elem_of_app; [auto|].
    by eapply Forall_forall in Hl.
Qed.

Lemma idles_altered_constraints : idles createAlteredConstraints.
Proof.
  apply (idles_bind _ _ (Forall (fun ac => ∃ k, ac = mkAlteredConstraints k [] [] [] ∧ is_Some (ps_Models s !! k)))).
  - apply idles_compare_kept. intros k ms Hms. exists k. split; [|by eexists]. apply no_constraint_changes. intros c c' Hc Hc'.
    destruct (Hs _ _ Hms) as [_ Hd]. unfold names_distinct in Hd. rewrite Forall_forall in Hd. specialize (Hd c Hc).
    rewrite Forall_forall in Hd. by apply Hd.
  - intros l Hl a Ha. simpl. destruct Ha. split; try done. simpl. intros ai [Hai|Hai]%elem_of_app; [auto|].
    by eapply Forall_forall in Hl.
Qed.

(** A step over the changes of the indexes, or of the constraints *)
Lemma idles_each_index f :
  (∀ k, is_Some (ps_Models s !! k) → idles (f (mkAlteredIndexes k [] [] []))) →
  idles (a ← get_state; for_io (ad_altIndexes a) f).
Proof.
  intros Hf. apply idles_state. intros a Ha. apply idles_for. intros ai (k & -> & Hk)%(id_indexes _ Ha). by apply Hf.
Qed.

Lemma idles_each_constraint f :
  (∀ k, is_Some (ps_Models s !! k) → idles (f (mkAlteredConstraints k [] [] []))) →
  idles (a ← get_state; for_io (ad_altConstraints a) f).
Proof.
  intros Hf. apply idles_state. intros a Ha. apply idles_for. intros ai (k & -> & Hk)%(id_constraints _ Ha). by apply Hf.
Qed.

Lemma dependencies_same k : is_Some (ps_Models s !! k) → ∃ deps, dependenciesForModel k = Ok deps.
Proof. intros [ms Hms]. unfold dependenciesForModel. rewrite (new_model_same k ms Hms). simpl. eauto. Qed.

Lemma idles_after_dependencies {B} k (f : list opDep → io (Autodetector Q) B) :
  is_Some (ps_Models s !! k) → (∀ deps, idles (f deps)) → idles (deps ← lift (dependenciesForModel k); f deps).
Proof. intros (deps & Hd)%dependencies_same Hf. apply idles_lift. eauto. Qed.

Lemma idles_altered_field k : is_Some (ps_Models s !! fk_model k) → idles (generateAlteredField k).
Proof.
  intros [ms Hms]. destruct k as [app model name]. apply idles_state. intros a Ha. apply idles_lift. exists ms.
  split; [by apply oldState_same|]. apply idles_lift. exists ms. split; [by apply new_model_same|].
  rewrite (id_renamedFields _ Ha), lookup_empty, Field_Clone_id. simpl. set (f := the_field ms name).
  assert (renamed_target a app f f = f) as ->.
  { unfold renamed_target. destruct (fld_ForeignKey f) as [fk|] eqn:Hfk; [|done].
    rewrite (id_renamedModels _ Ha), (id_renamedFields _ Ha), !lookup_empty, !(bool_decide_eq_false_2 (is_Some None)) by (by intros []).
    rewrite andb_false_r, <- Hfk. by destruct f. }
  destruct (foreign_key_dependencies_Ok app f) as [deps Hd]. apply idles_lift. exists deps. split; [done|]. rewrite definition_same; [apply triple_skip|].
  unfold f, the_field, Fields_Get. destruct (Fields_Index _ _) as [i|]; [|done].
  destruct (ms_Fields ms !! i) as [nf|] eqn:Hi; [|done]. destruct (Hs _ _ Hms) as [Hf _].
  by apply (Forall_lookup_1 _ _ _ _ Hf Hi).
Qed.

Lemma idles_altered_fields : idles generateAlteredFields.
Proof.
  apply idles_state. intros a Ha. apply idles_for. intros k Hk. apply idles_altered_field, (id_field_model _ Ha).
  unfold fieldKeysAnd, sortFieldKeys in Hk. rewrite merge_sort_Permutation, elem_of_elements in Hk. set_solver.
Qed.

Lemma idles_together (f : list togetherChange → io (Autodetector Q) unit) : idles (f []) → idles (alteredUniqueTogether ≫= f).
Proof.
  intros Hf. apply (idles_bind _ _ (fun l => l = [])); [|by intros l ->]. apply idles_state. intros a Ha.
  eapply triple_bind.
  - eapply (idles_compare_kept _ (fun c => c = None)). intros k ms Hms. unfold together_change, renamedFieldByOld.
    rewrite (id_renamedFields _ Ha).
    assert (∀ l, map (map (fun n => default n ((∅ : gmap fieldKey string) !! mkFieldKey (mk_App k) (mk_Model k) n))) l = l) as ->.
    { intros l. apply map_fixed. intros t _. apply map_fixed. intros n _. by rewrite lookup_empty. }
    by rewrite setEqual_refl.
  - intros l a' [Hl Ha']. simpl. split; [|done]. induction Hl as [|c l -> Hl IH]; [done|]. exact IH.
Qed.

Lemma idle_steps step : step ∈ detection_steps → idles step.
Proof.
  intros Hin. unfold detection_steps in Hin.
  repeat (apply elem_of_cons in Hin as [->|Hin]; [|]); [..|by apply elem_of_nil in Hin].
  - apply idles_renamed_models.
  - apply idles_prepare.
  - apply idles_deleted.
  - apply idles_created.
  - apply idles_options.
  - apply idles_comment.
  - apply idles_renamed_fields.
  - apply idles_altered_indexes.
  - apply idles_altered_constraints.
  - apply idles_each_constraint. intros k Hk. apply triple_skip.
  - apply idles_each_index. intros k Hk. apply triple_skip.
  - apply idles_rename_operations.
  - apply idles_each_index. intros k Hk. apply triple_skip.
  - apply idles_together, triple_skip.
  - apply idles_state. intros a Ha. apply idles_none. rewrite (id_fields _ Ha). apply sorted_field_difference.
  - apply idles_state. intros a Ha. apply idles_none. rewrite (id_fields _ Ha). apply sorted_field_difference.
  - apply idles_altered_fields.
  - apply idles_together, triple_skip.
  - apply idles_each_index. intros k Hk. apply idles_after_dependencies; [done|]. intros deps. apply triple_skip.
  - apply idles_each_constraint. intros k Hk. apply idles_after_dependencies; [done|]. intros deps. apply triple_skip.
  - apply idles_each_constraint. intros k Hk. apply idles_after_dependencies; [done|]. intros deps. apply triple_skip.
  - apply idles_table.
Qed.

Lemma idle_start : idle (reset_detection (Autodetector_New q)).
Proof.
  split; simpl; try done; [apply first_old_is_new|..]; intros ?; set_solver.
Qed.

(** C19: The detection of changes between a state and itself asks nothing and
    finds nothing: there is no migration to write. The state is one whose
    models have constraints of distinct names and no database default that is
    a Go function, which is not equal to itself ([state_comparable]). *)
Theorem detectChanges_unchanged FormatOperation g :
  ∃ a, detectChanges FormatOperation g (Autodetector_New q) = (a, Ok ∅) ∧ ad_q a = q ∧ ad_generated a = ∅.
Proof.
  pose proof (idles_for detection_steps (fun step => step) idle_steps _ idle_start) as Hrun.
  unfold detectChanges, detect, run_steps, mbind, io_bind, modify.
  destruct (for_io _ _ _) as [a [[]|e|e]]; [|done..]. unfold build_migrations, mbind, io_bind, get_state, lift.
  rewrite (id_generatedApps _ Hrun), (id_generated _ Hrun), (id_migrationApps _ Hrun). simpl.
  eexists. split; [reflexivity|]. split; [apply Hrun|done].
Qed.
End unchanged.
