(* ===== verification/AutoWitnesses.v ===== *)
(** * The migrations the autodetector hands over, and the example project

    What trimChangesToApps keeps, numbers and places of generated migrations;
    then the theorems about the autodetector at concrete states, and what it
    makes of a question that is answered with nil. *)

From S2P Require Import Prelude GoStd Keys Errors Fields Index ModelState Apps ProjectState Operation.
From S2P Require Import SchemaEditor Effects Migration Graph GraphLemmas Loader LoaderLemmas Examples.
From S2P Require Import Witnesses Questioner TopoSort AutoDeps DetectModels DetectFields AutoBuild Arrange.
From S2P Require Import BuildTheorems AutoTheorems NoChanges.

(** ** Names, places and selections of generated migrations

    What trimChangesToApps keeps, which numbers are read and written, and
    where ArrangeForGraph puts the migrations. *)

(** ** trimChangesToApps *)

Section trim.
Context (changes : Changes) (labels : list string).

(** An app the labels lead to, along the dependencies of migrations *)
Definition depends_on (a b : string) : Prop := b ∈ appDeps changes a.
Definition needed (app : string) : Prop := ∃ label, label ∈ labels ∧ rtc depends_on label app.

Lemma elem_of_more_required required app :
  app ∈ more_required changes required ↔ app ∈ required ∨ ∃ a, a ∈ required ∧ depends_on a app.
Proof.
  unfold more_required. rewrite elem_of_union, elem_of_union_list. setoid_rewrite list_elem_of_fmap. unfold depends_on.
  setoid_rewrite elem_of_elements. naive_solver.
Qed.

Lemma depends_on_all a b : depends_on a b → b ∈ all_appDeps changes.
Proof.
  intros Hb. unfold all_appDeps. apply elem_of_union_list. exists (appDeps changes a). split; [|done].
  apply list_elem_of_fmap. exists a. split; [done|]. apply elem_of_elements, elem_of_dom.
  unfold depends_on, appDeps in Hb. destruct (changes !! a); [by eexists|]. set_solver.
Qed.

Lemma trim_loop_spec fuel required :
  list_to_set labels ⊆ required → (∀ app, app ∈ required → needed app) →
  2 + size (list_to_set labels ∪ all_appDeps changes) ≤ fuel + size required →
  ∃ required', trim_loop changes fuel required = Some required' ∧ ∀ app, app ∈ required' ↔ needed app.
Proof.
  revert required. induction fuel as [|fuel IH]; intros required Hsub Hneed Hfuel.
  - exfalso. assert (size required ≤ size (list_to_set labels ∪ all_appDeps changes : gset string)); [|lia].
    apply subseteq_size. intros app Happ. destruct (Hneed app Happ) as (label & Hl & Hr).
    apply rtc_inv_r in Hr as [->|(a & _ & Ha)]; [set_solver|]. apply depends_on_all in Ha. set_solver.
  - simpl. set (required' := more_required changes required).
    assert (required ⊆ required') as Hmore by (intros a Ha; apply elem_of_more_required; by left).
    assert (∀ app, app ∈ required' → needed app) as Hneed'.
    { intros app [Ha|(a & Ha & Hd)]%elem_of_more_required; [by apply Hneed|]. destruct (Hneed a Ha) as (label & Hl & Hr).
      exists label. split; [done|]. by eapply rtc_r. }
    case_bool_decide as Hsize.
    + exists required'. split; [done|]. intros app. split; [apply Hneed'|].
      assert (required' = required) as Heq by (symmetry; apply set_subseteq_size_eq; [done|lia]).
      intros (label & Hl & Hr). assert (label ∈ required') as Hin by set_solver.
      clear Hl. induction Hr as [|a b c Hab _ IHr]; [done|]. apply IHr. apply elem_of_more_required. right.
      exists a. split; [|done]. by rewrite <- Heq.
    + apply IH; [set_solver|done|]. pose proof (subseteq_size _ _ Hmore). lia.
Qed.

(** TrimChangesToApps keeps the apps asked for and those their migrations
    depend on, directly or not, and only those; the loop ends. *)
Theorem trimChangesToApps_needed :
  ∃ trimmed, trimChangesToApps changes labels = Some trimmed ∧
  ∀ app migs, trimmed !! app = Some migs ↔ changes !! app = Some migs ∧ needed app.
Proof.
  unfold trimChangesToApps. destruct (trim_loop_spec (2 + size (all_appDeps changes)) (list_to_set labels)) as (r & Hr & Hin).
  - done.
  - intros app Ha%elem_of_list_to_set. exists app. split; [done|]. apply rtc_refl.
  - rewrite size_union_alt. pose proof (subseteq_size (all_appDeps changes ∖ list_to_set labels) (all_appDeps changes)
      ltac:(set_solver)). lia.
  - rewrite Hr. simpl. eexists. split; [done|]. intros app migs. rewrite map_lookup_filter_Some. simpl. by rewrite Hin.
Qed.
End trim.

(** ** Numbers *)

Lemma all_digits_app s t : all_digits (s +:+ t) = all_digits s && all_digits t.
Proof. induction s as [|c s IH]; [done|]. simpl. by rewrite IH, andb_assoc. Qed.

Lemma decimal_zeros n s : decimal 0 (zeros n +:+ s) = decimal 0 s ∧ all_digits (zeros n +:+ s) = all_digits s.
Proof. induction n as [|n IH]; [done|]. exact IH. Qed.

Lemma leading_digits_app s c rest :
  all_digits s = true → byte_is_digit c = false → leading_digits (s +:+ String c rest) = s.
Proof.
  intros Hs Hc. induction s as [|d s IH]; simpl in *; [by rewrite Hc|]. apply andb_true_iff in Hs as [Hd Hs].
  rewrite Hd. by rewrite IH.
Qed.

Lemma Sprintf_numeral n :
  (0 ≤ n)%Z → decimal 0 (Sprintf_04d n) = n ∧ all_digits (Sprintf_04d n) = true ∧ Sprintf_04d n ≠ "".
Proof.
  intros Hn. unfold Sprintf_04d. rewrite (proj2 (Z.ltb_ge n 0)) by done. unfold zero_pad.
  destruct (itoa_numeral n Hn) as (Hd & Ha & Hne). set (k := 4 - String.length (itoa n)).
  destruct (decimal_zeros k (itoa n)) as [-> ->]. split_and!; [done|done|]. by destruct k.
Qed.

(** The number a migration is written with is the one read back from its
    name, so that numbering goes on where it stopped; unless the rest of the
    name says that the migration was squashed. *)
Theorem ParseNumber_Sprintf n rest :
  (0 ≤ n ≤ maxInt)%Z → squashedNumber (Sprintf_04d n +:+ "_" +:+ rest) = None →
  ParseNumber (Sprintf_04d n +:+ "_" +:+ rest) = Some n.
Proof.
  intros [Hn Hmax] Hs. unfold ParseNumber. rewrite Hs. destruct (Sprintf_numeral n Hn) as (Hd & Ha & Hne).
  change ("_" +:+ rest) with (String "_"%char rest). rewrite leading_digits_app by done. rewrite bool_decide_eq_false_2 by done. unfold Atoi. rewrite Hd.
  by rewrite (proj2 (Z.leb_le n maxInt)).
Qed.

Lemma leading_digits_all s : all_digits (leading_digits s) = true.
Proof. induction s as [|c s IH]; simpl; [done|]. destruct (byte_is_digit c) eqn:Hc; simpl; [by rewrite Hc|done]. Qed.

(** The digits ParseNumber reads are digits. *)
Lemma squashed_here_digits s d : squashed_here s = Some d → all_digits d = true.
Proof.
  unfold squashed_here. destruct (HasPrefix s "_squashed_"); [|done]. case_bool_decide; [done|]. intros [= <-].
  apply leading_digits_all.
Qed.

Lemma squashed_in_line_digits s d : squashed_in_line s = Some d → all_digits d = true.
Proof.
  revert d. induction s as [|c s IH]; intros d; [done|]. cbn [squashed_in_line]. case_bool_decide; [done|].
  destruct (squashed_in_line s) as [d'|]; [|apply squashed_here_digits]. intros [= <-]. by apply IH.
Qed.

Lemma squashedNumber_digits s d : squashedNumber s = Some d → all_digits d = true.
Proof.
  revert d. induction s as [|c s IH]; intros d; [done|]. cbn [squashedNumber].
  destruct (squashed_in_line (String c s)) as [d'|] eqn:Hl; [|apply IH]. intros [= <-].
  by apply (squashed_in_line_digits (String c s)).
Qed.

Lemma ParseNumber_nonneg name n : ParseNumber name = Some n → (0 ≤ n)%Z.
Proof.
  unfold ParseNumber. set (digits := match squashedNumber name with Some d => d | None => leading_digits name end).
  assert (all_digits digits = true) as Hd.
  { unfold digits. destruct (squashedNumber name) as [d|] eqn:Hs; [by apply (squashedNumber_digits name)|apply leading_digits_all]. }
  case_bool_decide; [done|]. unfold Atoi. case_match; [|done]. intros [= <-]. by apply decimal_nonneg.
Qed.

Lemma zeros_length n : String.length (zeros n) = n.
Proof. induction n as [|n IH]; [done|]. simpl. by rewrite IH. Qed.

Lemma substring_first n s : ∃ rest, s = String.substring 0 n s +:+ rest ∧
  String.length (String.substring 0 n s) = Nat.min n (String.length s).
Proof.
  revert n. induction s as [|c s IH]; intros n; [exists ""; by destruct n|]. destruct n as [|n]; [by exists (String c s)|].
  destruct (IH n) as (rest & Hs & Hl). exists rest. simpl. rewrite Hl. split; [|done]. by rewrite Hs at 1.
Qed.

(** ** ArrangeForGraph *)

Lemma wrap_int_add a b : wrap_int (wrap_int a + b) = wrap_int (a + b).
Proof.
  unfold wrap_int. f_equal. replace ((a + 2 ^ 63) mod 2 ^ 64 - 2 ^ 63 + b + 2 ^ 63)%Z with ((a + 2 ^ 63) mod 2 ^ 64 + b)%Z by lia.
  rewrite Z.add_mod_idemp_l by done. f_equal. lia.
Qed.

Lemma wrap_int_wrap a : wrap_int (wrap_int a) = wrap_int a.
Proof. rewrite <- (Z.add_0_r (wrap_int a)) at 1. by rewrite wrap_int_add, Z.add_0_r. Qed.

Lemma wrap_int_small z : (- 2 ^ 63 ≤ z < 2 ^ 63)%Z → wrap_int z = z.
Proof. intros Hz. unfold wrap_int. rewrite Z.mod_small by lia. lia. Qed.

Section arrange.
Context (timestamp : Migration → string) (migrationName : string) (app : string) (appLeaf : option Key).

Notation placed first next m := (place timestamp migrationName first appLeaf next m).

(** The migrations of an app as place_all leaves them, one by one *)
Lemma place_all_lookup first next nm migs i m :
  migs !! i = Some m → wrap_int next = next →
  (place_all timestamp migrationName app first appLeaf next nm migs).1 !! i =
    Some (placed (first && bool_decide (i = 0)) (wrap_int (next + Z.of_nat i)) m).
Proof.
  revert first next nm i. induction migs as [|m0 migs IH]; intros first next nm i; [done|]. simpl.
  specialize (IH false (wrap_int (next + 1)) (<[mkKey app (mig_Name m0) := mkKey app (mig_Name (placed first next m0))]> nm)).
  destruct (place_all _ _ _ _ _ _ _ _) as [migs' nm']. intros Hi Hw. destruct i as [|i].
  - injection Hi as [= ->]. by rewrite Z.add_0_r, Hw, andb_true_r.
  - simpl in *. rewrite (IH _ Hi (wrap_int_wrap _)). rewrite andb_false_r, wrap_int_add. do 3 f_equal. lia.
Qed.

Lemma place_all_length first next nm migs :
  length (place_all timestamp migrationName app first appLeaf next nm migs).1 = length migs.
Proof.
  revert first next nm. induction migs as [|m migs IH]; intros first next nm; [done|]. simpl.
  specialize (IH false (wrap_int (next + 1)) (<[mkKey app (mig_Name m) := mkKey app (mig_Name (placed first next m))]> nm)).
  destruct (place_all _ _ _ _ _ _ _ _). simpl in *. by rewrite IH.
Qed.

(** The names it writes down: those of the app's migrations, and no other *)
Lemma place_all_other first next nm migs k :
  (∀ m, m ∈ migs → k ≠ mkKey app (mig_Name m)) →
  (place_all timestamp migrationName app first appLeaf next nm migs).2 !! k = nm !! k.
Proof.
  revert first next nm. induction migs as [|m migs IH]; intros first next nm Hk; [done|]. simpl.
  specialize (IH false (wrap_int (next + 1)) (<[mkKey app (mig_Name m) := mkKey app (mig_Name (placed first next m))]> nm)).
  destruct (place_all _ _ _ _ _ _ _ _). simpl in *. rewrite IH by (intros; apply Hk; by right).
  apply lookup_insert_ne. intros Heq. apply (Hk m); [left|done].
Qed.

Lemma place_all_names first next nm migs i m m' :
  NoDup (map mig_Name migs) → migs !! i = Some m →
  (place_all timestamp migrationName app first appLeaf next nm migs).1 !! i = Some m' →
  (place_all timestamp migrationName app first appLeaf next nm migs).2 !! mkKey app (mig_Name m) =
    Some (mkKey app (mig_Name m')).
Proof.
  revert first next nm i. induction migs as [|m0 migs IH]; intros first next nm i Hnd; [done|].
  apply NoDup_cons in Hnd as [Hm0 Hnd]. simpl.
  set (nm1 := <[mkKey app (mig_Name m0) := mkKey app (mig_Name (placed first next m0))]> nm).
  pose proof (place_all_other false (wrap_int (next + 1)) nm1 migs (mkKey app (mig_Name m0))) as Hother.
  specialize (IH false (wrap_int (next + 1)) nm1). destruct (place_all _ _ _ _ _ _ _ _) as [migs' nm'].
  simpl in *. destruct i as [|i]; simpl; [|by apply IH]. intros [= ->] [= <-]. rewrite Hother.
  - unfold nm1. by rewrite lookup_insert_eq.
  - intros m1 Hm1 [= Heq]. apply Hm0. rewrite Heq. apply list_elem_of_fmap. by exists m1.
Qed.
End arrange.

Section arrange_all.
Context {Q : Type} `{!Questioner Q} (timestamp : Migration → string) (migrationName : string) (leaves : list Key).

Definition leaf_of (app : string) : option Key := find (fun k => bool_decide (key_App k = app)) leaves.

(** Where an app stands after the loop over the apps: as it was, when it has
    no migrations; placed; or, without a leaf and when the questioner says so,
    gone, with "__first__" standing for it. [nm] takes the old keys to the
    new. *)
Inductive stands (before after : Changes) (nm : gmap Key Key) (app : string) : Prop :=
| stands_none :
    default [] (before !! app) = [] → after !! app = before !! app → (∀ n, nm !! mkKey app n = None) →
    stands before after nm app
| stands_placed migs migs' :
    before !! app = Some migs → migs ≠ [] → after !! app = Some migs' → length migs' = length migs →
    (∀ i m, migs !! i = Some m →
       ∃ m', migs' !! i = Some m' ∧
             m' = place timestamp migrationName (bool_decide (i = 0)) (leaf_of app)
                    (wrap_int (first_number (leaf_of app) + Z.of_nat i)) m ∧
             nm !! mkKey app (mig_Name m) = Some (mkKey app (mig_Name m'))) →
    (∀ n, n ∉ map mig_Name migs → nm !! mkKey app n = None) →
    stands before after nm app
| stands_dropped migs :
    before !! app = Some migs → leaf_of app = None → after !! app = None →
    (∀ m, m ∈ migs → nm !! mkKey app (mig_Name m) = Some (First app)) →
    (∀ n, n ∉ map mig_Name migs → nm !! mkKey app n = None) →
    stands before after nm app.

Lemma forget_all_lookup app migs nm k :
  forget_all app migs nm !! k =
  if bool_decide (key_App k = app ∧ key_Name k ∈ map mig_Name migs) then Some (First app) else nm !! k.
Proof.
  unfold forget_all. revert nm. induction migs as [|m migs IH]; intros nm; simpl.
  { rewrite bool_decide_eq_false_2; [done|]. by intros [_ ?%elem_of_nil]. }
  rewrite IH. destruct k as [a n]. simpl. destruct (decide (a = app)) as [->|Ha].
  - destruct (decide (n ∈ map mig_Name migs)) as [Hn|Hn].
    + by rewrite !bool_decide_eq_true_2 by set_solver.
    + rewrite bool_decide_eq_false_2 by naive_solver. destruct (decide (n = mig_Name m)) as [->|Hne].
      * rewrite lookup_insert_eq, bool_decide_eq_true_2 by set_solver. done.
      * rewrite lookup_insert_ne by congruence. rewrite bool_decide_eq_false_2 by set_solver. done.
  - rewrite !bool_decide_eq_false_2 by naive_solver. rewrite lookup_insert_ne by congruence. done.
Qed.

Lemma first_number_wrapped leaf : wrap_int (first_number leaf) = first_number leaf.
Proof. destruct leaf; [apply wrap_int_wrap|done]. Qed.

Lemma arrange_app_some changes nm app migs :
  changes !! app = Some migs → migs ≠ [] →
  arrange_app timestamp migrationName leaves (changes, nm) app =
  (yes ← match leaf_of app with Some _ => mret true | None => ask_initial app end;
   mret (if yes : bool then
           let '(migs', nm') :=
             place_all timestamp migrationName app true (leaf_of app) (first_number (leaf_of app)) nm migs in
           (<[app := migs']> changes, nm')
         else (delete app changes, forget_all app migs nm))).
Proof. intros Hc Hne. unfold arrange_app. rewrite Hc. by destruct migs. Qed.

Lemma arrange_app_spec before acc app :
  (∀ migs, before !! app = Some migs → NoDup (map mig_Name migs)) →
  acc.1 !! app = before !! app → (∀ n, acc.2 !! mkKey app n = None) →
  triple (fun _ => True) (arrange_app timestamp migrationName leaves acc app)
    (fun acc' (_ : Q) => stands before acc'.1 acc'.2 app ∧
       ∀ a, a ≠ app → acc'.1 !! a = acc.1 !! a ∧ ∀ n, acc'.2 !! mkKey a n = acc.2 !! mkKey a n)
    (fun _ => False).
Proof.
  intros Hnd Hacc Hnm. destruct acc as [changes nm]. cbn [fst snd] in *.
  destruct (decide (default [] (before !! app) = [])) as [He|Hne].
  { unfold arrange_app. rewrite Hacc, He. intros q _. split; [by apply stands_none|done]. }
  destruct (before !! app) as [migs0|] eqn:Hb; [|done]. specialize (Hnd _ eq_refl). simpl in Hne.
  rewrite (arrange_app_some changes nm app migs0) by done.
  eapply triple_bind with (Q := fun yes _ => yes = false → leaf_of app = None).
  { destruct (leaf_of app); [by intros q _|]. intros q _. unfold ask_initial. by destruct (AskInitial app q). }
  intros yes q Hyes. destruct yes; simpl.
  - destruct (place_all _ _ _ _ _ _ _ _) as [migs' nm'] eqn:Hp. simpl. split.
    + apply (stands_placed _ _ _ _ migs0 migs'); [done|done|by rewrite lookup_insert_eq| | |].
      * by rewrite <- (place_all_length timestamp migrationName app (leaf_of app) true (first_number (leaf_of app)) nm migs0), Hp.
      * intros i m0 Hi.
        pose proof (place_all_lookup timestamp migrationName app (leaf_of app) true (first_number (leaf_of app)) nm
          migs0 i m0 Hi (first_number_wrapped _)) as Hl. rewrite Hp in Hl. simpl in Hl.
        eexists. split; [exact Hl|]. split; [done|].
        pose proof (fun m' => place_all_names timestamp migrationName app (leaf_of app) true (first_number (leaf_of app)) nm
          migs0 i m0 m' Hnd Hi) as Hn. rewrite Hp in Hn. by apply Hn.
      * intros n Hn. pose proof (place_all_other timestamp migrationName app (leaf_of app) true (first_number (leaf_of app)) nm
          migs0 (mkKey app n)) as Ho. rewrite Hp in Ho. simpl in Ho. rewrite Ho; [apply Hnm|].
        intros m1 Hm1 [= ->]. apply Hn, list_elem_of_fmap. by exists m1.
    + intros a Ha. split; [by rewrite lookup_insert_ne|]. intros n.
      pose proof (place_all_other timestamp migrationName app (leaf_of app) true (first_number (leaf_of app)) nm
          migs0 (mkKey a n)) as Ho. rewrite Hp in Ho. apply Ho. congruence.
  - split.
    + apply (stands_dropped _ _ _ _ migs0); [done|by apply Hyes|by rewrite lookup_delete_eq| |].
      * intros m1 Hm1. rewrite forget_all_lookup, bool_decide_eq_true_2; [done|]. split; [done|].
        simpl. apply list_elem_of_fmap. by exists m1.
      * intros n Hn. rewrite forget_all_lookup, bool_decide_eq_false_2; [apply Hnm|]. simpl. naive_solver.
    + intros a Ha. split; [by rewrite lookup_delete_ne|]. intros n.
      rewrite forget_all_lookup, bool_decide_eq_false_2; [done|]. simpl. naive_solver.
Qed.
End arrange_all.

Section ArrangeForGraph.
Context {Q : Type} `{!Questioner Q} (timestamp : Migration → string) (migrationName : string).

Lemma arrange_all_spec leaves before apps :
  NoDup apps → (∀ app, is_Some (before !! app) → app ∈ apps) →
  (∀ app migs, before !! app = Some migs → NoDup (map mig_Name migs)) →
  triple (fun _ => True) (fold_io (arrange_app timestamp migrationName leaves) (before, ∅) apps)
    (fun acc (_ : Q) => ∀ app, stands timestamp migrationName leaves before acc.1 acc.2 app) (fun _ => False).
Proof.
  intros Hnd Hin Hnames.
  eapply triple_weaken; [apply (triple_fold (fun done acc (_ : Q) => ∀ app,
    (app ∈ done → stands timestamp migrationName leaves before acc.1 acc.2 app) ∧
    (app ∉ done → acc.1 !! app = before !! app ∧ ∀ n, acc.2 !! mkKey app n = None)) (fun _ => False))| | |done].
  - intros done acc app rest Happs q Hacc. assert (app ∉ done) as Hnew.
    { rewrite Happs in Hnd. apply NoDup_app in Hnd as (_ & Hd & _). intros Hd'. apply (Hd app Hd'). left. }
    destruct (Hacc app) as [_ Happ]. destruct (Happ Hnew) as [Hmigs Hnm].
    pose proof (arrange_app_spec timestamp migrationName leaves before acc app (Hnames app) Hmigs Hnm q I) as Hs.
    destruct (arrange_app _ _ _ _ _ _) as [q' [acc'|e|e]]; [|done..]. destruct Hs as [Harr Hrest].
    intros a. rewrite elem_of_app, list_elem_of_singleton. destruct (decide (a = app)) as [->|Hne]; [split; [done|naive_solver]|].
    destruct (Hrest a Hne) as [Hr1 Hr2]. destruct (Hacc a) as [H1 H2]. split.
    + intros [Ha|?]; [|done]. destruct (H1 Ha) as [Hb1 Hb2 Hb3|migs migs' Hb1 Hb2 Hb3 Hb4 Hb5 Hb6|migs Hb1 Hb2 Hb3 Hb4 Hb5].
      * apply stands_none; [done|by rewrite Hr1|intros n; by rewrite Hr2].
      * apply (stands_placed _ _ _ _ _ _ _ migs migs'); [done|done|by rewrite Hr1|done| |intros n Hn; rewrite Hr2; by apply Hb6].
        intros i m Hi. destruct (Hb5 i m Hi) as (m' & ? & ? & ?). exists m'. by rewrite Hr2.
      * apply (stands_dropped _ _ _ _ _ _ _ migs); [done|done|by rewrite Hr1| |intros n Hn; rewrite Hr2; by apply Hb5].
        intros m Hm. rewrite Hr2. by apply Hb4.
    + intros Ha. rewrite Hr1. setoid_rewrite Hr2. apply H2. naive_solver.
  - intros q _ app. split; [by intros ?%elem_of_nil|]. done.
  - intros acc q Hacc app. destruct (decide (app ∈ apps)) as [Ha|Ha]; [by apply Hacc|].
    destruct (Hacc app) as [_ H2]. destruct (H2 Ha) as [Hb Hn]. apply stands_none; [|done|done].
    destruct (before !! app) eqn:He; [|done]. destruct Ha. apply Hin. by eexists.
Qed.

(** *** What the result says, in terms of names, numbers and dependencies *)

(** The number that follows that of the leaf: 1 without a leaf, or after one
    without a number *)
Definition number_after (leaf : option Key) : Z :=
  match leaf with
  | Some leaf => match ParseNumber (key_Name leaf) with Some n => n + 1 | None => 1 end
  | None => 1
  end.

(** A name made of a number, with zeros before it up to four digits, an
    underscore and a part *)
Definition numbered (n : Z) (part name : string) : Prop :=
  ∃ digits, name = digits +:+ "_" +:+ part ∧ all_digits digits = true ∧ decimal 0 digits = n ∧
            String.length digits = Nat.max 4 (String.length (itoa n)).

(** The part: the name that was asked for, or initial for the first migration
    an app ever gets, or the first hundred bytes of the one suggested *)
Definition part_of_name (first : bool) (leaf : option Key) (suggested part : string) : Prop :=
  if decide (migrationName = "") then
    if decide (first = true ∧ leaf = None) then part = "initial"
    else ∃ rest, suggested = part +:+ rest ∧ String.length part = Nat.min 100 (String.length suggested)
  else part = migrationName.

(** A dependency follows a migration to its new name. *)
Definition follows (nm : gmap Key Key) (d : Key) : Key := match nm !! d with Some k => k | None => d end.

(** The i-th migration of an app under its new name: nothing but its name
    and its dependencies changes, and the first depends on the leaf. *)
Definition renamed_migration (nm : gmap Key Key) (leaf : option Key) (i : nat) (m m' : Migration) : Prop :=
  let deps := mig_Dependencies m ++ (if decide (i = 0) then option_list leaf else []) in
  let asked := mig_set_Dependencies deps m in
  m' = mig_set_Name (mig_Name m') (mig_set_Dependencies (map (follows nm) deps) m) ∧
  ((number_after leaf + Z.of_nat i ≤ maxInt)%Z →
   ∃ part, numbered (number_after leaf + Z.of_nat i) part (mig_Name m') ∧
           part_of_name (bool_decide (i = 0)) leaf (SuggestName (timestamp asked) asked) part).

(** What becomes of an app *)
Inductive arranged (leaves : list Key) (before after : Changes) (nm : gmap Key Key) (app : string) : Prop :=
| arranged_none :
    default [] (before !! app) = [] → after !! app = before !! app → (∀ n, nm !! mkKey app n = None) →
    arranged leaves before after nm app
| arranged_placed migs migs' :
    before !! app = Some migs → migs ≠ [] → after !! app = Some migs' → length migs' = length migs →
    (∀ i m, migs !! i = Some m →
       ∃ m', migs' !! i = Some m' ∧ renamed_migration nm (leaf_of leaves app) i m m' ∧
             nm !! mkKey app (mig_Name m) = Some (mkKey app (mig_Name m'))) →
    (∀ n, n ∉ map mig_Name migs → nm !! mkKey app n = None) →
    arranged leaves before after nm app
| arranged_dropped migs :
    before !! app = Some migs → leaf_of leaves app = None → after !! app = None →
    (∀ m, m ∈ migs → nm !! mkKey app (mig_Name m) = Some (First app)) →
    (∀ n, n ∉ map mig_Name migs → nm !! mkKey app n = None) →
    arranged leaves before after nm app.

Lemma number_after_pos leaf : (1 ≤ number_after leaf)%Z.
Proof.
  unfold number_after. destruct leaf as [leaf|]; [|done]. destruct (ParseNumber (key_Name leaf)) as [n|] eqn:Hn; [|done].
  apply ParseNumber_nonneg in Hn. lia.
Qed.

Lemma first_number_after leaf : first_number leaf = wrap_int (number_after leaf).
Proof.
  unfold first_number, number_after. destruct leaf as [leaf|]; [|done].
  by destruct (ParseNumber (key_Name leaf)).
Qed.

Lemma Sprintf_numbered n part : (0 ≤ n)%Z → numbered n part (Sprintf_04d n +:+ "_" +:+ part).
Proof.
  intros Hn. exists (Sprintf_04d n). destruct (Sprintf_numeral n Hn) as (Hd & Ha & _). split_and!; [done..|].
  unfold Sprintf_04d. rewrite (proj2 (Z.ltb_ge n 0)) by done. unfold zero_pad. rewrite str_app_length, zeros_length. lia.
Qed.

Lemma name_part_of_name first leaf m :
  part_of_name first leaf (SuggestName (timestamp m) m) (name_part timestamp migrationName first leaf m).
Proof.
  unfold part_of_name, name_part. destruct (decide (migrationName = "")) as [He|He].
  2:{ by rewrite (bool_decide_eq_false_2 (migrationName = "")). }
  rewrite (bool_decide_eq_true_2 (migrationName = "")) by done. cbn [negb].
  destruct (decide (first = true ∧ leaf = None)) as [[-> ->]|Hno]; [done|].
  assert (first && negb (bool_decide (is_Some leaf)) = false) as ->; [|apply substring_first].
  apply not_true_is_false. intros [-> Hl%negb_true_iff%bool_decide_eq_false]%andb_true_iff.
  apply Hno. split; [done|]. by apply eq_None_not_Some.
Qed.

Lemma placed_renamed nm leaf i m :
  renamed_migration nm leaf i m
    (rename_dependencies_of nm
      (place timestamp migrationName (bool_decide (i = 0)) leaf (wrap_int (first_number leaf + Z.of_nat i)) m)).
Proof.
  unfold renamed_migration. rewrite first_number_after, wrap_int_add.
  set (deps := mig_Dependencies m ++ (if decide (i = 0) then option_list leaf else [])).
  assert (place timestamp migrationName (bool_decide (i = 0)) leaf (wrap_int (number_after leaf + Z.of_nat i)) m =
    mig_set_Name (Sprintf_04d (wrap_int (number_after leaf + Z.of_nat i)) +:+ "_" +:+
                    name_part timestamp migrationName (bool_decide (i = 0)) leaf (mig_set_Dependencies deps m))
      (mig_set_Dependencies deps m)) as ->.
  { unfold place. assert (match leaf with
      | Some leaf => if bool_decide (i = 0) then mig_set_Dependencies (mig_Dependencies m ++ [leaf]) m else m
      | None => m end = mig_set_Dependencies deps m) as ->; [|done].
    unfold deps. destruct leaf as [k|]; simpl.
    - destruct (decide (i = 0)) as [->|Hi]; [done|]. rewrite (bool_decide_eq_false_2 (i = 0)) by done.
      rewrite app_nil_r. by destruct m.
    - destruct (decide (i = 0)); rewrite app_nil_r; by destruct m. }
  split; [done|]. intros Hmax. eexists. split; [|apply name_part_of_name]. simpl.
  pose proof (number_after_pos leaf). rewrite wrap_int_small by (unfold maxInt in *; lia). apply Sprintf_numbered. lia.
Qed.

Lemma stands_arranged leaves before after nm app :
  stands timestamp migrationName leaves before after nm app →
  arranged leaves before (map (rename_dependencies_of nm) <$> after) nm app.
Proof.
  intros [He Ha Hn|migs migs' Hb Hne Ha Hlen Hmigs Hn|migs Hb Hl Ha Hd Hn].
  - apply arranged_none; [done| |done]. rewrite lookup_fmap, Ha. destruct (before !! app) as [migs|]; [|done].
    simpl in He. by subst.
  - apply (arranged_placed _ _ _ _ _ migs (map (rename_dependencies_of nm) migs')); [done|done| | | |done].
    + by rewrite lookup_fmap, Ha.
    + by rewrite length_map.
    + intros i m Hi. destruct (Hmigs i m Hi) as (m' & Hi' & -> & Hm').
      eexists. split; [|split; [apply placed_renamed|exact Hm']].
      change (map (rename_dependencies_of nm) migs') with (rename_dependencies_of nm <$> migs').
      by rewrite list_lookup_fmap, Hi'.
  - apply (arranged_dropped _ _ _ _ _ migs); [done|done| |done|done]. by rewrite lookup_fmap, Ha.
Qed.

(** C33: ArrangeForGraph succeeds on a well-formed graph and arranges every
    app. Its migrations are named with numbers of four digits at least, which
    go on by one from that of the leaf of the app, as long as they fit an
    int, an underscore, and the name asked for, initial, or what the
    migration suggests; the first depends on the leaf; a dependency on a
    migration follows it to its new name, and nothing else of a migration
    changes. An app without a leaf may be left out, when the questioner says
    so, and a dependency on one of its migrations is then on __first__. *)
Theorem ArrangeForGraph_arranges changes g q :
  graph_wf g → (∀ app migs, changes !! app = Some migs → NoDup (map mig_Name migs)) →
  ∃ q' leaves after nm,
    LeafNodes g "" = Ok leaves ∧
    ArrangeForGraph timestamp migrationName changes g q = (q', Ok after) ∧
    ∀ app, arranged leaves changes after nm app.
Proof.
  intros Hwf Hnames. destruct (LeafNodes_spec g "" Hwf) as (leaves & Hl & _).
  pose proof (arrange_all_spec leaves changes (sort_strings (map fst (map_to_list changes)))) as Hs.
  unfold ArrangeForGraph, mbind, io_bind, lift. rewrite Hl.
  specialize (Hs ltac:(unfold sort_strings; rewrite merge_sort_Permutation; apply NoDup_fst_map_to_list)).
  specialize (Hs ltac:(intros app [migs Hm]; unfold sort_strings; rewrite merge_sort_Permutation; apply list_elem_of_fmap;
                       exists (app, migs); split; [done|by apply elem_of_map_to_list]) Hnames q I).
  destruct (fold_io _ _ _ _) as [q' [[after nm]|e|e]]; [|done..].
  exists q', leaves, (map (rename_dependencies_of nm) <$> after), nm. split_and!; [done|done|].
  intros app. by apply stands_arranged.
Qed.
End ArrangeForGraph.

(** ** A question answered with nil *)

Section nil_answer.
Context `{!Comparison} (b : Base).
#[local] Instance base_answers : Questioner unit := base_Questioner b.

(** Base answers AskNotNullAddition with nil. The field a unique column is
    added with then has the nil pointer for its default, which
    isCallableDefault dereferences. *)
Theorem generateAddedField_nil_answer k ms (a : Autodetector unit) :
  new_model (fk_model k) = Ok ms →
  preserveDefault (the_field ms (fk_Field k)) = false →
  fld_Unique (the_field ms (fk_Field k)) = true →
  (generateAddedField k a).2 = Panic nil_dereference.
Proof.
  intros Hms Hp Hu. destruct k as [app model name]. simpl in *. unfold generateAddedField.
  set (f := the_field ms name) in *. destruct (foreign_key_dependencies_Ok app f) as [deps Hd].
  unfold mbind, io_bind, lift. rewrite Hms. fold f. rewrite Hd, Hp. unfold ask_default, ask, zoom, mbind, io_bind.
  destruct (_ && fld_AutoNowAdd f); simpl; by rewrite Field_Clone_id, Hu.
Qed.
End nil_answer.

(** ** The example project *)

Definition state_of (ops : list (string * Operation)) : ProjectState :=
  match foldM (fun s o => StateForwards o.2 o.1 s) NewProjectState ops with Ok s => s | _ => NewProjectState end.
Definition blog_and_shop : ProjectState :=
  state_of [("blog", create_author); ("blog", add_name); ("shop", create_order)].
Definition yes : Base := mkBase (mkDefaults true true true true) ∅ false None (fun _ => None).
#[local] Instance says_yes : Questioner unit := base_Questioner yes.
#[local] Instance from_nothing : Comparison := mkComparison NewProjectState blog_and_shop [].

Definition detected : Autodetector unit := (detect (Autodetector_New tt)).1.

Lemma detectChanges_ordered_witness :
  detect (Autodetector_New tt) = (detected, Ok tt) ∧
  ∃ a2 changes blocks, detectChanges (fun _ => "") None (Autodetector_New tt) = (a2, Ok changes) ∧
    ordered_blocks (ad_generated detected) blocks ∧ made_of_blocks changes blocks.
Proof.
  assert (detect (Autodetector_New tt) = (detected, Ok tt)) as Hd by (vm_compute; reflexivity).
  assert (is_ok (detectChanges (fun _ => "") None (Autodetector_New tt)).2 = true) as Hok by (vm_compute; reflexivity).
  split; [exact Hd|].
  pose proof (detectChanges_ordered (fun _ => "") None tt detected I Hd) as [(a2 & changes & blocks & Hc & Ho & Hm & _)|(a2 & e & He & _)].
  - exists a2, changes, blocks. split; [exact Hc|]. split; [exact Ho|exact Hm].
  - exfalso. rewrite He in Hok. discriminate Hok.
Defined.

Lemma detectChanges_unchanged_witness :
  state_comparable blog_and_shop ∧
  ∃ a, @detectChanges unit says_yes (same blog_and_shop) (fun _ => "") None (Autodetector_New tt) = (a, Ok ∅).
Proof.
  assert (state_comparable blog_and_shop) as Hs by (apply (bool_decide_unpack _); vm_compute; reflexivity).
  split; [exact Hs|]. destruct (detectChanges_unchanged blog_and_shop Hs tt (fun _ => "") None) as (a & Ha & _).
  by exists a.
Defined.

Lemma ParseNumber_Sprintf_witness : ParseNumber "0041_author_name" = Some 41%Z.
Proof. apply (ParseNumber_Sprintf 41 "author_name"); [by split|reflexivity]. Defined.

(** The last number an int holds is read, and the next one is negative. *)
Example next_number_overflows :
  ParseNumber "9223372036854775807_last" = Some maxInt ∧
  Sprintf_04d (first_number (Some (mkKey "blog" "9223372036854775807_last"))) = "-9223372036854775808".
Proof. vm_compute. done. Qed.

Definition new_changes : gmap string (list Migration) :=
  {[ "blog" := [migration "blog" "auto_1" [] [] [add_name]];
     "shop" := [migration "shop" "auto_1" [Dep "blog" "auto_1"] [] [create_order]] ]}.

Lemma ArrangeForGraph_arranges_witness :
  ∃ after nm,
    ArrangeForGraph (fun _ => "") "" new_changes (graph plain) tt = (tt, Ok after) ∧
    arranged (fun _ => "") "" [Dep "blog" "0003_widen"; Dep "shop" "0001_initial"] new_changes after nm "blog".
Proof.
  destruct (ArrangeForGraph_arranges (fun _ => "") "" new_changes (graph plain) tt plain_graph_wf)
    as (q' & leaves & after & nm & Hl & Ha & Harr).
  - apply (bool_decide_unpack (map_Forall (fun _ migs => NoDup (map mig_Name migs)) new_changes)). vm_compute. reflexivity.
  - exists after, nm. destruct q'. split; [exact Ha|].
    assert (leaves = [Dep "blog" "0003_widen"; Dep "shop" "0001_initial"]) as <-.
    { assert (LeafNodes (graph plain) "" = Ok [Dep "blog" "0003_widen"; Dep "shop" "0001_initial"]) as Hl' by (vm_compute; reflexivity).
      congruence. }
    apply Harr.
Defined.

(** A field that is unique and not null *)
Definition add_slug : Operation :=
  AddField "Author" "slug" (mkField String_ 100 0 0 false false 0 false true None None "" None None None false false "") None.
Definition with_slug : ProjectState := state_of [("blog", create_author); ("blog", add_slug)].

Lemma generateAddedField_nil_answer_witness :
  (@generateAddedField unit says_yes (mkComparison blog_and_shop with_slug []) (mkFieldKey "blog" "author" "slug")
     (Autodetector_New tt)).2 = Panic nil_dereference.
Proof.
  eapply (@generateAddedField_nil_answer (mkComparison blog_and_shop with_slug []) yes); vm_compute; reflexivity.
Defined.
