(* ===== verification/SplitSQL.v ===== *)
(** * Splitting SQL scripts: backends/base/sqlsplit.go

    The scan for top-level semicolons. Each branch of the switch of SplitSQL
    is a function that cuts what it reads off the rest of the script. The
    lexical rules only mention ASCII, so bytes stand for runes in a script of
    valid UTF-8. *)

From S2P Require Import Prelude GoStd Names EditorSQL.

Record SplitOptions := mkSplitOptions { BackslashEscapes : bool; BacktickQuotes : bool; DollarQuotes : bool }.

Definition squote : ascii := ascii_of_nat 39.
Definition backtick : ascii := ascii_of_nat 96.
Definition dollar : ascii := ascii_of_nat 36.
Definition semicolon : ascii := ascii_of_nat 59.
Definition newline : ascii := ascii_of_nat 10.
Definition dash : ascii := ascii_of_nat 45.
Definition slash : ascii := ascii_of_nat 47.
Definition star : ascii := ascii_of_nat 42.

(** isAlnum *)
Definition isAlnum (r : ascii) : bool := byte_is_lower r || byte_is_upper r || byte_is_digit r.

(** strings.Split at a byte *)
Fixpoint split_byte (c : ascii) (s : string) : list string :=
  match s with
  | EmptyString => [""]
  | String d s' =>
      if bool_decide (d = c) then "" :: split_byte c s'
      else match split_byte c s' with
           | x :: l => String d x :: l
           | [] => [String d ""]
           end
  end.

(** onlyComments *)
Definition comment_line (line : string) : bool :=
  let l := TrimSpace line in bool_decide (l = "") || HasPrefix l "--".
Definition onlyComments (s : string) : bool := forallb comment_line (split_byte newline s).

(** ** The branches of the switch *)

(** Is c a quote? *)
Definition quoting (opts : SplitOptions) (c : ascii) : bool :=
  bool_decide (c = squote) || bool_decide (c = dquote) || (bool_decide (c = backtick) && BacktickQuotes opts).

(** What follows the opening quote c, to the closing one or to the end *)
Fixpoint quoted_run (c : ascii) (escapes : bool) (s : string) : string * string :=
  match s with
  | EmptyString => ("", "")
  | String d s' =>
      if bool_decide (d = c) then
        match s' with
        | String d' s'' =>
            if bool_decide (d' = c) then
              let r := quoted_run c escapes s'' in (String d (String d' r.1), r.2)
            else (String d "", s')
        | EmptyString => (String d "", "")
        end
      else if bool_decide (d = backslash) && escapes then
        match s' with
        | String e s'' => let r := quoted_run c escapes s'' in (String d (String e r.1), r.2)
        | EmptyString => (String d "", "")
        end
      else let r := quoted_run c escapes s' in (String d r.1, r.2)
  end.

(** The longest start of s that satisfies p, and the rest *)
Fixpoint span (p : ascii → bool) (s : string) : string * string :=
  match s with
  | EmptyString => ("", "")
  | String c s' => if p c then let r := span p s' in (String c r.1, r.2) else ("", s)
  end.

Lemma span_split p s : s = (span p s).1 +:+ (span p s).2.
Proof.
  induction s as [|d s IH]; [done|]. cbn [span]. destruct (p d); [|done].
  cbn [fst snd]. rewrite str_app_cons. by rewrite <- IH.
Qed.

Definition line_comment (s : string) : string * string := span (fun c => negb (bool_decide (c = newline))) s.

(** The text after an opening comment, to the end of the comment *)
Definition block_comment (s : string) : string * string :=
  match cut_string s "*/" with
  | Some (body, rest) => (body +:+ "*/", rest)
  | None => (s, "")
  end.

Definition tag_char (c : ascii) : bool := bool_decide (c = "_"%char) || isAlnum c.

(** What follows a dollar sign, when it opens a string that is closed *)
Definition dollar_run (s : string) : option (string * string) :=
  let '(tag, rest) := span tag_char s in
  match rest with
  | String d rest' =>
      if bool_decide (d = dollar) then
        let delim := tag +:+ String dollar "" in
        match cut_string rest' (String dollar delim) with
        | Some (body, after) => Some (delim +:+ body +:+ String dollar delim, after)
        | None => None
        end
      else None
  | EmptyString => None
  end.

(** ** The scan *)

(** One turn of the loop at a character c followed by s: the text it appends
    to the current statement, None for the semicolon that ends it, and the
    rest of the script *)
Definition scan_step (opts : SplitOptions) (c : ascii) (s : string) : option string * string :=
  if quoting opts c then
    let r := quoted_run c (bool_decide (c = squote) && BackslashEscapes opts) s in (Some (String c r.1), r.2)
  else if bool_decide (c = dash) && HasPrefix s "-" then
    let r := line_comment s in (Some (String c r.1), r.2)
  else if bool_decide (c = slash) && HasPrefix s "*" then
    let r := block_comment (TrimPrefix s "*") in (Some ("/*" +:+ r.1), r.2)
  else if bool_decide (c = dollar) && DollarQuotes opts then
    match dollar_run s with
    | Some (body, rest) => (Some (String c body), rest)
    | None => (Some (String c ""), s)
    end
  else if bool_decide (c = semicolon) then (None, s)
  else (Some (String c ""), s).

(** flush *)
Definition keep_statement (s : string) : bool := negb (bool_decide (s = "")) && negb (onlyComments s).
Definition flush (cur : string) (out : list string) : list string :=
  let s := TrimSpace cur in if keep_statement s then out ++ [s] else out.

(** The loop of SplitSQL; None when the fuel runs out *)
Fixpoint split_loop (fuel : nat) (opts : SplitOptions) (cur : string) (out : list string) (script : string)
    : option (list string) :=
  match fuel with
  | O => None
  | S fuel =>
      match script with
      | EmptyString => Some (flush cur out)
      | String c s =>
          match scan_step opts c s with
          | (Some text, rest) => split_loop fuel opts (cur +:+ text) out rest
          | (None, rest) => split_loop fuel opts "" (flush cur out) rest
          end
      end
  end.

(** SplitSQL *)
Definition split_fuel (script : string) : nat := S (String.length script).
Definition SplitSQL (script : string) (opts : SplitOptions) : list string :=
  default [] (split_loop (split_fuel script) opts "" [] script).

(** ** What the regular expressions of the backends are made of *)

(** The leftmost match of a pattern *)
Fixpoint first_match {A} (here : string → option A) (s : string) : option A :=
  match here s with
  | Some r => Some r
  | None => match s with String _ s' => first_match here s' | EmptyString => None end
  end.

(** The digits a text starts with, one at least *)
Definition digits (s : string) : option (string * string) :=
  let '(d, rest) := span byte_is_digit s in if bool_decide (d = "") then None else Some (d, rest).

(** A text without a prefix that it must have *)
Definition expect (prefix s : string) : option string := if HasPrefix s prefix then Some (TrimPrefix s prefix) else None.

(** ** Cutting at a separator *)

Lemma prefix_app p s : String.prefix p (p +:+ s) = true.
Proof. induction p as [|c p IH]; simpl; [by destruct s|]. by destruct (ascii_dec c c). Qed.

Lemma prefix_mono p s t : String.prefix p s = true → String.prefix p (s +:+ t) = true.
Proof.
  revert s. induction p as [|c p IH]; intros [|d s]; simpl; try done; [by destruct t|].
  destruct (ascii_dec c d); [apply IH|done].
Qed.

Lemma substring_all s : String.substring 0 (String.length s) s = s.
Proof. induction s as [|c s IH]; simpl; congruence. Qed.

Lemma prefix_split p s : String.prefix p s = true →
  s = p +:+ String.substring (String.length p) (String.length s - String.length p) s.
Proof.
  revert s. induction p as [|c p IH]; intros s Hp; simpl.
  { rewrite Nat.sub_0_r. by rewrite substring_all. }
  destruct s as [|d s]; simpl in *; [done|].
  destruct (ascii_dec c d) as [->|]; [|done]. by rewrite str_app_cons, <- (IH s Hp).
Qed.

Lemma substring_app p s : String.substring (String.length p) (String.length (p +:+ s) - String.length p) (p +:+ s) = s.
Proof.
  pose proof (prefix_split p (p +:+ s) (prefix_app p s)) as H.
  revert H. generalize (String.substring (String.length p) (String.length (p +:+ s) - String.length p) (p +:+ s)).
  induction p as [|c p IH]; intros x; [by rewrite !str_app_nil_l|]. rewrite !str_app_cons. intros [=]. auto.
Qed.

Lemma cut_string_eq s sep :
  cut_string s sep = if String.prefix sep s
                     then Some ("", String.substring (String.length sep) (String.length s - String.length sep) s)
                     else match s with
                          | EmptyString => None
                          | String c s' => (fun '(a, b) => (String c a, b)) <$> cut_string s' sep
                          end.
Proof. by destruct s. Qed.

Lemma cut_string_here sep s : cut_string (sep +:+ s) sep = Some ("", s).
Proof. by rewrite cut_string_eq, prefix_app, substring_app. Qed.

Lemma cut_string_Some s sep a b : cut_string s sep = Some (a, b) → s = a +:+ sep +:+ b.
Proof.
  revert a b. induction s as [|c s IH]; intros a b; rewrite cut_string_eq;
    destruct (String.prefix sep _) eqn:Hp; intros H; simplify_eq; try by apply prefix_split.
  apply fmap_Some in H as ([a' b'] & H & ?). simplify_eq. rewrite str_app_cons. f_equal. by apply IH.
Qed.

(** What is found does not depend on what comes after it. *)
Lemma cut_string_local s sep a x y :
  cut_string s sep = Some (a, x +:+ y) → cut_string (a +:+ sep +:+ x) sep = Some (a, x).
Proof.
  revert a. induction s as [|c s IH]; intros a H; pose proof (cut_string_Some _ _ _ _ H) as Heq;
    rewrite cut_string_eq in H; destruct (String.prefix sep _) eqn:Hp; [by simplify_eq; rewrite str_app_nil_l; apply cut_string_here|done
      |by simplify_eq; rewrite str_app_nil_l; apply cut_string_here|].
  apply fmap_Some in H as ([a' b'] & H & ?). simplify_eq. rewrite str_app_cons in *. injection Heq as Heq.
  rewrite cut_string_eq. destruct (String.prefix sep (String c (a' +:+ sep +:+ x))) eqn:Hp'.
  - apply (prefix_mono _ _ y) in Hp'. rewrite str_app_cons, !str_app_assoc, <- Heq in Hp'. congruence.
  - by rewrite (IH a' H).
Qed.

Lemma cut_string_None_prefix s y sep : cut_string (s +:+ y) sep = None → cut_string s sep = None.
Proof.
  induction s as [|c s IH]; intros H; rewrite cut_string_eq in H |- *.
  - destruct (String.prefix sep "") eqn:Hp; [|done]. rewrite (prefix_mono sep "" y) in H; done.
  - destruct (String.prefix sep (String c s)) eqn:Hp.
    + rewrite (prefix_mono sep (String c s) y) in H; done.
    + rewrite str_app_cons in H. destruct (String.prefix sep (String c (s +:+ y))); [done|].
      apply fmap_None in H. by rewrite (IH H).
Qed.
