(* ===== verification/Interactive.v ===== *)
(** * Prompts: the Interactive of internal/questioner/questioner.go

    A console has the text that is still to be typed and the text that has
    been written. go/parser and go/types are the class [GoChecker]. *)

From S2P Require Import Prelude GoStd Keys Errors Fields Index ModelState SchemaEditor Effects Migration.
From S2P Require Import EditorSQL Questioner AutoDeps Arrange Loader SplitSQL.

Record Console := mkConsole { cs_In : string; cs_Out : string }.

(** go/parser and go/types: whether an expression parses, the error of a
    file that does not, and the result of a check: its error, and whether the
    importer failed. A check error is a types.Error with a Msg, or another. *)
Class GoChecker := {
  ParseExpr : string → option string;
  ParseFile : string → option string;
  conf_Check : string → option string * bool;
}.

Definition ErrQuit : error := PlainError "cancelled".
Definition errEndOfInput : error := PlainError "EOF when reading a line".

(** ** Reading *)

(** In.ReadString up to a newline: the line with it, and what is left; an
    error when the input ends first, with the text that was there *)
Definition read_line (s : string) : string * string :=
  let r := span (fun c => negb (bool_decide (c = newline))) s in
  match r.2 with
  | String c rest => (r.1 +:+ String c "", rest)
  | EmptyString => (r.1, "")
  end.

(** strings.TrimRight with a set of bytes *)
Fixpoint TrimRight (p : ascii → bool) (s : string) : string :=
  match s with
  | EmptyString => ""
  | String c s' => let r := TrimRight p s' in if bool_decide (r = "") && p c then "" else String c r
  end.
Definition return_char : ascii := ascii_of_nat 13.
Definition line_end (c : ascii) : bool := bool_decide (c = return_char) || bool_decide (c = newline).

(** Interactive.readLine: the error of ReadString matters when there is no
    text before it. *)
Definition readLine : io Console string := fun c =>
  if bool_decide (cs_In c = "") then (c, Err errEndOfInput)
  else let r := read_line (cs_In c) in (mkConsole r.2 (cs_Out c), Ok (TrimRight line_end r.1)).

(** Interactive.write *)
Definition console_write (s ending : string) : io Console unit :=
  modify (fun c => mkConsole (cs_In c) (cs_Out c +:+ s +:+ ending)).
Definition line_feed : string := String newline "".

(** Interactive.readLineOrCancel *)
Definition readLineOrCancel : io Console string :=
  r ← attempt readLine;
  match r with
  | inl line => mret line
  | inr _ => _ ← console_write (line_feed +:+ "cancelled") line_feed; lift (Err ErrQuit)
  end.

(** ** The loops of the prompts: each turn reads a line, so their fuel is one
    more than the length of the input. *)

Definition prompt_fuel (c : Console) : nat := S (String.length (cs_In c)).
Definition with_fuel {A} (loop : nat → io Console A) : io Console A := fun c => loop (prompt_fuel c) c.

(** The first byte of an answer in lower case; [result[:1]] *)
Definition first_lower (s : string) : string := ToLower (String.substring 0 1 s).
Definition yes_or_no (result : string) : bool := bool_decide (first_lower result = "y") || bool_decide (first_lower result = "n").

Fixpoint boolean_loop (fuel : nat) (result : string) : io Console bool :=
  match fuel with
  | 0 => lift (Panic out_of_fuel)
  | S fuel =>
      if yes_or_no result then mret (bool_decide (first_lower result = "y"))
      else _ ← console_write "answer yes or no: " ""; result ← readLine; boolean_loop fuel result
  end.

(** Interactive.booleanInput *)
Definition booleanInput (question : string) (def : option bool) : io Console bool :=
  _ ← console_write (question +:+ " ") "";
  result ← readLine;
  match def with
  | Some d => if bool_decide (result = "") then mret d else with_fuel (fun fuel => boolean_loop fuel result)
  | None => with_fuel (fun fuel => boolean_loop fuel result)
  end.

(** strconv.Atoi: an optional sign and digits, within an int *)
Definition is_numeral (s : string) : bool := negb (bool_decide (s = "")) && bool_decide (leading_digits s = s).
Definition signed_Atoi (s : string) : option Z :=
  let '(neg, digits) := match s with
                        | String c s' => if bool_decide (c = "-"%char) then (true, s')
                                         else if bool_decide (c = "+"%char) then (false, s') else (false, s)
                        | EmptyString => (false, s)
                        end in
  if is_numeral digits then
    let n := if neg : bool then (- decimal 0 digits)%Z else decimal 0 digits in
    if (- 2 ^ 63 <=? n)%Z && (n <=? maxInt)%Z then Some n else None
  else None.

(** The choice a line makes among n *)
Definition choice_of (n : nat) (line : string) : option Z :=
  match signed_Atoi (TrimSpace line) with
  | Some v => if (0 <? v)%Z && (v <=? Z.of_nat n)%Z then Some v else None
  | None => None
  end.

Fixpoint choice_loop (fuel n : nat) : io Console Z :=
  match fuel with
  | 0 => lift (Panic out_of_fuel)
  | S fuel =>
      result ← readLineOrCancel;
      match choice_of n result with
      | Some v => mret v
      | None => _ ← console_write "choose one of the numbers above: " ""; choice_loop fuel n
      end
  end.

(** Interactive.choiceInput *)
Definition choiceInput (question : string) (choices : list string) : io Console Z :=
  _ ← console_write question line_feed;
  _ ← for_io (imap pair choices) (fun p => console_write (" " +:+ itoa (Z.of_nat p.1 + 1) +:+ ") " +:+ p.2) line_feed);
  _ ← console_write "choose: " "";
  with_fuel (fun fuel => choice_loop fuel (length choices)).

(** ** Defaults that are typed *)

(** goTypeOf *)
Definition goTypeOf (f : option Field) : string :=
  match f with
  | None => ""
  | Some f =>
      if bool_decide (is_Some (fld_Custom f)) then ""
      else if bool_decide (fld_Type f = Bool_) then "bool"
      else if bool_decide (fld_Type f = Int_) then "int64"
      else if bool_decide (fld_Type f = Uint_) then "uint64"
      else if bool_decide (fld_Type f = Float_) then "float64"
      else if bool_decide (fld_Type f = String_) then "string"
      else if bool_decide (fld_Type f = Time_) then "time.Time"
      else if bool_decide (fld_Type f = Bytes_) then "[]byte"
      else ""
  end.

Section check.
Context `{GoChecker}.

(** typeCheck: the declaration in a file of its own *)
Definition type_check_file (decl : string) : string :=
  "package p" +:+ line_feed +:+
  (if Contains decl "time." then
     "import " +:+ Quote "time" +:+ line_feed +:+ "var _ = time.Now" +:+ line_feed
   else "") +:+ decl +:+ line_feed.
Definition typeCheck (decl : string) : option string :=
  match ParseFile (type_check_file decl) with
  | Some err => Some ("syntax error: " +:+ err)
  | None =>
      match conf_Check (type_check_file decl) with
      | (None, _) | (_, true) => None
      | (Some msg, false) => Some ("type error: " +:+ msg)
      end
  end.

(** CheckExpr *)
Definition CheckExpr (code : string) (f : option Field) : option string :=
  match ParseExpr code with
  | Some err => Some ("syntax error: " +:+ TrimPrefix err "1:")
  | None =>
      let target := goTypeOf f in
      if bool_decide (target = "") then typeCheck ("var _ = " +:+ code)
      else
        match typeCheck ("var _ " +:+ target +:+ " = " +:+ code) with
        | None => None
        | Some err =>
            match typeCheck ("var _ func() " +:+ target +:+ " = " +:+ code) with None => None | Some _ => Some err end
        end
  end.

Fixpoint default_loop (fuel : nat) (f : option Field) (def : string) : io Console answer :=
  match fuel with
  | 0 => lift (Panic out_of_fuel)
  | S fuel =>
      _ ← console_write (if bool_decide (def = "") then ">>> " else "[default: " +:+ def +:+ "] >>> ") "";
      line ← readLineOrCancel;
      let code := if bool_decide (line = "") then def else line in
      if bool_decide (code = "") then
        _ ← console_write "enter an expression, or 'exit' to give up" line_feed; default_loop fuel f def
      else if bool_decide (code = "exit") then lift (Err ErrQuit)
      else
        match CheckExpr code f with
        | Some err => _ ← console_write err line_feed; default_loop fuel f def
        | None => mret (Expr code)
        end
  end.

(** Interactive.askDefault *)
Definition askDefault (f : option Field) (def : string) : io Console answer :=
  _ ← console_write "enter the default as a Go expression" line_feed;
  _ ← (if bool_decide (def = "") then mret tt
       else console_write ("press Enter to take " +:+ def +:+ ", or type another expression") line_feed);
  _ ← console_write "the time package is available, so time.Now works as a value" line_feed;
  _ ← console_write "type 'exit' to give up" line_feed;
  with_fuel (fun fuel => default_loop fuel f def).

(** ** The questions *)

(** Interactive, with the console apart *)
Record Interactive := mkInteractive { it_Base : Base; it_FieldLookup : option (string → string → option Field) }.

(** Interactive.fieldFor *)
Definition fieldFor (q : Interactive) (model field : string) : option Field :=
  match it_FieldLookup q with Some lookup => lookup model field | None => None end.

Definition DryRun (q : Interactive) : bool := bs_DryRun (it_Base q).

Definition stop_choice : string := "stop, and give the field a default in the model struct".

Definition interactive_AskNotNullAddition (q : Interactive) (field model : string) : io Console answer :=
  if DryRun q then mret NoDefault
  else
    choice ← choiceInput (model +:+ "." +:+ field +:+ " is not nullable and the rows already there need a value for it.")
               ["set a one-off default now, on the rows that have none"; stop_choice];
    if bool_decide (choice = 2%Z) then lift (Err ErrNoAnswer) else askDefault (fieldFor q model field) "".

Definition interactive_AskNotNullAlteration (q : Interactive) (field model : string) : io Console answer :=
  if DryRun q then mret NoDefault
  else
    choice ← choiceInput (model +:+ "." +:+ field +:+ " is becoming non-nullable and the rows already there need a value for it.")
               ["set a one-off default now, on the rows that have none";
                "Ignore for now. Existing rows that contain NULL values will have to be handled manually, for example with a RunGo or RunSQL operation.";
                stop_choice];
    if bool_decide (choice = 2%Z) then mret NotProvided
    else if bool_decide (choice = 3%Z) then lift (Err ErrNoAnswer)
    else askDefault (fieldFor q model field) "".

Definition interactive_AskAutoNowAddAddition (q : Interactive) (field model : string) : io Console answer :=
  if DryRun q then mret NoDefault
  else
    choice ← choiceInput (model +:+ "." +:+ field +:+ " has autoCreateTime and the rows already there need a value for it.")
               ["set a one-off default now, on every existing row"; stop_choice];
    if bool_decide (choice = 2%Z) then lift (Err ErrNoAnswer) else askDefault (fieldFor q model field) "time.Now".

Definition interactive_AskUniqueCallableDefaultAddition (q : Interactive) (field model : string) : io Console unit :=
  if DryRun q then mret tt
  else
    choice ← choiceInput (model +:+ "." +:+ field +:+ " is unique and its default is a function, which will give every existing row the same value.")
               ["write the migration anyway, and fill the column in by hand afterwards"; "stop, and change the field in the model struct"];
    if bool_decide (choice = 2%Z) then lift (Err ErrNoAnswer) else mret tt.

Definition merge_question : string :=
  line_feed +:+ "Merging will only work if the operations printed above do not conflict" +:+ line_feed +:+
  "with each other (working on different fields or models)" +:+ line_feed +:+ "Should these migration branches be merged? [y/N]".

Definition interactive_Questioner (q : Interactive) : Questioner Console := {|
  AskInitial app := fun c => (c, base_AskInitial (it_Base q) app);
  AskNotNullAddition := interactive_AskNotNullAddition q;
  AskNotNullAlteration := interactive_AskNotNullAlteration q;
  AskRename model oldName newName f :=
    booleanInput ("Was " +:+ model +:+ "." +:+ oldName +:+ " renamed to " +:+ model +:+ "." +:+ newName +:+ " (a " +:+
                  ClassName f +:+ ")? [y/N]") (Some false);
  AskRenameModel old new :=
    booleanInput ("Was the model " +:+ ms_App old +:+ "." +:+ ms_Name old +:+ " renamed to " +:+ ms_Name new +:+ "? [y/N]") (Some false);
  AskMerge _ := booleanInput merge_question (Some false);
  AskAutoNowAddAddition := interactive_AskAutoNowAddAddition q;
  AskUniqueCallableDefaultAddition := interactive_AskUniqueCallableDefaultAddition q;
|}.
End check.

(** ** The prompts end

    Each reads only what there is to read, leaves the rest, and returns. *)

Definition suffix (t s : string) : Prop := ∃ p, s = p +:+ t.

#[export] Instance suffix_preorder : PreOrder suffix.
Proof.
  split; [by intros s; exists ""|]. intros s1 s2 s3 [p1 ->] [p2 ->]. exists (p2 +:+ p1). by rewrite str_app_assoc.
Qed.

(** From a console whose input is left over from c: no panic, and what is
    left is left over from c too. *)
Definition left_of (c0 c : Console) : Prop := suffix (cs_In c) (cs_In c0).
#[export] Instance left_of_preorder : PreOrder left_of.
Proof. unfold left_of. split; [by intros c|]. intros c1 c2 c3 H12 H23. by etrans. Qed.
Definition prompts {A} (m : io Console A) : Prop := ∀ c0, triple (left_of c0) m (λ _, left_of c0) (left_of c0).

Lemma read_line_rest s : suffix (read_line s).2 s ∧ (s ≠ "" → String.length (read_line s).2 < String.length s).
Proof.
  unfold read_line. pose proof (span_split (λ c, negb (bool_decide (c = newline))) s) as Hs.
  destruct (span _ s) as [a b]. simpl in *. destruct b as [|d b]; simpl.
  - split; [exists s; by rewrite str_app_nil_r|]. destruct s; [done|simpl; lia].
  - rewrite Hs. split; [exists (a +:+ String d ""); by rewrite str_app_assoc|]. intros _. rewrite str_app_length. simpl. lia.
Qed.

Lemma triple_prompts {A} (m : io Console A) c0 n :
  prompts m → triple (λ c, left_of c0 c ∧ String.length (cs_In c) < n) m (λ _, left_of c0) (left_of c0).
Proof. intros Hm. eapply triple_weaken; [apply (Hm c0)|tauto|done|done]. Qed.

Lemma prompts_ret {A} (a : A) : prompts (mret a).
Proof. intros c0. apply triple_skip. Qed.
Lemma prompts_err {A} e : prompts (lift (Err e) : io Console A).
Proof. by intros c0 c Hc. Qed.
Lemma prompts_bind {A B} (m : io Console A) (f : A → io Console B) : prompts m → (∀ a, prompts (f a)) → prompts (m ≫= f).
Proof. intros Hm Hf c0. eapply triple_bind; [apply Hm|]. intros a. apply Hf. Qed.
Lemma prompts_for {A} (l : list A) (f : A → io Console unit) : (∀ x, prompts (f x)) → prompts (for_io l f).
Proof.
  intros Hf. unfold for_io. generalize tt as u. induction l as [|x l IH]; intros []; [apply prompts_ret|].
  apply prompts_bind; [apply Hf|intros u; apply IH].
Qed.
Lemma console_write_prompts s e : prompts (console_write s e).
Proof. by intros c0 c Hc. Qed.

(** A turn of a loop keeps the input it has not read below its fuel. *)
Definition turn {A} (m : io Console A) : Prop := ∀ c0 n,
  triple (λ c, left_of c0 c ∧ String.length (cs_In c) < S n) m
    (λ _ c, left_of c0 c ∧ String.length (cs_In c) < n) (left_of c0).

Lemma readLine_turn : turn readLine.
Proof.
  intros c0 n c [Hc Hn]. unfold readLine. case_bool_decide as He; [done|]. destruct (read_line_rest (cs_In c)) as [Hr Hl].
  simpl. split; [by etrans|]. specialize (Hl He). lia.
Qed.
Lemma console_write_triple s e c0 n :
  triple (λ c, left_of c0 c ∧ String.length (cs_In c) < n) (console_write s e)
    (λ _ c, left_of c0 c ∧ String.length (cs_In c) < n) (left_of c0).
Proof. by intros c Hc. Qed.
Lemma readLineOrCancel_turn : turn readLineOrCancel.
Proof.
  intros c0 n. eapply triple_bind; [apply triple_attempt, readLine_turn|]. intros [line|e].
  - intros c Hc. exact Hc.
  - intros c Hc. exact Hc.
Qed.
Lemma readLine_prompts : prompts readLine.
Proof.
  intros c0 c Hc. pose proof (readLine_turn c0 (String.length (cs_In c)) c) as Hr.
  destruct (readLine c) as [c' [line|e|e]]; apply Hr; (split; [done|lia]).
Qed.

(** A loop that its fuel is enough for *)
Lemma with_fuel_prompts {A} (loop : nat → io Console A) :
  (∀ c0 n, triple (λ c, left_of c0 c ∧ String.length (cs_In c) < n) (loop n) (λ _, left_of c0) (left_of c0)) →
  prompts (with_fuel loop).
Proof. intros Hl c0 c Hc. apply (Hl c0 (prompt_fuel c) c). split; [done|]. unfold prompt_fuel. lia. Qed.

Lemma boolean_loop_spec c0 n : ∀ result,
  triple (λ c, left_of c0 c ∧ String.length (cs_In c) < n) (boolean_loop n result) (λ _, left_of c0) (left_of c0).
Proof.
  induction n as [|n IH]; intros result; [intros c [_ Hn]; lia|]. simpl.
  case_match; [apply triple_prompts, prompts_ret|]. eapply triple_bind; [apply console_write_triple|]. intros [].
  eapply triple_bind; [apply readLine_turn|]. intros line. apply IH.
Qed.

Lemma choice_loop_spec c0 n k :
  triple (λ c, left_of c0 c ∧ String.length (cs_In c) < n) (choice_loop n k) (λ _, left_of c0) (left_of c0).
Proof.
  induction n as [|n IH]; [intros c [_ Hn]; lia|]. simpl. eapply triple_bind; [apply readLineOrCancel_turn|]. intros line.
  case_match; [intros c [Hc _]; exact Hc|]. eapply triple_bind; [apply console_write_triple|]. intros []. apply IH.
Qed.

Section prompts.
Context `{GoChecker}.

Lemma default_loop_spec c0 n f def :
  triple (λ c, left_of c0 c ∧ String.length (cs_In c) < n) (default_loop n f def) (λ _, left_of c0) (left_of c0).
Proof.
  induction n as [|n IH]; [intros c [_ Hn]; lia|]. cbn [default_loop]. eapply triple_bind; [apply console_write_triple|]. intros [].
  eapply triple_bind; [apply readLineOrCancel_turn|]. intros line. cbv zeta.
  repeat case_bool_decide; try (intros c [Hc _]; exact Hc); try (eapply triple_bind; [apply console_write_triple|]; intros []; apply IH).
  all: case_match; [eapply triple_bind; [apply console_write_triple|]; intros []; apply IH|intros c [Hc _]; exact Hc].
Qed.

Lemma booleanInput_prompts question def : prompts (booleanInput question def).
Proof.
  unfold booleanInput. apply prompts_bind; [apply console_write_prompts|intros _].
  apply prompts_bind; [apply readLine_prompts|intros line].
  repeat case_match; try apply prompts_ret; apply with_fuel_prompts; intros; apply boolean_loop_spec.
Qed.
Lemma choiceInput_prompts question choices : prompts (choiceInput question choices).
Proof.
  unfold choiceInput. apply prompts_bind; [apply console_write_prompts|intros _].
  apply prompts_bind; [apply prompts_for; intros; apply console_write_prompts|intros _].
  apply prompts_bind; [apply console_write_prompts|intros _]. apply with_fuel_prompts. intros. apply choice_loop_spec.
Qed.
Lemma askDefault_prompts f def : prompts (askDefault f def).
Proof.
  unfold askDefault. repeat (apply prompts_bind; [try case_match; first [apply prompts_ret|apply console_write_prompts]|intros _]).
  apply with_fuel_prompts. intros. apply default_loop_spec.
Qed.

(** C32: Every question of Interactive comes to an end. Whatever has been
    typed, and however often it has to ask again, each of the prompts returns
    an answer or an error and does not panic: the input it can read is
    finite, and every turn reads some of it. What it has not read is left
    for the next question. *)
Theorem interactive_prompts_end (q : Interactive) :
  let Q := interactive_Questioner q in
  (∀ field model, prompts (AskNotNullAddition field model)) ∧ (∀ field model, prompts (AskNotNullAlteration field model)) ∧
  (∀ model old new f, prompts (AskRename model old new f)) ∧ (∀ old new, prompts (AskRenameModel old new)) ∧
  (∀ app, prompts (AskMerge app)) ∧ (∀ field model, prompts (AskAutoNowAddAddition field model)) ∧
  (∀ field model, prompts (AskUniqueCallableDefaultAddition field model)).
Proof.
  simpl. unfold interactive_AskNotNullAddition, interactive_AskNotNullAlteration, interactive_AskAutoNowAddAddition,
    interactive_AskUniqueCallableDefaultAddition.
  split_and!; intros; try apply booleanInput_prompts; (case_match; [apply prompts_ret|]);
    (apply prompts_bind; [apply choiceInput_prompts|intros choice]);
    repeat case_bool_decide; first [apply prompts_ret|apply prompts_err|apply askDefault_prompts].
Qed.

(** ** What an answer is *)

Lemma default_loop_value n f def :
  ensures (λ _, True) (default_loop n f def) (λ a _, ∃ code, a = Expr code ∧ CheckExpr code f = None ∧ code ≠ "" ∧ code ≠ "exit").
Proof.
  induction n as [|n IH]; [by intros c c' a _|]. cbn [default_loop].
  eapply ensures_bind; [apply ensures_true|intros []]. eapply ensures_bind; [apply ensures_true|intros line]. cbv zeta.
  repeat case_bool_decide; try (by intros c c' a _ [=]); try (eapply ensures_bind; [apply ensures_true|intros []; exact IH]).
  all: case_match; [eapply ensures_bind; [apply ensures_true|intros []; exact IH]|intros c c' a _ [= <- <-]; eauto].
Qed.

Lemma choice_loop_value n k : ensures (λ _, True) (choice_loop n k) (λ v _, (1 ≤ v ≤ Z.of_nat k)%Z).
Proof.
  induction n as [|n IH]; [by intros c c' a _|]. simpl. eapply ensures_bind; [apply ensures_true|intros line].
  unfold choice_of. destruct (signed_Atoi _) as [v|]; [|eapply ensures_bind; [apply ensures_true|intros []; exact IH]].
  destruct (_ && _) eqn:Hv; [|eapply ensures_bind; [apply ensures_true|intros []; exact IH]].
  intros c c' a _ [= <- <-]. lia.
Qed.

(** What is typed for a default is checked before it is taken. An answer
    of askDefault is an expression, never empty and never the word that gives
    up, that go/types accepts for the type of the field; and a choice is one
    of the numbers that were offered. *)
Theorem interactive_answers_checked (f : option Field) (def question : string) (choices : list string) :
  ensures (λ _, True) (askDefault f def)
    (λ a _, ∃ code, a = Expr code ∧ CheckExpr code f = None ∧ code ≠ "" ∧ code ≠ "exit") ∧
  ensures (λ _, True) (choiceInput question choices) (λ v _, (1 ≤ v ≤ Z.of_nat (length choices))%Z).
Proof.
  split.
  - unfold askDefault. do 4 (eapply ensures_bind; [apply ensures_true|intros []]).
    intros c c' a _ Hr. by eapply default_loop_value.
  - unfold choiceInput. do 3 (eapply ensures_bind; [apply ensures_true|intros []]).
    intros c c' v _ Hr. by eapply choice_loop_value.
Qed.
End prompts.
