(* ===== verification/Management.v ===== *)
(** * What the commands share: internal/management

    base.go (streams and the Context of a command), errors.go (exit statuses),
    project.go and helpers.go. A command acts on a [Shell]: its streams, its
    input, the files, and the world of the databases. What turns a migration
    into Go source is the class [Printer]. *)

From S2P Require Import Prelude GoStd Keys Errors Fields Index ModelState Apps ProjectState Operation SchemaEditor.
From S2P Require Import Effects Migration Graph Filename Loader Recorder Executor Questioner AutoDeps Arrange Interactive.

(** ** Streams: base.go *)

Notation Styler := (string → string).

(** plain *)
Definition plain : Styler := fun msg => msg.

(** Stream, with what has been written to it. A write does not fail. *)
Record Stream := mkStream { st_out : string; st_isTTY : bool; st_style : option Styler }.

(** Stream.SetStyle *)
Definition SetStyle (style : option Styler) (s : Stream) : Stream :=
  mkStream (st_out s) (st_isTTY s) (if st_isTTY s then style else None).

(** Stream.write *)
Definition write (msg ending : string) (style : option Styler) (s : Stream) : Stream :=
  let msg := if negb (bool_decide (ending = "")) && negb (HasSuffix msg ending) then msg +:+ ending else msg in
  let msg := match style with Some f => f msg | None => msg end in
  mkStream (st_out s +:+ msg) (st_isTTY s) (st_style s).

(** Stream.Println, Print and PrintlnStyled; Writer with io.WriteString *)
Definition Stream_Println (msg : string) (s : Stream) : Stream := write msg line_feed (st_style s) s.
Definition Stream_Print (msg : string) (s : Stream) : Stream := write msg "" (st_style s) s.
Definition Stream_PrintlnStyled (msg : string) (style : option Styler) (s : Stream) : Stream :=
  write msg line_feed (match style with Some f => Some f | None => st_style s end) s.
Definition Stream_WriteString (msg : string) (s : Stream) : Stream := mkStream (st_out s +:+ msg) (st_isTTY s) (st_style s).

(** The colours of internal/termcolors a command asks for *)
Record Style := mkStyle {
  sty_Error : Styler;
  sty_Success : Styler;
  sty_Warning : Styler;
  sty_Notice : Styler;
  sty_SQLKeyword : Styler;
  sty_MigrateHeading : Styler;
  sty_MigrateLabel : Styler;
}.

(** ** The shell of a command *)

(** The files by their paths, and the directories there are *)
Record Shell (W : Type) := mkShell {
  sh_Stdout : Stream;
  sh_Stderr : Stream;
  sh_Stdin : string;
  sh_files : gmap string string;
  sh_dirs : gset string;
  sh_db : W;
}.
Arguments mkShell {W}.
Arguments sh_Stdout {W}.
Arguments sh_Stderr {W}.
Arguments sh_Stdin {W}.
Arguments sh_files {W}.
Arguments sh_dirs {W}.
Arguments sh_db {W}.

Section shell.
Context {W : Type}.
Implicit Types s : Shell W.

Definition sh_set_Stdout (o : Stream) s : Shell W :=
  mkShell o (sh_Stderr s) (sh_Stdin s) (sh_files s) (sh_dirs s) (sh_db s).
Definition sh_set_Stderr (o : Stream) s : Shell W :=
  mkShell (sh_Stdout s) o (sh_Stdin s) (sh_files s) (sh_dirs s) (sh_db s).
Definition sh_set_Stdin (i : string) s : Shell W :=
  mkShell (sh_Stdout s) (sh_Stderr s) i (sh_files s) (sh_dirs s) (sh_db s).
Definition sh_set_files (f : gmap string string) s : Shell W :=
  mkShell (sh_Stdout s) (sh_Stderr s) (sh_Stdin s) f (sh_dirs s) (sh_db s).
Definition sh_set_dirs (d : gset string) s : Shell W :=
  mkShell (sh_Stdout s) (sh_Stderr s) (sh_Stdin s) (sh_files s) d (sh_db s).
Definition sh_set_db (w : W) s : Shell W :=
  mkShell (sh_Stdout s) (sh_Stderr s) (sh_Stdin s) (sh_files s) (sh_dirs s) w.

Definition on_stdout (f : Stream → Stream) : io (Shell W) unit := modify (fun s => sh_set_Stdout (f (sh_Stdout s)) s).
Definition on_stderr (f : Stream → Stream) : io (Shell W) unit := modify (fun s => sh_set_Stderr (f (sh_Stderr s)) s).
Definition Println (msg : string) : io (Shell W) unit := on_stdout (Stream_Println msg).
Definition PrintlnStyled (msg : string) (style : option Styler) : io (Shell W) unit := on_stdout (Stream_PrintlnStyled msg style).

(** What a connection does *)
Definition on_database {A} (m : io W A) : io (Shell W) A := zoom sh_db sh_set_db m.

(** ** Files: package os *)

Definition not_exist (op path : string) : error := PlainError (op +:+ " " +:+ path +:+ ": no such file or directory").
Definition is_a_directory (path : string) : error := PlainError ("open " +:+ path +:+ ": is a directory").

(** filepath.Dir of a clean path *)
Definition dir_of (path : string) : string :=
  let parts := Split path slash in
  let dir := Join (take (length parts - 1) parts) "/" in
  if bool_decide (dir = "") then (if HasPrefix path "/" then "/" else ".") else dir.

(** os.Stat, without what it says of the file *)
Definition file_exists (path : string) (s : Shell W) : bool := bool_decide (is_Some (sh_files s !! path) ∨ path ∈ sh_dirs s).

(** os.WriteFile *)
Definition WriteFile (path content : string) : io (Shell W) unit := fun s =>
  if bool_decide (path ∈ sh_dirs s) then (s, Err (is_a_directory path))
  else if bool_decide (dir_of path ∈ sh_dirs s) then (sh_set_files (<[path := content]> (sh_files s)) s, Ok tt)
  else (s, Err (not_exist "open" path)).

(** os.Remove of a file *)
Definition Remove (path : string) : io (Shell W) unit := fun s =>
  match sh_files s !! path with
  | Some _ => (sh_set_files (delete path (sh_files s)) s, Ok tt)
  | None => (s, Err (not_exist "remove" path))
  end.

(** os.MkdirAll: the directories on the way to a path *)
Fixpoint prefixes (done : string) (parts : list string) : list string :=
  match parts with
  | [] => []
  | p :: parts => let d := done +:+ p in d :: prefixes (d +:+ "/") parts
  end.
Definition dirs_to (path : string) : list string := filter (fun d => d ≠ "") (prefixes "" (Split path slash)).

Definition MkdirAll (path : string) : io (Shell W) unit := fun s =>
  match List.find (fun d => bool_decide (is_Some (sh_files s !! d))) (dirs_to path) with
  | Some d => (s, Err (PlainError ("mkdir " +:+ d +:+ ": not a directory")))
  | None => (sh_set_dirs (list_to_set (dirs_to path) ∪ sh_dirs s) s, Ok tt)
  end.

(** os.ReadDir of a directory, its files with what they hold *)
Definition files_in (dir : string) (s : Shell W) : gmap string string :=
  list_to_map (omap (fun p => if bool_decide (dir_of p.1 = dir) then Some (Filename.Base p.1, p.2) else None) (map_to_list (sh_files s))).
End shell.

(** ** Exit statuses: errors.go *)

Definition ExitOK : Z := 0.
Definition ExitError : Z := 1.
Definition ExitUsage : Z := 2.
Definition ExitAbort : Z := 3.

(** Errorf, UsageErrorf, AbortErrorf and Silent make ManagementError,
    UsageError, AbortError and SilentError. ExitCode, of an error that may be
    nil *)
Definition ExitCode (err : option error) : Z :=
  match err with
  | None => ExitOK
  | Some (SilentError code _) => code
  | Some (UsageError _) => ExitUsage
  | Some (AbortError _) => ExitAbort
  | Some e => if is_no_answer e then ExitAbort else ExitError
  end.

(** Report *)
Definition Report {W} (prog : string) (err : option error) : io (Shell W) Z :=
  match err with
  | None => mret ExitOK
  | Some (SilentError code _) => mret code
  | Some (SystemCheckError msg) => _ ← on_stderr (Stream_PrintlnStyled msg (Some plain)); mret ExitError
  | Some e => _ ← on_stderr (Stream_Println (prog +:+ ": " +:+ Error e)); mret (ExitCode err)
  end.

(** ** The project: project.go *)

(** App; the models are those of the state *)
Record App := mkApp {
  ap_Label : string;
  ap_MigrationsDir : string;
  ap_MigrationsImport : string;
  ap_Disabled : bool;
}.

(** A connection as the commands see it: base.Conn, and of its backend the
    statements of a transaction and CanRollbackDDL *)
Record Database (W : Type) := mkDatabase {
  db_Conn : Conn W;
  db_StartTransactionSQL : string;
  db_EndTransactionSQL : string;
  db_CanRollbackDDL : bool;
}.
Arguments mkDatabase {W}.
Arguments db_Conn {W}.
Arguments db_StartTransactionSQL {W}.
Arguments db_EndTransactionSQL {W}.
Arguments db_CanRollbackDDL {W}.

(** Project. [pj_Databases] has what opening a connection comes to, and
    [pj_CurrentState] what internal/fromgorm makes of the model structs, whose
    names [pj_Models] has. The migrations compiled in and the directories are
    those of the loader. *)
Record Project (W : Type) := mkProject {
  pj_Apps : list App;
  pj_Databases : gmap string (outcome (Database W));
  pj_Routers : bool;
  pj_Command : string;
  pj_CommandDir : string;
  pj_CommandPackage : string;
  pj_Models : string → list string;
  pj_CurrentState : outcome ProjectState;
  pj_Registered : string → list Migration;
  pj_Compiled : string → bool;
  pj_ReadDir : string → outcome (option (list DirEntry));
}.
Arguments mkProject {W}.
Arguments pj_Apps {W}.
Arguments pj_Databases {W}.
Arguments pj_Routers {W}.
Arguments pj_Command {W}.
Arguments pj_CommandDir {W}.
Arguments pj_CommandPackage {W}.
Arguments pj_Models {W}.
Arguments pj_CurrentState {W}.
Arguments pj_Registered {W}.
Arguments pj_Compiled {W}.
Arguments pj_ReadDir {W}.

Section project.
Context {W : Type}.
Implicit Types p : Project W.

(** Project.App *)
Definition project_App p (label : string) : option App := List.find (fun a => bool_decide (ap_Label a = label)) (pj_Apps p).

(** Project.DatabaseAliases *)
Definition DatabaseAliases p : list string :=
  let out := sort_strings (filter (fun a => a ≠ "default") (map fst (map_to_list (pj_Databases p)))) in
  match pj_Databases p !! "default" with Some _ => "default" :: out | None => out end.

(** Project.Conn *)
Definition project_Conn p (alias : string) : outcome (Database W) :=
  match pj_Databases p !! alias with
  | Some c => c
  | None => Err (PlainError ("the connection '" +:+ alias +:+ "' doesn't exist"))
  end.

(** Project.RealModels *)
Definition project_RealModels p (apps : gmap string bool) : outcome (list ModelState) :=
  if bool_decide (size apps = 0) then Ok []
  else
    st ← pj_CurrentState p;
    Ok (omap (fun k => if default false (apps !! mk_App k) then ps_Models st !! k else None) (SortedKeys st)).

(** Project.LoaderConfig *)
Definition LoaderConfig p (ignoreNoMigrations : bool) : Config :=
  mkConfig (map (fun a => mkAppSpec (ap_Label a) (ap_MigrationsDir a) (ap_Disabled a)) (pj_Apps p))
    (pj_Registered p) (pj_Compiled p) ignoreNoMigrations true false (pj_ReadDir p).

(** newRecorder and loader.New with it: the recorder is used once *)
Definition applied_of (c : Database W) : io W (list Key) := fun w =>
  let '(r, o) := @AppliedMigrations W (db_Conn c) (mkRecorder w false) in (rc_world r, o).
Definition loader_New (cfg : Config) (c : option (Database W)) : io (Shell W) Loader :=
  on_database (BuildGraph cfg (applied_of <$> c)).

(** Project.Loader *)
Definition project_Loader p (c : option (Database W)) (ignoreNoMigrations : bool) : io (Shell W) Loader :=
  loader_New (LoaderConfig p ignoreNoMigrations) c.

(** Project.checkMigratedApp *)
Definition checkMigratedApp p (newLoader : io (Shell W) Loader) (label noMigrationsSuffix : string) : io (Shell W) Loader :=
  match project_App p label with
  | None => lift (Err (ManagementError ("no app named " +:+ Quote label +:+ "; is it in the project's Apps?")))
  | Some _ =>
      l ← newLoader;
      if bool_decide (label ∈ ld_MigratedApps l) then mret l
      else lift (Err (ManagementError ("app '" +:+ label +:+ "' does not have migrations" +:+ noMigrationsSuffix)))
  end.

(** Project.MigrationsDir *)
Definition project_MigrationsDir p (label : string) : string * bool * bool :=
  match project_App p label with
  | None => ("", false, false)
  | Some a => (ap_MigrationsDir a, ap_Disabled a, true)
  end.
End project.

(** ** Sources: what internal/writer makes of a migration *)

(** writer.Writer *)
Record Writer := mkWriter {
  wr_Migration : Migration;
  wr_IncludeHeader : bool;
  wr_PackageName : string;
  wr_PackagePath : string;
}.

(** AsString with NeedsManualPorting, PackageNameOf, PackageFile and LinkFile
    of internal/writer; FormattedDescription and MigrationNameTimestamp of
    migrations; and the working directory *)
Class Printer := {
  AsString : Writer → outcome (string * bool);
  PackageNameOf : gmap string string → string;
  PackageFile : string → string → string;
  LinkFile : string → list string → string;
  FormattedDescription : Operation → string;
  MigrationNameTimestamp : string;
  Getwd : option string;
}.

(** ** Context: base.go *)

Record Context (W : Type) := mkContext {
  cx_Project : Project W;
  cx_Style : Style;
  cx_Prog : string;
  cx_Verbosity : Z;
}.
Arguments mkContext {W}.
Arguments cx_Project {W}.
Arguments cx_Style {W}.
Arguments cx_Prog {W}.
Arguments cx_Verbosity {W}.

(** filepath.Rel of two clean paths, by their parts *)
Fixpoint drop_common (base targ : list string) : list string * list string :=
  match base, targ with
  | b :: base', t :: targ' => if bool_decide (b = t) then drop_common base' targ' else (base, targ)
  | _, _ => (base, targ)
  end.
Definition path_parts (path : string) : list string := filter (fun p => p ≠ "" ∧ p ≠ ".") (Split path slash).
Definition Rel (basepath targpath : string) : option string :=
  let base := Clean basepath in
  let targ := Clean targpath in
  if bool_decide (targ = base) then Some "."
  else if negb (Bool.eqb (HasPrefix base "/") (HasPrefix targ "/")) then None
  else
    let '(b, t) := drop_common (path_parts base) (path_parts targ) in
    if bool_decide (head b = Some "..") then None
    else Some (Join (map (fun _ => "..") b ++ t) "/").

Section context.
Context {W : Type} `{Printer} (ctx : Context W).

(** Context.Invocation *)
Definition Invocation : string := if bool_decide (pj_Command (cx_Project ctx) = "") then cx_Prog ctx else pj_Command (cx_Project ctx).

(** relPath *)
Definition relPath (path : string) : string :=
  match Getwd with
  | None => path
  | Some wd =>
      match Rel wd path with
      | Some rel => if HasPrefix rel ".." then path else rel
      | None => path
      end
  end.

(** packageNameOf: the Go files of a directory that are no tests *)
Definition packageNameOf (dir : string) (s : Shell W) : string :=
  let files := filter (fun p => HasSuffix p.1 ".go" = true ∧ HasSuffix p.1 "_test.go" = false) (files_in dir s) in
  if bool_decide (PackageNameOf files = "") then "migrations" else PackageNameOf files.

(** migrationWriter *)
Definition migrationWriter (mig : Migration) (header : bool) : io (Shell W) (Writer * string) :=
  match project_App (cx_Project ctx) (mig_App mig) with
  | None => lift (Err (ValueError ("no app named " +:+ Quote (mig_App mig)) None))
  | Some app =>
      if ap_Disabled app || bool_decide (ap_MigrationsDir app = "") then
        lift (Err (ValueError ("gormgate can't create migrations for app '" +:+ mig_App mig +:+
          "' because migrations have been disabled via the MigrationModules setting.") None))
      else
        s ← get_state;
        mret (mkWriter mig header (packageNameOf (ap_MigrationsDir app) s) (ap_MigrationsImport app),
              filepath_Join (ap_MigrationsDir app) (Filename (mig_Name mig)))
  end.

(** findMigration *)
Definition findMigration (l : Loader) (app name notFoundSuffix : string) : outcome Migration :=
  match GetMigrationByPrefix l app name with
  | Err (AmbiguityError _) =>
      Err (ManagementError ("more than one migration matches '" +:+ name +:+ "' in app '" +:+ app +:+ "'. Please be more specific"))
  | Err (MigrationNotFoundError _) =>
      Err (ManagementError ("cannot find a migration matching '" +:+ name +:+ "' from app '" +:+ app +:+ "'" +:+ notFoundSuffix))
  | r => r
  end.

(** writeSQL, with transactionSQL *)
Definition writeSQL (alias sql : string) (frame : bool) : io (Shell W) unit :=
  if bool_decide (sql = "") then mret tt
  else if negb frame then Println sql
  else
    c ← lift (project_Conn (cx_Project ctx) alias);
    let keyword text := if bool_decide (text = "") then mret tt else Println (sty_SQLKeyword (cx_Style ctx) text) in
    _ ← keyword (db_StartTransactionSQL c);
    _ ← Println sql;
    keyword (db_EndTransactionSQL c).

(** collectSQL *)
Definition collect_sql (FormatOperation : Operation → string) (c : Database W) (l : Loader) (plan : list PlanStep)
    : io (Shell W) (list string) :=
  realModels ← lift (project_RealModels (cx_Project ctx) (ld_UnmigratedApps l));
  on_database (@CollectSQL W (db_Conn c) realModels FormatOperation l plan).
End context.
