(* ===== verification/Commands.v ===== *)
(** * Commands that read the migrations: internal/management

    squashmigrations.go, optimizemigration.go, sqlmigrate.go and
    showmigrations.go. Each is a computation on the [Shell]; parsing its flags
    is left to cobra. *)

From S2P Require Import Prelude GoStd Keys Errors Fields Index ModelState Apps ProjectState Operation SchemaEditor.
From S2P Require Import Optimizer Reduce OptimizerTermination Effects Migration Graph Filename Loader Recorder Executor.
From S2P Require Import Questioner AutoDeps AutoBuild Arrange Interactive Management.

Section commands.
Context {W : Type} `{Printer} (ctx : Context W).

(** ** Asking *)

(** readLine, of squashmigrations: the prompt goes to Stdout. *)
Definition prompt_line (prompt : string) : io (Shell W) string :=
  _ ← on_stdout (Stream_WriteString prompt);
  s ← get_state;
  if bool_decide (sh_Stdin s = "") then lift (Err (PlainError "input ended"))
  else
    let r := read_line (sh_Stdin s) in
    _ ← modify (sh_set_Stdin r.2);
    mret (TrimRight line_end r.1).

(** The loop that asks whether to proceed; every turn reads some input. *)
Fixpoint proceed_loop (fuel : nat) : io (Shell W) bool :=
  match fuel with
  | 0 => lift (Panic out_of_fuel)
  | S fuel =>
      a ← prompt_line "Do you wish to proceed? [y/N] ";
      if bool_decide (a = "") then mret false
      else if yes_or_no a then mret (bool_decide (first_lower a = "y"))
      else proceed_loop fuel
  end.
Definition proceed : io (Shell W) bool := fun s => proceed_loop (S (String.length (sh_Stdin s))) s.

(** ** squashmigrations *)

Record squashOptions := mkSquashOptions {
  so_interactive : bool;
  so_noOptimize : bool;
  so_squashedName : string;
  so_header : bool;
}.

(** The migrations of the app among those of a plan *)
Definition in_plan (l : Loader) (app : string) (plan : list Key) : outcome (list Migration) :=
  foldM (fun acc k =>
    if bool_decide (key_App k = app)
    then n ← deref (GetMigration l (key_App k) (key_Name k)); Ok (acc ++ [n]) else Ok acc) [] plan.

(** The migrations that are folded into one, from the one they start with *)
Definition from_start (start : Key) (migs : list Migration) : option (list Migration) :=
  (fun i => drop i migs) <$> index_func (fun x => bool_decide (Migration_Key x = start)) migs.

Definition start_not_found (start mig : Migration) (app : string) : error :=
  ManagementError ("the migration '" +:+ Migration_String start +:+ "' cannot be found. Maybe it comes after the migration '" +:+
    Migration_String mig +:+ "'?" +:+ line_feed +:+ "Have a look at:" +:+ line_feed +:+ "  " +:+ Invocation ctx +:+
    " showmigrations " +:+ app +:+ line_feed +:+ "to debug this issue").

(** depOrder: the dependencies on other apps, and those of the first
    migration, each once *)
Definition squash_dependency (app : string) (first : bool) (out : list Key) (d : Key) : list Key :=
  if negb (bool_decide (key_App d = app)) || first then addDep out d else out.
Definition squash_dependencies (migs : list Migration) : list Key :=
  fold_left (fun out p => fold_left (squash_dependency (mig_App p.2) (bool_decide (p.1 = 0))) (mig_Dependencies p.2) out)
    (imap pair migs) [].

Definition squash_operations (migs : list Migration) : list Operation := migs ≫= mig_Operations.

(** The name of the squashed migration *)
Definition squash_name (start : option Migration) (squashedName name : string) : string :=
  match start with
  | Some s =>
      if bool_decide (squashedName = "") then mig_Name s +:+ "_squashed_" +:+ name
      else match Cut (mig_Name s) underscore with Some (prefix, _) => prefix | None => mig_Name s end +:+ "_" +:+ squashedName
  | None => "0001_" +:+ (if bool_decide (squashedName = "") then "squashed_" +:+ name else squashedName)
  end.

Definition squashed_migration (app : string) (start : option Migration) (squashedName name : string)
    (migs : list Migration) (ops : list Operation) : Migration :=
  mkMigration app (squash_name start squashedName name) (squash_dependencies migs) [] (map Migration_Key migs)
    (match start with None => Some true | Some _ => None end) None ops "".

Definition verbose (n : Z) (m : io (Shell W) unit) : io (Shell W) unit := if (n <? cx_Verbosity ctx)%Z then m else mret tt.
Definition heading (text : string) : io (Shell W) unit := Println (sty_MigrateHeading (cx_Style ctx) text).

(** What is squashed *)
Definition select_migrations (app startName name : string) : io (Shell W) (option Migration * Migration * list Migration) :=
  l ← checkMigratedApp (cx_Project ctx) (project_Loader (cx_Project ctx) None false) app
        " (so squashmigrations on it makes no sense)";
  mig ← lift (findMigration l app name "");
  fp ← lift (settle (ForwardsPlan (ld_Graph l) (Migration_Key mig)));
  migs ← lift (in_plan l (mig_App mig) fp);
  if bool_decide (startName = "") then mret (None, mig, migs)
  else
    start ← lift (findMigration l app startName "");
    match from_start (Migration_Key start) migs with
    | None => lift (Err (start_not_found start mig app))
    | Some migs => mret (Some start, mig, migs)
    end.

(** What will be squashed, and the question; false to stop *)
Definition confirm_squash (interactive : bool) (migs : list Migration) : io (Shell W) bool :=
  if (0 <? cx_Verbosity ctx)%Z || interactive then
    _ ← heading "will squash:";
    _ ← for_io migs (fun x => Println (" - " +:+ mig_Name x));
    if interactive then proceed else mret true
  else mret true.

(** The operations, optimized unless it is turned off *)
Definition squash_optimize (noOptimize : bool) (app : string) (ops : list Operation) : io (Shell W) (list Operation) :=
  if noOptimize then _ ← verbose 0 (heading "(Skipping optimization.)"); mret ops
  else
    _ ← verbose 0 (heading "optimizing");
    let newOps := Optimize ops app in
    _ ← verbose 0 (
      if bool_decide (length newOps = length ops) then Println "  no optimizations possible"
      else Println ("  Optimized from " +:+ itoa (Z.of_nat (length ops)) +:+ " operations to " +:+
                    itoa (Z.of_nat (length newOps)) +:+ " operations."));
    mret newOps.

Definition squash_created (path : string) : string :=
  sty_MigrateHeading (cx_Style ctx) ("created squashed migration " +:+ path) +:+ line_feed +:+
  "  You should commit this migration but leave the old ones in place;" +:+ line_feed +:+
  "  the new migration will be used for new installs. Once you are sure" +:+ line_feed +:+
  "  all instances of the codebase have applied the migrations you squashed," +:+ line_feed +:+
  "  you can delete them.".
Definition squash_porting : string :=
  sty_MigrateHeading (cx_Style ctx) "manual porting required" +:+ line_feed +:+
  "  Your migrations contained functions that must be manually copied over," +:+ line_feed +:+
  "  as we could not safely copy their implementation." +:+ line_feed +:+
  "  See the comment at the top of the squashed migration for details.".

(** Writing the squashed migration, where there is no file yet *)
Definition write_squashed (squashed : Migration) (header : bool) : io (Shell W) unit :=
  wp ← migrationWriter ctx squashed header;
  let '(w, path) := wp in
  s ← get_state;
  if file_exists path s then
    lift (Err (ManagementError ("migration " +:+ mig_Name squashed +:+ " already exists. Use a different name")))
  else
    c ← lift (AsString w);
    let '(content, porting) := c in
    _ ← WriteFile path content;
    verbose 0 (_ ← Println (squash_created path); if porting : bool then Println squash_porting else mret tt).

(** squashMigrations *)
Definition squashMigrations (app startName name : string) (o : squashOptions) : io (Shell W) unit :=
  sel ← select_migrations app startName name;
  let '(start, mig, migs) := sel in
  go ← confirm_squash (so_interactive o) migs;
  if negb go then mret tt
  else
    ops ← squash_optimize (so_noOptimize o) (mig_App mig) (squash_operations migs);
    write_squashed (squashed_migration app start (so_squashedName o) (mig_Name mig) migs ops) (so_header o).

(** ** optimizemigration *)

Definition optimized_name (mig : Migration) (ops : list Operation) (app : string) : Migration :=
  mkMigration app (mig_Name mig +:+ "_optimized") (mig_Dependencies mig) [] [Migration_Key mig] None None ops "".

Definition optimize_porting : string :=
  sty_MigrateHeading (cx_Style ctx) "manual porting required" +:+ line_feed +:+
  "  the migration holds functions whose bodies could not be copied safely;" +:+ line_feed +:+
  "  the comment at the top of the optimized migration says which".

(** Where the optimized migration goes: in place of the migration, or beside
    it when functions must be copied by hand *)
Definition optimized_source (mig : Migration) (app : string) : io (Shell W) (string * string) :=
  wp ← migrationWriter ctx mig true;
  c ← lift (AsString wp.1);
  if negb c.2 then mret (wp.2, c.1)
  else if negb (bool_decide (mig_Replaces mig = [])) then
    lift (Err (ManagementError "this migration needs manual porting but is already a squashed migration; turn it into an ordinary migration first"))
  else
    wp ← migrationWriter ctx (optimized_name mig (mig_Operations mig) app) true;
    c ← lift (AsString wp.1);
    _ ← verbose 0 (Println optimize_porting);
    mret (wp.2, c.1).

(** optimizeMigration *)
Definition optimizeMigration (app name : string) (check : bool) : io (Shell W) unit :=
  l ← checkMigratedApp (cx_Project ctx) (project_Loader (cx_Project ctx) None false) app "";
  mig ← lift (findMigration l app name "");
  let newOps := Optimize (mig_Operations mig) (mig_App mig) in
  if bool_decide (length newOps = length (mig_Operations mig)) then verbose 0 (Println "no optimizations possible")
  else
    _ ← verbose 0 (Println ("optimizing " +:+ itoa (Z.of_nat (length (mig_Operations mig))) +:+ " operations into " +:+
                            itoa (Z.of_nat (length newOps))));
    if check then lift (Err (SilentError ExitError "the migration can be optimized"))
    else
      r ← optimized_source (mig_set_Operations newOps mig) app;
      _ ← WriteFile r.1 r.2;
      verbose 0 (heading ("optimized " +:+ r.1)).

(** ** sqlmigrate *)

(** sqlMigrate *)
Definition sqlMigrate (FormatOperation : Operation → string) (alias app name : string) (backwards : bool) : io (Shell W) unit :=
  c ← lift (project_Conn (cx_Project ctx) alias);
  l ← loader_New (cfg_set_ReplaceMigrations false (LoaderConfig (cx_Project ctx) false)) (Some c);
  _ ← checkMigratedApp (cx_Project ctx) (mret l) app "";
  mig ← lift (findMigration l app name "; is it in the project's Apps?");
  step ← lift (plan_step (ld_Graph l) (Migration_Key mig) backwards);
  sqls ← collect_sql ctx FormatOperation c l [step];
  _ ← (if bool_decide (sqls = []) && (1 <=? cx_Verbosity ctx)%Z then on_stderr (Stream_Println "no operations found") else mret tt);
  writeSQL ctx alias (Join sqls line_feed) (IsAtomic mig && db_CanRollbackDDL c).

(** ** showmigrations *)

(** validateAppNames *)
Definition validateAppNames (names : list string) : io (Shell W) unit :=
  let unknown := filter (fun n => project_App (cx_Project ctx) n = None) names in
  _ ← for_io unknown (fun n => on_stderr (Stream_Println ("no app named " +:+ Quote n)));
  if bool_decide (unknown = []) then mret tt
  else lift (Err (SilentError ExitUsage "an app named on the command line is not in the project")).

(** The records by their keys; [applied_at] is what is shown of their time. *)
Definition records_of (c : Database W) : io (Shell W) (list Record_) := on_database (fun w =>
  let '(r, o) := @Records W (db_Conn c) (mkRecorder w false) in (rc_world r, o)).
Definition recorded_by_key (records : list Record_) : gmap Key Record_ :=
  fold_left (fun m r => <[row_key r := r]> m) records ∅.

(** One line of showList *)
Definition list_line (l : Loader) (recorded : gmap Key Record_) (applied_at : any → string) (k : Key) (mig : Migration) : string :=
  let n := length (mig_Replaces mig) in
  let title := key_Name k +:+ (if bool_decide (n = 0) then "" else " (" +:+ itoa (Z.of_nat n) +:+ " squashed migrations)") in
  if bool_decide (k ∈ ld_Applied l) then
    match recorded !! k with
    | Some r => " [X] " +:+ title +:+ (if (2 <=? cx_Verbosity ctx)%Z then " (applied at " +:+ applied_at (rec_Applied r) +:+ ")" else "")
    | None => " [-] " +:+ title +:+ " run '" +:+ Invocation ctx +:+ " migrate' to finish recording"
    end
  else " [ ] " +:+ title.

(** The migrations of an app, each once, in the order of the plans of its
    leaves *)
Definition show_plan (l : Loader) (app : string) (shown : list Key) (leaf : Key) : outcome (list Key) :=
  fp ← settle (ForwardsPlan (ld_Graph l) leaf);
  Ok (fold_left (fun shown k => if bool_decide (key_App k = app) then addDep shown k else shown) fp shown).
Definition app_migrations (l : Loader) (app : string) : outcome (list Key) :=
  leaves ← LeafNodes (ld_Graph l) app; foldM (show_plan l app) [] leaves.

Definition show_app (l : Loader) (recorded : gmap Key Record_) (applied_at : any → string) (app : string) : io (Shell W) unit :=
  _ ← PrintlnStyled app (Some (sty_MigrateLabel (cx_Style ctx)));
  keys ← lift (app_migrations l app);
  _ ← for_io keys (fun k =>
        mig ← lift (match g_Nodes (ld_Graph l) !! k with Some (Some mig) => Ok mig | _ => Panic nil_dereference end);
        Println (list_line l recorded applied_at k mig));
  if bool_decide (keys = []) then PrintlnStyled " (no migrations)" (Some (sty_Error (cx_Style ctx))) else mret tt.

(** showList *)
Definition showList (c : Database W) (applied_at : any → string) (apps : list string) : io (Shell W) unit :=
  l ← loader_New (LoaderConfig (cx_Project ctx) true) (Some c);
  records ← records_of c;
  apps ← (if bool_decide (apps = []) then mret (sort_strings (elements (ld_MigratedApps l)))
          else _ ← validateAppNames apps; mret apps);
  for_io apps (show_app l (recorded_by_key records) applied_at).

(** One line of showPlan *)
Definition plan_line (l : Loader) (k : Key) : string :=
  let parents := sortedNodes (parents (g_NodeMap (ld_Graph l)) k) in
  let deps := if (2 <=? cx_Verbosity ctx)%Z && negb (bool_decide (parents = []))
              then " ... (" +:+ Join (map (fun p => key_App p +:+ "." +:+ key_Name p) parents) ", " +:+ ")" else "" in
  (if bool_decide (k ∈ ld_Applied l) then "[X]" else "[ ]") +:+ "  " +:+ key_App k +:+ "." +:+ key_Name k +:+ deps.

Definition plan_of (l : Loader) (targets : list Key) : outcome (list Key) :=
  foldM (fun plan t => fp ← settle (ForwardsPlan (ld_Graph l) t); Ok (fold_left addDep fp plan)) [] targets.

(** showPlan *)
Definition showPlan (c : Database W) (apps : list string) : io (Shell W) unit :=
  l ← loader_New (LoaderConfig (cx_Project ctx) false) (Some c);
  _ ← (if bool_decide (apps = []) then mret tt else validateAppNames apps);
  leaves ← lift (LeafNodes (ld_Graph l) "");
  plan ← lift (plan_of l (if bool_decide (apps = []) then leaves else filter (fun k => key_App k ∈ apps) leaves));
  _ ← for_io plan (fun k => Println (plan_line l k));
  if bool_decide (plan = []) then PrintlnStyled "(no migrations)" (Some (sty_Error (cx_Style ctx))) else mret tt.
End commands.
