(* ===== verification/MakeMigrations.v ===== *)
(** * makemigrations: internal/management/makemigrations.go

    From the states to the files: the changes the autodetector finds, the
    merge of conflicting leaves, and what is written. go/token is the class
    [GoNames]. *)

From S2P Require Import Prelude GoStd Keys Errors Fields Index ModelState Apps ProjectState Operation SchemaEditor.
From S2P Require Import Optimizer Reduce OptimizerTermination Effects Migration Graph Filename Loader Recorder Executor.
From S2P Require Import Questioner AutoDeps DetectModels DetectFields AutoBuild Arrange Interactive Management Commands.

(** makeMigrationsOptions *)
Record makeMigrationsOptions := mkMakeMigrationsOptions {
  mm_appLabels : list string;
  mm_dryRun : bool;
  mm_merge : bool;
  mm_empty : bool;
  mm_interactive : bool;
  mm_name : string;
  mm_header : bool;
  mm_check : bool;
  mm_scriptable : bool;
  mm_update : bool;
}.

(** token.IsIdentifier, and whether a name is a keyword *)
Class GoNames := { IsIdentifier : string → bool; IsKeyword : string → bool }.

(** uniqueSorted and sortedMapKeys *)
Definition uniqueSorted (xs : list string) : list string := sort_strings (elements (list_to_set xs : gset string)).
Definition sortedMapKeys {A} (m : gmap string A) : list string := sort_strings (map fst (map_to_list m)).

(** pythonListRepr *)
Definition pythonListRepr (xs : list string) : string := "[" +:+ Join xs ", " +:+ "]".

Section makemigrations.
Context {W : Type} `{Printer} `{GoNames} `{GoChecker} (ctx : Context W) (o : makeMigrationsOptions).
Context (FormatOperation : Operation → string).

(** isIdentifier *)
Definition isIdentifier (s : string) : bool := IsIdentifier s || (negb (bool_decide (s = "")) && IsKeyword s).

(** The field dryRun: --check turns it on. *)
Definition dryRun : bool := mm_dryRun o || mm_check o.

(** logStream and log *)
Definition on_log (f : Stream → Stream) : io (Shell W) unit := if mm_scriptable o then on_stderr f else on_stdout f.
Definition log (msg : string) : io (Shell W) unit := on_log (Stream_Println msg).
Definition verbosely (n : Z) (m : io (Shell W) unit) : io (Shell W) unit := if (n <=? cx_Verbosity ctx)%Z then m else mret tt.

(** ** Writing *)

(** writeLinkFile *)
Definition linked (s : Shell W) (a : App) : option string :=
  if ap_Disabled a || bool_decide (ap_MigrationsImport a = "") then None
  else if file_exists (filepath_Join (ap_MigrationsDir a) "migrations.go") s then Some (ap_MigrationsImport a) else None.
Definition writeLinkFile : io (Shell W) unit :=
  let p := cx_Project ctx in
  if bool_decide (pj_CommandDir p = "") then mret tt
  else
    s ← get_state;
    let pkg := if bool_decide (pj_CommandPackage p = "") then "main" else pj_CommandPackage p in
    let path := filepath_Join (pj_CommandDir p) "zz_gormgate_migrations.go" in
    let content := LinkFile pkg (omap (linked s) (pj_Apps p)) in
    if bool_decide (sh_files s !! path = Some content) then mret tt else WriteFile path content.

(** ensurePackage *)
Definition ensurePackage (app : App) : io (Shell W) unit :=
  _ ← MkdirAll (ap_MigrationsDir app);
  s ← get_state;
  let pkgFile := filepath_Join (ap_MigrationsDir app) "migrations.go" in
  _ ← (if file_exists pkgFile s then mret tt
       else WriteFile pkgFile (PackageFile (packageNameOf (ap_MigrationsDir app) s) (ap_Label app)));
  writeLinkFile.

(** One migration that is written: its package the first time, its file, and
    the file it takes the place of *)
Definition replace_previous (rel : string) (porting : bool) (prev : option string) : io (Shell W) unit :=
  match prev with
  | None => mret tt
  | Some prev =>
      if porting then
        log (sty_Warning (cx_Style ctx) ("Updated migration " +:+ rel +:+ " requires manual porting." +:+ line_feed +:+
               "Previous migration " +:+ relPath prev +:+ " was kept and must be deleted after porting functions manually."))
      else _ ← Remove prev; log ("deleted " +:+ relPath prev)
  end.

Definition write_migration (app : string) (first : bool) (prev : option string) (mig : Migration) (w : Writer) (path : string)
    : io (Shell W) unit :=
  _ ← (if first then a ← lift (deref (project_App (cx_Project ctx) app)); ensurePackage a else mret tt);
  c ← lift (AsString w);
  _ ← WriteFile path c.1;
  replace_previous (relPath path) c.2 prev.

(** What is shown of it instead in a dry run *)
Definition show_contents (w : Writer) (path : string) : io (Shell W) unit :=
  if bool_decide (cx_Verbosity ctx = 3%Z) then
    c ← lift (AsString w);
    _ ← log (sty_MigrateHeading (cx_Style ctx) ("full contents of " +:+ Filename.Base path +:+ ":"));
    log c.1
  else mret tt.

Definition announce (mig : Migration) (rel : string) : io (Shell W) unit :=
  verbosely 1 (
    _ ← log (sty_MigrateHeading (cx_Style ctx) "created " +:+ sty_MigrateLabel (cx_Style ctx) rel);
    _ ← for_io (mig_Operations mig) (fun op => log ("  " +:+ FormattedDescription op));
    if mm_scriptable o then Println rel else mret tt).

(** The body of the loops of writeMigrationFiles; the state is whether the
    package of the app has been made. *)
Definition write_change (previous : gmap string string) (app : string) (created : bool) (mig : Migration) : io (Shell W) bool :=
  wp ← migrationWriter ctx mig (mm_header o);
  let '(w, path) := wp in
  _ ← announce mig (relPath path);
  if dryRun then _ ← show_contents w path; mret created
  else _ ← write_migration app (negb created) (previous !! app) mig w path; mret true.

(** writeMigrationFiles *)
Definition writeMigrationFiles (changes : Changes) (order : list string) (previous : gmap string string) : io (Shell W) unit :=
  _ ← fold_io (fun created app =>
        c ← fold_io (write_change previous app) (bool_decide (app ∈ created)) (default [] (changes !! app));
        mret (if c : bool then {[app]} ∪ created else created)) (∅ : gset string) order;
  mret tt.

(** ** --update *)

(** The migrations on disk that depend on a leaf *)
Definition depending (l : Loader) (leaf : Key) : list string :=
  concat (map (fun k => match ld_DiskMigrations l !! k with
                        | Some mig => omap (fun d => if bool_decide (d = leaf) then Some ("'" +:+ Migration_String mig +:+ "'") else None)
                                        (mig_Dependencies mig)
                        | None => []
                        end) (sorted_keys (ld_DiskMigrations l))).

(** The leaf with the operations of the changes, and their dependencies on
    other apps *)
Definition fold_change (leaf mig : Migration) : Migration :=
  mig_set_Operations (mig_Operations leaf ++ mig_Operations mig)
    (mig_set_Dependencies (mig_Dependencies leaf ++ filter (fun d => key_App d ≠ mig_App mig) (mig_Dependencies mig)) leaf).
Definition updated_leaf (app : string) (leaf : Migration) (migs : list Migration) : Migration :=
  let leaf := fold_left fold_change migs leaf in mig_set_Operations (Optimize (mig_Operations leaf) app) leaf.

(** Its new name; a name of fewer than four bytes panics. *)
Definition updated_name (leaf : Migration) : outcome string :=
  let fragment := if bool_decide (mm_name o = "") then SuggestName MigrationNameTimestamp leaf else mm_name o in
  if bool_decide (String.length (mig_Name leaf) < 4) then Panic (PlainError "runtime error: slice bounds out of range")
  else
    let suggested := String.substring 0 4 (mig_Name leaf) +:+ "_" +:+ fragment in
    Ok (if bool_decide (mig_Name leaf = suggested) then mig_Name leaf +:+ "_updated" else suggested).

Definition update_app (l : Loader) (changes : Changes) (acc : Changes * gmap string string) (app : string)
    : io (Shell W) (Changes * gmap string string) :=
  leaves ← lift (LeafNodes (ld_Graph l) app);
  match leaves with
  | [] => lift (Err (ManagementError ("app " +:+ app +:+ " has no migration, cannot update last migration")))
  | key :: _ =>
      leaf ← lift (match g_Nodes (ld_Graph l) !! key with Some (Some mig) => Ok mig | _ => Panic nil_dereference end);
      let leaf := Migration_Clone leaf in
      if negb (bool_decide (mig_Replaces leaf = [])) then
        lift (Err (ManagementError ("cannot update squash migration '" +:+ Migration_String leaf +:+ "'")))
      else if bool_decide (key ∈ ld_Applied l) then
        lift (Err (ManagementError ("cannot update applied migration '" +:+ Migration_String leaf +:+ "'")))
      else if negb (bool_decide (depending l key = [])) then
        lift (Err (ManagementError ("cannot update migration '" +:+ Migration_String leaf +:+ "' that migrations " +:+
                     Join (depending l key) ", " +:+ " depend on")))
      else
        let new := updated_leaf app leaf (default [] (changes !! app)) in
        wp ← migrationWriter ctx leaf true;
        name ← lift (updated_name new);
        mret (<[app := [mig_set_Name name new]]> acc.1, <[app := wp.2]> acc.2)
  end.

(** defaultConn *)
Definition defaultConn : option (Database W) :=
  match project_Conn (cx_Project ctx) "default" with Ok c => Some c | _ => None end.

(** writeToLastMigrationFiles *)
Definition writeToLastMigrationFiles (changes : Changes) (order : list string) : io (Shell W) unit :=
  l ← loader_New (LoaderConfig (cx_Project ctx) false) defaultConn;
  acc ← fold_io (update_app l changes) (∅, ∅) order;
  writeMigrationFiles acc.1 order acc.2.

(** ** --merge *)

Record branch := mkBranch { br_mig : Migration; br_ancestry : list Key; br_ops : list Operation }.

(** A leaf with those of its ancestors that are of the app *)
Definition branch_of (l : Loader) (app name : string) : outcome branch :=
  fp ← settle (ForwardsPlan (ld_Graph l) (mkKey app name));
  mig ← deref (GetMigration l app name);
  Ok (mkBranch mig (filter (fun k => key_App k = app) fp) []).

(** The length of the ancestry all the branches share: [common] ends with the
    first branch at the latest. *)
Fixpoint common_from (first : list Key) (others : list (list Key)) : nat :=
  match first with
  | [] => 0
  | k :: first' =>
      if forallb (fun a => bool_decide (head a = Some k)) others then S (common_from first' (map tail others)) else 0
  end.
Definition common_ancestry (merges : list branch) : nat :=
  match map br_ancestry merges with first :: others => common_from first others | [] => 0 end.

(** The operations of a branch after the common ancestry *)
Definition branch_ops (l : Loader) (common : nat) (b : branch) : outcome branch :=
  ops ← foldM (fun ops k => mig ← deref (GetMigration l (key_App k) (key_Name k)); Ok (ops ++ mig_Operations mig)) []
          (drop common (br_ancestry b));
  Ok (mkBranch (br_mig b) (br_ancestry b) ops).

(** mapM over a list *)
Definition for_each {A B} (f : A → outcome B) (l : list A) : outcome (list B) :=
  foldM (fun acc x => y ← f x; Ok (acc ++ [y])) [] l.

Definition merge_branches (l : Loader) (app : string) (names : list string) : outcome (list branch) :=
  merges ← for_each (branch_of l app) names;
  let common := common_ancestry merges in
  if bool_decide (common = 0) then
    Err (ValueError ("could not find common ancestor of " +:+ pythonListRepr names) None)
  else for_each (branch_ops l common) merges.

(** The largest number of the branches *)
Definition biggest_number (merges : list branch) : option Z :=
  fold_left (fun best b => match ParseNumber (mig_Name (br_mig b)) with
                           | Some n => match best with Some m => if (m <? n)%Z then Some n else best | None => Some n end
                           | None => best
                           end) merges None.

Definition merge_name (merges : list branch) : string :=
  let joined := Join (sort_strings (map (fun b => mig_Name (br_mig b)) merges)) "_" in
  Join (Sprintf_04d (wrap_int (default 1%Z (biggest_number merges) + 1)) ::
        (if bool_decide (mm_name o = "") then
           ["merge"; if bool_decide (47 < String.length joined) then MigrationNameTimestamp else joined]
         else [mm_name o])) "_".

(** The migration that depends on every branch *)
Definition merge_migration (app : string) (merges : list branch) : Migration :=
  mkMigration app (merge_name merges) (map (fun b => mkKey app (mig_Name (br_mig b))) merges) [] [] None None [] "".

Definition write_merge (app : string) (merges : list branch) : io (Shell W) unit :=
  wp ← migrationWriter ctx (merge_migration app merges) (mm_header o);
  let '(w, path) := wp in
  if dryRun then show_contents w path
  else
    c ← lift (AsString w);
    _ ← WriteFile path c.1;
    verbosely 1 (_ ← log ("created merge migration " +:+ path); if mm_scriptable o then Println path else mret tt).

Definition show_branches (app : string) (merges : list branch) : io (Shell W) unit :=
  _ ← log (sty_MigrateHeading (cx_Style ctx) ("merging " +:+ app));
  for_io merges (fun b =>
    _ ← log (sty_MigrateLabel (cx_Style ctx) ("  branch " +:+ mig_Name (br_mig b)));
    for_io (br_ops b) (fun op => log ("    " +:+ FormattedDescription op))).

(** A questioner at work on the shell: Interactive writes to the log stream
    and reads Stdin. *)
Definition console_in (s : Shell W) : Console := mkConsole (sh_Stdin s) "".
Definition console_out (c : Console) (s : Shell W) : Shell W :=
  sh_set_Stdin (cs_In c) (on_log (Stream_WriteString (cs_Out c)) s).1.
Definition asking {Q A} (enter : Shell W → Q) (leave : Q → Shell W → Shell W) (m : io Q A) : io (Shell W) A :=
  fun s => let '(q, r) := m (enter s) in (leave q s, r).

Definition merge_base : Base := mkBase (mkDefaults false false false true) ∅ false None (fun _ => None).
Definition ask_merge (app : string) : io (Shell W) bool :=
  if mm_interactive o then
    asking console_in console_out
      (@AskMerge _ (interactive_Questioner (mkInteractive (mkBase (mkDefaults false false false false) ∅ false None (fun _ => None)) None)) app)
  else asking (fun _ => tt) (fun _ s => s) (@AskMerge _ (base_Questioner merge_base) app).

(** handleMerge *)
Definition merge_app (l : Loader) (conflicts : gmap string (list string)) (app : string) : io (Shell W) unit :=
  merges ← lift (merge_branches l app (default [] (conflicts !! app)));
  _ ← verbosely 1 (show_branches app merges);
  ok ← ask_merge app;
  if ok : bool then write_merge app merges else mret tt.
Definition handleMerge (l : Loader) (conflicts : gmap string (list string)) : io (Shell W) unit :=
  for_io (sortedMapKeys conflicts) (merge_app l conflicts).

(** ** The command *)

(** The label check *)
Definition check_labels (labels : list string) : io (Shell W) unit :=
  let unknown := filter (fun l => project_App (cx_Project ctx) l = None) labels in
  _ ← for_io unknown (fun l => on_stderr (Stream_Println ("No installed app with label '" +:+ l +:+ "'.")));
  if bool_decide (unknown = []) then mret tt
  else lift (Err (SilentError ExitUsage "an app named on the command line is not in the project")).

(** anyModelAllowed *)
Definition anyModelAllowed (c : Database W) : bool :=
  existsb (fun a => existsb (fun name => @conn_AllowMigrate W (db_Conn c) (ap_Label a) (mkHints None (ToLower name) ∅))
                      (pj_Models (cx_Project ctx) (ap_Label a))) (pj_Apps (cx_Project ctx)).

Definition is_inconsistent (e : error) : bool := match e with InconsistentMigrationHistory _ => true | _ => false end.

(** The history on one connection: what is inconsistent is an error, what
    could not be read a warning. *)
Definition check_history (l : Loader) (alias : string) : io (Shell W) unit :=
  match pj_Databases (cx_Project ctx) !! alias with
  | None => mret tt
  | Some open_ =>
      r ← attempt (
        c ← lift open_;
        if anyModelAllowed c then keys ← on_database (applied_of c); lift (CheckConsistentHistory l keys alias) else mret tt);
      match r with
      | inl _ => mret tt
      | inr e =>
          if is_inconsistent e then lift (Err e)
          else on_stderr (Stream_Println ("warning: could not check the migration history on " +:+ alias +:+ ": " +:+ Error e))
      end
  end.
Definition history_aliases : list string :=
  if pj_Routers (cx_Project ctx) then sort_strings (DatabaseAliases (cx_Project ctx)) else ["default"].

Definition conflicts_error (conflicts : gmap string (list string)) : error :=
  ManagementError ("conflicting migrations detected; multiple leaf nodes in the migration graph: (" +:+
    Join (map (fun app => Join (default [] (conflicts !! app)) ", " +:+ " in " +:+ app) (sortedMapKeys conflicts)) "; " +:+ ")." +:+
    line_feed +:+ "To fix them run '" +:+ Invocation ctx +:+ " makemigrations --merge'").

(** FieldLookup: the loop visits the models of the state in some order, here
    that of the map's list. *)
Definition field_lookup (to : ProjectState) (model field : string) : option Field :=
  head (omap (fun p => if bool_decide (NameLower p.2 = ToLower model) then Fields_Get (ms_Fields p.2) field else None)
          (map_to_list (ps_Models to))).

(** The changes for an Autodetector that asks whoever answers: the migrations
    with their order *)
Section detecting.
Context {Q : Type} `{!Questioner Q}.

Definition empty_changes (labels : list string) : Changes :=
  list_to_map (map (fun app => (app, [mkMigration app "custom" [] [] [] None None [] ""])) labels).

Definition find_changes (l : Loader) (labels : list string) (old new : ProjectState) : io (Autodetector Q) (Changes * list string) :=
  if mm_empty o then
    if bool_decide (labels = []) then lift (Err (ManagementError "you must supply at least one app label when using --empty"))
    else
      changes ← ask (ArrangeForGraph (fun _ => MigrationNameTimestamp) (mm_name o) (empty_changes labels) (ld_Graph l));
      mret (changes, sortedMapKeys changes)
  else
    changes ← ChangesFor FormatOperation (fun _ => MigrationNameTimestamp) old new (ld_Graph l)
                (mkChangesOptions labels labels (mm_name o));
    a ← get_state;
    mret (changes, Order a changes).
End detecting.

Definition detecting {Q A} (enter : Shell W → Q) (leave : Q → Shell W → Shell W) (m : io (Autodetector Q) A) : io (Shell W) A :=
  fun s => let '(a, r) := m (Autodetector_New (enter s)) in (leave (ad_q a) s, r).

(** The questioner the options ask for *)
Definition base_questioner (labels : list string) : Base :=
  mkBase (mkDefaults false false false false) (list_to_set labels) dryRun
    (Some (project_MigrationsDir (cx_Project ctx)))
    (fun dir => match pj_ReadDir (cx_Project ctx) dir with Ok (Some entries) => Some (map de_Name entries) | _ => None end).
Definition log_all (msgs : list string) (s : Shell W) : Shell W :=
  fold_left (fun s msg => (log msg s).1) msgs s.

Definition changes_found (l : Loader) (labels : list string) (old new : ProjectState) : io (Shell W) (Changes * list string) :=
  let base := base_questioner labels in
  if mm_interactive o then
    detecting console_in console_out
      (@find_changes _ (interactive_Questioner (mkInteractive base (Some (field_lookup new)))) l labels old new)
  else
    detecting (fun _ => []) log_all (@find_changes _ (noninteractive_Questioner base (cx_Verbosity ctx)) l labels old new).

Definition no_changes (labels : list string) : string :=
  match labels with [] => "no changes detected" | _ => "no changes detected in " +:+ Join labels ", " end.

(** What is done with the changes *)
Definition write_changes (labels : list string) (found : Changes * list string) : io (Shell W) unit :=
  let '(changes, order) := found in
  if mm_empty o then writeMigrationFiles changes order ∅
  else if bool_decide (changes = ∅) then verbosely 1 (log (no_changes labels))
  else
    _ ← (if mm_update o then writeToLastMigrationFiles changes order else writeMigrationFiles changes order ∅);
    if mm_check o then lift (Err (SilentError ExitError "changes are missing a migration")) else mret tt.

(** The part of run after the conflicts *)
Definition detect_and_write (l : Loader) (labels : list string) : io (Shell W) unit :=
  new ← lift (pj_CurrentState (cx_Project ctx));
  realModels ← lift (project_RealModels (cx_Project ctx) (ld_UnmigratedApps l));
  old ← lift (Loader_ProjectState l None true realModels);
  found ← changes_found l labels old new;
  write_changes labels found.

(** makeMigrations.run *)
Definition run : io (Shell W) unit :=
  if negb (bool_decide (mm_name o = "")) && negb (isIdentifier (mm_name o)) then
    lift (Err (ManagementError "the migration name must be a valid Go identifier"))
  else
    _ ← (if mm_scriptable o then on_stderr (SetStyle None) else mret tt);
    let labels := uniqueSorted (mm_appLabels o) in
    _ ← check_labels labels;
    l ← project_Loader (cx_Project ctx) None true;
    _ ← for_io history_aliases (check_history l);
    all ← lift (DetectConflicts l);
    let conflicts := if bool_decide (labels = []) then all else filter (fun p => p.1 ∈ labels) all in
    if negb (bool_decide (conflicts = ∅)) && negb (mm_merge o) then lift (Err (conflicts_error conflicts))
    else if mm_merge o then
      if bool_decide (conflicts = ∅) then log "no conflicts to merge" else handleMerge l conflicts
    else detect_and_write l labels.
End makemigrations.
