(* ===== verification/MigrateCommand.v ===== *)
(** * migrate: internal/management/migrate.go

    The command around the executor: targets, the plan, pruning, the apps
    without migrations. The executor acts on the world of the connection,
    from which [emit] reaches the standard output: its progress lines are
    written there while a migration runs. *)

From S2P Require Import Prelude GoStd Keys Errors Fields Index ModelState Apps ProjectState Operation SchemaEditor.
From S2P Require Import Optimizer Reduce OptimizerTermination Effects Migration Graph Filename Loader Recorder Executor.
From S2P Require Import EditorSQL Questioner AutoDeps DetectModels DetectFields AutoBuild Arrange Interactive Management Commands.
From S2P Require Import MakeMigrations.

(** migrateOptions *)
Record migrateOptions := mkMigrateOptions_ {
  mg_appLabel : string;
  mg_migrationName : string;
  mg_fake : bool;
  mg_fakeInitial : bool;
  mg_plan : bool;
  mg_runSyncdb : bool;
  mg_check : bool;
  mg_prune : bool;
}.

(** ** --plan *)

(** What fmt prints of a value *)
Class Printing := { fmt_Sprint : any → string }.

Section describe.
Context `{Printing}.

(** pythonSQLText. Its cases are for string, []string and []SQLParams; the
    SQL of an operation is of the types Script, Statements and Parameterized,
    none of which is one of these, and is left to fmt.Sprint. *)
Definition sprint_params (p : SQLParams) : string :=
  "{" +:+ sqlp_SQL p +:+ " [" +:+ Join (map fmt_Sprint (sqlp_Params p)) " " +:+ "]}".
Definition pythonSQLText (sql : SQL) : string :=
  match sql with
  | Script s => s
  | Statements l => "[" +:+ Join l " " +:+ "]"
  | Parameterized l => "[" +:+ Join (map sprint_params l) " " +:+ "]"
  end.

(** strings.ReplaceAll of newlines with nothing *)
Fixpoint without_newlines (s : string) : string :=
  match s with
  | EmptyString => ""
  | String c s' => if bool_decide (c = ascii_of_nat 10) then without_newlines s' else String c (without_newlines s')
  end.

(** truncateChars: a rune of valid UTF-8 begins with a byte that does not
    continue one. *)
Definition continuation (c : ascii) : bool := (128 <=? N_of_ascii c)%N && (N_of_ascii c <? 192)%N.
Fixpoint rune_count (s : string) : nat :=
  match s with
  | EmptyString => 0
  | String c s' => (if continuation c then 0 else 1) + rune_count s'
  end.
Fixpoint first_runes (n : nat) (s : string) : string :=
  match s with
  | EmptyString => ""
  | String c s' =>
      if continuation c then String c (first_runes n s')
      else match n with 0 => "" | S n => String c (first_runes n s') end
  end.
Definition ellipsis : string :=
  String (ascii_of_N 226) (String (ascii_of_N 128) (String (ascii_of_N 166) "")).
Definition truncateChars (s : string) (n : nat) : string :=
  if bool_decide (rune_count s ≤ n) then s else first_runes (n - 1) s +:+ ellipsis.

(** DescribeOperation *)
Definition DescribeOperation (op : Operation) (backwards : bool) : string * bool :=
  let '(prefix, action) :=
    match op with
    | RunGo code reverse _ _ _ => ("", (fun _ => "") <$> (if backwards then reverse else code))
    | RunSQL sql reverse _ _ _ => ("", pythonSQLText <$> (if backwards then reverse else sql))
    | _ => (if backwards then "Undo " else "", Some "")
    end in
  let '(suffix, irreversible) :=
    match action with
    | Some a => (without_newlines a, false)
    | None => if backwards then ("IRREVERSIBLE", true) else ("", false)
    end in
  let suffix := if bool_decide (suffix = "") then "" else " -> " +:+ suffix in
  (prefix +:+ Describe op +:+ truncateChars suffix 40, irreversible).
End describe.

(** ** The command *)

Section migrate.
Context {W : Type} `{Printer} `{Printing} `{Conn W} (ctx : Context W) (o : migrateOptions) (alias : string).
Context (FormatOperation : Operation → string) (emit : string → W → W) (elapsed : string).
(** PreMigrateHooks and PostMigrateHooks, given the app and the plan *)
Context (hooks : bool → string → list PlanStep → list (io W unit)).

(** migrateCmd.progress; [elapsed] is the time it shows. *)
Definition progress_text (ev : Event) (mig : option Migration) (fake : bool) : option string :=
  let name := match mig with Some m => Migration_String m | None => "<nil>" end in
  let done := sty_Success (cx_Style ctx) in
  let time := if (1 <? cx_Verbosity ctx)%Z then elapsed else "" in
  if (cx_Verbosity ctx <? 1)%Z then None
  else Some match ev with
            | ApplyStart => "applying " +:+ name +:+ " ... "
            | UnapplyStart => "unapplying " +:+ name +:+ " ... "
            | RenderStart => "rendering model states ... "
            | ApplySuccess | UnapplySuccess => done ((if fake then "faked" else "ok") +:+ time) +:+ line_feed
            | RenderSuccess => done ("done" +:+ time) +:+ line_feed
            end.
Definition migrate_progress (ev : Event) (mig : option Migration) (fake : bool) (w : W) : W :=
  match progress_text ev mig fake with Some text => emit text w | None => w end.

(** The shell, and the executor without its world *)
Record Running := mkRunning { rn_shell : Shell W; rn_Loader : Loader; rn_hasTable : bool; rn_Replace : bool }.

Definition on_shell {A} (m : io (Shell W) A) : io Running A :=
  zoom rn_shell (fun s r => mkRunning s (rn_Loader r) (rn_hasTable r) (rn_Replace r)) m.
Definition executor_of (r : Running) : Executor W :=
  mkExecutor (mkRecorder (sh_db (rn_shell r)) (rn_hasTable r)) (rn_Loader r) (rn_Replace r).
Definition on_executor {A} (m : io (Executor W) A) : io Running A :=
  zoom executor_of
    (fun e r => mkRunning (sh_set_db (rc_world (ex_Recorder e)) (rn_shell r)) (ex_Loader e)
                  (rc_hasTable (ex_Recorder e)) (ex_ReplaceMigrations e)) m.

Definition out (msg : string) : io Running unit := on_shell (Println msg).
Definition out_styled (msg : string) (style : Styler) : io Running unit := on_shell (PrintlnStyled msg (Some style)).
Definition when_verbose (n : Z) (m : io Running unit) : io Running unit := if (n <=? cx_Verbosity ctx)%Z then m else mret tt.

(** prune: the applied migrations of the app that are not on disk *)
Definition to_prune (l : Loader) (app : string) : list Key :=
  SortKeys (filter (fun k => ld_DiskMigrations l !! k = None ∧ key_App k = app) (ld_AppliedOrder l)).
Definition still_replacing (l : Loader) (pruned : list Key) : list Key :=
  filter (fun k => match ld_Replacements l !! k with
                   | Some mig => existsb (fun r => bool_decide (r ∈ pruned)) (mig_Replaces mig)
                   | None => false
                   end = true) (sorted_keys (ld_Replacements l)).
Definition cannot_prune (squashed : list Key) : io Running unit :=
  let notice text := out (sty_Notice (cx_Style ctx) text) in
  _ ← notice "cannot prune: these squashed migrations still carry Replaces, so they may not be recorded as applied:";
  _ ← for_io squashed (fun k => out ("  " +:+ key_App k +:+ "." +:+ key_Name k));
  notice ("run '" +:+ Invocation ctx +:+ " migrate' again if they are not marked applied, then drop Replaces from their Migration structs").
Definition prune_one (k : Key) : io Running unit :=
  _ ← when_verbose 1 (on_shell (on_stdout (Stream_Print
        (sty_MigrateLabel (cx_Style ctx) ("pruning " +:+ key_App k +:+ "." +:+ key_Name k +:+ " ... ")))));
  _ ← on_executor (on_recorder (RecordUnapplied (key_App k) (key_Name k)));
  when_verbose 1 (out (sty_Success (cx_Style ctx) "ok")).

(** migrateCmd.prune *)
Definition prune (app : string) : io Running unit :=
  _ ← when_verbose 1 (out_styled "Pruning migrations:" (sty_MigrateHeading (cx_Style ctx)));
  r ← get_state;
  let pruned := to_prune (rn_Loader r) app in
  let squashed := still_replacing (rn_Loader r) pruned in
  if negb (bool_decide (squashed = [])) then cannot_prune squashed
  else if bool_decide (pruned = []) then when_verbose 1 (out "no migrations to prune")
  else for_io pruned prune_one.

(** emitMigrateHooks *)
Definition emitMigrateHooks (post : bool) (plan : list PlanStep) : io Running unit :=
  for_io (pj_Apps (cx_Project ctx)) (fun a =>
    _ ← when_verbose 2 (out ("Running " +:+ (if post then "post" else "pre") +:+ "-migrate handlers for application " +:+ ap_Label a));
    for_io (hooks post (ap_Label a) plan) (fun h => on_executor (on_world h))).

(** ** syncApps *)

(** declaredModels: those of the model structs first, then the others of the
    app *)
Definition struct_names (a : App) : list string := map ToLower (pj_Models (cx_Project ctx) (ap_Label a)).
Definition declaredModels (a : App) (apps : Apps) : list Model :=
  let found := omap (fun n => match GetModel apps (ap_Label a) n with Ok m => Some m | _ => None end) (struct_names a) in
  let declared := omap (fun n => match GetModel apps (ap_Label a) n with Ok _ => Some n | _ => None end) (struct_names a) in
  found ++ filter (fun m => m_App m = ap_Label a ∧ ToLower (m_Name m) ∉ declared) (Apps_Models apps).

(** Whether a table is to be made for a model *)
Definition wanted (have : list string) (m : Model) : bool :=
  negb (opt_AutoCreated (model_options m)) && negb (bool_decide (IdentifierConverter (m_Table m) ∈ have)) &&
  Managed m && conn_AllowMigrate (m_App m) (mkHints (Some m) (ToLower (m_Name m)) ∅).

Definition sync_model (apps : Apps) (ed : MigrationEditor W) (label : string) (m : Model) : io Running unit :=
  _ ← when_verbose 3 (out ("  processing " +:+ label +:+ "." +:+ m_Name m));
  _ ← when_verbose 1 (out ("  creating table " +:+ m_Table m));
  on_executor (on_world (@ed_CreateModel W (med_Editor ed) (mkModelPtr apps m))).

Definition sync_app (apps : Apps) (ed : MigrationEditor W) (have : list string) (labels : gset string) (a : App) : io Running unit :=
  if bool_decide (ap_Label a ∈ labels)
  then for_io (filter (fun m => wanted have m = true) (declaredModels a apps)) (sync_model apps ed (ap_Label a))
  else mret tt.

(** syncApps: the editor is finished whatever a CreateModel comes to. *)
Definition syncApps (labels : gset string) : io Running unit :=
  st ← lift (pj_CurrentState (cx_Project ctx));
  have ← on_executor (on_world TableNames);
  apps ← lift (fst <$> ps_Apps st);
  _ ← when_verbose 1 (out "creating tables");
  ed ← on_executor (on_world (new_editor false true));
  _ ← on_executor (on_world (med_Begin ed));
  r ← attempt (for_io (pj_Apps (cx_Project ctx)) (sync_app apps ed have labels));
  _ ← (match r with inl _ => when_verbose 1 (out "  running deferred SQL") | inr _ => mret tt end);
  on_executor (on_world (med_Finish ed (error_of r))).

(** ** run *)

(** The check of the app label *)
Definition check_app (l : Loader) : outcome unit :=
  let app := mg_appLabel o in
  if bool_decide (app = "") then Ok tt
  else
    match project_App (cx_Project ctx) app with
    | None => Err (ManagementError ("no app named " +:+ Quote app +:+ "; is it in the project's Apps?"))
    | Some _ =>
        if mg_runSyncdb o then
          if bool_decide (app ∈ ld_MigratedApps l)
          then Err (ManagementError ("can't use run_syncdb with app '" +:+ app +:+ "' as it has migrations")) else Ok tt
        else if bool_decide (app ∈ ld_MigratedApps l) then Ok tt
        else Err (ManagementError ("app '" +:+ app +:+ "' does not have migrations"))
    end.

(** The targets: a migration, or the leaves of an app or of all *)
Definition named_target (l : Loader) (mig : Migration) : outcome Key :=
  let target := Migration_Key mig in
  if Has (ld_Graph l) target then Ok target
  else match ld_Replacements l !! target with
       | Some inc => match last (mig_Replaces inc) with Some k => Ok k | None => Panic index_out_of_range end
       | None => Ok target
       end.
Definition migrate_targets (l : Loader) : outcome (list Key) :=
  let app := mg_appLabel o in
  if bool_decide (app = "") then LeafNodes (ld_Graph l) ""
  else if bool_decide (mg_migrationName o = "") then
    leaves ← LeafNodes (ld_Graph l) ""; Ok (filter (fun k => key_App k = app) leaves)
  else if bool_decide (mg_migrationName o = "zero") then Ok [mkKey app ""]
  else mig ← findMigration l app (mg_migrationName o) ""; k ← named_target l mig; Ok [k].

(** --plan *)
Definition show_step (s : PlanStep) : io Running unit :=
  _ ← out_styled (Migration_String (pst_Migration s)) (sty_MigrateHeading (cx_Style ctx));
  for_io (mig_Operations (pst_Migration s)) (fun op =>
    let '(msg, is_err) := DescribeOperation op (pst_Backwards s) in
    on_shell (PrintlnStyled ("  " +:+ msg) (if is_err : bool then Some (sty_Warning (cx_Style ctx)) else None))).
Definition unapplied_error : error := SilentError ExitError "there are unapplied migrations".
Definition print_plan (plan : list PlanStep) : io Running unit :=
  _ ← out_styled "planned operations:" (sty_MigrateLabel (cx_Style ctx));
  if bool_decide (length plan = 0) then out "no planned migration operations"
  else
    _ ← for_io plan show_step;
    if mg_check o then lift (Err unapplied_error) else mret tt.

(** What is about to happen, told at verbosity 2 *)
Definition target_line (targets : list Key) : outcome string :=
  let label := sty_MigrateLabel (cx_Style ctx) in
  if negb (bool_decide (mg_appLabel o = "")) && negb (bool_decide (mg_migrationName o = "")) then
    match targets with
    | t :: _ => Ok (label "target: " +:+ key_App t +:+ ", " +:+ (if bool_decide (key_Name t = "") then "zero" else key_Name t))
    | [] => Panic index_out_of_range
    end
  else
    let apps := Join (uniqueSorted (map key_App targets)) ", " in
    Ok (label "target: " +:+ (if bool_decide (apps = "") then "nothing" else apps) +:+ ", latest").
Definition announce_run (l : Loader) (syncdb : bool) (targets : list Key) : io Running unit :=
  when_verbose 2 (
    _ ← (if syncdb then
           out (sty_MigrateLabel (cx_Style ctx) "syncing: " +:+
                (if bool_decide (mg_appLabel o = "") then Join (sortedMapKeys (ld_UnmigratedApps l)) ", " else mg_appLabel o))
         else mret tt);
    line ← lift (target_line targets); out line).

(** With nothing to apply, what the models have that no migration carries;
    the autodetector is given no questioner, which is Base's answers. *)
Definition nil_Questioner : Base := mkBase (mkDefaults false false false false) ∅ false None (fun _ => None).
Definition report_changes (l : Loader) (realModels : list ModelState) : io Running unit :=
  when_verbose 1 (
    _ ← out "no migrations to apply";
    new ← lift (pj_CurrentState (cx_Project ctx));
    old ← lift (Loader_ProjectState l None true realModels);
    changes ← lift (@ChangesFor _ (base_Questioner nil_Questioner) FormatOperation (fun _ => MigrationNameTimestamp) old new
                      (ld_Graph l) (mkChangesOptions [] [] "") (Autodetector_New tt)).2;
    if bool_decide (changes = ∅) then mret tt
    else
      let notice text := out (sty_Notice (cx_Style ctx) text) in
      _ ← notice ("models in " +:+ Join (map Quote (sortedMapKeys changes)) ", " +:+
                  " have changes that no migration carries yet, so they were not applied");
      notice ("run '" +:+ Invocation ctx +:+ " makemigrations', then '" +:+ Invocation ctx +:+ " migrate' again")).

Section apply.
Context (cfg : Config) (realModels : list ModelState).

(** The part of run that changes the database *)
Definition apply_plan (targets : list Key) (plan : list PlanStep) : io Running unit :=
  r ← get_state;
  let l := rn_Loader r in
  let syncdb := mg_runSyncdb o && negb (bool_decide (ld_UnmigratedApps l = ∅)) in
  _ ← announce_run l syncdb targets;
  preState ← on_executor (CreateProjectState cfg realModels true);
  rendered ← lift (ps_Apps preState);
  _ ← emitMigrateHooks false plan;
  _ ← (if syncdb then
         _ ← when_verbose 1 (out (sty_MigrateHeading (cx_Style ctx) "synchronizing apps without migrations"));
         syncApps (if bool_decide (mg_appLabel o = "") then dom (ld_UnmigratedApps l) else {[mg_appLabel o]})
       else mret tt);
  let nothing := bool_decide (length plan = 0) in
  _ ← (if nothing then report_changes l realModels else mret tt);
  _ ← on_executor (MigrateTo cfg realModels FormatOperation migrate_progress
        (mkMigrateOptions targets (Some plan) (Some (Clone rendered.2)) (mg_fake o && negb nothing) (mg_fakeInitial o && negb nothing)));
  emitMigrateHooks true plan.

(** The part of run after the executor has been made *)
Definition run_executor : io Running unit :=
  r ← get_state;
  keys ← on_executor (on_recorder AppliedMigrations);
  _ ← lift (CheckConsistentHistory (rn_Loader r) keys alias);
  conflicts ← lift (DetectConflicts (rn_Loader r));
  _ ← (if bool_decide (conflicts = ∅) then mret tt else lift (Err (conflicts_error ctx conflicts)));
  _ ← lift (check_app (rn_Loader r));
  targets ← lift (migrate_targets (rn_Loader r));
  _ ← (if mg_prune o then
         if bool_decide (mg_appLabel o = "")
         then lift (Err (ManagementError "migrations can be pruned only when an app is specified"))
         else prune (mg_appLabel o)
       else mret tt);
  plan ← on_executor (MigrationPlan cfg targets false);
  if mg_plan o then print_plan plan
  else if mg_check o then (if bool_decide (length plan = 0) then mret tt else lift (Err unapplied_error))
  else if mg_prune o then mret tt
  else apply_plan targets plan.
End apply.

(** migrateCmd.run, once the connection is open *)
Definition migrate_run : io (Shell W) unit := fun s =>
  match (pre ← project_Loader (cx_Project ctx) None false;
         lift (project_RealModels (cx_Project ctx) (ld_UnmigratedApps pre))) s with
  | (s1, Ok realModels) =>
      let cfg := LoaderConfig (cx_Project ctx) false in
      match Executor_New cfg (sh_db s1) with
      | (w, Ok e) =>
          let '(r, x) := run_executor cfg realModels
                           (mkRunning (sh_set_db w s1) (ex_Loader e) (rc_hasTable (ex_Recorder e)) (ex_ReplaceMigrations e)) in
          (rn_shell r, x)
      | (w, Err e) => (sh_set_db w s1, Err e)
      | (w, Panic e) => (sh_set_db w s1, Panic e)
      end
  | (s1, Err e) => (s1, Err e)
  | (s1, Panic e) => (s1, Panic e)
  end.
End migrate.

(** migrateCmd.run *)
Definition migrate {W} `{Printer} `{Printing} (ctx : Context W) (o : migrateOptions) (alias : string)
    (FormatOperation : Operation → string) (emit : string → W → W) (elapsed : string)
    (hooks : bool → string → list PlanStep → list (io W unit)) : io (Shell W) unit :=
  c ← lift (project_Conn (cx_Project ctx) alias);
  @migrate_run W _ _ (db_Conn c) ctx o alias FormatOperation emit elapsed hooks.
