(* ===== verification/CommandTheorems.v ===== *)
(** * What the commands leave alone

    makemigrations in a dry run and migrate with --plan or --check only read;
    migrate --prune forgets what is not on disk any more. *)

From S2P Require Import Prelude GoStd Keys Errors Fields Index ModelState Apps ProjectState Operation SchemaEditor.
From S2P Require Import OpDatabase Effects Respects Migration Graph Filename Loader Recorder RecorderLemmas Executor.
From S2P Require Import Questioner AutoDeps DetectModels DetectFields AutoBuild Arrange Interactive Management Commands.
From S2P Require Import MakeMigrations MigrateCommand.

(** A connection whose queries change nothing *)
Class ReadsOnly (W : Type) (c : Conn W) := {
  TableNames_quiet : quiet (@TableNames W c);
  Rows_quiet sql : quiet (@Rows W c sql);
}.

(** Every connection of a project *)
Definition reads_only {W} (p : Project W) : Prop :=
  ∀ alias c, pj_Databases p !! alias = Some (Ok c) → ReadsOnly W (db_Conn c).

(** ** Nothing is written *)

Section unwritten.
Context {W : Type}.

(** The files and the databases are as they were, whatever was printed. *)
Definition unwritten : relation (Shell W) := fun s s' =>
  sh_files s' = sh_files s ∧ sh_dirs s' = sh_dirs s ∧ sh_db s' = sh_db s.

#[export] Instance unwritten_preorder : PreOrder unwritten.
Proof. split; [by intros s|]. intros s1 s2 s3 (? & ? & ?) (? & ? & ?). split_and!; congruence. Qed.

Lemma on_stdout_unwritten f : respects unwritten (on_stdout f).
Proof. by intros s. Qed.
Lemma on_stderr_unwritten f : respects unwritten (on_stderr f).
Proof. by intros s. Qed.
Lemma Println_unwritten msg : respects unwritten (Println msg).
Proof. by intros s. Qed.
Lemma PrintlnStyled_unwritten msg st : respects unwritten (PrintlnStyled msg st).
Proof. by intros s. Qed.
Lemma on_database_unwritten {A} (m : io W A) : quiet m → respects unwritten (on_database m).
Proof. intros Hm s. unfold on_database, zoom. specialize (Hm (sh_db s)). destruct (m (sh_db s)). simpl in *. by subst. Qed.
End unwritten.
#[export] Hint Resolve on_stdout_unwritten on_stderr_unwritten Println_unwritten PrintlnStyled_unwritten : respects.

(** The recorder only asks. *)
Definition same_world {W} : relation (Recorder W) := fun r r' => rc_world r' = rc_world r.
#[export] Instance same_world_preorder {W} : PreOrder (@same_world W).
Proof. split; [by intros r|]. intros r1 r2 r3 H1 H2. unfold same_world in *. congruence. Qed.

Section reads.
Context {W : Type} `{C : Conn W} `{!ReadsOnly W C}.

Lemma on_conn_same {A} (m : io W A) : quiet m → respects same_world (on_conn m).
Proof. intros Hm r. unfold on_conn, zoom. specialize (Hm (rc_world r)). destruct (m (rc_world r)). simpl in *. by subst. Qed.

Lemma HasTable_same : respects same_world HasTable.
Proof.
  unfold HasTable. respect. apply on_conn_same, TableNames_quiet.
  - by intros r.
Qed.

#[local] Hint Resolve HasTable_same : respects.

Lemma Records_same : respects same_world Records.
Proof. unfold Records. respect. apply on_conn_same, Rows_quiet. Qed.
#[local] Hint Resolve Records_same : respects.

Lemma AppliedMigrations_same : respects same_world AppliedMigrations.
Proof. unfold AppliedMigrations. respect. Qed.
End reads.

Lemma applied_of_quiet {W} (c : Database W) : ReadsOnly W (db_Conn c) → quiet (applied_of c).
Proof.
  intros Hc w. unfold applied_of. pose proof (@AppliedMigrations_same _ (db_Conn c) Hc (mkRecorder w false)) as H.
  by destruct (AppliedMigrations _) as [r o].
Qed.

Lemma BuildGraph_respects {W} (R : relation W) `{!PreOrder R} cfg (rec : option (io W (list Key))) :
  match rec with Some m => respects R m | None => True end → respects R (BuildGraph cfg rec).
Proof. intros Hr. unfold BuildGraph. respect. Qed.

Lemma loader_New_unwritten {W} cfg (c : option (Database W)) :
  match c with Some c => ReadsOnly W (db_Conn c) | None => True end → respects unwritten (loader_New cfg c).
Proof. intros Hc. apply on_database_unwritten, (BuildGraph_respects (flip eq)).
  destruct c; [by apply applied_of_quiet|done].
Qed.

(** ** makemigrations in a dry run *)

Section makemigrations.
Context {W : Type} `{Printer} `{GoNames} `{GoChecker} (ctx : Context W) (o : makeMigrationsOptions).
Context (FormatOperation : Operation → string).
Hypothesis (Hreads : reads_only (cx_Project ctx)) (Hdry : dryRun o = true).

Lemma on_log_unwritten f : respects unwritten (on_log (W := W) o f).
Proof. unfold on_log. respect. Qed.
#[local] Hint Resolve on_log_unwritten : respects.
Lemma log_unwritten msg : respects unwritten (log (W := W) o msg).
Proof. apply on_log_unwritten. Qed.
#[local] Hint Resolve log_unwritten : respects.

Lemma verbosely_unwritten n m : respects unwritten m → respects unwritten (verbosely ctx n m).
Proof. intros Hm. unfold verbosely. respect. Qed.

Lemma migrationWriter_unwritten mig header : respects unwritten (migrationWriter ctx mig header).
Proof. unfold migrationWriter. respect. Qed.
#[local] Hint Resolve migrationWriter_unwritten : respects.

Lemma show_contents_unwritten w path : respects unwritten (show_contents ctx o w path).
Proof. unfold show_contents. respect. Qed.
#[local] Hint Resolve show_contents_unwritten : respects.

Lemma announce_unwritten mig rel : respects unwritten (announce ctx o mig rel).
Proof. apply verbosely_unwritten. respect. Qed.
#[local] Hint Resolve announce_unwritten : respects.

Lemma writeMigrationFiles_unwritten changes order previous : respects unwritten (writeMigrationFiles ctx o changes order previous).
Proof. unfold writeMigrationFiles, write_change. rewrite Hdry. respect. Qed.
#[local] Hint Resolve writeMigrationFiles_unwritten : respects.

Lemma defaultConn_reads : match defaultConn ctx with Some c => ReadsOnly W (db_Conn c) | None => True end.
Proof.
  unfold defaultConn, project_Conn. destruct (pj_Databases _ !! _) as [[c|e|e]|] eqn:E; [by eapply Hreads|done..].
Qed.

Lemma project_Loader_unwritten b : respects unwritten (project_Loader (cx_Project ctx) None b).
Proof. by apply loader_New_unwritten. Qed.
#[local] Hint Resolve project_Loader_unwritten : respects.

Lemma writeToLast_unwritten changes order : respects unwritten (writeToLastMigrationFiles ctx o changes order).
Proof.
  unfold writeToLastMigrationFiles. apply respects_bind; [apply _|apply loader_New_unwritten, defaultConn_reads|].
  intros l. unfold update_app. respect.
Qed.
#[local] Hint Resolve writeToLast_unwritten : respects.

Lemma console_out_unwritten c (s : Shell W) : unwritten s (console_out o c s).
Proof. unfold console_out. destruct (on_log_unwritten (Stream_WriteString (cs_Out c)) s) as (? & ? & ?). by split_and!. Qed.

Lemma log_all_unwritten msgs (s : Shell W) : unwritten s (log_all o msgs s).
Proof.
  unfold log_all. revert s. induction msgs as [|msg msgs IH]; intros s; [done|]. simpl.
  etrans; [apply (log_unwritten msg)|apply IH].
Qed.

Lemma asking_unwritten {Q A} enter leave (m : io Q A) : (∀ q (s : Shell W), unwritten s (leave q s)) → respects unwritten (asking enter leave m).
Proof. intros Hl s. unfold asking. destruct (m (enter s)). apply Hl. Qed.
Lemma detecting_unwritten {Q A} enter leave (m : io (Autodetector Q) A) :
  (∀ q (s : Shell W), unwritten s (leave q s)) → respects unwritten (detecting enter leave m).
Proof. intros Hl s. unfold detecting. destruct (m _). apply Hl. Qed.

Lemma ask_merge_unwritten app : respects unwritten (ask_merge (W := W) o app).
Proof.
  unfold ask_merge. case_match; apply asking_unwritten; [apply console_out_unwritten|done].
Qed.
#[local] Hint Resolve ask_merge_unwritten : respects.

Lemma handleMerge_unwritten l conflicts : respects unwritten (handleMerge ctx o l conflicts).
Proof. unfold handleMerge, merge_app, write_merge, show_branches. rewrite Hdry. respect; apply verbosely_unwritten; respect. Qed.

Lemma changes_found_unwritten l labels old new : respects unwritten (changes_found ctx o FormatOperation l labels old new).
Proof.
  unfold changes_found. case_match; apply detecting_unwritten; [apply console_out_unwritten|apply log_all_unwritten].
Qed.

Lemma check_history_unwritten l alias : respects unwritten (check_history ctx l alias).
Proof.
  unfold check_history. destruct (pj_Databases _ !! alias) as [[c|e|e]|] eqn:E; try (respect; fail).
  pose proof (Hreads _ _ E) as Hc. apply respects_bind; [apply _| |intros r; respect]. apply respects_attempt.
  change (respects unwritten
            (if anyModelAllowed ctx c then keys ← on_database (applied_of c); lift (CheckConsistentHistory l keys alias) else mret tt)).
  case_match; [|respect]. apply respects_bind; [apply _| |intros; respect].
  apply on_database_unwritten, applied_of_quiet, Hc.
Qed.
#[local] Hint Resolve check_history_unwritten handleMerge_unwritten changes_found_unwritten : respects.

Lemma write_changes_unwritten labels found : respects unwritten (write_changes ctx o labels found).
Proof. unfold write_changes. respect; apply verbosely_unwritten; respect. Qed.
#[local] Hint Resolve write_changes_unwritten : respects.

(** C9: In a dry run, which --check is too, makemigrations leaves every file,
    every directory and every database as it found it, whatever it reports
    and however it ends: with --update, --merge or --empty, in every project
    whose connections answer the two questions of the recorder without
    changing anything. *)
Theorem makemigrations_dry_run : respects unwritten (run ctx o FormatOperation).
Proof. unfold run, check_labels, detect_and_write. respect. Qed.
End makemigrations.

(** ** migrate, when it only shows or checks *)

Section migrate.
Context {W : Type} `{Printer} `{Printing} `{C : Conn W} `{!ReadsOnly W C} (ctx : Context W) (o : migrateOptions) (alias : string).
Context (FormatOperation : Operation → string) (emit : string → W → W) (elapsed : string).
Context (hooks : bool → string → list PlanStep → list (io W unit)).

(** The database of an executor *)
Definition same_database : relation (Executor W) := fun e e' => same_world (ex_Recorder e) (ex_Recorder e').
#[export] Instance same_database_preorder : PreOrder same_database.
Proof. unfold same_database. split; [by intros e|]. intros e1 e2 e3. apply transitivity. Qed.

Lemma on_recorder_same {A} (m : io (Recorder W) A) : respects same_world m → respects same_database (on_recorder m).
Proof. apply respects_zoom; [apply _|]. by intros s t. Qed.

Lemma new_loader_same cfg b : respects same_world (new_loader cfg b).
Proof. apply BuildGraph_respects; [apply _|]. apply AppliedMigrations_same. Qed.

Lemma MigrationPlan_same cfg targets clean : respects same_database (MigrationPlan cfg targets clean).
Proof.
  unfold MigrationPlan. generalize 2 as fuel. induction fuel as [|fuel IH]; simpl; [respect|].
  pose proof (λ b, on_recorder_same _ (new_loader_same cfg b)). respect; first [apply IH|by intros e].
Qed.

(** The files and the database of a running command *)
Definition untouched : relation (Running (W := W)) := fun r r' => unwritten (rn_shell r) (rn_shell r').
#[export] Instance untouched_preorder : PreOrder untouched.
Proof. unfold untouched. split; [by intros r|]. intros r1 r2 r3. apply transitivity. Qed.

Lemma on_shell_untouched {A} (m : io (Shell W) A) : respects unwritten m → respects untouched (on_shell m).
Proof. apply respects_zoom; [apply _|]. by intros r s. Qed.
Lemma on_executor_untouched {A} (m : io (Executor W) A) : respects same_database m → respects untouched (on_executor m).
Proof. apply respects_zoom; [apply _|]. by intros r e. Qed.
Lemma out_untouched msg : respects untouched (out (W := W) msg).
Proof. apply on_shell_untouched, Println_unwritten. Qed.
Lemma out_styled_untouched msg st : respects untouched (out_styled (W := W) msg st).
Proof. apply on_shell_untouched, PrintlnStyled_unwritten. Qed.
Lemma run_untouched {A} (m : io (Recorder W) A) : respects same_world m → respects untouched (on_executor (on_recorder m)).
Proof. intros Hm. by apply on_executor_untouched, on_recorder_same. Qed.
#[local] Hint Resolve out_untouched out_styled_untouched on_shell_untouched PrintlnStyled_unwritten : respects.

Lemma show_step_untouched s : respects untouched (show_step ctx s).
Proof. unfold show_step. respect. Qed.
#[local] Hint Resolve show_step_untouched : respects.

Lemma run_executor_untouched cfg realModels :
  mg_prune o = false → mg_plan o || mg_check o = true →
  respects untouched (run_executor ctx o alias FormatOperation emit elapsed hooks cfg realModels).
Proof.
  intros Hp Hr. unfold run_executor, print_plan. rewrite Hp.
  pose proof (run_untouched _ AppliedMigrations_same).
  pose proof (λ ts, on_executor_untouched _ (MigrationPlan_same cfg ts false)).
  destruct (mg_plan o), (mg_check o); try discriminate Hr; respect.
Qed.

Lemma migrate_run_unwritten :
  mg_prune o = false → mg_plan o || mg_check o = true →
  respects unwritten (migrate_run ctx o alias FormatOperation emit elapsed hooks).
Proof.
  intros Hp Hr s. unfold migrate_run.
  set (pre := pre ← project_Loader (cx_Project ctx) None false; lift (project_RealModels (cx_Project ctx) (ld_UnmigratedApps pre))).
  assert (respects unwritten pre) as Hpre by (unfold pre; respect; by apply loader_New_unwritten).
  specialize (Hpre s). destruct (pre s) as [s1 [ms|e|e]]; [|done..]. simpl in Hpre.
  pose proof (new_loader_same (LoaderConfig (cx_Project ctx) false) (cfg_ReplaceMigrations (LoaderConfig (cx_Project ctx) false))
                (mkRecorder (sh_db s1) false)) as Hl.
  unfold Executor_New. destruct (new_loader _ _ _) as [r [l|e|e]]; unfold same_world in Hl; simpl in Hl; rewrite Hl.
  - match goal with |- context [run_executor ?a ?b ?c ?d ?e ?f ?g ?h ?i ?j] => pose proof (run_executor_untouched h i Hp Hr j) as Hx end.
    destruct (run_executor _ _ _ _ _ _ _ _ _ _) as [r' x]. etrans; [exact Hpre|]. etrans; [|exact Hx]. by split_and!.
  - etrans; [exact Hpre|]. by split_and!.
  - etrans; [exact Hpre|]. by split_and!.
Qed.
End migrate.

(** C10: migrate with --plan or with --check, and without --prune, leaves
    every file and the database as it found them, whatever plan it shows and
    however it ends: nothing is applied, recorded or created, not even the
    table of the recorder. It is asked of the connections of the project that
    listing the tables and querying the records only read ([reads_only]). *)
Theorem migrate_plan_reads {W} `{Printer} `{Printing} (ctx : Context W) (o : migrateOptions) (alias : string)
    FormatOperation emit elapsed hooks :
  reads_only (cx_Project ctx) → mg_prune o = false → mg_plan o || mg_check o = true →
  respects unwritten (migrate ctx o alias FormatOperation emit elapsed hooks).
Proof.
  intros Hreads Hp Hr. unfold migrate, project_Conn. destruct (pj_Databases _ !! alias) as [[c|e|e]|] eqn:E; try by intros s.
  pose proof (Hreads _ _ E). apply (migrate_run_unwritten (C := db_Conn c)); done.
Qed.

(** ** migrate --prune *)

Section prune.
Context {W : Type} `{Printer} `{Printing} `{HL : ConnLaws W} (ctx : Context W) (l : Loader) (fs : gmap string string).

(** A command with a loader, some files and a list of recorded migrations *)
Definition running_at (ks : list Key) (r : Running (W := W)) : Prop :=
  records ks (mkRecorder (sh_db (rn_shell r)) (rn_hasTable r)) ∧ rn_Loader r = l ∧ sh_files (rn_shell r) = fs.

Lemma out_running ks E msg : triple (running_at ks) (out msg) (λ _, running_at ks) E.
Proof. by intros r Hr. Qed.
Lemma verbose_running ks E n (m : io (Running (W := W)) unit) :
  triple (running_at ks) m (λ _, running_at ks) E → triple (running_at ks) (when_verbose ctx n m) (λ _, running_at ks) E.
Proof. intros Hm. unfold when_verbose. case_match; [done|apply triple_skip]. Qed.

Lemma unrecord_running ks k :
  triple (running_at ks) (on_executor (on_recorder (RecordUnapplied (key_App k) (key_Name k))))
    (λ _, running_at (filter (λ x, x ≠ k) ks)) (running_at ks).
Proof.
  intros r (Hr & Hl & Hf). pose proof (record_unapplied ks (key_App k) (key_Name k) _ Hr) as Hu.
  unfold on_executor, on_recorder, zoom. simpl. destruct (RecordUnapplied _ _ _) as [rc [[]|e|e]]; [|..|done].
  - destruct k, rc. by split_and!.
  - destruct rc. by split_and!.
Qed.

Lemma prune_one_running ks k :
  triple (running_at ks) (prune_one ctx k) (λ _, running_at (filter (λ x, x ≠ k) ks)) (running_at ks).
Proof.
  unfold prune_one. eapply triple_bind; [apply verbose_running; by intros r Hr|intros []].
  eapply triple_bind; [apply unrecord_running|intros []]. apply verbose_running, out_running.
Qed.

Lemma filter_without (gone : list Key) k (ks : list Key) : filter (λ x, x ≠ k) (filter (λ x, x ∉ gone) ks) = filter (λ x, x ∉ gone ++ [k]) ks.
Proof. rewrite list_filter_filter. apply list_filter_iff. intros x. rewrite not_elem_of_app, list_elem_of_singleton. tauto. Qed.

(** What prune does once it knows its loader *)
Lemma prune_rest (r : Running (W := W)) ks app : rn_Loader r = l →
  triple (running_at ks)
    (let pruned := to_prune (rn_Loader r) app in
     let squashed := still_replacing (rn_Loader r) pruned in
     if negb (bool_decide (squashed = [])) then cannot_prune ctx squashed
     else if bool_decide (pruned = []) then when_verbose ctx 1 (out "no migrations to prune")
     else for_io pruned (prune_one ctx))
    (λ _, running_at (if bool_decide (still_replacing l (to_prune l app) = []) then filter (λ k, k ∉ to_prune l app) ks else ks))
    (λ r, ∃ gone, gone `prefix_of` to_prune l app ∧ running_at (filter (λ k, k ∉ gone) ks) r).
Proof.
  intros ->. cbv zeta. assert (filter (λ k : Key, k ∉ []) ks = ks) as Hnone.
  { induction ks as [|k ks IH]; [done|]. rewrite filter_cons_True, IH by apply not_elem_of_nil. done. }
  case_bool_decide as Hs; simpl.
  - case_bool_decide as Hp.
    + rewrite Hp, Hnone. apply verbose_running, out_running.
    + unfold for_io.
      set (E := λ r, ∃ gone, gone `prefix_of` to_prune l app ∧ running_at (filter (λ k, k ∉ gone) ks) r).
      rewrite <- Hnone at 1. apply (triple_fold (λ done _, running_at (filter (λ k, k ∉ done) ks)) E).
      intros done [] k rest Hl. eapply triple_weaken; [apply prune_one_running|done| |].
      * intros [] r'. by rewrite filter_without.
      * intros r' Hr. exists done. split; [rewrite Hl; by apply prefix_app_r|done].
  - unfold cannot_prune. eapply triple_bind; [apply out_running|intros []].
    eapply (triple_bind _ _ (λ _, running_at ks)); [|intros []; apply out_running].
    apply (triple_fold (λ _ _, running_at ks)). intros. apply out_running.
Qed.

(** C14: --prune forgets exactly the migrations of the app that are applied
    and not on disk any more. When it succeeds, the recorded migrations are
    those there were without them, in the same order; when a squashed
    migration still replaces one of them it only says so and forgets
    nothing. When it fails in the middle it has forgotten some of them and
    nothing else. In no case does it touch a file or another migration. *)
Theorem prune_forgets app ks :
  (∀ k, k ∈ to_prune l app ↔ k ∈ ld_AppliedOrder l ∧ ld_DiskMigrations l !! k = None ∧ key_App k = app) ∧
  triple (running_at ks) (prune ctx app)
    (λ _, running_at (if bool_decide (still_replacing l (to_prune l app) = []) then filter (λ k, k ∉ to_prune l app) ks else ks))
    (λ r, ∃ gone, gone `prefix_of` to_prune l app ∧ running_at (filter (λ k, k ∉ gone) ks) r).
Proof.
  split.
  - intros k. unfold to_prune. rewrite elem_of_SortKeys, list_elem_of_filter. tauto.
  - unfold prune. eapply triple_bind; [apply verbose_running; by intros r Hr|intros []].
    eapply triple_bind; [apply triple_get|intros r].
    apply (triple_weaken _ (λ r', rn_Loader r = l ∧ running_at ks r') _ _ _ _ _ (triple_pull _ _ _ _ _ (prune_rest r ks app)));
      [|done|done]. intros r' [-> Hr]. split; [apply Hr|done].
Qed.
End prune.
