(* ===== verification/MergeTheorems.v ===== *)
(** * What squashmigrations and makemigrations --merge write, and what showmigrations lists

    The squashed migration does what the migrations it replaces do, the merge
    migration takes the conflict away, and the list of an app has each of its
    migrations in an order they can run in. *)

From S2P Require Import Prelude GoStd Keys Errors Fields Index ModelState Apps ProjectState Operation.
From S2P Require Import OperationLemmas Optimizer Reduce OptimizerTermination OptimizerSound SchemaEditor Effects.
From S2P Require Import Migration Graph GraphLemmas Filename Loader LoaderLemmas Recorder Executor PlanLemmas Respects Questioner.
From S2P Require Import AutoDeps AutoBuild Arrange Interactive Management Commands MakeMigrations CommandTheorems.

Lemma for_io_always {W A} (f : A → io W unit) : (∀ x s, (f x s).2 = Ok tt) → ∀ l s, (for_io l f s).2 = Ok tt.
Proof.
  intros Hf l. unfold for_io. induction l as [|x l IH]; intros s; [done|]. simpl. unfold mbind, io_bind.
  specialize (Hf x s). destruct (f x s) as [s1 r]. simpl in Hf. subst r. apply IH.
Qed.

(** ** squashmigrations *)

(** One file is new, and nothing else has changed. *)
Definition written {W} (path content : string) (s s' : Shell W) : Prop :=
  sh_files s' = <[path := content]> (sh_files s) ∧ sh_dirs s' = sh_dirs s ∧ sh_db s' = sh_db s.

Lemma unwritten_written {W} path content (s1 s2 s3 s4 : Shell W) :
  unwritten s1 s2 → written path content s2 s3 → unwritten s3 s4 → written path content s1 s4.
Proof. intros (? & ? & ?) (? & ? & ?) (? & ? & ?). split_and!; congruence. Qed.

Section squash.
Context {W : Type} `{Printer} (ctx : Context W) (app startName name : string) (o : squashOptions).

(** The migration that is written for what was selected *)
Definition squash_of (start : option Migration) (mig : Migration) (migs : list Migration) : Migration :=
  squashed_migration app start (so_squashedName o) (mig_Name mig) migs
    (if so_noOptimize o then squash_operations migs else Optimize (squash_operations migs) (mig_App mig)).

Lemma heading_unwritten text : respects unwritten (heading ctx text).
Proof. apply Println_unwritten. Qed.
#[local] Hint Resolve heading_unwritten : respects.
Lemma verbose_unwritten n m : respects unwritten m → respects unwritten (verbose ctx n m).
Proof. intros Hm. unfold verbose. respect. Qed.

Lemma prompt_line_unwritten text : respects unwritten (prompt_line (W := W) text).
Proof. unfold prompt_line. respect. by intros s. Qed.

Lemma proceed_loop_unwritten fuel : respects unwritten (proceed_loop (W := W) fuel).
Proof. induction fuel as [|fuel IH]; simpl; [respect|]. pose proof prompt_line_unwritten. respect. Qed.

Lemma confirm_squash_unwritten b migs : respects unwritten (confirm_squash ctx b migs).
Proof. unfold confirm_squash. respect. intros s. apply proceed_loop_unwritten. Qed.

Lemma squash_optimize_unwritten b a ops : respects unwritten (squash_optimize ctx b a ops).
Proof. unfold squash_optimize. respect; apply verbose_unwritten; respect. Qed.

Lemma select_unwritten : respects unwritten (select_migrations ctx app startName name).
Proof. unfold select_migrations, checkMigratedApp. respect. by apply loader_New_unwritten. Qed.

Lemma squash_optimize_value b a ops s s' r :
  squash_optimize ctx b a ops s = (s', r) → r = Ok (if b then ops else Optimize ops a).
Proof. unfold squash_optimize, verbose. destruct b; by repeat case_match; intros [= <- <-]. Qed.

(** Without the question there is no stopping. *)
Lemma confirm_squash_value migs s s' r : confirm_squash ctx false migs s = (s', r) → r = Ok true.
Proof.
  unfold confirm_squash. rewrite orb_false_r. case_match; [|by intros [= <- <-]].
  unfold mbind, io_bind. destruct (heading ctx "will squash:" s) as [s1 [[]|e|e]] eqn:E1; [|discriminate E1..].
  pose proof (for_io_always (λ x : Migration, Println (W := W) (" - " +:+ mig_Name x)) (λ _ _, eq_refl) migs s1) as Hf.
  destruct (for_io migs _ s1) as [s2 r2]. simpl in Hf. subst r2. by intros [= <- <-].
Qed.

(** Writing a file that is not there, and then telling of it *)
Lemma write_new_spec w path e (tell : bool → io (Shell W) unit) s s' r :
  (∀ b, respects unwritten (tell b)) → (∀ b s, (tell b s).2 = Ok tt) →
  (s ← get_state;
   if file_exists path s then lift (Err e)
   else c ← lift (AsString w); let '(content, porting) := c in _ ← WriteFile path content; tell porting) s = (s', r) →
  (unwritten s s' ∧ r ≠ Ok tt) ∨
  ∃ content porting, AsString w = Ok (content, porting) ∧ sh_files s !! path = None ∧ written path content s s' ∧ r = Ok tt.
Proof.
  intros Htell Hok. unfold mbind at 1, io_bind at 1, get_state. unfold file_exists. case_bool_decide as Hex; [intros [= <- <-]; by left|].
  destruct (AsString w) as [[content porting]|x|x]; [|intros [= <- <-]; by left..].
  unfold mbind at 1, io_bind at 1. cbn [lift]. unfold mbind, io_bind, WriteFile. case_bool_decide as Hdir; [tauto|].
  case_bool_decide; [|intros [= <- <-]; by left]. intros Hr. right. exists content, porting.
  match type of Hr with ?m ?x = _ => specialize (Htell porting x); specialize (Hok porting x) end. rewrite Hr in Htell, Hok.
  simpl in Htell, Hok. split_and!; [done|apply eq_None_not_Some; tauto| |done].
  by eapply unwritten_written; [| |exact Htell].
Qed.

(** Either nothing is written, or the file of the squashed migration is. *)
Lemma write_squashed_spec squashed s s' r :
  write_squashed ctx squashed (so_header o) s = (s', r) →
  (unwritten s s' ∧ r ≠ Ok tt) ∨
  ∃ w path content porting,
    wr_Migration w = squashed ∧ AsString w = Ok (content, porting) ∧ sh_files s !! path = None ∧
    written path content s s' ∧ r = Ok tt.
Proof.
  unfold write_squashed, migrationWriter. destruct (project_App _ _) as [a|]; [|intros [= <- <-]; by left].
  destruct (ap_Disabled a || _); [intros [= <- <-]; by left|]. intros Hr.
  match type of Hr with ((_ ≫= λ s, mret (@?v s)) ≫= ?g) ?s0 = ?x =>
    let y := eval cbv beta in (v s0) in change (g y s0 = x) in Hr; cbv beta iota in Hr end.
  apply (write_new_spec _ _ _ (λ porting, verbose ctx 0 (_ ← Println _; if porting : bool then Println _ else mret tt))) in Hr
    as [?|(content & porting & ? & ? & ? & ->)].
  - by left.
  - right. eexists _, _, content, porting. by split_and!; [|eassumption..|].
  - intros b. apply verbose_unwritten. respect.
  - intros b s1. unfold verbose. by repeat case_match.
Qed.

(** C12: squashmigrations overwrites nothing and leaves the database alone.
    However it ends, and whatever it is answered, the files, the directories
    and the database are as they were, or exactly one file is new, at a path
    where there was none: it has the source of the squashed migration of what
    was selected, with the operations of those migrations in order, optimized
    unless that is turned off. When it asks nothing and ends without an error
    the file has been written. *)
Theorem squashMigrations_writes s s' r :
  squashMigrations ctx app startName name o s = (s', r) →
  (unwritten s s' ∧ (r = Ok tt → so_interactive o = true)) ∨
  (∃ start mig migs w path content porting,
     (select_migrations ctx app startName name s).2 = Ok (start, mig, migs) ∧
     wr_Migration w = squash_of start mig migs ∧ AsString w = Ok (content, porting) ∧
     sh_files s !! path = None ∧ written path content s s' ∧ r = Ok tt).
Proof.
  unfold squashMigrations. unfold mbind at 1, io_bind at 1. pose proof (select_unwritten s) as H1.
  destruct (select_migrations ctx app startName name s) as [s1 [[[start mig] migs]|e|e]]; [|intros [= <- <-]; by left..].
  unfold mbind at 1, io_bind at 1. pose proof (confirm_squash_unwritten (so_interactive o) migs s1) as H2.
  pose proof (λ r, confirm_squash_value migs s1 (confirm_squash ctx false migs s1).1 r) as Hgo.
  destruct (confirm_squash ctx (so_interactive o) migs s1) as [s2 [go|e|e]] eqn:E2; simpl in H1, H2;
    [|intros [= <- <-]; left; split; [by etrans|done]..].
  destruct go; simpl.
  2:{ intros [= <- <-]. left. split; [by etrans|]. destruct (so_interactive o); [done|]. rewrite E2 in Hgo.
      by specialize (Hgo _ eq_refl). }
  unfold mbind, io_bind. pose proof (squash_optimize_unwritten (so_noOptimize o) (mig_App mig) (squash_operations migs) s2) as H3.
  pose proof (squash_optimize_value (so_noOptimize o) (mig_App mig) (squash_operations migs) s2) as Hops.
  destruct (squash_optimize ctx _ _ _ s2) as [s3 r3]. rewrite (Hops _ _ eq_refl). simpl in H3.
  assert (unwritten s s3) as Hs by (etrans; [exact H1|]; by etrans). intros Hw.
  apply write_squashed_spec in Hw as [[Hu Hne]|(w & path & content & porting & Hm & Hc & Hnone & Hwr & ->)].
  - left. split; [by etrans|done].
  - right. exists start, mig, migs, w, path, content, porting. split_and!; try done.
    + destruct Hs as (<- & _). done.
    + by eapply unwritten_written.
Qed.
End squash.

(** ** What is selected *)

Lemma settled_plan l target plan :
  loader_wf l → settle (ForwardsPlan (ld_Graph l) target) = Ok plan → is_plan (edge (ld_Graph l)) target plan.
Proof.
  intros [Hwf Hac _ _] Hp. destruct (Has (ld_Graph l) target) eqn:Ht.
  - destruct (ForwardsPlan_spec _ target Hwf Hac Ht) as (plan' & Hf & Hplan). rewrite Hf in Hp. by injection Hp as <-.
  - unfold ForwardsPlan, plan_from in Hp. by rewrite Ht in Hp.
Qed.

(** The migrations of an app among those a migration stands on *)
Lemma in_plan_keys l app plan migs :
  loader_wf l → (∀ k mig, ld_DiskMigrations l !! k = Some mig → Migration_Key mig = k) →
  in_plan l app plan = Ok migs → map Migration_Key migs = filter (λ k, key_App k = app) plan.
Proof.
  intros Hl Hkey. revert migs. induction plan as [|k plan IH] using rev_ind; intros migs; [by intros [= <-]|].
  intros (ms & Hms & Hk)%foldM_snoc. apply IH in Hms. rewrite filter_app, <- Hms. unfold filter; simpl.
  case_bool_decide as Happ; [rewrite decide_True by done|rewrite decide_False by done; injection Hk as <-; by rewrite app_nil_r].
  unfold GetMigration in Hk. destruct k as [a n]. simpl in Hk.
  destruct (g_Nodes (ld_Graph l) !! mkKey a n) as [[mig|]|] eqn:Hn; simpl in Hk; [|done..]. injection Hk as <-.
  rewrite map_app. simpl. destruct (lw_nodes _ Hl _ _ Hn) as (mig' & [= <-] & Hd). by rewrite (Hkey _ _ Hd).
Qed.

Lemma from_start_split start migs migs' :
  from_start start migs = Some migs' →
  ∃ before, migs = before ++ migs' ∧ head (map Migration_Key migs') = Some start.
Proof.
  unfold from_start. destruct (index_func _ migs) as [i|] eqn:Hi; simpl; [|done]. intros [= <-].
  apply index_func_Some in Hi as (m & Hm & Hk & _). apply bool_decide_eq_true in Hk. exists (take i migs).
  rewrite take_drop. split; [done|]. by rewrite (drop_S _ _ _ Hm), <- Hk.
Qed.

(** Which migrations squashmigrations selects: those of the app that the
    named migration stands on, itself included, in the order of its plan, so
    every one after those it depends on; with a start, the part of that list
    that begins with it. *)
Theorem select_migrations_selects {W} `{Printer} (ctx : Context W) app startName name s start mig migs d :
  loadDisk (LoaderConfig (cx_Project ctx) false) = Ok d → sane_disk d →
  (select_migrations ctx app startName name s).2 = Ok (start, mig, migs) →
  ∃ l before plan,
    build (LoaderConfig (cx_Project ctx) false) d [] = Ok l ∧
    is_plan (edge (ld_Graph l)) (Migration_Key mig) plan ∧
    map Migration_Key (before ++ migs) = filter (λ k, key_App k = mig_App mig) plan ∧
    match start with
    | None => startName = "" ∧ before = []
    | Some st => startName ≠ "" ∧ head (map Migration_Key migs) = Some (Migration_Key st)
    end.
Proof.
  intros Hd Hsane. destruct (select_migrations _ _ _ _ s) as [s' r] eqn:Hs. simpl. intros ->.
  unfold select_migrations in Hs. apply io_bind_Ok in Hs as (s1 & l & Hl & Hs).
  assert (build (LoaderConfig (cx_Project ctx) false) d [] = Ok l) as Hb.
  { unfold checkMigratedApp in Hl. destruct (project_App _ app); [|done]. apply io_bind_Ok in Hl as (s2 & l' & Hl' & Hl).
    apply io_bind_Ok in Hs as _. revert Hl. case_bool_decide; [intros [= _ ->]|done].
    revert Hl'. unfold project_Loader, loader_New, on_database, zoom, BuildGraph. simpl. rewrite Hd.
    unfold mbind, io_bind, lift, mret, io_ret. by destruct (build _ _ _); intros [= _ ->]. }
  pose proof (build_spec (LoaderConfig (cx_Project ctx) false) d [] Hsane) as Hspec. rewrite Hb in Hspec.
  destruct Hspec as (Hwf & (Hdisk & _) & _).
  assert (∀ k mig, ld_DiskMigrations l !! k = Some mig → Migration_Key mig = k) as Hkey.
  { rewrite Hdisk. intros k m Hk. by apply (loadDisk_spec _ _ Hd). }
  apply io_bind_Ok in Hs as (s2 & mig' & Hf & Hs). apply io_bind_Ok in Hs as (s3 & fp & Hp & Hs).
  apply io_bind_Ok in Hs as (s4 & all & Hin & Hs). injection Hf as <- Hf. injection Hp as <- Hp. injection Hin as <- Hin.
  pose proof (in_plan_keys _ _ _ _ Hwf Hkey Hin) as Hkeys.
  apply (settled_plan _ _ _ Hwf) in Hp as Hplan.
  exists l. case_bool_decide as Hstart.
  - injection Hs as <- <- <- <-. exists [], fp. by split_and!.
  - apply io_bind_Ok in Hs as (s5 & st & Hst & Hs). injection Hst as <- Hst.
    destruct (from_start _ all) as [ms|] eqn:Hfrom; [|done]. injection Hs as <- <- <- <-.
    apply from_start_split in Hfrom as (before & -> & Hhead). exists before, fp. by split_and!.
Qed.

(** ** What the squashed migration does *)

Lemma run_state_app app ops1 ops2 s :
  run_state app (ops1 ++ ops2) s = (s1 ← run_state app ops1 s; run_state app ops2 s1).
Proof. unfold run_state. apply foldM_app. Qed.

(** The migrations one after the other *)
Definition mutate_all (migs : list Migration) (s : ProjectState) : outcome ProjectState :=
  foldM (λ s m, MutateState m s false) s migs.

Lemma mutate_all_operations app migs s :
  Forall (λ m, mig_App m = app) migs → mutate_all migs s = run_state app (squash_operations migs) s.
Proof.
  unfold mutate_all, squash_operations. intros Happ. revert s. induction Happ as [|m migs Hm _ IH]; intros s; [done|].
  simpl. rewrite run_state_app. unfold MutateState. rewrite Hm. destruct (run_state app (mig_Operations m) s); simpl; [apply IH|done..].
Qed.

(** C11: a squashed migration stands for those it replaces. Take migrations of
    an app whose operations, one migration after the other, are a history the
    optimizer is meant for, and any state it runs from. Then running the
    migrations one after the other and running the squashed migration both
    succeed, and the models of the two final states are the same up to the
    order of the fields inside a model. *)
Theorem squash_equivalent app owner o start mig migs s :
  mig_App mig = app → Forall (λ m, mig_App m = app) migs →
  well_formed_history app owner (squash_operations migs) s →
  ∃ s1 s2, mutate_all migs s = Ok s1 ∧ MutateState (squash_of app o start mig migs) s false = Ok s2 ∧
           models_equiv (ps_Models s1) (ps_Models s2).
Proof.
  intros Hmig Happ Hh. destruct (Optimize_spec _ _ _ _ Hh) as (s1 & s2 & H1 & H2 & He).
  rewrite (mutate_all_operations app) by done. unfold MutateState, squash_of. simpl. rewrite Hmig.
  destruct (so_noOptimize o); [exists s1, s1|exists s1, s2]; by split_and!.
Qed.

(** ** makemigrations --merge *)

(** The disk once a migration has been written *)
Definition add_migration (mig : Migration) (d : disk) : disk :=
  mkDisk (<[Migration_Key mig := mig]> (dk_migrations d)) (dk_unmigrated d) (dk_migrated d).

Section merge.
Context `{Printer} (o : makeMigrationsOptions) (app : string).

Lemma for_each_Ok {A B} (f : A → outcome B) l r : for_each f l = Ok r → Forall2 (λ x y, f x = Ok y) l r.
Proof.
  unfold for_each. revert r. induction l as [|x l IH] using rev_ind; intros r; [intros [= <-]; constructor|].
  intros (r0 & H0 & H1)%foldM_snoc. apply bind_Ok in H1 as (y & Hy & [= <-]). apply Forall2_app; [by apply IH|].
  by constructor.
Qed.

(** The branches have the names they were found by. *)
Lemma merge_branches_names l names merges :
  loader_wf l → (∀ k mig, ld_DiskMigrations l !! k = Some mig → Migration_Key mig = k) →
  merge_branches l app names = Ok merges → map (λ b, mkKey app (mig_Name (br_mig b))) merges = map (mkKey app) names.
Proof.
  intros Hl Hkey. unfold merge_branches. intros (bs & Hbs & Hops)%bind_Ok. case_bool_decide as Hcommon; [done|].
  apply for_each_Ok in Hbs, Hops.
  assert (map br_mig merges = map br_mig bs) as Hm.
  { clear Hbs. induction Hops as [|b b' bs1 bs' Hb _ IH]; [done|]. simpl. rewrite IH. f_equal.
    unfold branch_ops in Hb. by apply bind_Ok in Hb as (ops & _ & [= <-]). }
  trans (map (λ m, mkKey app (mig_Name m)) (map br_mig merges)); [by rewrite map_map|]. rewrite Hm, map_map. clear Hm Hops Hcommon.
  induction Hbs as [|name b names bs1 Hb _ IH]; [done|]. simpl. rewrite IH. f_equal.
  unfold branch_of in Hb. apply bind_Ok in Hb as (fp & _ & Hb). apply bind_Ok in Hb as (mig & Hmig & [= <-]). simpl.
  unfold GetMigration in Hmig. destruct (g_Nodes (ld_Graph l) !! mkKey app name) as [[m|]|] eqn:Hn; simpl in Hmig; [|done..].
  injection Hmig as ->. destruct (lw_nodes _ Hl _ _ Hn) as (m' & [= <-] & Hd). apply Hkey in Hd.
  unfold Migration_Key in Hd. by injection Hd as _ ->.
Qed.

(** Leaves by what the migrations declare *)
Lemma leaf_declared cfg d recorded l k :
  sane_disk d → plain_disk d → cfg_ReplaceMigrations cfg = false → build cfg d recorded = Ok l →
  leaf l k ↔ is_Some (dk_migrations d !! k) ∧ ∀ c, declared d k c → key_App c ≠ key_App k.
Proof.
  intros Hs Hp Hcfg Hl. destruct (build_declared_spec cfg d recorded Hs Hp Hcfg) as [_ He].
  pose proof (build_spec cfg d recorded Hs) as Hspec. rewrite Hl in Hspec. destruct Hspec as (Hwf & (Hd & _) & _ & _ & Hn).
  unfold leaf. setoid_rewrite (He l Hl). split; intros [Hk Hc]; (split; [|done]).
  - destruct Hk as [x Hx]. destruct (lw_nodes _ Hwf _ _ Hx) as (m & _ & Hm). rewrite Hd in Hm. eauto.
  - by apply Hn.
Qed.

Section added.
Context (mig : Migration) (d : disk).
Notation key := (Migration_Key mig).
Hypothesis (Hfresh : dk_migrations d !! key = None) (Hrun : mig_RunBefore mig = []).
Hypothesis (Hdeps : ∀ p, p ∈ mig_Dependencies mig → is_Some (dk_migrations d !! p)).
Hypothesis (Hclosed : ∀ p c, declared d p c → is_Some (dk_migrations d !! p) ∧ is_Some (dk_migrations d !! c)).

Lemma declared_added p c : declared (add_migration mig d) p c ↔ declared d p c ∨ (c = key ∧ p ∈ mig_Dependencies mig).
Proof.
  unfold declared. simpl. split.
  - intros [(m & Hm & Hp)|(m & Hm & Hc)]; apply lookup_insert_Some in Hm as [[<- <-]|[Hne Hm]]; [by right|left; eauto| |left; eauto].
    by rewrite Hrun in Hc; apply elem_of_nil in Hc.
  - intros [[(m & Hm & Hp)|(m & Hm & Hc)]|[-> Hp]]; [left|right|left].
    + exists m. split; [|done]. rewrite lookup_insert_ne; [done|]. intros <-. congruence.
    + exists m. split; [|done]. rewrite lookup_insert_ne; [done|]. intros <-. congruence.
    + exists mig. by rewrite lookup_insert_eq.
Qed.

Lemma key_no_dependency : key ∉ mig_Dependencies mig.
Proof. intros Hk. apply Hdeps in Hk as [m Hm]. congruence. Qed.

Lemma added_last c : ¬ declared (add_migration mig d) key c.
Proof. intros [[[m Hm] _]%Hclosed|[_ Hk]]%declared_added; [congruence|by apply key_no_dependency in Hk]. Qed.

Lemma added_closed p c : declared (add_migration mig d) p c →
  is_Some (dk_migrations (add_migration mig d) !! p) ∧ is_Some (dk_migrations (add_migration mig d) !! c).
Proof.
  simpl. rewrite !lookup_insert_is_Some'. intros [[Hp Hc]%Hclosed|[-> Hp%Hdeps]]%declared_added; tauto.
Qed.

Lemma added_acyclic : (∀ k, ¬ tc (declared d) k k) → ∀ k, ¬ tc (declared (add_migration mig d)) k k.
Proof.
  intros Hac.
  assert (∀ p c, tc (declared (add_migration mig d)) p c → c ≠ key → tc (declared d) p c) as Hold.
  { induction 1 as [p c Hpc|p c c' Hpc Hcc IH]; intros Hne.
    - apply declared_added in Hpc as [?|[? _]]; [by apply tc_once|done].
    - apply declared_added in Hpc as [?|[-> _]]; [eapply tc_l; [done|by apply IH]|].
      exfalso. inversion Hcc as [? ? H1|? ? ? H1 _]; subst; by apply added_last in H1. }
  intros k Hk. destruct (decide (k = key)) as [->|Hne]; [|by eapply Hac, Hold].
  inversion Hk as [? ? H1|? ? ? H1 _]; subst; by apply added_last in H1.
Qed.

Lemma added_sane : sane_disk d → sane_disk (add_migration mig d).
Proof.
  intros [He Hs]. split; [done|]. simpl. intros k m [[<- <-]|[_ Hm]]%lookup_insert_Some; [|by apply Hs].
  rewrite Hrun. split; [apply key_no_dependency|apply not_elem_of_nil].
Qed.

Lemma added_plain :
  (∀ x, x ∈ mig_Dependencies mig → is_special (key_Name x) = false) → plain_disk d → plain_disk (add_migration mig d).
Proof.
  intros Hx Hp k m x. simpl. intros [[<- <-]|[_ Hm]]%lookup_insert_Some; [|by apply (Hp k m x)].
  rewrite Hrun, app_nil_r. apply Hx.
Qed.

Lemma added_leaf l l' :
  (∀ p, p ∈ mig_Dependencies mig ↔ key_App p = mig_App mig ∧ leaf l p) →
  (∀ k, leaf l k ↔ is_Some (dk_migrations d !! k) ∧ ∀ c, declared d k c → key_App c ≠ key_App k) →
  (∀ k, leaf l' k ↔ is_Some (dk_migrations (add_migration mig d) !! k) ∧
                     ∀ c, declared (add_migration mig d) k c → key_App c ≠ key_App k) →
  ∀ k, leaf l' k ↔ (leaf l k ∧ key_App k ≠ mig_App mig) ∨ k = key.
Proof.
  intros Hd Hl Hl' k. rewrite Hl'. simpl. rewrite lookup_insert_is_Some'. split.
  - intros [Hk Hc]. destruct (decide (k = key)) as [->|Hne]; [by right|left]. destruct Hk as [<-|Hk]; [done|].
    assert (leaf l k) as Hlk by (apply Hl; split; [done|]; intros c ?; apply Hc, declared_added; by left).
    split; [done|]. intros Happ. refine (Hc key _ (eq_sym Happ)). apply declared_added. right. split; [done|]. by apply Hd.
  - intros [[Hlk Hne]| ->].
    + split; [right; by apply Hl|]. intros c [Hc|[_ [? _]%Hd]]%declared_added; [|done]. revert c Hc. by apply Hl.
    + split; [by left|]. by intros c ?%added_last.
Qed.
End added.

(** What is known of the conflicts of a loader *)
Definition conflicts_of (l : Loader) (conflicts : gmap string (list string)) : Prop := ∀ app,
  match conflicts !! app with
  | Some names => 1 < length names ∧ NoDup names ∧ Sorted str_le names ∧ ∀ name, name ∈ names ↔ leaf l (mkKey app name)
  | None => ∀ name1 name2, leaf l (mkKey app name1) → leaf l (mkKey app name2) → name1 = name2
  end.

Lemma two_names (names : list string) : 1 < length names → NoDup names → (∀ x y, x ∈ names → y ∈ names → x = y) → False.
Proof.
  destruct names as [|x [|y names]]; simpl; [lia..|]. intros _ [Hx _]%NoDup_cons Heq. apply Hx.
  rewrite (Heq x y) by set_solver. by left.
Qed.

Lemma sorted_names_unique (l1 l2 : list string) :
  NoDup l1 → NoDup l2 → Sorted str_le l1 → Sorted str_le l2 → (∀ x, x ∈ l1 ↔ x ∈ l2) → l1 = l2.
Proof. intros ?? H1 H2 Hx. apply (Sorted_unique str_le l1 l2 H1 H2). by apply NoDup_Permutation. Qed.

Lemma conflicts_agree l l' name conflicts conflicts' :
  conflicts_of l conflicts → conflicts_of l' conflicts' →
  (∀ k, leaf l' k ↔ (leaf l k ∧ key_App k ≠ app) ∨ k = mkKey app name) → conflicts' = delete app conflicts.
Proof.
  intros Hc Hc' Hleaf. apply map_eq. intros a. specialize (Hc a). specialize (Hc' a).
  destruct (decide (a = app)) as [->|Hne]; [rewrite lookup_delete_eq|rewrite lookup_delete_ne by done].
  - destruct (conflicts' !! app) as [ns|]; [|done]. destruct Hc' as (Hlen & Hnd & _ & Hin). exfalso.
    apply (two_names ns Hlen Hnd). intros x y. rewrite !Hin, !Hleaf. simpl. naive_solver.
  - assert (∀ n, leaf l' (mkKey a n) ↔ leaf l (mkKey a n)) as Hsame by (intros n; rewrite Hleaf; simpl; naive_solver).
    destruct (conflicts !! a) as [ns|], (conflicts' !! a) as [ns'|]; [| | |done].
    + destruct Hc as (_ & Hnd & Hs & Hin), Hc' as (_ & Hnd' & Hs' & Hin'). f_equal. apply sorted_names_unique; try done.
      intros x. by rewrite Hin, Hin', Hsame.
    + destruct Hc as (Hlen & Hnd & _ & Hin). exfalso. apply (two_names ns Hlen Hnd). intros x y. rewrite !Hin, <- !Hsame. apply Hc'.
    + destruct Hc' as (Hlen & Hnd & _ & Hin). exfalso. apply (two_names ns' Hlen Hnd). intros x y. rewrite !Hin, !Hsame. apply Hc.
Qed.


(** C13: --merge takes a conflict away and makes none. Take a project on disk
    that a loader is built from, without squashed migrations and without
    dependencies on first or latest ones, and an app with a conflict. With
    the merge migration of its branches on disk too, unless its name was
    taken, a loader is built again, and in it the app has no conflict, while
    the conflicts of every other app are what they were. *)
Theorem merge_resolves cfg d recorded l conflicts names merges :
  loadDisk cfg = Ok d → sane_disk d → plain_disk d → cfg_ReplaceMigrations cfg = false →
  build cfg d recorded = Ok l → DetectConflicts l = Ok conflicts → conflicts !! app = Some names →
  (∀ n, n ∈ names → is_special n = false) →
  merge_branches l app names = Ok merges →
  dk_migrations d !! Migration_Key (merge_migration o app merges) = None →
  ∃ l' conflicts', build cfg (add_migration (merge_migration o app merges) d) recorded = Ok l' ∧
    DetectConflicts l' = Ok conflicts' ∧ conflicts' = delete app conflicts.
Proof.
  intros Hload Hs Hp Hcfg Hl Hconf Happ Hspecial Hm Hfresh. set (mig := merge_migration o app merges) in *.
  pose proof (build_spec cfg d recorded Hs) as Hspec. rewrite Hl in Hspec. destruct Hspec as (Hwf & (Hd & _) & _ & _ & Hn).
  assert (∀ k m, ld_DiskMigrations l !! k = Some m → Migration_Key m = k) as Hkey.
  { rewrite Hd. intros k m Hk. by apply (loadDisk_spec _ _ Hload). }
  assert (mig_Dependencies mig = map (mkKey app) names) as Hdep by exact (merge_branches_names l names merges Hwf Hkey Hm).
  destruct (DetectConflicts_correct l Hwf) as (c0 & Hc0 & Hspec). rewrite Hconf in Hc0. injection Hc0 as <-.
  pose proof (Hspec app) as Hnames. rewrite Happ in Hnames. destruct Hnames as (Hlen & Hnd & Hsort & Hin).
  pose proof (λ k, leaf_declared cfg d recorded l k Hs Hp Hcfg Hl) as Hleaf.
  assert (∀ p, p ∈ mig_Dependencies mig ↔ key_App p = app ∧ leaf l p) as Hdeps.
  { intros [a n]. rewrite Hdep, list_elem_of_fmap. simpl. split.
    - intros (x & [= -> ->] & Hx). by rewrite <- Hin.
    - intros [-> Hx]. exists n. by rewrite Hin. }
  assert (∀ p, p ∈ mig_Dependencies mig → is_Some (dk_migrations d !! p)) as Hlive.
  { intros p [_ Hx]%Hdeps. by apply Hleaf in Hx as [? _]. }
  destruct (build_declared_spec cfg d recorded Hs Hp Hcfg) as [[_ Hok] _].
  destruct Hok as [Hclosed Hac]; [by rewrite Hl|].
  assert (sane_disk (add_migration mig d)) as Hs' by by apply added_sane.
  assert (plain_disk (add_migration mig d)) as Hp'.
  { apply added_plain; [done| |done]. intros x. rewrite Hdep, list_elem_of_fmap. intros (n & -> & Hx). by apply Hspecial. }
  destruct (build_declared_spec cfg (add_migration mig d) recorded Hs' Hp' Hcfg) as [[Hok _] _].
  destruct (build cfg (add_migration mig d) recorded) as [l'|e|e] eqn:Hl'.
  2,3: discriminate Hok; split; [by apply added_closed|by apply added_acyclic].
  clear Hok. exists l'.
  pose proof (build_spec cfg _ recorded Hs') as Hwf'. rewrite Hl' in Hwf'. destruct Hwf' as (Hwf' & _).
  destruct (DetectConflicts_correct l' Hwf') as (conflicts' & Hc' & Hspec'). exists conflicts'. split_and!; [done|done|].
  apply (conflicts_agree l l' (mig_Name mig)); [done..|].
  apply (added_leaf mig d Hfresh eq_refl Hlive Hclosed); [exact Hdeps|exact Hleaf|].
  intros k. by apply (leaf_declared cfg _ recorded).
Qed.
End merge.

(** ** showmigrations *)

Definition of_app (app : string) (k : Key) : bool := bool_decide (key_App k = app).

Lemma show_fold app fp shown :
  fold_left (fun shown k => if bool_decide (key_App k = app) then addDep shown k else shown) fp shown =
  fold_left (extend_plan (of_app app)) fp shown.
Proof.
  revert shown. induction fp as [|k fp IH]; intros shown; [done|]. simpl. rewrite IH. f_equal.
  unfold extend_plan, of_app, addDep. by repeat case_bool_decide.
Qed.

Section show.
Context (l : Loader) (app : string).
Hypothesis (Hl : loader_wf l).
Notation g := (ld_Graph l).

Lemma show_plan_spec shown leaf :
  Has g leaf = true → plan_inv g (of_app app) shown →
  ∃ shown', show_plan l app shown leaf = Ok shown' ∧ plan_inv g (of_app app) shown' ∧
    ∀ k, k ∈ shown' ↔ k ∈ shown ∨ (rtc (edge g) k leaf ∧ of_app app k = true).
Proof.
  intros Hleaf Hs. destruct Hl as [Hwf Hac _ _].
  destruct (ForwardsPlan_spec g leaf Hwf Hac Hleaf) as (fp & Hf & _ & Hin & Hord & _).
  unfold show_plan. rewrite Hf. eexists. split; [simpl; by rewrite show_fold|].
  destruct (extend_plan_spec g (of_app app) fp shown Hs) as [H1 H2].
  - intros p c i Hp _ Hi. left. by eapply Hord.
  - split; [done|]. intros k. by rewrite H2, Hin.
Qed.

Lemma show_plans_spec leaves : Forall (λ k, Has g k = true) leaves →
  ∃ keys, foldM (show_plan l app) [] leaves = Ok keys ∧ plan_inv g (of_app app) keys ∧
    ∀ k, k ∈ keys ↔ ∃ leaf, leaf ∈ leaves ∧ rtc (edge g) k leaf ∧ of_app app k = true.
Proof.
  induction leaves as [|leaf leaves IH] using rev_ind; intros Hh.
  { exists []. split_and!; [done| |set_solver]. split; [constructor|]. intros p c i _ _ Hi. by rewrite lookup_nil in Hi. }
  apply Forall_app in Hh as [Hh Hlast]. apply Forall_cons in Hlast as [Hlast _]. destruct (IH Hh) as (keys & Hk & Hinv & Hin).
  destruct (show_plan_spec keys leaf Hlast Hinv) as (keys' & Hk' & Hinv' & Hin'). exists keys'. split_and!; [|done|].
  - rewrite foldM_app, Hk. simpl. by rewrite Hk'.
  - intros k. rewrite Hin', Hin. setoid_rewrite elem_of_app. setoid_rewrite list_elem_of_singleton. naive_solver.
Qed.

(** Showmigrations lists an app completely and in order: every migration
    of the app that is in the graph, once, and no other, each after those of
    the app it depends on. *)
Theorem app_migrations_lists :
  app ≠ "" →
  ∃ keys, app_migrations l app = Ok keys ∧ NoDup keys ∧
    (∀ k, k ∈ keys ↔ key_App k = app ∧ is_Some (g_Nodes g !! k)) ∧
    (∀ p c i, edge g p c → key_App p = app → keys !! i = Some c → ∃ j, j < i ∧ keys !! j = Some p).
Proof.
  intros Happ. unfold app_migrations. destruct (LeafNodes_spec g app (lw_wf _ Hl)) as (leaves & -> & _ & Hleaves).
  cbn [mbind outcome_bind].
  destruct (show_plans_spec leaves) as (keys & Hk & [Hnd Hord] & Hin).
  { apply Forall_forall. intros k (Hk & _)%Hleaves. by apply Has_nodes. }
  exists keys. split_and!; [done|done| |].
  - intros k. rewrite Hin. split.
    + intros (leaf & (Hleaf & _)%Hleaves & Hr & Ha%bool_decide_eq_true). split; [done|]. apply (rtc_nodes g (lw_wf _ Hl) k leaf Hr). by right.
    + intros [<- Hn]. destruct (app_leaf g (lw_wf _ Hl) (lw_acyclic _ Hl) k Hn) as (x & Hx & Ha & Hc & Hr).
      exists x. split_and!; [|done|by apply bool_decide_eq_true]. apply Hleaves. split_and!; [done|by right|done].
  - intros p c i He Hp Hi. eapply Hord; [done| |done]. unfold of_app. by apply bool_decide_eq_true.
Qed.
End show.
