(* ===== verification/CommandExample.v ===== *)
(** * The commands at work

    The project of the other examples with its files, its database and a
    printer of migrations: the theorems on the commands apply to it, and the
    commands run on it. *)

From S2P Require Import Prelude GoStd Keys Errors Fields Index ModelState Apps ProjectState Operation SchemaEditor.
From S2P Require Import OptimizerSound OpDatabase Effects Respects Migration Graph GraphLemmas Filename Loader LoaderLemmas Recorder.
From S2P Require Import RecorderLemmas Executor Examples Witnesses ExampleDatabase Questioner AutoDeps AutoBuild Arrange.
From S2P Require Import Interactive Management Commands MakeMigrations MigrateCommand CommandTheorems MergeTheorems.

(** ** The project *)

(** A migration is printed as its name and the number of its operations. *)
#[local] Instance printer : Printer := {|
  AsString := fun w => Ok (mig_Name (wr_Migration w) +:+ " " +:+ itoa (Z.of_nat (length (mig_Operations (wr_Migration w)))), false);
  PackageNameOf := fun _ => "";
  PackageFile := fun pkg label => "package " +:+ pkg +:+ " " +:+ label;
  LinkFile := fun pkg paths => "package " +:+ pkg +:+ " " +:+ Join paths " ";
  FormattedDescription := Describe;
  MigrationNameTimestamp := "20240101_0000";
  Getwd := Some "/src";
|}.
#[local] Instance names : GoNames := {| IsIdentifier := word_go; IsKeyword := fun _ => false |}.
#[local] Instance checker : GoChecker := {|
  ParseExpr := fun s => if bool_decide (s = "(") then Some "1:2: expected operand" else None;
  ParseFile := fun _ => None;
  conf_Check := fun _ => (None, false);
|}.
#[local] Instance printing : Printing := {| fmt_Sprint := fun _ => "?" |}.

Definition no_style : Style := mkStyle Management.plain Management.plain Management.plain Management.plain Management.plain Management.plain Management.plain.

Notation plain := Examples.plain.

Definition database : Database db := mkDatabase db_conn "BEGIN;" "COMMIT;" true.

(** The state of the models: what the migrations make, and a field more *)
Definition current : outcome ProjectState :=
  st ← run_state "blog" [create_author; add_name; widen_name; AddField "Author" "age" (int_field false) None] NewProjectState;
  StateForwards create_order "shop" st.

Definition project (ms : list Migration) : Project db := {|
  pj_Apps := [mkApp "blog" "/src/blog/migrations" "x/blog/migrations" false; mkApp "shop" "/src/shop/migrations" "x/shop/migrations" false];
  pj_Databases := {["default" := Ok database]};
  pj_Routers := false;
  pj_Command := "";
  pj_CommandDir := "";
  pj_CommandPackage := "";
  pj_Models := fun app => if bool_decide (app = "blog") then ["Author"] else ["Order"];
  pj_CurrentState := current;
  pj_Registered := registered_in ms;
  pj_Compiled := fun _ => true;
  pj_ReadDir := fun _ => Ok None;
|}.
Definition context (ms : list Migration) (verbosity : Z) : Context db := mkContext (project ms) no_style "gormgate" verbosity.

Lemma project_reads ms : reads_only (project ms).
Proof.
  intros alias c. simpl. intros [_ [= <-]]%lookup_singleton_Some. split; [by intros w|].
  intros sql w. simpl. unfold query. by repeat case_match.
Qed.

Definition stream : Stream := mkStream "" false None.
Definition shell (input : string) (recorded : list Key) : Shell db :=
  mkShell stream stream input {["/src/blog/migrations/migrations.go" := "package migrations"]}
    {["/src/blog/migrations"; "/src/shop/migrations"]} (db_with recorded []).

(** What has become of the files and of the standard output *)
Definition files_of {A} (r : Shell db * A) : list (string * string) := map_to_list (sh_files r.1).
Definition output_of {A} (r : Shell db * A) : string := st_out (sh_Stdout r.1).

Definition options (dry check merge interactive : bool) : makeMigrationsOptions :=
  mkMakeMigrationsOptions [] dry merge false interactive "" true check false false.

(** ** makemigrations *)

(** A wrong expression, then a right one, then text nobody asks for *)
Definition typed : string := "1" +:+ line_feed +:+ "(" +:+ line_feed +:+ "42" +:+ line_feed +:+ "rest".

(** The new field gets its migration, after the prompt has been answered; the
    input that was not asked for is still there. *)
Example field_added :
  let r := run (context plain 1) (options false false false true) Describe (shell typed []) in
  sh_files r.1 !! "/src/blog/migrations/0004_author_age.go" = Some "0004_author_age 1" ∧ sh_Stdin r.1 = "rest" ∧ r.2 = Ok tt.
Proof. vm_compute. done. Qed.

(** With --check the same changes are an exit status of 1. *)
Example field_missing :
  (run (context plain 1) (options false true false true) Describe (shell typed [])).2 =
  Err (SilentError 1 "changes are missing a migration").
Proof. vm_compute. done. Qed.

Lemma makemigrations_dry_run_witness :
  unwritten (shell typed []) (run (context plain 3) (options false true false true) Describe (shell typed [])).1.
Proof. exact (makemigrations_dry_run (context plain 3) (options false true false true) Describe (project_reads plain) eq_refl _). Defined.

(** ** migrate *)

(** Progress is written to the log of the database. *)
Definition emit (text : string) (w : db) : db := db_set_log (db_log w ++ [text]) w.
Definition migrate_example (o : migrateOptions) (s : Shell db) : Shell db * outcome unit :=
  migrate (context plain 1) o "default" Describe emit "" (fun _ _ _ => []) s.
Definition recorded_in {A} (r : Shell db * A) : option (list Key) := rows (sh_db r.1).

Definition first : Key := Dep "blog" "0001_initial".
Definition gone : Key := Dep "blog" "0000_gone".

Example migrated :
  let r := migrate_example (mkMigrateOptions_ "" "" false false false false false false) (shell "" [first]) in
  recorded_in r = Some [first; Dep "blog" "0002_name"; Dep "blog" "0003_widen"; Dep "shop" "0001_initial"] ∧ r.2 = Ok tt.
Proof. vm_compute. done. Qed.

Lemma migrate_plan_reads_witness :
  unwritten (shell "" [first]) (migrate_example (mkMigrateOptions_ "" "" false false true false true false) (shell "" [first])).1.
Proof.
  exact (migrate_plan_reads (context plain 1) (mkMigrateOptions_ "" "" false false true false true false) "default" Describe emit ""
           (fun _ _ _ => []) (project_reads plain) eq_refl eq_refl (shell "" [first])).
Defined.

(** --check is said to change nothing; with --prune it forgets first. *)
Example check_prunes :
  let r := migrate_example (mkMigrateOptions_ "blog" "" false false false false true true) (shell "" [first; gone]) in
  recorded_in r = Some [first] ∧ r.2 = Err (SilentError 1 "there are unapplied migrations").
Proof. vm_compute. done. Qed.

(** The SQL of an operation is printed as fmt prints the type it is of, with
    the brackets of a slice. *)
Example statements_in_brackets : pythonSQLText (Statements ["SELECT 1"]) = "[SELECT 1]".
Proof. vm_compute. done. Qed.

(** ** squashmigrations *)

Definition squash_options : squashOptions := mkSquashOptions true false "" true.
(** An answer that is not one, then yes *)
Definition consent : string := "maybe" +:+ line_feed +:+ "y" +:+ line_feed.
Definition squash_example : Shell db * outcome unit :=
  squashMigrations (context plain 1) "blog" "" "0002" squash_options (shell consent []).

Example squash_written :
  sh_files squash_example.1 !! "/src/blog/migrations/0001_squashed_0002_name.go" = Some "0001_squashed_0002_name 1" ∧
  squash_example.2 = Ok tt.
Proof. vm_compute. done. Qed.

Lemma squashMigrations_writes_witness :
  (unwritten (shell consent []) squash_example.1 ∧ (squash_example.2 = Ok tt → so_interactive squash_options = true)) ∨
  (∃ start mig migs w path content porting,
     (select_migrations (context plain 1) "blog" "" "0002" (shell consent [])).2 = Ok (start, mig, migs) ∧
     wr_Migration w = squash_of "blog" squash_options start mig migs ∧ AsString w = Ok (content, porting) ∧
     sh_files (shell consent []) !! path = None ∧ written path content (shell consent []) squash_example.1 ∧
     squash_example.2 = Ok tt).
Proof.
  exact (squashMigrations_writes (context plain 1) "blog" "" "0002" squash_options (shell consent []) squash_example.1 squash_example.2
           (surjective_pairing squash_example)).
Defined.

Definition project_disk : disk :=
  match loadDisk (LoaderConfig (project plain) false) with Ok d => d | _ => mkDisk ∅ ∅ ∅ end.
Lemma project_loaded : loadDisk (LoaderConfig (project plain) false) = Ok project_disk.
Proof.
  unfold project_disk. destruct (ok_value (loadDisk (LoaderConfig (project plain) false))) as [d ->]; [vm_compute; reflexivity|done].
Qed.

Lemma select_migrations_selects_witness :
  ∃ l before plan,
    build (LoaderConfig (project plain) false) project_disk [] = Ok l ∧
    is_plan (edge (ld_Graph l)) (Dep "blog" "0002_name") plan ∧
    map Migration_Key (before ++ [blog2]) = filter (fun k => key_App k = "blog") plan ∧
    ("0002" ≠ "" ∧ head (map Migration_Key [blog2]) = Some (Migration_Key blog2)).
Proof.
  refine (select_migrations_selects (context plain 1) "blog" "0002" "0002" (shell "" []) (Some blog2) blog2 [blog2] project_disk
            project_loaded _ _).
  - apply sane_by_decision. vm_compute. reflexivity.
  - vm_compute. reflexivity.
Defined.

Definition blog_author : ModelKey := Examples.author.

Lemma squash_equivalent_witness :
  ∃ s1 s2, mutate_all [blog1; blog2; blog3] NewProjectState = Ok s1 ∧
    MutateState (squash_of "blog" squash_options None blog3 [blog1; blog2; blog3]) NewProjectState false = Ok s2 ∧
    models_equiv (ps_Models s1) (ps_Models s2).
Proof.
  refine (squash_equivalent "blog" (fun _ => author) squash_options None blog3 [blog1; blog2; blog3] NewProjectState eq_refl _ blog_history).
  repeat constructor.
Defined.

(** ** makemigrations --merge *)

(** Two migrations that follow the same one *)
Definition fork : list Migration :=
  [blog1; blog2; blog3; migration "blog" "0003_other" [Dep "blog" "0002_name"] [] []; shop1].
Definition fork_branches : list branch :=
  match merge_branches (loader fork false []) "blog" ["0003_other"; "0003_widen"] with Ok bs => bs | _ => [] end.

Example fork_merged :
  let r := run (context fork 1) (options false false true true) Describe (shell ("y" +:+ line_feed) []) in
  sh_files r.1 !! "/src/blog/migrations/0004_merge_0003_other_0003_widen.go" = Some "0004_merge_0003_other_0003_widen 0" ∧
  r.2 = Ok tt.
Proof. vm_compute. done. Qed.

Lemma fork_plain : plain_disk (disk_of fork).
Proof.
  assert (plain_migrations (dk_migrations (disk_of fork))) as Hp.
  { unfold plain_migrations. apply (bool_decide_unpack _). vm_compute. exact I. }
  intros k mig x Hk Hx. exact (proj1 (Forall_forall _ _) (Hp k mig Hk) x Hx).
Qed.
Lemma fork_sane : sane_disk (disk_of fork).
Proof. apply sane_by_decision. vm_compute. reflexivity. Qed.
Lemma fork_loaded : loadDisk (config fork false) = Ok (disk_of fork).
Proof. unfold disk_of. destruct (ok_value (loadDisk (config fork false))) as [d ->]; [vm_compute; reflexivity|done]. Qed.

Lemma merge_resolves_witness :
  let merged := merge_migration (options false false true true) "blog" fork_branches in
  ∃ l' conflicts', build (config fork false) (add_migration merged (disk_of fork)) [] = Ok l' ∧
    DetectConflicts l' = Ok conflicts' ∧ conflicts' = delete "blog" {["blog" := ["0003_other"; "0003_widen"]]}.
Proof.
  refine (merge_resolves (options false false true true) "blog" (config fork false) (disk_of fork) [] (loader fork false [])
            {["blog" := ["0003_other"; "0003_widen"]]} ["0003_other"; "0003_widen"] fork_branches
            fork_loaded fork_sane fork_plain eq_refl _ _ _ _ _ _).
  - apply (loader_ok (disk_of fork)); [apply fork_sane|reflexivity|vm_compute; reflexivity].
  - vm_compute. reflexivity.
  - vm_compute. reflexivity.
  - apply (proj1 (Forall_forall _ _)). repeat constructor.
  - vm_compute. reflexivity.
  - vm_compute. reflexivity.
Defined.

(** ** showmigrations *)

Lemma app_migrations_lists_witness :
  ∃ keys, app_migrations (loader plain false []) "blog" = Ok keys ∧ NoDup keys ∧
    (∀ k, k ∈ keys ↔ key_App k = "blog" ∧ is_Some (g_Nodes (ld_Graph (loader plain false [])) !! k)) ∧
    (∀ p c i, edge (ld_Graph (loader plain false [])) p c → key_App p = "blog" → keys !! i = Some c → ∃ j, j < i ∧ keys !! j = Some p).
Proof. refine (app_migrations_lists (loader plain false []) "blog" plain_wf _). discriminate. Defined.

(** ** What the commands and the prompts do at the edges *)

(** --update cuts the name of the last migration after four bytes, whether or
    not it has them. *)
Example short_name_panics :
  updated_name (options false false false false) (migration "blog" "one" [] [] []) =
  Panic (PlainError "runtime error: slice bounds out of range").
Proof. vm_compute. done. Qed.

(** The merge of a squashed branch has the number of the branch after the
    word squashed, and the migration after it a smaller number than its own. *)
Example merge_goes_back :
  ParseNumber "0004_merge_0003_squashed_0002_other_0003_widen" = Some 2%Z ∧ ParseNumber "0004_merge_0003_other_0003_widen" = Some 4%Z.
Proof. vm_compute. done. Qed.

(** The input ends at a choice: the prompt says so, and the error that is
    reported says it again. At a question of yes or no the error is another. *)
Example cancelled_twice :
  (choiceInput "?" ["a"; "b"] (mkConsole "" "")).2 = Err ErrQuit ∧
  st_out (sh_Stderr (Report "gormgate" (Some ErrQuit) (shell "" [])).1) = "gormgate: cancelled" +:+ line_feed.
Proof. vm_compute. done. Qed.
Example end_of_input : (booleanInput "?" None (mkConsole "" "")).2 = Err errEndOfInput.
Proof. vm_compute. done. Qed.
