(* ===== verification/Literals.v ===== *)
(** * SQL literals: backends/base/literals.go, and the Ops of each backend

    Values of types that [any] keeps apart only by their name (floats, times,
    byte slices and Stringers) are formatted by the class [Formatting], which
    is strconv, time and fmt. *)

From S2P Require Import Prelude GoStd Errors Fields Names EditorSQL SplitSQL.

(** strings.ReplaceAll of one byte *)
Fixpoint replace_byte (c : ascii) (by_ s : string) : string :=
  match s with
  | EmptyString => ""
  | String d s' => (if bool_decide (d = c) then by_ else String d "") +:+ replace_byte c by_ s'
  end.

(** A text between two copies of a quote, which is doubled inside *)
Definition quote_with (c : ascii) (s : string) : string :=
  String c (replace_byte c (String c (String c "")) s +:+ String c "").

(** QuoteString *)
Definition QuoteString (s : string) : string := quote_with squote s.

(** What the standard library makes of a value, known by its text *)
Class Formatting := {
  is_NaN_or_Inf : string → bool;
  FormatFloat : string → ascii → Z → string;
  time_Format : string → string → string;
  time_IsZero : string → bool;
  bytes_of : string → string;
  (** unicode.IsPrint of every rune *)
  IsPrint : string → bool;
  (** The String method of a type that has one *)
  Stringer : string → string → option string;
  (** %v and %T *)
  print_value : option any → string;
  print_type : option any → string;
}.

Record QuoteValueOptions := mkQuoteValueOptions {
  qo_True : string;
  qo_False : string;
  qo_TimeFormat : string;
  qo_Bytes : option (string → string);
}.

Record GormLiteralOptions := mkGormLiteralOptions {
  go_Escaper : string;
  go_True : string;
  go_False : string;
  go_Bytes : option (string → string);
}.

(** hex.EncodeToString *)
Definition EncodeToString (bytes : string) : string := hex_encode (string_bytes bytes).

(** goExprError *)
Definition goExprError (source : string) : error :=
  PlainError ("gormgate: the default " +:+ source +:+
    " can only be applied by a compiled migration: run makemigrations, then migrate").

(** The types the type switches name *)
Inductive other_type := TNilGoExpr | TFloat32 | TFloat64 | TTime | TBytes | TOther.
Definition type_case (typ : string) : other_type :=
  if bool_decide (typ = "*migrations.GoExpr") then TNilGoExpr
  else if bool_decide (typ = "float32") then TFloat32
  else if bool_decide (typ = "float64") then TFloat64
  else if bool_decide (typ = "time.Time") then TTime
  else if bool_decide (typ = "[]uint8") then TBytes
  else TOther.

Section literals.
Context `{Formatting}.

(** formatFloat *)
Definition formatFloat (f : string) (bits : Z) : outcome string :=
  if is_NaN_or_Inf f then Err (PlainError ("gormgate: cannot quote " +:+ f)) else Ok (FormatFloat f "g" bits).

Definition cannot_quote (v : option any) : error :=
  PlainError ("gormgate: cannot quote value " +:+ print_value v +:+ " of type " +:+ print_type v).

(** StandardQuoteValue; AnyInt is every integer type. *)
Definition StandardQuoteValue (v : option any) (o : QuoteValueOptions) : outcome string :=
  match v with
  | None => Ok "NULL"
  | Some (AnyGoExpr src) => Err (goExprError src)
  | Some (AnyString x) => Ok (QuoteString x)
  | Some (AnyBool x) => Ok (if x then qo_True o else qo_False o)
  | Some (AnyInt x) => Ok (itoa x)
  | Some (AnyOther typ x) =>
      match type_case typ with
      | TNilGoExpr => Panic nil_dereference
      | TFloat32 => formatFloat x 32
      | TFloat64 => formatFloat x 64
      | TTime => Ok (QuoteString (time_Format x (qo_TimeFormat o)))
      | TBytes =>
          Ok (match qo_Bytes o with
              | Some render => render (bytes_of x)
              | None => "X'" +:+ EncodeToString (bytes_of x) +:+ "'"
              end)
      | TOther =>
          match Stringer typ x with Some s => Ok (QuoteString s) | None => Err (cannot_quote v) end
      end
  | Some _ => Err (cannot_quote v)
  end.

Definition gormTimeFormat : string := "2006-01-02 15:04:05.999".
Definition gormZeroTime : string := "0000-00-00 00:00:00".

(** The escaper is one byte in every backend; the closure quote. *)
Fixpoint replace_text (s old new : string) (fuel : nat) : string :=
  match fuel with
  | O => s
  | S fuel =>
      match cut_string s old with
      | Some (a, b) => a +:+ new +:+ replace_text b old new fuel
      | None => s
      end
  end.
Definition gorm_quote (o : GormLiteralOptions) (s : string) : string :=
  let e := go_Escaper o in e +:+ replace_text s e (e +:+ e) (String.length s) +:+ e.

Definition cannot_render (v : option any) : error :=
  PlainError ("gormgate: cannot render default value " +:+ print_value v +:+ " of type " +:+ print_type v).

(** GormLiteral *)
Definition GormLiteral (v : option any) (o : GormLiteralOptions) : outcome string :=
  match v with
  | None => Ok "NULL"
  | Some (AnyGoExpr src) => Err (goExprError src)
  | Some (AnyBool x) =>
      Ok (if negb (bool_decide (go_True o = "")) || negb (bool_decide (go_False o = ""))
          then if x then go_True o else go_False o
          else if x then "true" else "false")
  | Some (AnyString x) => Ok (gorm_quote o x)
  | Some (AnyInt x) => Ok (itoa x)
  | Some (AnyOther typ x) =>
      match type_case typ with
      | TNilGoExpr => Panic nil_dereference
      | TBytes =>
          Ok (match go_Bytes o with
              | Some render => render (bytes_of x)
              | None => gorm_quote o (if IsPrint (bytes_of x) then bytes_of x else "<binary>")
              end)
      | TTime => Ok (gorm_quote o (if time_IsZero x then gormZeroTime else time_Format x gormTimeFormat))
      | TFloat32 => Ok (FormatFloat x "f" 32)
      | TFloat64 => Ok (FormatFloat x "f" 64)
      | TOther =>
          match Stringer typ x with Some s => Ok (gorm_quote o s) | None => Err (cannot_render v) end
      end
  | Some _ => Err (cannot_render v)
  end.

(** ** Ops: the names, literals and scripts of each backend *)

Record Ops := mkOps {
  op_QuoteName : string → string;
  op_QuoteValue : option any → outcome string;
  op_PrepareSQLScript : string → list string;
  op_StartTransactionSQL : string;
  op_EndTransactionSQL : string;
}.

Fixpoint last_byte (s : string) : option ascii :=
  match s with
  | EmptyString => None
  | String c EmptyString => Some c
  | String _ s' => last_byte s'
  end.

(** strings.HasPrefix and strings.HasSuffix of one quote: a name of one byte
    has both. *)
Definition between (c : ascii) (name : string) : bool :=
  match name with String d _ => bool_decide (d = c) | EmptyString => false end && bool_decide (last_byte name = Some c).

(** Ops.QuoteName of sqlite3 and postgresql; mysql, clickhouse and oracle ask
    for two bytes at least. *)
Definition quote_name (c : ascii) (name : string) : string := if between c name then name else quote_with c name.
Definition quote_name_2 (c : ascii) (name : string) : string :=
  if (2 <=? String.length name) && between c name then name else quote_with c name.

Definition sqlite_QuoteName : string → string := quote_name dquote.
Definition postgres_QuoteName : string → string := quote_name dquote.
Definition mysql_QuoteName : string → string := quote_name_2 backtick.
Definition clickhouse_QuoteName : string → string := quote_name_2 backtick.
Definition oracle_QuoteName : string → string := quote_name_2 dquote.

(** mssql: a dot separates the parts of a name. *)
Definition mssql_QuoteName (name : string) : string :=
  if between dquote name then name
  else String dquote (Join (map (replace_byte dquote (String dquote (String dquote ""))) (split_byte dot name))
                        (String dquote (String dot (String dquote ""))) +:+ String dquote "").

Definition sqlite_options : SplitOptions := mkSplitOptions false true false.
Definition postgres_options : SplitOptions := mkSplitOptions false false true.
Definition mysql_options : SplitOptions := mkSplitOptions true true false.
Definition clickhouse_options : SplitOptions := mkSplitOptions true true false.
Definition oracle_options : SplitOptions := mkSplitOptions false false false.

Definition micro_format : string := "2006-01-02 15:04:05.999999".

Definition sqlite_QuoteValue (v : option any) : outcome string :=
  StandardQuoteValue v (mkQuoteValueOptions "1" "0" micro_format None).

Definition postgres_bytea (b : string) : string :=
  "'" +:+ String backslash "x" +:+ EncodeToString b +:+ "'::bytea".
Definition postgres_QuoteValue (v : option any) : outcome string :=
  StandardQuoteValue v (mkQuoteValueOptions "true" "false" "2006-01-02 15:04:05.999999999-07:00" (Some postgres_bytea)).

Definition clickhouse_QuoteValue (v : option any) : outcome string :=
  StandardQuoteValue v (mkQuoteValueOptions "true" "false" "2006-01-02 15:04:05.999" (Some QuoteString)).

Definition oracle_QuoteValue (v : option any) : outcome string :=
  match v with
  | Some (AnyBool x) => Ok (if x then "1" else "0")
  | Some (AnyOther typ x) =>
      match type_case typ with
      | TTime => Ok (QuoteString (time_Format x micro_format))
      | TBytes => Ok (QuoteString (EncodeToString (bytes_of x)))
      | _ => StandardQuoteValue v (mkQuoteValueOptions "1" "0" micro_format None)
      end
  | _ => StandardQuoteValue v (mkQuoteValueOptions "1" "0" micro_format None)
  end.

(** mssql *)
Definition mssql_time_format : string := "2006-01-02 15:04:05.9999999 -07:00".
Definition hexLiteral (b : string) : string := "0x" +:+ EncodeToString b.
Definition mssql_standard (v : option any) : outcome string :=
  StandardQuoteValue v (mkQuoteValueOptions "1" "0" mssql_time_format (Some hexLiteral)).
Definition mssql_QuoteValue (v : option any) : outcome string :=
  match v with
  | Some (AnyString x) => Ok ("N" +:+ QuoteString x)
  | Some (AnyOther typ x) =>
      match type_case typ with
      | TTime => Ok (QuoteString (time_Format x mssql_time_format))
      | _ => mssql_standard v
      end
  | _ => mssql_standard v
  end.

(** mysql: stringEscaper and QuoteString *)
Definition escape_byte (c : ascii) : string :=
  let n := N_of_ascii c in
  if bool_decide (c = backslash ∨ c = squote ∨ c = dquote) then String backslash (String c "")
  else if bool_decide (n = 0%N) then String backslash "0"
  else if bool_decide (n = 10%N) then String backslash "n"
  else if bool_decide (n = 13%N) then String backslash "r"
  else if bool_decide (n = 26%N) then String backslash "Z"
  else String c "".
Fixpoint stringEscaper (s : string) : string :=
  match s with EmptyString => "" | String c s' => escape_byte c +:+ stringEscaper s' end.
Definition mysql_QuoteString (s : string) : string := String squote (stringEscaper s +:+ String squote "").

Definition mysql_standard (v : option any) : outcome string :=
  StandardQuoteValue v (mkQuoteValueOptions "1" "0" micro_format None).
Definition mysql_QuoteValue (v : option any) : outcome string :=
  match v with
  | Some (AnyString x) => Ok (mysql_QuoteString x)
  | Some (AnyOther typ x) =>
      match type_case typ with
      | TTime => Ok (mysql_QuoteString (time_Format x micro_format))
      | TOther => match Stringer typ x with Some s => Ok (mysql_QuoteString s) | None => mysql_standard v end
      | _ => mysql_standard v
      end
  | _ => mysql_standard v
  end.

Definition mssql_PrepareSQLScript (script : string) : list string :=
  if bool_decide (TrimSpace script = "") then [] else [script].

Definition sqlite_Ops : Ops :=
  mkOps sqlite_QuoteName sqlite_QuoteValue (fun s => SplitSQL s sqlite_options) "BEGIN;" "COMMIT;".
Definition postgres_Ops : Ops :=
  mkOps postgres_QuoteName postgres_QuoteValue (fun s => SplitSQL s postgres_options) "BEGIN;" "COMMIT;".
Definition mysql_Ops : Ops :=
  mkOps mysql_QuoteName mysql_QuoteValue (fun s => SplitSQL s mysql_options) "BEGIN;" "COMMIT;".
Definition oracle_Ops : Ops :=
  mkOps oracle_QuoteName oracle_QuoteValue (fun s => SplitSQL s oracle_options) "" "COMMIT;".
Definition clickhouse_Ops : Ops :=
  mkOps clickhouse_QuoteName clickhouse_QuoteValue (fun s => SplitSQL s clickhouse_options) "" "".
Definition mssql_Ops : Ops :=
  mkOps mssql_QuoteName mssql_QuoteValue mssql_PrepareSQLScript "BEGIN TRANSACTION;" "COMMIT;".
End literals.
