(* ===== verification/SplitTheorems.v ===== *)
(** * What SplitSQL gives

    A reference for the scan, as a relation between a script and the texts
    between its top-level semicolons; the loop computes it, it loses nothing,
    and each text stands on its own. Then the grammar of complete statements,
    which a script made of them is split into again. *)

From S2P Require Import Prelude GoStd Errors Fields Names EditorSQL SplitSQL Literals.

(** ** What each branch cuts off *)

(** [at_break s]: s is at its end or at a semicolon *)
Definition at_break (s : string) : Prop := s = "" ∨ ∃ s', s = String semicolon s'.

Lemma quoted_run_split c esc s : s = (quoted_run c esc s).1 +:+ (quoted_run c esc s).2.
Proof.
  revert s. fix IH 1. intros [|d s]; [done|]. cbn [quoted_run].
  destruct (bool_decide (d = c)).
  - destruct s as [|d' s]; [done|]. destruct (bool_decide (d' = c)); [|done].
    cbn [fst snd]. rewrite !str_app_cons. by rewrite <- IH.
  - destruct (bool_decide (d = backslash) && esc).
    + destruct s as [|d' s]; [done|]. cbn [fst snd]. rewrite !str_app_cons. by rewrite <- IH.
    + cbn [fst snd]. rewrite str_app_cons. by rewrite <- IH.
Qed.

Lemma span_all p s : forall d s', (span p s).2 = String d s' → p d = false.
Proof.
  induction s as [|e s IH]; intros d s'; cbn [span]; [done|].
  destruct (p e) eqn:Hp; cbn [snd]; [apply IH|]. by intros [= -> ->].
Qed.

Lemma block_comment_split s : s = (block_comment s).1 +:+ (block_comment s).2.
Proof.
  unfold block_comment. destruct (cut_string s "*/") as [[a b]|] eqn:Hc; cbn [fst snd].
  - rewrite str_app_assoc. by apply cut_string_Some.
  - symmetry. induction s as [|c s IH]; [done|]. rewrite str_app_cons, IH; [done|].
    rewrite cut_string_eq in Hc. destruct (String.prefix "*/" (String c s)); [done|]. by apply fmap_None in Hc.
Qed.

Lemma dollar_run_split s body rest : dollar_run s = Some (body, rest) → s = body +:+ rest.
Proof.
  unfold dollar_run. pose proof (span_split tag_char s) as Hs. destruct (span tag_char s) as [tag r]. cbn [fst snd] in Hs.
  destruct r as [|d r]; [done|]. destruct (bool_decide (d = dollar)) eqn:Hd; [|done].
  apply bool_decide_eq_true in Hd as ->.
  destruct (cut_string r _) as [[a b]|] eqn:Hc; [|done]. intros [= <- <-].
  apply cut_string_Some in Hc. rewrite Hs, Hc, !str_app_assoc. by rewrite !str_app_cons, str_app_nil_l, !str_app_assoc.
Qed.

Lemma HasPrefix_TrimPrefix s p : HasPrefix s p = true → s = p +:+ TrimPrefix s p.
Proof. intros H. unfold TrimPrefix. rewrite H. by apply prefix_split. Qed.

Lemma TrimPrefix_app p s : TrimPrefix (p +:+ s) p = s.
Proof. unfold TrimPrefix, HasPrefix. rewrite prefix_app. apply substring_app. Qed.

(** One turn of the loop cuts the script in two. *)
Lemma scan_step_split opts c s :
  match scan_step opts c s with
  | (Some text, rest) => ∃ t, text = String c t ∧ s = t +:+ rest
  | (None, rest) => c = semicolon ∧ rest = s
  end.
Proof.
  unfold scan_step.
  destruct (quoting opts c); [eexists; split; [done|apply quoted_run_split]|].
  destruct (bool_decide (c = dash) && HasPrefix s "-"); [eexists; split; [done|apply span_split]|].
  destruct (bool_decide (c = slash) && HasPrefix s "*") eqn:Hb.
  { apply andb_true_iff in Hb as [->%bool_decide_eq_true Hb]. exists ("*" +:+ (block_comment (TrimPrefix s "*")).1).
    split; [done|]. rewrite str_app_assoc, <- block_comment_split. by apply HasPrefix_TrimPrefix. }
  destruct (bool_decide (c = dollar) && DollarQuotes opts).
  { destruct (dollar_run s) as [[body rest]|] eqn:Hd; eexists; (split; [done|]); [by apply dollar_run_split|done]. }
  destruct (bool_decide (c = semicolon)) eqn:Hc; [by apply bool_decide_eq_true in Hc|].
  by eexists.
Qed.

(** ** A piece is read the same way when the script ends after it *)

Lemma str_app_nil_inv a b : a +:+ b = "" → a = "" ∧ b = "".
Proof. destruct a; [by destruct b|done]. Qed.

Lemma pair_eta {A B} (p : A * B) a b : p = (a, b) → p.1 = a ∧ p.2 = b.
Proof. by intros ->. Qed.

Lemma quoted_run_local c esc s : forall a x y,
  quoted_run c esc s = (a, x +:+ y) → quoted_run c esc (a +:+ x) = (a, x).
Proof.
  revert s. fix IH 1. intros [|d s] a x y; cbn [quoted_run].
  { intros [= <- H]. symmetry in H. by apply str_app_nil_inv in H as [-> ->]. }
  destruct (bool_decide (d = c)) eqn:Hd.
  - destruct s as [|d' s].
    + intros [= <- H]. symmetry in H. apply str_app_nil_inv in H as [-> ->]. rewrite str_app_nil_r. cbn [quoted_run]. by rewrite Hd.
    + destruct (bool_decide (d' = c)) eqn:Hd'; intros [= <- H].
      * rewrite !str_app_cons. cbn [quoted_run]. rewrite Hd, Hd'.
        by rewrite (IH s (quoted_run c esc s).1 x y) by (by rewrite <- H; destruct (quoted_run c esc s)).
      * rewrite str_app_cons, str_app_nil_l. cbn [quoted_run]. rewrite Hd.
        destruct x as [|e x]; [done|]. rewrite str_app_cons in H. injection H as <- _. by rewrite Hd'.
  - destruct (bool_decide (d = backslash) && esc) eqn:He.
    + destruct s as [|d' s]; intros [= <- H].
      * symmetry in H. apply str_app_nil_inv in H as [-> ->]. rewrite str_app_nil_r. cbn [quoted_run]. by rewrite Hd, He.
      * rewrite !str_app_cons. cbn [quoted_run]. rewrite Hd, He.
        by rewrite (IH s (quoted_run c esc s).1 x y) by (by rewrite <- H; destruct (quoted_run c esc s)).
    + intros [= <- H]. rewrite str_app_cons. cbn [quoted_run]. rewrite Hd, He.
      by rewrite (IH s (quoted_run c esc s).1 x y) by (by rewrite <- H; destruct (quoted_run c esc s)).
Qed.

Lemma span_local p s a x y : span p s = (a, x +:+ y) → span p (a +:+ x) = (a, x).
Proof.
  revert a. induction s as [|d s IH]; intros a; cbn [span].
  { intros [= <- H]. symmetry in H. by apply str_app_nil_inv in H as [-> ->]. }
  destruct (p d) eqn:Hd; intros [= <- H].
  - rewrite str_app_cons. cbn [span]. rewrite Hd.
    by rewrite (IH (span p s).1) by (by rewrite <- H; destruct (span p s)).
  - rewrite str_app_nil_l. destruct x as [|e x]; [done|]. rewrite str_app_cons in H. injection H as <- _.
    cbn [span]. by rewrite Hd.
Qed.

(** The longest start of text whose next character does not satisfy p *)
Lemma span_stop p s : forall tag r, span p s = (tag, r) → forall x, (match x with String d _ => p d = false | _ => True end) → span p (tag +:+ x) = (tag, x).
Proof.
  induction s as [|d s IH]; intros tag r; cbn [span].
  { intros [= <- <-] x Hx. rewrite str_app_nil_l. destruct x; cbn [span]; [done|by rewrite Hx]. }
  destruct (p d) eqn:Hd; intros [= <- <-] x Hx.
  - rewrite str_app_cons. cbn [span]. rewrite Hd. by rewrite (IH (span p s).1 (span p s).2) by (try destruct (span p s); done).
  - rewrite str_app_nil_l. destruct x; cbn [span]; [done|by rewrite Hx].
Qed.

Lemma block_comment_local s a x y : block_comment s = (a, x +:+ y) → block_comment (a +:+ x) = (a, x).
Proof.
  unfold block_comment. destruct (cut_string s "*/") as [[b r]|] eqn:Hc; intros [= <- H].
  - rewrite H in Hc. rewrite str_app_assoc. by rewrite (cut_string_local _ _ _ _ _ Hc).
  - symmetry in H. apply str_app_nil_inv in H as [-> ->]. by rewrite str_app_nil_r, Hc.
Qed.

Lemma dollar_run_local s a x y : dollar_run s = Some (a, x +:+ y) → dollar_run (a +:+ x) = Some (a, x).
Proof.
  unfold dollar_run. destruct (span tag_char s) as [tag r] eqn:Hs.
  destruct r as [|d r]; [done|]. destruct (bool_decide (d = dollar)) eqn:Hd; [|done]. apply bool_decide_eq_true in Hd as ->.
  destruct (cut_string r _) as [[b r']|] eqn:Hc; [|done]. intros [= <- ->].
  rewrite !str_app_assoc, str_app_cons, str_app_nil_l.
  rewrite (span_stop _ _ _ _ Hs) by done.
  rewrite bool_decide_eq_true_2 by done. apply cut_string_local in Hc.
  rewrite !str_app_cons, !str_app_assoc, !str_app_cons, str_app_nil_l in *.
  by rewrite Hc, str_app_assoc.
Qed.

Lemma dollar_run_None_prefix x y : dollar_run (x +:+ y) = None → dollar_run x = None.
Proof.
  unfold dollar_run. destruct (span tag_char x) as [tag r] eqn:Hs. destruct r as [|d r]; [done|].
  destruct (bool_decide (d = dollar)) eqn:Hd; [|done]. apply bool_decide_eq_true in Hd as ->.
  pose proof (span_split tag_char x) as Hx. rewrite Hs in Hx. cbn [fst snd] in Hx.
  rewrite Hx, str_app_assoc, str_app_cons.
  rewrite (span_stop _ _ _ _ Hs) by done. rewrite bool_decide_eq_true_2 by done.
  destruct (cut_string (r +:+ y) _) as [[? ?]|] eqn:Hc; [done|]. intros _. by rewrite (cut_string_None_prefix _ _ _ Hc).
Qed.

Lemma prefix_false_local p x y : HasPrefix (x +:+ y) p = false → HasPrefix x p = false.
Proof.
  unfold HasPrefix. intros H. destruct (String.prefix p x) eqn:Hx; [|done]. by rewrite (prefix_mono _ _ y Hx) in H.
Qed.

Lemma line_comment_dash s a b : HasPrefix s "-" = true → line_comment s = (a, b) → HasPrefix a "-" = true.
Proof.
  intros H. destruct s as [|d s]; [done|]. unfold HasPrefix in H. cbn [String.prefix] in H.
  destruct (ascii_dec "-" d) as [<-|]; [|done]. unfold line_comment. cbn [span].
  rewrite bool_decide_eq_false_2 by done. cbn [negb]. intros [= <- _]. apply (prefix_app "-").
Qed.

Lemma scan_step_local opts c s t x y :
  scan_step opts c s = (Some (String c t), x +:+ y) → scan_step opts c (t +:+ x) = (Some (String c t), x).
Proof.
  intros H. pose proof (scan_step_split opts c s) as Hs. rewrite H in Hs. destruct Hs as (t' & [= <-] & Hs).
  revert H. unfold scan_step. destruct (quoting opts c).
  { intros [= Ht H]. erewrite quoted_run_local; [done|]. rewrite <- H, <- Ht. apply surjective_pairing. }
  destruct (bool_decide (c = dash) && HasPrefix s "-") eqn:Hl.
  { apply andb_true_iff in Hl as [-> Hp]. intros [= Ht H].
    assert (line_comment s = (t, x +:+ y)) as Hl by (rewrite <- H, <- Ht; apply surjective_pairing).
    unfold HasPrefix. rewrite prefix_mono by (by eapply line_comment_dash). cbn [andb].
    unfold line_comment in *. by rewrite (span_local _ _ _ _ _ Hl). }
  assert (bool_decide (c = dash) && HasPrefix (t +:+ x) "-" = false) as ->.
  { apply andb_false_iff in Hl as [->|Hl]; [done|]. rewrite Hs, <- str_app_assoc in Hl.
    by rewrite (prefix_false_local _ _ _ Hl), andb_false_r. }
  destruct (bool_decide (c = slash) && HasPrefix s "*") eqn:Hb.
  { apply andb_true_iff in Hb as [-> Hp]. apply HasPrefix_TrimPrefix in Hp.
    set (s' := TrimPrefix s "*") in *. intros [= -> Ht H].
    assert (block_comment s' = ((block_comment s').1, x +:+ y)) as Hb by (rewrite <- H; apply surjective_pairing).
    apply block_comment_local in Hb.
    assert (t +:+ x = "*" +:+ ((block_comment s').1 +:+ x)) as -> by (by rewrite <- Ht, !str_app_cons).
    unfold HasPrefix. rewrite prefix_app, TrimPrefix_app, Hb. cbn [andb fst snd]. by rewrite <- Ht. }
  assert (bool_decide (c = slash) && HasPrefix (t +:+ x) "*" = false) as ->.
  { apply andb_false_iff in Hb as [->|Hb]; [done|]. rewrite Hs, <- str_app_assoc in Hb.
    by rewrite (prefix_false_local _ _ _ Hb), andb_false_r. }
  destruct (bool_decide (c = dollar) && DollarQuotes opts).
  { destruct (dollar_run s) as [[body rest]|] eqn:Hd; intros [= <- ->].
    - by rewrite (dollar_run_local _ _ _ _ Hd).
    - rewrite str_app_nil_l. by rewrite (dollar_run_None_prefix _ _ Hd). }
  destruct (bool_decide (c = semicolon)); [done|]. by intros [= <- ->].
Qed.

(** ** The reference *)

(** The texts between the top-level semicolons of a script *)
Inductive scans (opts : SplitOptions) : string → list string → Prop :=
| scans_end : scans opts "" [""]
| scans_text c s text rest seg segs :
    scan_step opts c s = (Some text, rest) → scans opts rest (seg :: segs) → scans opts (String c s) ((text +:+ seg) :: segs)
| scans_break c s rest segs :
    scan_step opts c s = (None, rest) → scans opts rest segs → scans opts (String c s) ("" :: segs).

Lemma scans_nonempty opts s segs : scans opts s segs → segs ≠ [].
Proof. by intros []. Qed.

Lemma scans_exists opts s : ∃ segs, scans opts s segs.
Proof.
  induction s as [s IH] using (induction_ltof1 _ String.length). unfold ltof in IH.
  destruct s as [|c s]; [eexists; constructor|].
  pose proof (scan_step_split opts c s) as Hs. destruct (scan_step opts c s) as [[text|] rest] eqn:Hstep.
  - destruct Hs as (t & -> & ->). destruct (IH rest) as [[|seg segs] Hsegs].
    { cbn [String.length]. rewrite str_app_length. lia. }
    { by apply scans_nonempty in Hsegs. }
    eexists. by eapply scans_text.
  - destruct Hs as [-> ->]. destruct (IH s) as [segs Hsegs]; [cbn [String.length]; lia|].
    eexists. by eapply scans_break.
Qed.

Lemma Join_cons_app a x l sep : Join ((a +:+ x) :: l) sep = a +:+ Join (x :: l) sep.
Proof. destruct l as [|y l]; cbn [Join]; [done|]. by rewrite str_app_assoc. Qed.

(** Nothing is lost. *)
Lemma scans_join opts s segs : scans opts s segs → Join segs ";" = s.
Proof.
  induction 1 as [|c s text rest seg segs Hstep _ IH|c s rest segs Hstep H IH]; [done| |];
    pose proof (scan_step_split opts c s) as Hs; rewrite Hstep in Hs.
  - destruct Hs as (t & -> & ->). by rewrite Join_cons_app, IH, str_app_cons.
  - destruct Hs as [-> ->]. destruct segs as [|seg segs]; [by apply scans_nonempty in H|].
    change (Join ("" :: seg :: segs) ";") with ("" +:+ ";" +:+ Join (seg :: segs) ";"). by rewrite IH.
Qed.

(** Each text, scanned alone, is one text. *)
Lemma scans_alone opts s segs : scans opts s segs → Forall (fun seg => scans opts seg [seg]) segs.
Proof.
  induction 1 as [|c s text rest seg segs Hstep Hrest IH|c s rest segs Hstep H IH]; [repeat constructor| |].
  - inversion_clear IH as [|? ? Hseg Hsegs]. constructor; [|done].
    pose proof (scan_step_split opts c s) as Hs. rewrite Hstep in Hs. destruct Hs as (t & -> & _).
    rewrite str_app_cons. rewrite <- (str_app_cons c t seg). eapply scans_text; [|done].
    apply scans_join in Hrest. destruct segs as [|seg' segs]; cbn [Join] in Hrest; subst rest.
    + apply (scan_step_local _ _ s _ _ ""). by rewrite str_app_nil_r.
    + by eapply scan_step_local.
  - constructor; [constructor|done].
Qed.

(** The loop folds flush over the texts. *)
Lemma split_loop_scans opts s segs : scans opts s segs → ∀ fuel cur out seg segs',
  String.length s < fuel → segs = seg :: segs' →
  split_loop fuel opts cur out s = Some (fold_left (fun out s => flush s out) ((cur +:+ seg) :: segs') out).
Proof.
  induction 1 as [|c s text rest x l Hstep Hrest IH|c s rest l Hstep H IH];
    intros fuel cur out seg segs' Hfuel Heq; (destruct fuel as [|fuel]; [lia|]); simplify_eq; cbn [split_loop].
  - by rewrite str_app_nil_r.
  - rewrite Hstep. pose proof (scan_step_split opts c s) as Hs. rewrite Hstep in Hs. destruct Hs as (t & -> & ->).
    cbn [String.length] in Hfuel. rewrite str_app_length in Hfuel.
    rewrite (IH fuel _ _ x segs'); [|lia|done]. by rewrite str_app_assoc.
  - rewrite Hstep. pose proof (scan_step_split opts c s) as Hs. rewrite Hstep in Hs. destruct Hs as [-> ->].
    cbn [String.length] in Hfuel. destruct segs' as [|x l]; [by apply scans_nonempty in H|].
    rewrite (IH fuel _ _ x l); [|lia|done]. by rewrite str_app_nil_r.
Qed.

Lemma flush_all l out :
  fold_left (fun out s => flush s out) l out = out ++ filter (fun s => keep_statement s = true) (map TrimSpace l).
Proof.
  revert out. induction l as [|s l IH]; intros out; cbn [fold_left map]; [by rewrite app_nil_r|].
  rewrite IH, filter_cons. unfold flush. destruct (keep_statement (TrimSpace s)) eqn:Hk.
  - rewrite decide_True by done. by rewrite <- app_assoc.
  - by rewrite decide_False by done.
Qed.

Lemma SplitSQL_scans opts s segs : scans opts s segs →
  SplitSQL s opts = filter (fun s => keep_statement s = true) (map TrimSpace segs).
Proof.
  intros H. unfold SplitSQL. destruct segs as [|seg segs]; [by apply scans_nonempty in H|].
  rewrite (split_loop_scans _ _ _ H _ _ _ seg segs) by (done || (unfold split_fuel; lia)).
  by rewrite flush_all.
Qed.

(** C24: the fuel is enough and nothing is lost: a script is its texts between
    the top-level semicolons, joined; no text has such a semicolon itself,
    whatever quote or comment is left open in it; and SplitSQL returns those
    texts, trimmed, less the ones that are blank or only line comments. *)
Theorem SplitSQL_lossless opts script : ∃ segs,
  split_loop (split_fuel script) opts "" [] script = Some (SplitSQL script opts) ∧
  Join segs ";" = script ∧
  Forall (fun seg => scans opts seg [seg]) segs ∧
  SplitSQL script opts = filter (fun s => keep_statement s = true) (map TrimSpace segs).
Proof.
  destruct (scans_exists opts script) as [segs H]. exists segs.
  split; [|split_and!; [by eapply scans_join|by eapply scans_alone|by apply SplitSQL_scans]].
  destruct segs as [|seg segs]; [by apply scans_nonempty in H|].
  unfold SplitSQL. by rewrite (split_loop_scans _ _ _ H _ _ _ seg segs) by (done || (unfold split_fuel; lia)).
Qed.

(** ** Scripts of complete statements *)

(** The inside of a quoted text: a quote is doubled, and nothing is escaped
    at the end *)
Fixpoint quoted_body (escapes : bool) (c : ascii) (s : string) : bool :=
  match s with
  | EmptyString => true
  | String d s' =>
      if bool_decide (d = c) then
        match s' with String d' s'' => bool_decide (d' = c) && quoted_body escapes c s'' | EmptyString => false end
      else if bool_decide (d = backslash) && escapes then
        match s' with String _ s'' => quoted_body escapes c s'' | EmptyString => false end
      else quoted_body escapes c s'
  end.

Definition escapes_in (opts : SplitOptions) (c : ascii) : bool := bool_decide (c = squote) && BackslashEscapes opts.

Definition starts_with (c : ascii) (s : string) : bool :=
  match s with String d _ => bool_decide (d = c) | EmptyString => false end.

(** A character that stands for itself before s *)
Definition plain_char (opts : SplitOptions) (c : ascii) (s : string) : bool :=
  negb (quoting opts c) && negb (bool_decide (c = semicolon)) &&
  negb (bool_decide (c = dash) && starts_with dash s) &&
  negb (bool_decide (c = slash) && starts_with star s) &&
  negb (bool_decide (c = dollar) && DollarQuotes opts).

Fixpoint all_chars (p : ascii → bool) (s : string) : bool :=
  match s with String c s' => p c && all_chars p s' | EmptyString => true end.

(** Complete text: every quote and comment that is opened is closed *)
Inductive sql_text (opts : SplitOptions) : string → Prop :=
| text_end : sql_text opts ""
| text_char c s : plain_char opts c s = true → sql_text opts s → sql_text opts (String c s)
| text_quoted c body s :
    quoting opts c = true → quoted_body (escapes_in opts c) c body = true → starts_with c s = false → sql_text opts s →
    sql_text opts (String c (body +:+ String c s))
| text_line body s :
    all_chars (fun c => negb (bool_decide (c = newline))) body = true → sql_text opts (String newline s) →
    sql_text opts ("--" +:+ body +:+ String newline s)
| text_block body s :
    Contains (body +:+ "*") "*/" = false → sql_text opts s → sql_text opts ("/*" +:+ body +:+ "*/" +:+ s)
| text_dollar tag body s :
    DollarQuotes opts = true → all_chars tag_char tag = true →
    Contains (body +:+ String dollar tag) (String dollar (tag +:+ String dollar "")) = false → sql_text opts s →
    sql_text opts (String dollar (tag +:+ String dollar (body +:+ String dollar (tag +:+ String dollar s)))).

Lemma quoted_run_body c esc s : starts_with c s = false → ∀ body, quoted_body esc c body = true →
  quoted_run c esc (body +:+ String c s) = (body +:+ String c "", s).
Proof.
  intros Hs body. induction body as [body IH] using (induction_ltof1 _ String.length). unfold ltof in IH.
  destruct body as [|d body]; cbn [quoted_body String.length] in *.
  - rewrite !str_app_nil_l. intros _. cbn [quoted_run]. rewrite bool_decide_eq_true_2 by done.
    destruct s as [|d s]; [done|]. cbn [starts_with] in Hs. by rewrite Hs.
  - destruct (bool_decide (d = c)) eqn:Hd.
    + destruct body as [|d' body]; [done|]. intros [Hd' Hb]%andb_true_iff. rewrite !str_app_cons. cbn [quoted_run].
      by rewrite Hd, Hd', (IH body) by (done || (cbn [String.length]; lia)).
    + destruct (bool_decide (d = backslash) && esc) eqn:He.
      * destruct body as [|d' body]; [done|]. intros Hb. rewrite !str_app_cons. cbn [quoted_run].
        by rewrite Hd, He, (IH body) by (done || (cbn [String.length]; lia)).
      * intros Hb. rewrite !str_app_cons. cbn [quoted_run]. by rewrite Hd, He, (IH body) by (done || (cbn [String.length]; lia)).
Qed.

Lemma span_all_app p a s : all_chars p a = true → (match s with String d _ => p d = false | _ => True end) →
  span p (a +:+ s) = (a, s).
Proof.
  intros Ha Hs. induction a as [|c a IH]; cbn [all_chars] in Ha.
  - rewrite str_app_nil_l. destruct s; cbn [span]; [done|by rewrite Hs].
  - apply andb_true_iff in Ha as [Hc Ha]. rewrite str_app_cons. cbn [span]. by rewrite Hc, IH.
Qed.

Lemma Contains_cons s c needle : Contains (String c s) needle = false →
  String.prefix needle (String c s) = false ∧ Contains s needle = false.
Proof. cbn [Contains]. by rewrite orb_false_iff. Qed.

(** A prefix of a longer string that reaches no further than the shorter one *)
Lemma prefix_short p s t : String.length p ≤ String.length s → String.prefix p (s +:+ t) = String.prefix p s.
Proof.
  revert s. induction p as [|c p IH]; intros [|d s]; cbn [String.length]; intros Hl; try lia.
  - by destruct t.
  - done.
  - rewrite str_app_cons. cbn [String.prefix]. destruct (ascii_dec c d); [|done]. apply IH. lia.
Qed.

(** The first end of a body that does not contain it, not even in part *)
Lemma cut_string_first body init (d : ascii) s :
  Contains (body +:+ init) (init +:+ String d "") = false →
  cut_string (body +:+ init +:+ String d s) (init +:+ String d "") = Some (body, s).
Proof.
  intros Hc. induction body as [|c body IH].
  - rewrite str_app_nil_l. rewrite <- cut_string_here with (sep := init +:+ String d "").
    by rewrite str_app_assoc, str_app_cons, str_app_nil_l.
  - rewrite str_app_cons in *. apply Contains_cons in Hc as [Hp Hc]. rewrite cut_string_eq.
    assert (String c (body +:+ init +:+ String d s) = String c (body +:+ init) +:+ String d s) as ->
      by (by rewrite str_app_cons, str_app_assoc).
    rewrite prefix_short, Hp; [|rewrite str_app_length; cbn [String.length]; rewrite str_app_length; cbn [String.length]; lia].
    by rewrite IH.
Qed.

Lemma HasPrefix_char (c : ascii) s : HasPrefix s (String c "") = starts_with c s.
Proof.
  unfold HasPrefix. destruct s as [|d s]; cbn [String.prefix starts_with]; [done|].
  destruct (ascii_dec c d) as [->|Hn]; [rewrite bool_decide_eq_true_2 by done; by destruct s|].
  by rewrite bool_decide_eq_false_2 by congruence.
Qed.

(** Move every append to the right. *)
Ltac str_norm := repeat (rewrite str_app_assoc || rewrite str_app_cons || rewrite str_app_nil_l).

Lemma scans_piece opts c t s seg segs whole out :
  scan_step opts c (t +:+ s) = (Some (String c t), s) → scans opts s (seg :: segs) →
  whole = String c (t +:+ s) → out = String c (t +:+ seg) → scans opts whole (out :: segs).
Proof. intros Hstep Hs -> ->. rewrite <- (str_app_cons c t seg). by eapply scans_text. Qed.

Lemma starts_with_break k s y : k ≠ semicolon → at_break y → starts_with k (s +:+ y) = starts_with k s.
Proof.
  intros Hk [->|[y' ->]]; destruct s as [|e s]; try done. rewrite str_app_nil_l. cbn [starts_with]. by rewrite bool_decide_eq_false_2.
Qed.

Lemma plain_char_step opts c s : plain_char opts c s = true → scan_step opts c s = (Some (String c ""), s).
Proof.
  unfold plain_char, scan_step. rewrite !andb_true_iff, !negb_true_iff.
  intros [[[[-> Hsc] Hd] Hb] ->]. change "-" with (String dash ""). change "*" with (String star "").
  by rewrite !HasPrefix_char, Hd, Hb, Hsc.
Qed.

Lemma text_line_step opts body s : all_chars (fun c => negb (bool_decide (c = newline))) body = true →
  scan_step opts dash (String dash body +:+ String newline s) = (Some (String dash (String dash body)), String newline s).
Proof.
  intros Hb. unfold scan_step, line_comment. change (quoting opts dash) with false.
  change "-" with (String dash ""). rewrite HasPrefix_char. cbn [starts_with]. rewrite bool_decide_eq_true_2 by done.
  cbn [andb]. by rewrite span_all_app.
Qed.

Lemma text_block_step opts body s : Contains (body +:+ "*") "*/" = false →
  scan_step opts slash ("*" +:+ body +:+ "*/" +:+ s) = (Some ("/*" +:+ body +:+ "*/"), s).
Proof.
  intros Hb. unfold scan_step. change (quoting opts slash) with false. cbn [orb andb].
  change (bool_decide (slash = dash)) with false. cbn [andb]. change (bool_decide (slash = slash)) with true.
  unfold HasPrefix. rewrite prefix_app, TrimPrefix_app. cbn [andb]. unfold block_comment.
  assert (cut_string (body +:+ "*/" +:+ s) "*/" = Some (body, s)) as -> by exact (cut_string_first body "*" slash s Hb).
  done.
Qed.

Lemma text_dollar_run tag body s : all_chars tag_char tag = true →
  Contains (body +:+ String dollar tag) (String dollar (tag +:+ String dollar "")) = false →
  dollar_run (tag +:+ String dollar (body +:+ String dollar (tag +:+ String dollar s))) =
  Some (tag +:+ String dollar (body +:+ String dollar (tag +:+ String dollar "")), s).
Proof.
  intros Ht Hb. unfold dollar_run. rewrite span_all_app by done. rewrite bool_decide_eq_true_2 by done.
  rewrite <- !(str_app_cons dollar tag) in *. rewrite cut_string_first by done. by str_norm.
Qed.

(** Complete text is read to its end, whatever follows. *)
Lemma sql_text_scans opts s : sql_text opts s → ∀ y seg segs, at_break y → scans opts y (seg :: segs) →
  scans opts (s +:+ y) ((s +:+ seg) :: segs).
Proof.
  induction 1 as [|c s Hp _ IH|c body s Hq Hbody Hs _ IH|body s Hb _ IH|body s Hb _ IH|tag body s Ho Ht Hb _ IH];
    intros y seg segs Hy Hscan; [done|..]; specialize (IH y seg segs Hy Hscan).
  - apply (scans_piece opts c "" (s +:+ y) (s +:+ seg)); try done. apply plain_char_step.
    unfold plain_char in *. by rewrite !starts_with_break.
  - apply (scans_piece opts c (body +:+ String c "") (s +:+ y) (s +:+ seg));
      [|done|by str_norm|by str_norm].
    unfold scan_step. rewrite Hq. fold (escapes_in opts c). str_norm. rewrite quoted_run_body; [done| |done].
    rewrite starts_with_break; [done|by intros ->|done].
  - apply (scans_piece opts dash (String dash body) (String newline s +:+ y) (String newline s +:+ seg));
      [|done|by str_norm|by str_norm].
    rewrite (str_app_cons newline). by apply text_line_step.
  - apply (scans_piece opts slash ("*" +:+ body +:+ "*/") (s +:+ y) (s +:+ seg)); [|done|by str_norm|by str_norm].
    rewrite !str_app_assoc. by rewrite text_block_step.
  - apply (scans_piece opts dollar (tag +:+ String dollar (body +:+ String dollar (tag +:+ String dollar "")))
             (s +:+ y) (s +:+ seg)); [|done|by str_norm|by str_norm].
    unfold scan_step. str_norm. rewrite text_dollar_run, Ho by done. done.
Qed.

(** A script of statements, one to a line *)
Definition script_of (stmts : list string) : string :=
  fold_right (fun s acc => s +:+ String semicolon (String newline acc)) "" stmts.

(** A statement SplitSQL hands back as it is: complete, trimmed, not blank
    and not only line comments *)
Definition statement (opts : SplitOptions) (s : string) : Prop :=
  sql_text opts s ∧ TrimSpace s = s ∧ keep_statement s = true.

Lemma script_of_scans opts stmts : Forall (statement opts) stmts → ∃ seg segs,
  scans opts (String newline (script_of stmts)) (seg :: segs) ∧ map TrimSpace (seg :: segs) = stmts ++ [""].
Proof.
  induction 1 as [|s stmts (Htext & Htrim & _) _ (seg & segs & IH & Hmap)].
  - exists (String newline ""), []. split; [|done]. by apply (scans_piece opts newline "" "" ""); try done; constructor.
  - exists (String newline s), (seg :: segs). split.
    + apply (scans_piece opts newline "" (script_of (s :: stmts)) s); [done| |done|done].
      cbn [script_of fold_right]. fold (script_of stmts). rewrite <- (str_app_nil_r s) at 2.
      apply sql_text_scans; [done|right; by eexists|]. by eapply scans_break.
    + cbn [map app] in *. rewrite Hmap. f_equal. by rewrite <- Htrim at 2.
Qed.

(** C23: a script of complete statements, each followed by a semicolon and a
    newline, is split into exactly those statements: quotes, identifiers,
    dollar-quoted bodies and comments keep their semicolons. *)
Theorem SplitSQL_statements opts stmts : Forall (statement opts) stmts → SplitSQL (script_of stmts) opts = stmts.
Proof.
  intros H. assert (∃ segs, scans opts (script_of stmts) segs ∧ map TrimSpace segs = stmts ++ [""]) as (segs & Hscan & Hmap).
  { destruct H as [|s stmts (Htext & Htrim & _) Hall]; [by eexists [""]; split; [constructor|]|].
    destruct (script_of_scans opts stmts Hall) as (seg & segs & Hscan & Hmap). exists ((s +:+ "") :: seg :: segs). split.
    - apply sql_text_scans; [done|right; by eexists|]. by eapply scans_break.
    - rewrite str_app_nil_r. cbn [map app] in *. by rewrite Hmap, Htrim. }
  rewrite (SplitSQL_scans _ _ _ Hscan), Hmap, filter_app, filter_all; [by rewrite app_nil_r|].
  intros s Hs. rewrite Forall_forall in H. by apply H.
Qed.

(** ** Examples *)

Definition insert_statement : string := "insert into notes values ('a;b''c', 7)".
Definition function_statement : string := "create function f() returns void as $body$ begin; end; $body$ language plpgsql".

Lemma insert_statement_text : statement postgres_options insert_statement.
Proof.
  split_and!; [|by vm_compute|by vm_compute]. unfold insert_statement.
  do 26 (apply text_char; [by vm_compute|]).
  apply (text_quoted postgres_options squote "a;b''c" ", 7)"); [by vm_compute..|].
  repeat (apply text_char; [by vm_compute|]). constructor.
Defined.

Lemma function_statement_text : statement postgres_options function_statement.
Proof.
  split_and!; [|by vm_compute|by vm_compute]. unfold function_statement.
  do 36 (apply text_char; [by vm_compute|]).
  apply (text_dollar postgres_options "body" " begin; end; " " language plpgsql"); [by vm_compute..|].
  repeat (apply text_char; [by vm_compute|]). constructor.
Defined.

Lemma SplitSQL_statements_witness :
  Forall (statement postgres_options) [insert_statement; function_statement] ∧
  SplitSQL (script_of [insert_statement; function_statement]) postgres_options = [insert_statement; function_statement].
Proof.
  assert (Forall (statement postgres_options) [insert_statement; function_statement]) as H
    by exact (Forall_cons_2 _ _ _ insert_statement_text (Forall_cons_2 _ _ _ function_statement_text (Forall_nil_2 _))).
  split; [exact H|]. apply (SplitSQL_statements postgres_options _ H).
Defined.

(** The same text under MySQL's rules: a dollar sign is a character there. *)
Example dollar_quotes_matter :
  length (SplitSQL (script_of [insert_statement; function_statement]) mysql_options) = 4.
Proof. vm_compute. reflexivity. Qed.

(** ** Literals and names are read back

    A backend writes literals and names for a server and splits scripts
    itself. What the server reads, by the rules the backend states in its
    SplitOptions, is what was written; and SplitSQL takes it for one piece. *)

(** ** Reading a quoted text *)

(** The character an escape stands for *)
Definition unescape (c : ascii) : ascii :=
  if bool_decide (c = "0"%char) then ascii_of_N 0
  else if bool_decide (c = "n"%char) then ascii_of_N 10
  else if bool_decide (c = "r"%char) then ascii_of_N 13
  else if bool_decide (c = "Z"%char) then ascii_of_N 26
  else c.

Definition prepend (c : ascii) (r : string * string) : string * string := (String c r.1, r.2).

(** What follows an opening quote: the text it stands for, and the rest *)
Fixpoint read_body (escapes : bool) (c : ascii) (s : string) : option (string * string) :=
  match s with
  | EmptyString => None
  | String d s' =>
      if bool_decide (d = c) then
        match s' with
        | String d' s'' => if bool_decide (d' = c) then prepend c <$> read_body escapes c s'' else Some ("", s')
        | EmptyString => Some ("", "")
        end
      else if bool_decide (d = backslash) && escapes then
        match s' with String e s'' => prepend (unescape e) <$> read_body escapes c s'' | EmptyString => None end
      else prepend d <$> read_body escapes c s'
  end.

Definition read_quoted (opts : SplitOptions) (c : ascii) (s : string) : option (string * string) :=
  match s with
  | String d s' => if bool_decide (d = c) then read_body (escapes_in opts c) c s' else None
  | EmptyString => None
  end.

(** [spells opts c written text]: written is read as text, and is one piece
    of a script, whatever follows it *)
Definition spells (opts : SplitOptions) (c : ascii) (written text : string) : Prop := ∀ rest,
  starts_with c rest = false →
  read_quoted opts c (written +:+ rest) = Some (text, rest) ∧
  (sql_text opts rest → sql_text opts (written +:+ rest)).

Lemma read_body_end esc c rest : starts_with c rest = false → read_body esc c (String c rest) = Some ("", rest).
Proof.
  intros Hr. cbn [read_body]. rewrite bool_decide_eq_true_2 by done. destruct rest as [|d rest]; [done|].
  cbn [starts_with] in Hr. by rewrite Hr.
Qed.

Lemma spells_body opts c body text :
  quoting opts c = true → quoted_body (escapes_in opts c) c body = true →
  (∀ rest, starts_with c rest = false → read_body (escapes_in opts c) c (body +:+ String c rest) = Some (text, rest)) →
  spells opts c (String c (body +:+ String c "")) text.
Proof.
  intros Hq Hb Hread rest Hr.
  assert (String c (body +:+ String c "") +:+ rest = String c (body +:+ String c rest)) as -> by by str_norm.
  split; [|intros Ht; by apply text_quoted].
  cbn [read_quoted]. rewrite bool_decide_eq_true_2 by done. by apply Hread.
Qed.

(** ** Doubled quotes *)

Lemma replace_byte_cons c d s :
  replace_byte c (String c (String c "")) (String d s) =
  if bool_decide (d = c) then String c (String c (replace_byte c (String c (String c "")) s))
  else String d (replace_byte c (String c (String c "")) s).
Proof. cbn [replace_byte]. by destruct (bool_decide (d = c)). Qed.

Lemma quote_with_spells opts c s : quoting opts c = true → escapes_in opts c = false → spells opts c (quote_with c s) s.
Proof.
  intros Hq He. apply spells_body; [done| |]; rewrite He.
  - induction s as [|d s IH]; [done|]. rewrite replace_byte_cons. destruct (bool_decide (d = c)) eqn:Hd; cbn [quoted_body].
    + by rewrite !bool_decide_eq_true_2, IH.
    + by rewrite Hd, andb_false_r, IH.
  - intros rest Hr. induction s as [|d s IH]; [by apply read_body_end|].
    rewrite replace_byte_cons. destruct (bool_decide (d = c)) eqn:Hd; rewrite !str_app_cons; cbn [read_body].
    + apply bool_decide_eq_true in Hd as ->. by rewrite !bool_decide_eq_true_2, IH.
    + by rewrite Hd, andb_false_r, IH.
Qed.

(** ** Backslashes *)

Lemma N_of_ascii_eq c n : N_of_ascii c = n → c = ascii_of_N n.
Proof. intros <-. by rewrite ascii_N_embedding. Qed.

Lemma escape_byte_cases c :
  (∃ e, escape_byte c = String backslash (String e "") ∧ unescape e = c) ∨
  (escape_byte c = String c "" ∧ c ≠ squote ∧ c ≠ backslash).
Proof.
  unfold escape_byte. case_bool_decide as H1.
  { left. exists c. split; [done|]. by destruct H1 as [-> | [-> | ->]]. }
  repeat (case_bool_decide as Hn; [left; apply N_of_ascii_eq in Hn as ->; eexists; split; [done|by vm_compute]|clear Hn]).
  right. split; [done|]. split; intros ->; tauto.
Qed.

Lemma stringEscaper_spells opts s : BackslashEscapes opts = true → spells opts squote (mysql_QuoteString s) s.
Proof.
  intros He. apply spells_body; [done| |];
    (assert (escapes_in opts squote = true) as -> by (unfold escapes_in; by rewrite He, bool_decide_eq_true_2)).
  - induction s as [|c s IH]; [done|]. cbn [stringEscaper].
    destruct (escape_byte_cases c) as [(e & -> & _)|(-> & Hq & Hb)]; rewrite !str_app_cons, str_app_nil_l; cbn [quoted_body].
    + change (bool_decide (backslash = squote)) with false. change (bool_decide (backslash = backslash)) with true. exact IH.
    + rewrite !bool_decide_eq_false_2 by done. exact IH.
  - intros rest Hr. induction s as [|c s IH]; [by apply read_body_end|]. cbn [stringEscaper].
    destruct (escape_byte_cases c) as [(e & -> & Hu)|(-> & Hq & Hb)]; rewrite !str_app_cons, !str_app_nil_l; cbn [read_body].
    + change (bool_decide (backslash = squote)) with false. change (bool_decide (backslash = backslash)) with true. cbn [andb].
      by rewrite IH, <- Hu.
    + rewrite !bool_decide_eq_false_2 by done. cbn [andb]. by rewrite IH.
Qed.

(** ** The backends *)

Lemma quote_name_new c n : between c n = false → quote_name c n = quote_with c n ∧ quote_name_2 c n = quote_with c n.
Proof. intros H. unfold quote_name, quote_name_2. by rewrite H, andb_false_r. Qed.

Section dialects.
Context `{Formatting}.

(** The backends whose SplitOptions are their server's rules, with the quote
    of their names *)
Definition dialects : list (Ops * SplitOptions * ascii) :=
  [(sqlite_Ops, sqlite_options, dquote); (postgres_Ops, postgres_options, dquote);
   (mysql_Ops, mysql_options, backtick); (oracle_Ops, oracle_options, dquote)].

(** C25: on sqlite3, postgresql, mysql and oracle a string literal is read
    back by the rules the backend splits scripts with as the string it was
    made of, and a name that is not quoted already as that name, whatever
    text follows, as long as it does not start with the same quote; each is
    one piece of a script, which SplitSQL never cuts. *)
Theorem literals_read_back o opts q : (o, opts, q) ∈ dialects →
  (∀ s, ∃ lit, op_QuoteValue o (Some (AnyString s)) = Ok lit ∧ spells opts squote lit s) ∧
  (∀ n, between q n = false → spells opts q (op_QuoteName o n) n).
Proof.
  intros Ho. unfold dialects in Ho. rewrite !elem_of_cons, elem_of_nil in Ho.
  destruct_or! Ho; simplify_eq; (split; [intros s; eexists; split; [done|]|intros n [Hn Hn2]%quote_name_new]);
    try (by apply quote_with_spells); try (by apply stringEscaper_spells);
    cbn [op_QuoteName sqlite_Ops postgres_Ops mysql_Ops oracle_Ops];
    unfold sqlite_QuoteName, postgres_QuoteName, mysql_QuoteName, oracle_QuoteName; rewrite ?Hn, ?Hn2;
    by apply quote_with_spells.
Qed.

(** ClickHouse escapes with a backslash too, and its options say so, but its
    literals only double the quote: the literal of a backslash does not end
    where it should, and swallows the next statement. *)
Example clickhouse_literal_open : ∃ lit,
  clickhouse_QuoteValue (Some (AnyString (String backslash ""))) = Ok lit ∧
  read_quoted clickhouse_options squote lit = None ∧
  length (op_PrepareSQLScript clickhouse_Ops ("insert into t values (" +:+ lit +:+ "); drop table u")) = 1 ∧
  length (op_PrepareSQLScript postgres_Ops ("insert into t values (" +:+ lit +:+ "); drop table u")) = 2.
Proof. eexists. split; [reflexivity|]. by vm_compute. Qed.
End dialects.

(** ** Examples *)

(** U+00A0 and U+2003 go like a space, and only at the ends. *)
Definition nbsp : string := String (ascii_of_nat 194) (String (ascii_of_nat 160) "").
Definition em_space : string := String (ascii_of_nat 226) (String (ascii_of_nat 128) (String (ascii_of_nat 131) "")).
Example unicode_spaces_trimmed :
  SplitSQL (nbsp +:+ "a" +:+ nbsp +:+ "b" +:+ em_space +:+ ";" +:+ em_space +:+ "-- c") mysql_options = ["a" +:+ nbsp +:+ "b"].
Proof. by vm_compute. Qed.

Definition example_formatting : Formatting := {|
  is_NaN_or_Inf := fun s => bool_decide (s = "NaN");
  FormatFloat := fun s _ _ => s;
  time_Format := fun s _ => s;
  time_IsZero := fun _ => false;
  bytes_of := fun s => s;
  IsPrint := fun _ => true;
  Stringer := fun _ _ => None;
  print_value := fun _ => "?";
  print_type := fun _ => "?";
|}.

Lemma literals_read_back_witness :
  (∃ lit, mysql_QuoteValue (H := example_formatting) (Some (AnyString "it's")) = Ok lit ∧ spells mysql_options squote lit "it's") ∧
  spells mysql_options backtick (mysql_QuoteName "a`b") "a`b".
Proof.
  assert ((mysql_Ops (H := example_formatting), mysql_options, backtick) ∈ dialects (H := example_formatting)) as Hin
    by (apply list_elem_of_In; right; right; left; reflexivity).
  destruct (literals_read_back (H := example_formatting) _ _ _ Hin) as [Hlit Hname].
  split; [exact (Hlit "it's")|]. exact (Hname "a`b" eq_refl).
Defined.
