(* ===== verification/SqliteParse.v ===== *)
(** * Parsing CREATE TABLE: backends/sqlite3/parse.go

    The text SQLite keeps of a table, cut into tokens and read for the names
    of constraints, CHECK constraints and foreign keys. An index into a token
    list that the source advances is the rest of the list here; what a
    function returns as "the index just after" is what is left. *)

From S2P Require Import Prelude GoStd Errors Fields Index Names EditorSQL SplitSQL.

(** ** Tokens *)

Inductive token_kind := tokWord | tokQuoted | tokString | tokPunct | tokOther.
#[export] Instance token_kind_eq_dec : EqDecision token_kind.
Proof. solve_decision. Defined.

Record token := mkToken { t_s : string; t_kind : token_kind }.
#[export] Instance token_eq_dec : EqDecision token.
Proof. solve_decision. Defined.

(** isIdent *)
Definition isIdent (t : token) : bool := bool_decide (t_kind t = tokWord ∨ t_kind t = tokQuoted).

(** upper *)
Definition upper (t : token) : string := if bool_decide (t_kind t = tokWord) then ToUpper (t_s t) else "".

(** isWordByte *)
Definition isWordByte (b : ascii) : bool :=
  bool_decide (b = "_"%char) || bool_decide (b = dollar) || byte_is_digit b || byte_is_lower b || byte_is_upper b ||
  (128 <=? N_of_ascii b)%N.

(** The bytes tokenize skips between tokens, and those of them that end an
    operator: all but the form feed *)
Definition ends_other (c : ascii) : bool :=
  bool_decide (c = " "%char) || bool_decide (N_of_ascii c = 9%N) || bool_decide (N_of_ascii c = 10%N) ||
  bool_decide (N_of_ascii c = 13%N).
Definition skipped (c : ascii) : bool := ends_other c || bool_decide (N_of_ascii c = 12%N).

Definition lparen : ascii := "("%char.
Definition rparen : ascii := ")"%char.
Definition comma : ascii := ","%char.
Definition lbracket : ascii := "["%char.
Definition rbracket : ascii := "]"%char.

Definition is_punct (c : ascii) : bool := bool_decide (c = lparen) || bool_decide (c = rparen) || bool_decide (c = comma).
Definition is_quote (c : ascii) : bool := bool_decide (c = dquote) || bool_decide (c = backtick) || bool_decide (c = squote).

(** readQuoted, after the opening quote: the text, and what is left. The
    text of an unclosed quote is everything. *)
Fixpoint readQuoted (open_ close : ascii) (s : string) : string * string :=
  match s with
  | EmptyString => ("", "")
  | String c s' =>
      if bool_decide (c = close) then
        match s' with
        | String c' s'' =>
            if bool_decide (c' = close) && negb (bool_decide (open_ = lbracket))
            then let r := readQuoted open_ close s'' in (String close r.1, r.2)
            else ("", s')
        | EmptyString => ("", "")
        end
      else let r := readQuoted open_ close s' in (String c r.1, r.2)
  end.

(** The run of an operator, in the default branch of tokenize *)
Definition other_byte (c : ascii) : bool :=
  negb (isWordByte c) && negb (is_punct c) && negb (ends_other c) && negb (is_quote c) && negb (bool_decide (c = lbracket)).

(** At least one byte, even one that does not belong to an operator *)
Definition other_run (c : ascii) (s : string) : string * string :=
  if other_byte c then let r := span other_byte s in (String c r.1, r.2) else (String c "", s).

(** One turn of the loop: a token, when there is one, and what is left *)
Definition tokenize_step (c : ascii) (s : string) : option token * string :=
  if skipped c then (None, s)
  else if bool_decide (c = dash) && HasPrefix s "-" then (None, (line_comment s).2)
  else if bool_decide (c = slash) && HasPrefix s "*" then
    (None, match cut_string (TrimPrefix s "*") "*/" with Some (_, rest) => rest | None => "" end)
  else if is_quote c then
    let r := readQuoted c c s in
    (Some (mkToken r.1 (if bool_decide (c = squote) then tokString else tokQuoted)), r.2)
  else if bool_decide (c = lbracket) then let r := readQuoted lbracket rbracket s in (Some (mkToken r.1 tokQuoted), r.2)
  else if isWordByte c && negb (byte_is_digit c) then
    let r := span isWordByte s in (Some (mkToken (String c r.1) tokWord), r.2)
  else if is_punct c then (Some (mkToken (String c "") tokPunct), s)
  else let r := other_run c s in (Some (mkToken r.1 tokOther), r.2).

Fixpoint tokenize_loop (fuel : nat) (sql : string) : option (list token) :=
  match fuel with
  | O => None
  | S fuel =>
      match sql with
      | EmptyString => Some []
      | String c s =>
          let '(t, rest) := tokenize_step c s in
          l ← tokenize_loop fuel rest; Some (match t with Some t => t :: l | None => l end)
      end
  end.

(** tokenize *)
Definition tokenize (sql : string) : list token := default [] (tokenize_loop (split_fuel sql) sql).

(** ** Definitions *)

Record columnDef := mkColumnDef { cd_Name : string; cd_AutoIncrement : bool; cd_Collation : string }.
Record constraintDef := mkConstraintDef {
  cn_Name : string;
  cn_Kind : string;
  cn_Columns : list string;
  cn_ToTable : string;
  cn_ToCols : list string;
}.
Record tableDef := mkTableDef { td_Columns : list columnDef; td_Constraints : list constraintDef }.

#[export] Instance columnDef_eq_dec : EqDecision columnDef.
Proof. solve_decision. Defined.
#[export] Instance constraintDef_eq_dec : EqDecision constraintDef.
Proof. solve_decision. Defined.

Definition punct (c : ascii) : token := mkToken (String c "") tokPunct.
Definition is_open (t : token) : bool := bool_decide (t = punct lparen).
Definition is_close (t : token) : bool := bool_decide (t = punct rparen).
Definition is_comma (t : token) : bool := bool_decide (t = punct comma).

(** The tokens after the first opening parenthesis *)
Fixpoint after_open (toks : list token) : option (list token) :=
  match toks with
  | [] => None
  | t :: toks => if is_open t then Some toks else after_open toks
  end.

Definition close_definition (cur : list token) (out : list (list token)) : list (list token) :=
  if bool_decide (cur = []) then out else out ++ [cur].

(** The loop of splitDefinitions *)
Fixpoint split_definitions (depth : Z) (cur : list token) (out : list (list token)) (toks : list token) : list (list token) :=
  match toks with
  | [] => close_definition cur out
  | t :: toks =>
      if is_open t then split_definitions (depth + 1) (cur ++ [t]) out toks
      else if is_close t then
        if bool_decide (depth = 0%Z) then close_definition cur out
        else split_definitions (depth - 1) (cur ++ [t]) out toks
      else if is_comma t && bool_decide (depth = 0%Z) then split_definitions depth [] (out ++ [cur]) toks
      else split_definitions depth (cur ++ [t]) out toks
  end.

(** splitDefinitions *)
Definition splitDefinitions (toks : list token) : list (list token) :=
  match after_open toks with None => [] | Some toks => split_definitions 0 [] [] toks end.

(** The loop of parenGroup, inside the group; [depth] is one less than the
    source's. *)
Fixpoint paren_group (depth : nat) (toks : list token) : list token * list token :=
  match toks with
  | [] => ([], [])
  | t :: toks =>
      let keep (depth : nat) := let r := paren_group depth toks in (t :: r.1, r.2) in
      if is_open t then keep (S depth)
      else if is_close t then match depth with O => ([], toks) | S depth => keep depth end
      else keep depth
  end.

(** parenGroup *)
Definition parenGroup (toks : list token) : list token * list token :=
  match toks with
  | t :: toks' => if is_open t then paren_group 0 toks' else ([], toks)
  | [] => ([], [])
  end.

(** identList *)
Fixpoint ident_list (depth : Z) (expect : bool) (toks : list token) : list string :=
  match toks with
  | [] => []
  | t :: toks =>
      if bool_decide (t_kind t = tokPunct) then
        if is_open t then ident_list (depth + 1) expect toks
        else if is_close t then ident_list (depth - 1) expect toks
        else ident_list depth (expect || (is_comma t && bool_decide (depth = 0%Z))) toks
      else if bool_decide (depth = 0%Z) && expect && isIdent t then t_s t :: ident_list depth false toks
      else ident_list depth expect toks
  end.
Definition identList (toks : list token) : list string := ident_list 0 true toks.

(** identsIn *)
Definition identsIn (toks : list token) : list string := map t_s (filter (fun t => isIdent t = true) toks).

(** filterColumns *)
Definition filterColumns (names : list string) (columns : gset string) : list string := filter (fun n => n ∈ columns) names.

(** [d[i].s == "("]: the text only, whatever the kind *)
Definition text_open (d : list token) : bool :=
  match d with t :: _ => bool_decide (t_s t = String lparen "") | [] => false end.
Definition upper_at (d : list token) : string := match d with t :: _ => upper t | [] => "" end.

(** tableConstraintKind: the kind, and the tokens from the index it returns *)
Definition tableConstraintKind (d : list token) : string * list token :=
  let two (kind : string) :=
    if bool_decide (upper_at (tail d) = "KEY") && text_open (tail (tail d)) then (kind, tail (tail d)) else ("", d) in
  let one (kind : string) := if text_open (tail d) then (kind, tail d) else ("", d) in
  let u := upper_at d in
  if bool_decide (u = "PRIMARY") then two "PRIMARY KEY"
  else if bool_decide (u = "UNIQUE") then one "UNIQUE"
  else if bool_decide (u = "CHECK") then one "CHECK"
  else if bool_decide (u = "FOREIGN") then two "FOREIGN KEY"
  else ("", d).

(** parseReferences *)
Fixpoint parseReferences (d : list token) : string * list string :=
  match d with
  | [] => ("", [])
  | t :: d' =>
      if bool_decide (upper t = "REFERENCES") then
        match d' with
        | name :: d'' =>
            if isIdent name
            then (t_s name, if text_open d'' then identList (parenGroup d'').1 else [])
            else ("", [])
        | [] => ("", [])
        end
      else parseReferences d'
  end.

(** One turn of the loop of parseColumnDef at the first token of d: the new
    name, the column, what is appended, and what is left *)
Definition column_step (name : string) (col : columnDef) (t : token) (d : list token)
    : string * columnDef * list constraintDef * list token :=
  let u := upper t in
  if bool_decide (u = "CONSTRAINT") then
    match d with n :: d' => (t_s n, col, [], d') | [] => (name, col, [], []) end
  else if bool_decide (u = "AUTOINCREMENT") then ("", mkColumnDef (cd_Name col) true (cd_Collation col), [], d)
  else if bool_decide (u = "COLLATE") then
    match d with
    | n :: d' => ("", mkColumnDef (cd_Name col) (cd_AutoIncrement col) (t_s n), [], d')
    | [] => ("", col, [], [])
    end
  else if bool_decide (u = "UNIQUE") then ("", col, [mkConstraintDef name "UNIQUE" [cd_Name col] "" []], d)
  else if bool_decide (u = "CHECK") then
    if text_open d then
      let r := parenGroup d in ("", col, [mkConstraintDef name "CHECK" (identsIn r.1) "" []], r.2)
    else ("", col, [], d)
  else if bool_decide (u = "REFERENCES") then
    let r := parseReferences (t :: d) in
    ("", col, [mkConstraintDef name "FOREIGN KEY" [cd_Name col] r.1 r.2],
     if text_open (tail d) then (parenGroup (tail d)).2 else tail d)
  else (name, col, [], d).

Fixpoint parse_column (fuel : nat) (name : string) (col : columnDef) (defs : list constraintDef) (d : list token)
    : columnDef * list constraintDef :=
  match fuel, d with
  | S fuel, t :: d =>
      let '(name, col, more, rest) := column_step name col t d in parse_column fuel name col (defs ++ more) rest
  | _, _ => (col, defs)
  end.

(** parseColumnDef, at the token that names the column *)
Definition parseColumnDef (d : list token) : columnDef * list constraintDef :=
  match d with
  | t :: d => parse_column (length d) "" (mkColumnDef (t_s t) false "") [] d
  | [] => (mkColumnDef "" false "", [])
  end.

(** nextUnnamed, for a constraint without a name *)
Definition unnamed_name (n : Z) : string := "__unnamed_constraint_" +:+ itoa n +:+ "__".
Definition name_constraint (acc : Z * tableDef) (c : constraintDef) : Z * tableDef :=
  let add c := mkTableDef (td_Columns acc.2) (td_Constraints acc.2 ++ [c]) in
  if bool_decide (cn_Name c = "")
  then let n := (acc.1 + 1)%Z in
       (n, add (mkConstraintDef (unnamed_name n) (cn_Kind c) (cn_Columns c) (cn_ToTable c) (cn_ToCols c)))
  else (acc.1, add c).

(** The name of a table constraint, and what follows it *)
Definition constraint_name (d : list token) : string * list token :=
  match d with
  | t :: n :: d' => if bool_decide (upper t = "CONSTRAINT") then (t_s n, d') else ("", d)
  | _ => ("", d)
  end.

(** The body of the loop of parseTableDef *)
Definition parse_definition (acc : Z * tableDef) (d : list token) : Z * tableDef :=
  let '(name, d) := constraint_name d in
  match d with
  | [] => acc
  | t :: _ =>
      let '(kind, next) := tableConstraintKind d in
      if bool_decide (kind = "PRIMARY KEY" ∨ kind = "UNIQUE")
      then name_constraint acc (mkConstraintDef name kind (identList (parenGroup next).1) "" [])
      else if bool_decide (kind = "CHECK")
      then name_constraint acc (mkConstraintDef name "CHECK" (identsIn (parenGroup next).1) "" [])
      else if bool_decide (kind = "FOREIGN KEY") then
        let '(cols, after) := parenGroup next in
        let '(toTable, toCols) := parseReferences after in
        name_constraint acc (mkConstraintDef name "FOREIGN KEY" (identList cols) toTable toCols)
      else if negb (bool_decide (name = "")) || negb (isIdent t) then acc
      else
        let '(col, defs) := parseColumnDef d in
        fold_left name_constraint defs
          (acc.1, mkTableDef (td_Columns acc.2 ++ [col]) (td_Constraints acc.2))
  end.

(** parseTableDef *)
Definition parseTableDef (sql : string) : tableDef :=
  (fold_left parse_definition (splitDefinitions (tokenize sql)) (0%Z, mkTableDef [] [])).2.

(** indexColumnOrders *)
Definition order_of (last : string) : string := if EqualFold last "DESC" then "DESC" else "ASC".
Fixpoint column_orders (depth : Z) (last : string) (seen : bool) (out : list string) (body : list token) : list string :=
  match body with
  | [] => if seen || negb (bool_decide (out = [])) then out ++ [order_of last] else out
  | t :: body =>
      if bool_decide (t_kind t = tokPunct) then
        if is_open t then column_orders (depth + 1) last seen out body
        else if is_close t then column_orders (depth - 1) last seen out body
        else if is_comma t && bool_decide (depth = 0%Z) then column_orders depth "" false (out ++ [order_of last]) body
        else column_orders depth last seen out body
      else column_orders depth (t_s t) true out body
  end.

(** The tokens from the first opening parenthesis on *)
Definition indexColumnOrders (sql : string) : list string :=
  match after_open (tokenize sql) with
  | None => []
  | Some rest => column_orders 0 "" false [] (parenGroup (punct lparen :: rest)).1
  end.
