(* ===== verification/Sqlite3.v ===== *)
(** * The SQLite backend: backends/sqlite3/sqlite3.go

    SQLite alters little of a table in place: most changes make the table
    anew, copy its rows and put it in the place of the old one. The methods
    here replace those of the base editor; [sqlite_layer] puts them together.

    The fields remakeTemp and remakeOrig of the editor are set for one call of
    CreateModel only, so they are arguments here: [outer temp orig] is the
    editor while the table orig is made anew as temp, and [outer] of two empty
    texts is the editor otherwise. *)

From S2P Require Import Prelude GoStd Keys Errors Fields Index ModelState Apps ProjectState Operation SchemaEditor.
From S2P Require Import OpDatabase Effects Names Grammar References Backend EditorSQL EditorOps EditorAlter BaseEditor SplitSQL Literals.

(** ** Versions *)

(** strings.IndexFunc with a cut: the digits a text starts with *)
Definition leading_number (part : string) : string := (span byte_is_digit part).1.

(** parseVersion *)
Definition next_part (rest : string) : Z * string :=
  let '(part, tail) := match Cut rest dot with Some p => p | None => (rest, "") end in (atoi (leading_number part), tail).
Definition parseVersion (v : string) : version :=
  let '(a, rest) := next_part (TrimSpace v) in
  let '(b, rest) := next_part rest in
  let '(c, _) := next_part rest in (a, b, c).

(** compareVersion *)
Definition compareVersion (v : string) (want : version) : comparison := compare_versions (parseVersion v) want.

Definition minVersion : version := (3, 31, 0)%Z.
Definition dropColumnVersion : version := (3, 35, 5)%Z.

(** ** What mentions a column *)

(** The closure isWord *)
Definition isWord (b : ascii) : bool := bool_decide (b = "_"%char) || byte_is_digit b || byte_is_lower b || byte_is_upper b.

Definition word_start (s : string) : bool := match s with String c _ => isWord c | EmptyString => false end.

(** The loop of mentionsColumn, with whether the byte before is part of a
    word *)
Fixpoint mentions (before : bool) (sql column : string) : bool :=
  (HasPrefix sql column && negb before && negb (word_start (TrimPrefix sql column))) ||
  match sql with
  | String c sql' => mentions (isWord c) sql' column
  | EmptyString => false
  end.

(** mentionsColumn *)
Definition mentionsColumn (sql column : string) : bool :=
  if bool_decide (column = "") then false else mentions false sql column.

(** indexCovers *)
Definition index_field_covers (column : string) (f : IndexField) : bool :=
  bool_decide (if_Column f = column) ||
  (negb (bool_decide (if_Expression f = "")) && mentionsColumn (if_Expression f) column).
Definition indexCovers (ix : Index) (column : string) : bool :=
  existsb (index_field_covers column) (elems (ix_Fields ix)) ||
  (negb (bool_decide (ix_Where ix = "")) && mentionsColumn (ix_Where ix) column).

(** columnIsIndexed *)
Definition columnIsIndexed (m : Model) (column : string) : bool :=
  existsb (fun ix => indexCovers ix column) (opt_Indexes (model_options m)) ||
  existsb (fun ut => bool_decide (column ∈ ut)) (opt_UniqueTogether (model_options m)).

(** columnInConstraint *)
Definition constraint_uses (column : string) (c : Constraint) : bool :=
  match c with
  | CCheck x => mentionsColumn (cc_Check x) column
  | CUnique x => bool_decide (column ∈ elems (uc_Fields x) ++ elems (uc_Include x)) || mentionsColumn (uc_Condition x) column
  | CForeignKey x => bool_decide (column ∈ elems (fkc_Fields x))
  end.
Definition columnInConstraint (m : Model) (column : string) : bool :=
  existsb (constraint_uses column) (opt_Constraints (model_options m)).

(** remakeOnly *)
Definition remakeOnly (c : Constraint) : bool :=
  match c with
  | CUnique u => bool_decide (uc_Condition u = "") && bool_decide (elems (uc_Include u) = []) && bool_decide (uc_Deferrable u = "")
  | _ => true
  end.

(** ** The copy map: mapping *)

Notation mapping := (list (string * string)).

(** mapping.set *)
Fixpoint map_set (col expr : string) (mp : mapping) : mapping :=
  match mp with
  | [] => [(col, expr)]
  | p :: mp => if bool_decide (p.1 = col) then (col, expr) :: mp else p :: map_set col expr mp
  end.

(** The first entry of a column becomes another one. *)
Fixpoint replace_first (oldCol newCol expr : string) (mp : mapping) : option mapping :=
  match mp with
  | [] => None
  | p :: mp => if bool_decide (p.1 = oldCol) then Some ((newCol, expr) :: mp) else cons p <$> replace_first oldCol newCol expr mp
  end.

(** mapping.replace *)
Definition map_replace (oldCol newCol expr : string) (mp : mapping) : mapping :=
  match replace_first oldCol newCol expr mp with Some mp => mp | None => map_set newCol expr mp end.

(** mapping.remove *)
Fixpoint map_remove (col : string) (mp : mapping) : mapping :=
  match mp with
  | [] => []
  | p :: mp => if bool_decide (p.1 = col) then mp else p :: map_remove col mp
  end.

(** ** The new table *)

Definition fld_set_PrimaryKey (b : bool) (f : Field) : Field :=
  mkField (fld_Type f) (fld_Size f) (fld_Precision f) (fld_Scale f) b (fld_AutoIncrement f) (fld_AutoIncrementIncrement f)
    (fld_Null f) (fld_Unique f) (fld_DBDefault f) (fld_Default f) (fld_Comment f) (fld_Custom f) (fld_Tags f)
    (fld_ForeignKey f) (fld_AutoNowAdd f) (fld_AutoNow f) (fld_Serializer f).
Definition fp_set_Field (d : Field) (f : FieldPtr) : FieldPtr :=
  let mf := fp_Field f in
  mkFieldPtr (fp_Apps f) (mkModelField (mf_Model mf) (mf_Name mf) d (mf_Column mf) (mf_Remote mf) (mf_RemoteField mf)).

(** A field that is changed, with what it becomes *)
Notation alteration := (FieldPtr * FieldPtr)%type.

Definition fp_Name (f : FieldPtr) : string := mf_Name (fp_Field f).
Definition fp_Column (f : FieldPtr) : string := mf_Column (fp_Field f).
Definition is_pk (f : FieldPtr) : bool := fld_PrimaryKey (mf_Field (fp_Field f)).
Definition dbdefault_of (f : FieldPtr) : option DBDefault := fld_DBDefault (mf_Field (fp_Field f)).

(** introducesPK *)
Definition introducesPK (create : option FieldPtr) (alter : list alteration) : bool :=
  match create with Some f => is_pk f | None => false end || existsb (fun a => is_pk a.2) alter.

(** The old primary key goes when there is a new one. *)
Definition drop_old_pk (create : option FieldPtr) (alter : list alteration) (f : FieldPtr) : FieldPtr :=
  if introducesPK create alter && is_pk f && negb (existsb (fun a => bool_decide (fp_Name a.2 = fp_Name f)) alter)
  then fp_set_Field (fld_set_PrimaryKey false (mf_Field (fp_Field f))) f else f.

(** body[i] = nf, or the field at the end *)
Fixpoint put_field (name : string) (nf : FieldPtr) (body : list FieldPtr) : list FieldPtr :=
  match body with
  | [] => [nf]
  | f :: body => if bool_decide (fp_Name f = name) then nf :: body else f :: put_field name nf body
  end.
Fixpoint take_field (name : string) (body : list FieldPtr) : list FieldPtr :=
  match body with
  | [] => []
  | f :: body => if bool_decide (fp_Name f = name) then body else f :: take_field name body
  end.

(** The closure rename *)
Definition rename_in (renames : gmap string string) (n : string) : string := default n (renames !! n).

Definition if_set_Column (c : string) (f : IndexField) : IndexField :=
  mkIndexField c (if_Expression f) (if_Sort f) (if_Collate f) (if_Length f).
Definition ix_set_Fields (fs : slice IndexField) (ix : Index) : Index :=
  mkIndex (ix_Name ix) fs (ix_Unique ix) (ix_Class ix) (ix_Type ix) (ix_Where ix) (ix_Include ix) (ix_OpClasses ix)
    (ix_Comment ix) (ix_Option ix).

(** The options of the new table *)
Definition remake_options (renames : gmap string string) (deleted : option FieldPtr) (o : Options) : Options :=
  let o := Options_Clone o in
  let keep ix := match deleted with Some f => negb (indexCovers ix (fp_Column f)) | None => true end in
  opt_set_Indexes
    (map (fun ix => ix_set_Fields (map (fun f => if_set_Column (rename_in renames (if_Column f)) f) <$> ix_Fields ix) ix)
       (List.filter keep (opt_Indexes o)))
    (opt_set_UniqueTogether (map (map (rename_in renames)) (opt_UniqueTogether o)) o).

(** The fields of the new model are of several registries: of the table's own
    and, for a field that is created or altered, of the state after. Each
    model they point at gets a key of its own in the registry of the new
    model, in an app that no key of that registry has. *)
Definition new_app (a : Apps) : string := fresh (set_map (D := gset string) mk_App (dom (apps_models a))).

(** A pointer into another registry, as a key of this one *)
Definition import (a : Apps) (from : Apps) (name : string) (k : ModelKey) (reg : gmap ModelKey Model) : gmap ModelKey Model :=
  match apps_models from !! k with
  | Some m => <[mkModelKey (new_app a) name := m]> reg
  | None => reg
  end.

Definition remote_key (a : Apps) (i : nat) : ModelKey := mkModelKey (new_app a) ("remote" +:+ itoa (Z.of_nat i)).
Definition target_key (a : Apps) (i : nat) : ModelKey := mkModelKey (new_app a) ("target" +:+ itoa (Z.of_nat i)).
Definition new_key (a : Apps) : ModelKey := mkModelKey (new_app a) "model".

Definition import_remotes (a : Apps) (body : list FieldPtr) : gmap ModelKey Model :=
  fold_left (fun reg p =>
    let '(i, f) := p in
    let reg := match mf_Remote (fp_Field f) with
               | Some k => import a (fp_Apps f) (mk_Model (remote_key a i)) k reg | None => reg end in
    match mf_RemoteField (fp_Field f) with
    | Some r => import a (fp_Apps f) (mk_Model (target_key a i)) r.1 reg | None => reg end)
    (imap pair body) (apps_models a).

(** Whether a field points back at the table that is made anew *)
Definition points_at (table : string) (f : FieldPtr) : bool := bool_decide (m_Table <$> fp_Remote f = Some table).

(** A field of the new model. One that points back at the old table points at
    the new one, and at the field there that has the name of its target. *)
Definition remake_field (a : Apps) (table : string) (renames : gmap string string) (names : list string)
    (i : nat) (f : FieldPtr) : ModelField :=
  let mf := fp_Field f in
  let there := (fun r => (target_key a i, r.2)) <$> mf_RemoteField mf in
  if points_at table f then
    let target := g ← fp_RemoteField f; index_func (fun n => bool_decide (n = rename_in renames (mf_Name g))) names in
    mkModelField (new_key a) (mf_Name mf) (mf_Field mf) (mf_Column mf) (Some (new_key a))
      (match target with Some j => Some (new_key a, j) | None => there end)
  else mkModelField (new_key a) (mf_Name mf) (mf_Field mf) (mf_Column mf) ((fun _ => remote_key a i) <$> mf_Remote mf) there.

Definition new_table (table : string) : string := "new__" +:+ table.

(** The new model, in its registry *)
Definition remake_model (m : ModelPtr) (body : list FieldPtr) (renames : gmap string string) (deleted : option FieldPtr)
    : ModelPtr :=
  let a := mp_Apps m in
  let state := mkModelState (m_App m) (m_Name m) (new_table (m_Table m))
                 (map (fun f => mkNamedField (fp_Name f) (mf_Field (fp_Field f))) body)
                 (remake_options renames deleted (model_options m)) in
  let fields := imap (remake_field a (m_Table m) renames (map fp_Name body)) body in
  let model := mkModel state (ms_App state) (ms_Name state) (ms_Table state) fields in
  mkModelPtr (mkApps (<[new_key a := model]> (import_remotes a body)) (apps_order a)) model.

(** ** The grammar *)

(** AddUnique, DropUnique, TableComment and ColumnComment replaced *)
Definition sqlite_Grammar : Grammar := {|
  g_CreateTable := @g_CreateTable BaseGrammar;
  g_RenameTable := @g_RenameTable BaseGrammar;
  g_DropTable := @g_DropTable BaseGrammar;
  g_TableComment _ _ := "";
  g_AddColumn := @g_AddColumn BaseGrammar;
  g_DropColumn := @g_DropColumn BaseGrammar;
  g_RenameColumn := @g_RenameColumn BaseGrammar;
  g_ColumnComment _ _ _ _ := "";
  g_FillColumnDefault := @g_FillColumnDefault BaseGrammar;
  g_AlterTable := @g_AlterTable BaseGrammar;
  g_AlterColumnType := @g_AlterColumnType BaseGrammar;
  g_AlterColumnNull := @g_AlterColumnNull BaseGrammar;
  g_AlterColumnNotNull := @g_AlterColumnNotNull BaseGrammar;
  g_AlterColumnDefault := @g_AlterColumnDefault BaseGrammar;
  g_AlterColumnDropDefault := @g_AlterColumnDropDefault BaseGrammar;
  g_AlterColumnDropDefaultNull := @g_AlterColumnDropDefaultNull BaseGrammar;
  g_NamedConstraint := @g_NamedConstraint BaseGrammar;
  g_PrimaryKeyConstraint := @g_PrimaryKeyConstraint BaseGrammar;
  g_UniqueConstraint := @g_UniqueConstraint BaseGrammar;
  g_CheckConstraint := @g_CheckConstraint BaseGrammar;
  g_AddCheck := @g_AddCheck BaseGrammar;
  g_AddUnique table name columns _ _ := "CREATE UNIQUE INDEX " +:+ name +:+ " ON " +:+ table +:+ " (" +:+ columns +:+ ")";
  g_AddPrimaryKey := @g_AddPrimaryKey BaseGrammar;
  g_AddForeignKey := @g_AddForeignKey BaseGrammar;
  g_DropCheck := @g_DropCheck BaseGrammar;
  g_DropUnique _ name := "DROP INDEX " +:+ name;
  g_DropPrimaryKey := @g_DropPrimaryKey BaseGrammar;
  g_DropForeignKey := @g_DropForeignKey BaseGrammar;
  g_DropConstraint := @g_DropConstraint BaseGrammar;
  g_CreateIndex := @g_CreateIndex BaseGrammar;
  g_CreateUniqueIndex := @g_CreateUniqueIndex BaseGrammar;
  g_DropIndex := @g_DropIndex BaseGrammar;
  g_RenameIndex := @g_RenameIndex BaseGrammar;
|}.

(** Features *)
Definition sqlite_Features : Features :=
  mkFeatures true true false true true false false true true false false false true true false false true true false false.

(** ** The editor *)

(** What the editor reads of its connection: the version, PRAGMA foreign_keys,
    PRAGMA foreign_key_check, and pragma_foreign_key_list in order *)
Record Violation := mkViolation { vi_table : string; vi_rowid : string; vi_refTo : string; vi_fkIndex : Z }.
Record fkRow := mkFkRow { fk_ID : Z; fk_Seq : Z; fk_Table : string; fk_From : string; fk_ToColumn : string }.

Class Sqlite (D : Type) := {
  sq_Version : string;
  sq_foreign_keys : io D Z;
  sq_foreign_key_check : io D (list Violation);
  sq_foreign_key_list : string → io D (list fkRow);
}.

Section editor.
Context {D : Type} `{Backend D} `{Sqlite D} `{Formatting} (outer : string → string → Overrides D).
Notation IO A := (io (World D) A).
#[local] Existing Instance be_Grammar.

(** e.Self() when no table is being made anew *)
Definition self : Overrides D := outer "" "".

(** Editor.UniqueName *)
Definition sqlite_UniqueName (temp orig : string) (m : ModelPtr) (f : FieldPtr) : string :=
  if negb (bool_decide (temp = "")) && bool_decide (m_Table m = temp)
  then NamingUniqueName orig (mf_Column (fp_Field f)) else Editor_UniqueName m f.

(** Editor.ColumnSQL; [o] is e.Self(). *)
Definition sqlite_ColumnSQL (o : Overrides D) (m : ModelPtr) (f : FieldPtr) (includeDefault : bool) : IO string :=
  typ ← lift (ColumnType m f);
  def ← default_clause o f includeDefault;
  mret (Join ([typ] ++ (if fld_Null (mf_Field (fp_Field f)) then [] else ["NOT NULL"]) ++ def) " ").

(** Editor.DBDefaultSQL, gormLiteral, gormLiteralOptions *)
Definition sqlite_literal_options : GormLiteralOptions := mkGormLiteralOptions (String dquote "") "" "" None.
Definition sqlite_gormLiteral (v : option any) : outcome string := GormLiteral v sqlite_literal_options.
Definition sqlite_DBDefaultSQL (f : FieldPtr) : IO string :=
  d ← lift (deref (dbdefault_of f));
  if bool_decide (dbd_Expr d = "") then lift (sqlite_gormLiteral (dbd_Value d)) else mret (dbd_Expr d).

(** Editor.dbDefaultValueSQL *)
Definition dbDefaultValueSQL (f : FieldPtr) : IO string :=
  d ← lift (deref (dbdefault_of f));
  if bool_decide (dbd_Expr d = "") then lift (be_QuoteValue (dbd_Value d)) else mret (dbd_Expr d).

(** Statement.Tables renamed: only the references of the statement itself *)
Definition rename_table (from to : string) (r : Reference) : Reference :=
  match r with RTable n => RTable (rename_one n from to) | _ => r end.
Definition st_map_refs (f : Reference → Reference) (s : Statement) : Statement :=
  mkStatement (map f (st_refs s)) (st_render s) (st_kind s) (st_name s).

(** Editor.CompositeFKSQL *)
Definition sqlite_CompositeFKSQL (temp orig : string) (m : ModelPtr) (c : ForeignKeyConstraint) : IO (option Statement) :=
  st ← Editor_CompositeFKSQL m c;
  if negb (bool_decide (temp = "")) && bool_decide (m_Table m = temp)
  then mret (st_map_refs (rename_table orig temp) <$> st) else mret st.

(** ** remakeTable *)

Definition quoted_default (f : FieldPtr) : IO string := v ← EffectiveDefault (fp_Field f); lift (be_QuoteValue v).

(** The created field: its column takes the default, unless the database
    gives one *)
Definition map_created (create : option FieldPtr) (mp : mapping) : IO mapping :=
  match create with
  | None => mret mp
  | Some f =>
      match dbdefault_of f with
      | Some _ => mret mp
      | None => def ← quoted_default f; mret (map_set (fp_Column f) def mp)
      end
  end.

(** What an altered column is copied from *)
Definition copied_from (a : alteration) : IO string :=
  let '(old, new) := a in
  if fld_Null (mf_Field (fp_Field old)) && negb (fld_Null (mf_Field (fp_Field new))) then
    def ← (match dbdefault_of new with None => quoted_default new | Some _ => dbDefaultValueSQL new end);
    mret ("coalesce(" +:+ QuoteName (fp_Column old) +:+ ", " +:+ def +:+ ")")
  else mret (QuoteName (fp_Column old)).

(** The loop over the altered fields: the body, the copy map, the renames *)
Definition alter_body (st : list FieldPtr * mapping * gmap string string) (a : alteration)
    : IO (list FieldPtr * mapping * gmap string string) :=
  let '(body, mp, renames) := st in
  let '(old, new) := a in
  expr ← copied_from a;
  mret (put_field (fp_Name old) new body, map_replace (fp_Column old) (fp_Column new) expr mp,
        <[fp_Name old := fp_Name new]> renames).

(** The fields of the new table, where its rows come from, and the renames *)
Definition remake_plan (m : ModelPtr) (create deleted : option FieldPtr) (alter : list alteration)
    : IO (list FieldPtr * mapping * gmap string string) :=
  let mp := fold_left (fun mp f => map_set (fp_Column f) (QuoteName (fp_Column f)) mp) (model_fields m) [] in
  let body := map (drop_old_pk create alter) (model_fields m) ++ match create with Some f => [f] | None => [] end in
  mp ← map_created create mp;
  st ← fold_io alter_body (body, mp, ∅) alter;
  let '(body, mp, renames) := st in
  mret match deleted with
       | Some f => (take_field (fp_Name f) body, map_remove (fp_Column f) mp, renames)
       | None => (body, mp, renames)
       end.

(** The data-copying INSERT *)
Definition copy_sql (table : string) (mp : mapping) : string :=
  "INSERT INTO " +:+ QuoteName (new_table table) +:+ " (" +:+ Join (map (fun p => QuoteName p.1) mp) ", " +:+
  ") SELECT " +:+ Join (map snd mp) ", " +:+ " FROM " +:+ QuoteName table.

(** Editor.remakeTable *)
Definition remakeTable (m : ModelPtr) (create deleted : option FieldPtr) (alter : list alteration) : IO unit :=
  plan ← remake_plan m create deleted alter;
  let '(body, mp, renames) := plan in
  let newModel := remake_model m body renames deleted in
  _ ← Editor_CreateModel (outer (new_table (m_Table m)) (m_Table m)) newModel;
  _ ← (if bool_decide (mp = []) then mret tt else Execute_ (copy_sql (m_Table m) mp));
  _ ← Editor_DeleteModel m;
  _ ← Editor_AlterDBTable newModel (new_table (m_Table m)) (m_Table m);
  e ← editor_state;
  _ ← for_io (es_deferred e) exec_statement;
  RemoveDeferred (fun _ => true).

(** ** Fields and constraints *)

Definition is_some {A} (o : option A) : bool := match o with Some _ => true | None => false end.

(** Editor.AddField: the default is read only when nothing before it asks for
    a new table. *)
Definition sqlite_AddField (m : ModelPtr) (f : FieldPtr) : IO unit :=
  let d := mf_Field (fp_Field f) in
  let remake := remakeTable m (Some f) None [] in
  if fld_PrimaryKey d || fld_Unique d || negb (fld_Null d) then remake
  else
    v ← EffectiveDefault (fp_Field f);
    if is_some v || match fld_DBDefault d with Some x => negb (bool_decide (dbd_Expr x = "")) | None => false end ||
       is_some (fld_ForeignKey d)
    then remake else Editor_AddField self m f.

(** Editor.canAlterTableDropColumn *)
Definition canAlterTableDropColumn : bool := match compareVersion sq_Version dropColumnVersion with Lt => false | _ => true end.

(** Editor.RemoveField *)
Definition dropped_in_place (m : Model) (f : FieldPtr) : bool :=
  let d := mf_Field (fp_Field f) in
  canAlterTableDropColumn && negb (fld_PrimaryKey d) && negb (fld_Unique d) && negb (columnIsIndexed m (fp_Column f)) &&
  negb (columnInConstraint m (fp_Column f)) && negb (is_some (fld_ForeignKey d)).
Definition sqlite_RemoveField (m : ModelPtr) (f : FieldPtr) : IO unit :=
  if dropped_in_place m f then Editor_RemoveField self m f else remakeTable m None (Some f) [].

(** The tables whose keys point at an altered field are made anew, each once. *)
Fixpoint remake_related (new : FieldPtr) (done : gset string) (rels : list FieldPtr) : IO unit :=
  match rels with
  | [] => mret tt
  | rel :: rels =>
      match fp_RemoteField rel, fp_Model rel with
      | Some g, Some m =>
          if negb (bool_decide (mf_Column g = fp_Column new)) || bool_decide (m_Table m ∈ done)
          then remake_related new done rels
          else _ ← remakeTable m None None []; remake_related new ({[m_Table m]} ∪ done) rels
      | _, _ => remake_related new done rels
      end
  end.

Definition only_renamed (m : ModelPtr) (old new : FieldPtr) : IO bool :=
  if negb (bool_decide (fp_Column old = fp_Column new)) && negb (is_some (fld_ForeignKey (mf_Field (fp_Field old)))) &&
     negb (is_some (fld_ForeignKey (mf_Field (fp_Field new))))
  then oldSQL ← o_ColumnSQL self m old false; newSQL ← o_ColumnSQL self m new false; mret (bool_decide (oldSQL = newSQL))
  else mret false.

(** Editor.PerformAlterField *)
Definition sqlite_PerformAlterField (m : ModelPtr) (old new : FieldPtr) (oldType newType : string) (strict : bool) : IO unit :=
  renamed ← only_renamed m old new;
  if renamed : bool then Execute_ (o_RenameFieldSQL self (m_Table m) old new newType)
  else
    _ ← remakeTable m None None [(old, new)];
    let d := mf_Field (fp_Field new) in
    if negb (fld_Unique d || fld_PrimaryKey d) || bool_decide (oldType = newType) then mret tt
    else
      owner ← lift (deref (fp_Model new));
      remake_related new {[m_Table m]} (related_ptrs owner).

(** Editor.AddConstraint, Editor.RemoveConstraint *)
Definition sqlite_AddConstraint (m : ModelPtr) (c : Constraint) : IO unit :=
  if remakeOnly c then remakeTable m None None [] else Editor_AddConstraint self m c.
Definition sqlite_RemoveConstraint (m : ModelPtr) (c : Constraint) : IO unit :=
  if remakeOnly c then remakeTable m None None [] else Editor_RemoveConstraint self m c.

(** ** The life of an editor *)

Definition foreign_keys_still_on : error :=
  NotSupportedError ("SQLite schema editor cannot be used while foreign key constraint checks are enabled. Make sure " +:+
    "to disable them before entering a transaction.atomic() context because SQLite does not support disabling them " +:+
    "in the middle of a multi-statement transaction").

(** Editor.disableConstraintChecking *)
Definition disableConstraintChecking : IO unit :=
  _ ← conn_Exec "PRAGMA foreign_keys = OFF" [];
  enabled ← on_db sq_foreign_keys;
  if bool_decide (enabled = 0%Z) then mret tt else lift (Err foreign_keys_still_on).

(** Editor.Begin *)
Definition sqlite_Begin : IO unit :=
  e ← editor_state;
  _ ← (if es_collect e then Editor_AddCollected ["PRAGMA foreign_keys = OFF;"] else disableConstraintChecking);
  Editor_Begin.

(** Editor.Finish: foreign keys are checked again whatever the outcome. *)
Definition sqlite_Finish (err : option error) : IO unit :=
  r ← attempt (Editor_Finish err);
  e ← editor_state;
  if es_collect e then
    _ ← Editor_AddCollected ["PRAGMA foreign_keys = ON;"];
    match r with inl _ => mret tt | inr x => lift (Err x) end
  else
    p ← attempt (conn_Exec "PRAGMA foreign_keys = ON" []);
    match r, p with
    | inr x, _ => lift (Err x)
    | inl _, inr y => lift (Err y)
    | inl _, inl _ => mret tt
    end.

Definition violation_error (v : Violation) (from to : string) : error :=
  PlainError ("the row in table '" +:+ vi_table v +:+ "' with rowid '" +:+ vi_rowid v +:+ "' has an invalid foreign key: " +:+
    vi_table v +:+ "." +:+ from +:+ " does not have a corresponding value in " +:+ vi_refTo v +:+ "." +:+ to).

(** Editor.checkConstraints, which NewEditor makes the PreCommit hook *)
Definition checkConstraints : IO unit :=
  e ← editor_state;
  if es_collect e then mret tt
  else
    vs ← on_db sq_foreign_key_check;
    match vs with
    | [] => mret tt
    | v :: _ =>
        rels ← on_db (sq_foreign_key_list (vi_table v));
        let '(from, to) := match List.find (fun r => bool_decide (fk_ID r = vi_fkIndex v)) rels with
                           | Some r => (fk_From r, fk_ToColumn r) | None => ("", "") end in
        lift (Err (violation_error v from to))
    end.

(** InitConnectionState *)
Definition sqlite_InitConnectionState : IO unit :=
  _ ← conn_Exec "PRAGMA foreign_keys = ON" []; conn_Exec "PRAGMA legacy_alter_table = OFF" [].
End editor.

(** The overrides of the SQLite editor over those of the base editor *)
Section layers.
Context {D : Type} `{Backend D} `{Sqlite D} `{Formatting}.

Definition sqlite_layer (outer : string → string → Overrides D) (temp orig : string) : Overrides D :=
  let o := outer temp orig in
  let b := layer o in {|
  o_ColumnSQL := sqlite_ColumnSQL o;
  o_SkipDefault := o_SkipDefault b;
  o_SkipDefaultOnAlter := o_SkipDefaultOnAlter b;
  o_DBDefaultSQL := sqlite_DBDefaultSQL;
  o_TableSQL := o_TableSQL b;
  o_UniqueName := sqlite_UniqueName temp orig;
  o_AlterColumnTypeSQL := o_AlterColumnTypeSQL b;
  o_AlterColumnNullSQL := o_AlterColumnNullSQL b;
  o_AlterColumnDefaultSQL := o_AlterColumnDefaultSQL b;
  o_AlterColumnDatabaseDefaultSQL := o_AlterColumnDatabaseDefaultSQL b;
  o_AlterColumnCommentSQL := o_AlterColumnCommentSQL b;
  o_RenameFieldSQL := o_RenameFieldSQL b;
  o_CreateFKSQL := o_CreateFKSQL b;
  o_CompositeFKSQL := sqlite_CompositeFKSQL temp orig;
  o_CreateIndexSQL := o_CreateIndexSQL b;
  o_DeleteIndexSQL := o_DeleteIndexSQL b;
  o_RenameIndexSQL := o_RenameIndexSQL b;
  o_CreatePrimaryKeySQL := o_CreatePrimaryKeySQL b;
  o_ConstraintSQL := o_ConstraintSQL b;
  o_CreateConstraintSQL := o_CreateConstraintSQL b;
  o_RemoveConstraintSQL := o_RemoveConstraintSQL b;
  o_PerformAlterField := sqlite_PerformAlterField outer;
  o_ExecDrop := o_ExecDrop b;
  o_DeletePrimaryKey := o_DeletePrimaryKey b;
  o_DeleteComposedIndex := o_DeleteComposedIndex b;
  o_AddIndex := o_AddIndex b;
  o_RemoveIndex := o_RemoveIndex b;
  o_AlterDBTableComment := o_AlterDBTableComment b;
|}.

(** The method table of an editor whose methods reach one another five deep
    at most; below is [below]. *)
Fixpoint sqlite_overrides (below : Overrides D) (depth : nat) (temp orig : string) : Overrides D :=
  match depth with
  | O => below
  | S depth => sqlite_layer (sqlite_overrides below depth) temp orig
  end.

(** The n-th editor as the operations see it: AddField, RemoveField,
    AddConstraint and RemoveConstraint are SQLite's, and PrepareSQLScript is
    that of its Ops. *)
Definition sqlite_SchemaEditor (outer : string → string → Overrides D) (n : nat) (collect atomic : bool)
    : SchemaEditor (Session D) :=
  let o := outer "" "" in
  let b := base_SchemaEditor o (fun _ => None) n collect atomic in {|
  Vendor := @Vendor _ b;
  AllowMigrate := @AllowMigrate _ b;
  InAtomicBlock := @InAtomicBlock _ b;
  count_extension := @count_extension _ b;
  AtomicMigration := @AtomicMigration _ b;
  Atomic := @Atomic _ b;
  CollectSQL := @CollectSQL _ b;
  CollectedSQL := @CollectedSQL _ b;
  AddCollected := @AddCollected _ b;
  Execute := @Execute _ b;
  PrepareSQLScript := @PrepareSQLScript _ b;
  ed_CreateModel := @ed_CreateModel _ b;
  ed_DeleteModel := @ed_DeleteModel _ b;
  ed_AddField m f := by_editor n (with_field f (sqlite_AddField outer m));
  ed_RemoveField m f := by_editor n (with_field f (sqlite_RemoveField outer m));
  ed_AlterField := @ed_AlterField _ b;
  ed_AlterDBTable := @ed_AlterDBTable _ b;
  ed_AlterDBTableComment := @ed_AlterDBTableComment _ b;
  ed_AlterUniqueTogether := @ed_AlterUniqueTogether _ b;
  ed_AddIndex := @ed_AddIndex _ b;
  ed_RemoveIndex := @ed_RemoveIndex _ b;
  ed_RenameIndex := @ed_RenameIndex _ b;
  ed_AddConstraint m c := by_editor n (sqlite_AddConstraint outer m c);
  ed_RemoveConstraint m c := by_editor n (sqlite_RemoveConstraint outer m c);
  pg_Editor := None;
  run_code := run_go;
|}.
End layers.
