(* ===== verification/SqliteTheorems.v ===== *)
(** * What the SQLite editor does

    Which columns a fragment mentions, what a remade table is copied from,
    the order of the statements that remake it, and what the methods of the
    editor keep of the state. *)

From S2P Require Import Prelude GoStd Keys Errors Fields Index ModelState Apps ProjectState Operation SchemaEditor.
From S2P Require Import OpDatabase Migration Effects Respects Names Grammar References Backend EditorSQL EditorOps EditorAlter BaseEditor.
From S2P Require Import EditorLemmas EditorTheorems SplitSQL Literals SplitTheorems Sqlite3.

(** ** mentionsColumn *)

Definition word_end (s : string) : bool := match last_byte s with Some c => isWord c | None => false end.

Lemma last_byte_cons c s : last_byte (String c s) = Some (default c (last_byte s)).
Proof.
  revert c. induction s as [|d s IH]; intros c; [done|].
  change (last_byte (String c (String d s))) with (last_byte (String d s)). by rewrite !IH.
Qed.

Lemma HasPrefix_app_iff s p : HasPrefix s p = true ↔ ∃ t, s = p +:+ t.
Proof.
  split; [intros H; eexists; by apply HasPrefix_TrimPrefix|]. intros [t ->]. apply prefix_app.
Qed.

Lemma mentions_spec before sql column : mentions before sql column = true ↔
  ∃ a b, sql = a +:+ column +:+ b ∧ (match last_byte a with Some c => isWord c | None => before end) = false ∧ word_start b = false.
Proof.
  revert before. induction sql as [|c sql IH]; intros before; cbn [mentions]; rewrite orb_true_iff, !andb_true_iff, !negb_true_iff.
  - split.
    + intros [[[Hp Hb] Hw]|]; [|done]. exists "", (TrimPrefix "" column). split; [by apply HasPrefix_TrimPrefix|done].
    + intros (a & b & Heq & Ha & Hb). symmetry in Heq. apply str_app_nil_inv in Heq as [-> Heq].
      apply str_app_nil_inv in Heq as [-> ->]. by left.
  - rewrite IH. split.
    + intros [[[Hp Hb] Hw]|(a & b & -> & Ha & Hb)].
      * exists "", (TrimPrefix (String c sql) column). split; [by apply HasPrefix_TrimPrefix|done].
      * exists (String c a), b. split; [done|]. rewrite last_byte_cons. by destruct (last_byte a).
    + intros (a & b & Heq & Ha & Hb). destruct a as [|d a].
      * rewrite str_app_nil_l in Heq. left. rewrite Heq, TrimPrefix_app. split; [|done]. split; [apply prefix_app|done].
      * rewrite str_app_cons in Heq. injection Heq as -> ->. right. exists a, b. split; [done|].
        rewrite last_byte_cons in Ha. by destruct (last_byte a).
Qed.

(** MentionsColumn reports exactly the occurrences of the name as a whole
    word: with no letter, digit or underscore of ASCII next to it. *)
Theorem mentionsColumn_whole_word sql column : mentionsColumn sql column = true ↔
  column ≠ "" ∧ ∃ a b, sql = a +:+ column +:+ b ∧ word_end a = false ∧ word_start b = false.
Proof.
  unfold mentionsColumn. case_bool_decide as Hc; [naive_solver|]. rewrite mentions_spec. unfold word_end. naive_solver.
Qed.

(** ** The copy map *)

Section mapping.
Implicit Types mp : mapping.







End mapping.

(** ** What a remade table is copied from *)

Section remake.
Context {D : Type} `{Backend D} `{Sqlite D} `{Formatting}.

(** A field whose column has its name, as renderApps makes them *)
Definition plain_field (f : FieldPtr) : Prop := fp_Name f = fp_Column f.
#[export] Instance plain_field_dec f : Decision (plain_field f).
Proof. unfold plain_field. apply _. Defined.



















End remake.

(** ** The statements that remake a table, in order *)

Section order.
Context {D : Type} `{Backend D}.


End order.

#[local] Hint Resolve respects_EffectiveDefault respects_CreateModel respects_DeleteModel respects_AlterDBTable
  respects_AddField respects_RemoveField respects_AddConstraint respects_RemoveConstraint respects_remove_deferred
  respects_exec respects_execute_ respects_editor_state respects_default_clause : respects.

Section remade.
Context {D : Type} `{Backend D} `{Sqlite D} `{Formatting} (outer : string → string → Overrides D).
#[local] Existing Instance be_Grammar.

Section any.
Context (R : relation (World D)) `{!WorldRespects R} `{!∀ temp orig, OverridesRespect R (outer temp orig)}.

Lemma respects_remake_plan m create deleted alter : respects R (remake_plan m create deleted alter).
Proof.
  unfold remake_plan, map_created, alter_body, copied_from, quoted_default, dbDefaultValueSQL, dbdefault_of. respect.
Qed.

Lemma respects_remakeTable m create deleted alter : respects R (remakeTable outer m create deleted alter).
Proof.
  unfold remakeTable. apply respects_bind; [apply _|apply respects_remake_plan|intros [[body mp] renames]]. respect.
Qed.

Lemma respects_remake_related new done rels : respects R (remake_related outer new done rels).
Proof.
  revert done. induction rels as [|rel rels IH]; intros done; cbn [remake_related]; [apply respects_ret; apply _|].
  destruct (fp_RemoteField rel), (fp_Model rel); try apply IH. destruct (_ || _); [apply IH|].
  apply respects_bind; [apply _|apply respects_remakeTable|intros _; apply IH].
Qed.

Lemma respects_sqlite_PerformAlterField m old new t1 t2 strict :
  respects R (sqlite_PerformAlterField outer m old new t1 t2 strict).
Proof.
  unfold sqlite_PerformAlterField, only_renamed, self. apply respects_bind; [apply _|respect|intros renamed].
  destruct renamed; [respect|]. apply respects_bind; [apply _|apply respects_remakeTable|intros _].
  destruct (_ || _); [respect|]. apply respects_bind; [apply _|respect|intros owner]. apply respects_remake_related.
Qed.

Lemma respects_sqlite_AddField m f : respects R (sqlite_AddField outer m f).
Proof.
  unfold sqlite_AddField, self. destruct (_ || _); [apply respects_remakeTable|].
  apply respects_bind; [apply _|respect|intros v]. destruct (_ || _); [apply respects_remakeTable|respect].
Qed.

Lemma respects_sqlite_RemoveField m f : respects R (sqlite_RemoveField outer m f).
Proof. unfold sqlite_RemoveField, self. destruct (dropped_in_place m f); [respect|apply respects_remakeTable]. Qed.

Lemma respects_sqlite_constraints m c :
  respects R (sqlite_AddConstraint outer m c) ∧ respects R (sqlite_RemoveConstraint outer m c).
Proof.
  unfold sqlite_AddConstraint, sqlite_RemoveConstraint, self.
  split; (destruct (remakeOnly c); [apply respects_remakeTable|respect]).
Qed.

(** The SQLite overrides keep what the base editor's keep. *)
#[export] Instance sqlite_layer_respects temp orig : OverridesRespect R (sqlite_layer outer temp orig).
Proof.
  pose proof (layer_respects R (outer temp orig)) as Hl.
  split; intros; cbn [sqlite_layer o_ColumnSQL o_DBDefaultSQL o_CompositeFKSQL o_PerformAlterField];
    try apply Hl; try apply respects_sqlite_PerformAlterField;
    unfold sqlite_ColumnSQL, sqlite_DBDefaultSQL, sqlite_CompositeFKSQL, Editor_CompositeFKSQL; respect.
Qed.
End any.
End remade.

Section remade_order.
Context {D : Type} `{Backend D} `{Sqlite D} `{Formatting} (outer : string → string → Overrides D).
Context `{!∀ temp orig, OverridesRespect collects (outer temp orig)}.
#[local] Existing Instance be_Grammar.



(** Planning asks nothing of the editor. *)
Definition same_editor : relation (World D) := fun w w' => w_editor w' = w_editor w.
#[local] Instance same_editor_preorder : PreOrder same_editor.
Proof. split; [done|]. intros w1 w2 w3 H12 H23. unfold same_editor in *. congruence. Qed.





End remade_order.

(** ** Collecting SQL on SQLite *)

Section sqlmigrate.
Context {D : Type} `{Backend D} `{Sqlite D} `{Formatting} `{!ReadOnly D} (outer : string → string → Overrides D).
Context `{!∀ temp orig, OverridesRespect leaves_db (outer temp orig)}.

#[local] Instance sqlite_collecting n atomic : EditorRespects (at_editor leaves_db n) (sqlite_SchemaEditor outer n true atomic).
Proof.
  pose proof (@collecting_editor D _ _ (outer "" "") (fun _ => None) _ ltac:(done) n atomic) as Hb.
  split; try apply Hb; try (by intros); simpl; intros; apply respects_by_editor.
  - destruct f; [apply respects_sqlite_AddField; apply _|by intros w].
  - destruct f; [apply respects_sqlite_RemoveField; apply _|by intros w].
  - apply (respects_sqlite_constraints outer leaves_db m c).
  - apply (respects_sqlite_constraints outer leaves_db m c).
Qed.

(** The life of an editor around one migration, forwards *)
Definition sqlite_run (n : nat) (atomic : bool) (mig : Migration) (state : ProjectState) : io (Session D) unit :=
  _ ← by_editor n sqlite_Begin;
  r ← attempt (@Apply _ (sqlite_SchemaEditor outer n true atomic) mig state);
  by_editor n (sqlite_Finish (error_of r)).

Lemma sqlite_Begin_collects : respects leaves_db sqlite_Begin.
Proof.
  intros w Hc. unfold sqlite_Begin, editor_state, mbind, io_bind, get_state, mret, io_ret. destruct Hc as [Hc Ht]. rewrite Hc.
  cbn [Editor_AddCollected edit modify].
  by apply (Begin_collects (on_editor (fun e => es_set_sqls (es_sqls e ++ ["PRAGMA foreign_keys = OFF;"]) e) w)).
Qed.

Lemma checkConstraints_collects : respects leaves_db (checkConstraints (D := D)).
Proof.
  intros w Hc. unfold checkConstraints, editor_state, mbind, io_bind, get_state, mret, io_ret. destruct Hc as [Hc Ht].
  rewrite Hc. by split.
Qed.

(** What may come before Finish: the hook is the one NewEditor sets. *)
Context (Hhook : ∀ hook, PreCommit = Some hook → hook = checkConstraints).

Lemma sqlite_Finish_collects err : respects leaves_db (sqlite_Finish err).
Proof.
  unfold sqlite_Finish. apply respects_bind; [apply _| |intros r].
  - apply respects_attempt. apply Finish_collects. intros hook Hp. rewrite (Hhook hook Hp).
    apply checkConstraints_collects.
  - intros w [Hc Ht]. unfold editor_state, mbind, io_bind, get_state, mret, io_ret. rewrite Hc. by destruct r.
Qed.

(** C20: on SQLite too, sqlmigrate does not touch the database: from Begin,
    which only writes down the PRAGMA it applies otherwise, through every
    operation of a migration, with the tables that are made anew, to Finish,
    whatever comes of it. Go code is shown, not run, outside
    SeparateDatabaseAndState. *)
Theorem sqlite_collect_touches_nothing n atomic mig state s :
  n < length (s_editors s) → collecting (editor_at n s) → shows_code mig →
  s_db (sqlite_run n atomic mig state s).1 = s_db s.
Proof.
  intros Hn Hc Hm. assert (respects (at_editor leaves_db n) (sqlite_run n atomic mig state)) as Hr.
  { unfold sqlite_run. apply respects_bind; [apply _|apply respects_by_editor, sqlite_Begin_collects|intros _].
    apply respects_bind; [apply _| |intros r; apply respects_by_editor, sqlite_Finish_collects].
    apply respects_attempt. apply (@respects_Apply _ (sqlite_SchemaEditor outer n true atomic) _ _).
    intros op Hop. eapply Forall_forall in Hm; [|done]. destruct Hm as [Hop'|Hg]; [by left|right; by left]. }
  specialize (Hr s) as [Hl Hr]. by apply (Hr Hn Hc).
Qed.
End sqlmigrate.
