(* ===== verification/SqliteExample.v ===== *)
(** * The SQLite editor at work

    The database of the other examples with SQLite's rules over it, and the
    tables of a small shop in the state before a change and after it. *)

From S2P Require Import Prelude GoStd Keys Errors Fields Index ModelState Apps ProjectState Operation SchemaEditor.
From S2P Require Import OpDatabase Migration Effects Respects Names Grammar References Backend EditorSQL EditorOps EditorAlter BaseEditor.
From S2P Require Import EditorLemmas EditorTheorems SplitSQL Literals Sqlite3 SplitTheorems SqliteTheorems Examples BackendExample.

#[local] Existing Instance example_formatting.

#[local] Instance lite : Sqlite sql_db := {|
  sq_Version := "3.45.1";
  sq_foreign_keys := mret 0%Z;
  sq_foreign_key_check := mret [];
  sq_foreign_key_list := fun _ => mret [];
|}.

#[local] Instance lite_backend : Backend sql_db := {|
  be_Vendor := "sqlite";
  be_Features := sqlite_Features;
  be_RecorderDeleteSettings := "";
  be_alias := "default";
  Routers := [];
  MaxNameLength := 0;
  be_QuoteName := sqlite_QuoteName;
  be_QuoteValue := sqlite_QuoteValue;
  be_PrepareSQLScript := op_PrepareSQLScript sqlite_Ops;
  be_Grammar := sqlite_Grammar;
  be_IdentifierConverter := fun s => s;
  Constraints := fun _ => mret ∅;
  be_TableNames := mret [];
  be_TableDescription := fun _ => mret [];
  db_Exec := sql_exec;
  db_Begin := sql_begin;
  db_Commit := sql_commit;
  db_Rollback := sql_rollback;
  db_Rows := fun _ => mret [];
  db_count_extension := fun _ => mret 0%Z;
  db_Transaction := fun fn => fn;
  NamingUniqueName := fun table column => "uni_" +:+ table +:+ "_" +:+ column;
  DataTypeOf := fun f => if bool_decide (gf_DataType f = Int_) then "integer" else "text";
  GormDBDataType := fun _ _ => None;
  Sprint := fun v => match v with Some (AnyString s) => s | _ => "" end;
  time_at := fun n => AnyOther "time.Time" "now";
  call_func := fun _ _ => None;
  expr_Literal := fun _ => None;
  PreCommit := Some checkConstraints;
  run_go := fun _ _ => mret tt;
|}.

Definition lite_editor : string → string → Overrides sql_db := sqlite_overrides bottom 6.

Lemma lite_editor_respects R `{!WorldRespects R} temp orig : OverridesRespect R (lite_editor temp orig).
Proof.
  unfold lite_editor. generalize temp, orig. generalize 6 as n. induction n as [|n IH]; intros t o; cbn [sqlite_overrides].
  - apply bottom_respects, wr_preorder.
  - by apply (sqlite_layer_respects (sqlite_overrides bottom n) R).
Qed.

(** ** A shop *)

Definition one_per_author : Constraint := CUnique (mkUniqueConstraint "one_per_author" (Some ["author"]) "" "" None None "").
Definition to_author : Field :=
  fld_set_ForeignKey (Some (mkForeignKey "blog.Author" "" Cascade NoAction "fk_author")) author_key.
Definition create_authors : Operation := CreateModel "Author" "authors" [mkNamedField "id" (int_field true)] zero_Options.
Definition make_table : Operation :=
  CreateModel "ShopOrder" "orders"
    [mkNamedField "id" (int_field true); mkNamedField "author" to_author; mkNamedField "note" text_field]
    (opt_set_Constraints [one_per_author] zero_Options).

Definition state_of (ops : list Operation) : ProjectState :=
  match foldM (fun st op => StateForwards op "blog" st) NewProjectState ops with Ok st => st | _ => NewProjectState end.
Definition before : ProjectState := state_of [create_authors; make_table].
Definition after (op : Operation) : ProjectState := state_of [create_authors; make_table; op].

Definition model_in (s : ProjectState) : ModelPtr :=
  match ps_Apps s with
  | Ok (apps, _) => match GetModel_ptr apps "blog" "ShopOrder" with Ok m => m | _ => mkModelPtr apps no_model end
  | _ => mkModelPtr (mkApps ∅ []) no_model
  end.
Definition ShopOrder : ModelPtr := model_in before.
Definition field_in (m : ModelPtr) (name : string) : FieldPtr :=
  default (mkFieldPtr (mp_Apps m) (mkModelField (mkModelKey "" "") "" (int_field true) "" None None)) (field_ptr m name).

Definition collecting_world : World sql_db := mkWorld (mkSqlDb [] None) 0 0 (Editor_New true false).

(** ** A field added *)

Definition total : FieldPtr := field_in (model_in (after (AddField "ShopOrder" "total" text_field None))) "total".
Definition added : World sql_db * outcome unit := remakeTable lite_editor ShopOrder (Some total) None [] collecting_world.

Definition q (s : string) : string := String dquote (s +:+ String dquote "").

Definition id_and_note : string := q "id" +:+ " integer NOT NULL, ".
Definition key_clause (column : string) : string :=
  "CONSTRAINT " +:+ q "fk_author" +:+ " FOREIGN KEY (" +:+ q column +:+ ") REFERENCES " +:+ q "authors" +:+ " (" +:+ q "id" +:+
  ") ON DELETE CASCADE ON UPDATE NO ACTION, ".
Definition unique_clause (column : string) : string :=
  "CONSTRAINT " +:+ q "one_per_author" +:+ " UNIQUE (" +:+ q column +:+ ")".

Example added_sql : es_sqls (w_editor added.1) =
  ["CREATE TABLE " +:+ q "new__orders" +:+ " (" +:+ q "id" +:+ " integer NOT NULL, " +:+ q "author" +:+ " integer NOT NULL, " +:+
     q "note" +:+ " text NOT NULL, " +:+ q "total" +:+ " text NOT NULL, PRIMARY KEY (" +:+ q "id" +:+ "), " +:+
     key_clause "author" +:+ unique_clause "author" +:+ ");";
   "INSERT INTO " +:+ q "new__orders" +:+ " (" +:+ Join (map q ["id"; "author"; "note"; "total"]) ", " +:+ ") SELECT " +:+
     Join (map q ["id"; "author"; "note"]) ", " +:+ ", '?' FROM " +:+ q "orders" +:+ ";";
   "DROP TABLE " +:+ q "orders" +:+ ";";
   "ALTER TABLE " +:+ q "new__orders" +:+ " RENAME TO " +:+ q "orders" +:+ ";"].
Proof. vm_compute. reflexivity. Qed.




(** ** A table with an index, a column of which may no longer be NULL *)

Definition by_note : Index := mkIndex "by_note" (Some [mkIndexField "note" "" "" "" 0]) false "" "" "" None None "" "".
Definition nullable_text : Field :=
  mkField String_ 0 0 0 false false 0 true false None None "" None None None false false "".
Definition nullable : Operation := AlterField "ShopOrder" "note" nullable_text None.
Definition required : Operation := AlterField "ShopOrder" "note" text_field None.
Definition indexed_orders (ops : list Operation) : ModelPtr :=
  model_in (state_of ([create_authors; make_table; AddIndex "ShopOrder" by_note] ++ ops)).
Definition required_again : World sql_db * outcome unit :=
  remakeTable lite_editor (indexed_orders [nullable]) None None
    [(field_in (indexed_orders [nullable]) "note", field_in (indexed_orders [nullable; required]) "note")] collecting_world.

(** The index of the new table is made once the table has its name. *)
Example index_remade : drop 1 (es_sqls (w_editor required_again.1)) =
  ["INSERT INTO " +:+ q "new__orders" +:+ " (" +:+ Join (map q ["id"; "author"; "note"]) ", " +:+ ") SELECT " +:+
     Join (map q ["id"; "author"]) ", " +:+ ", coalesce(" +:+ q "note" +:+ ", '?') FROM " +:+ q "orders" +:+ ";";
   "DROP TABLE " +:+ q "orders" +:+ ";";
   "ALTER TABLE " +:+ q "new__orders" +:+ " RENAME TO " +:+ q "orders" +:+ ";";
   "CREATE INDEX " +:+ q "by_note" +:+ " ON " +:+ q "orders" +:+ " (" +:+ q "note" +:+ ");"] ∧
  es_deferred (w_editor required_again.1) = [].
Proof. vm_compute. split; reflexivity. Qed.

(** ** A key renamed *)

(** The constraints of the state before keep the old name of the column, and
    the table that is made does not have it. *)
Definition rename : Operation := RenameField "ShopOrder" "author" "writer".
Definition writer : FieldPtr := field_in (model_in (after rename)) "writer".
Definition renamed : World sql_db * outcome unit :=
  sqlite_PerformAlterField lite_editor ShopOrder (field_in ShopOrder "author") writer "integer" "integer" false collecting_world.

Example renamed_key_in_constraint : hd "" (es_sqls (w_editor renamed.1)) =
  "CREATE TABLE " +:+ q "new__orders" +:+ " (" +:+ q "id" +:+ " integer NOT NULL, " +:+ q "writer" +:+ " integer NOT NULL, " +:+
     q "note" +:+ " text NOT NULL, PRIMARY KEY (" +:+ q "id" +:+ "), " +:+ key_clause "writer" +:+ unique_clause "author" +:+ ");".
Proof. vm_compute. reflexivity. Qed.

(** ** sqlmigrate *)

#[local] Instance lite_read_only : ReadOnly sql_db.
Proof. by split. Qed.

Definition add_total : Migration := migration "blog" "0002_total" [] [] [AddField "ShopOrder" "total" text_field None].
Definition session : Session sql_db := mkSession (mkSqlDb [] None) 0 0 [Editor_New true false].

Example sqlmigrate_total :
  map (fun s => String.substring 0 12 s) (es_sqls (editor_at 0 (sqlite_run lite_editor 0 true add_total before session).1)) =
  ["PRAGMA forei"; "--"; "-- add field"; "--"; "CREATE TABLE"; "INSERT INTO "; "DROP TABLE " +:+ String dquote ""; "ALTER TABLE "; "PRAGMA forei"].
Proof. vm_compute. reflexivity. Qed.

Lemma sqlite_collect_touches_nothing_witness :
  0 < length (s_editors session) ∧ shows_code add_total ∧
  s_db (sqlite_run lite_editor 0 true add_total before session).1 = s_db session.
Proof.
  assert (shows_code add_total) as Hm by (constructor; [right; reflexivity|constructor]).
  split; [cbn; lia|]. split; [exact Hm|].
  refine (sqlite_collect_touches_nothing lite_editor (H2 := fun t o => lite_editor_respects leaves_db t o) _
    0 true add_total before session _ _ Hm).
  - intros hook Hh. injection Hh as <-. reflexivity.
  - cbn. lia.
  - split; reflexivity.
Defined.
