(* ===== verification/SqliteParseTheorems.v ===== *)
(** * What the parser makes of a table gormgate wrote

    tokenize returns and reads what the grammar of the backend writes; the
    definitions of a table are cut where they were joined; and a table comes
    back with its columns and the names of its constraints. *)

From S2P Require Import Prelude GoStd Errors Fields Index Names Grammar EditorSQL SplitSQL Literals SplitTheorems.
From S2P Require Import SplitTheorems Sqlite3 SqliteParse.
From S2P Require Import Keys ModelState Apps SchemaEditor Effects References Backend EditorOps.

(** ** tokenize returns *)

Lemma readQuoted_length o c s : String.length (readQuoted o c s).2 ≤ String.length s.
Proof.
  revert s. fix IH 1. intros [|d s]; cbn [readQuoted]; [cbn; lia|]. destruct (bool_decide (d = c)).
  - destruct s as [|d' s]; [cbn; lia|]. destruct (_ && _); cbn [snd String.length]; [|lia]. specialize (IH s). lia.
  - cbn [snd String.length]. specialize (IH s). lia.
Qed.

Lemma span_length p s : String.length (span p s).2 ≤ String.length s.
Proof. rewrite (span_split p s) at 2. rewrite str_app_length. lia. Qed.

Lemma TrimPrefix_length s p : String.length (TrimPrefix s p) ≤ String.length s.
Proof.
  destruct (HasPrefix s p) eqn:Hp; [|unfold TrimPrefix; rewrite Hp; lia].
  apply HasPrefix_TrimPrefix, (f_equal String.length) in Hp. rewrite str_app_length in Hp. lia.
Qed.

Lemma tokenize_step_length c s : String.length (tokenize_step c s).2 ≤ String.length s.
Proof.
  unfold tokenize_step. repeat case_match; cbn [snd]; try lia; try apply readQuoted_length; try apply span_length.
  - pose proof (TrimPrefix_length s "*") as Ht. match goal with H : cut_string _ _ = Some _ |- _ => apply cut_string_Some in H; rewrite H in Ht end.
    rewrite !str_app_length in Ht. lia.
  - cbn. lia.
  - unfold other_run. destruct (other_byte c); cbn [snd]; [apply span_length|lia].
Qed.

Lemma tokenize_loop_enough fuel fuel' s : String.length s < fuel → String.length s < fuel' →
  tokenize_loop fuel s = tokenize_loop fuel' s ∧ is_Some (tokenize_loop fuel s).
Proof.
  revert fuel' s. induction fuel as [|fuel IH]; intros [|fuel'] [|c s] H1 H2; cbn [String.length tokenize_loop] in *; try lia; [by eauto|].
  pose proof (tokenize_step_length c s) as Hl. destruct (tokenize_step c s) as [t rest]. cbn [snd] in Hl.
  destruct (IH fuel' rest) as [Heq [l Hs]]; [lia..|]. rewrite <- Heq, Hs. cbn. by eauto.
Qed.

(** The loop of tokenize never runs out of fuel, and goes on token by token. *)
Lemma tokenize_some s : tokenize_loop (split_fuel s) s = Some (tokenize s).
Proof.
  unfold tokenize. destruct (tokenize_loop_enough (split_fuel s) (split_fuel s) s) as [_ [l ->]]; unfold split_fuel; by eauto.
Qed.

Lemma tokenize_loop_cons fuel c s : tokenize_loop (S fuel) (String c s) =
  let '(t, rest) := tokenize_step c s in
  l ← tokenize_loop fuel rest; Some (match t with Some t => t :: l | None => l end).
Proof. done. Qed.

Lemma tokenize_cons c s : tokenize (String c s) =
  let '(t, rest) := tokenize_step c s in match t with Some t => t :: tokenize rest | None => tokenize rest end.
Proof.
  pose proof (tokenize_some (String c s)) as H. unfold split_fuel in H. rewrite tokenize_loop_cons in H.
  pose proof (tokenize_step_length c s) as Hl. destruct (tokenize_step c s) as [t rest]. cbn [snd] in Hl.
  destruct (tokenize_loop_enough (String.length (String c s)) (split_fuel rest) rest) as [Heq _];
    [cbn [String.length]; lia|unfold split_fuel; lia|].
  rewrite Heq, tokenize_some in H. unfold mbind, option_bind in H. injection H as H. rewrite <- H. by destruct t.
Qed.

(** ** Texts that are read as given tokens *)

(** Where a token ends whatever it is *)
Definition boundary (s : string) : Prop :=
  match s with EmptyString => True | String c _ => ends_other c = true ∨ is_punct c = true end.

Definition writes (s : string) (toks : list token) : Prop := ∀ rest, boundary rest → tokenize (s +:+ rest) = toks ++ tokenize rest.

Lemma writes_nil : writes "" [].
Proof. by intros rest _. Qed.

Lemma writes_app a b ta tb : writes a ta → writes b tb → (∀ rest, boundary rest → boundary (b +:+ rest)) →
  writes (a +:+ b) (ta ++ tb).
Proof. intros Ha Hb Hbb rest Hr. by rewrite str_app_assoc, Ha, Hb, app_assoc by auto. Qed.

Definition space : ascii := " "%char.

Lemma writes_space s toks : writes s toks → writes (String space s) toks.
Proof. intros Hs rest Hr. rewrite str_app_cons, tokenize_cons. by apply Hs. Qed.

Lemma punct_step c s : is_punct c = true → tokenize_step c s = (Some (punct c), s).
Proof.
  intros Hc. unfold is_punct in Hc. rewrite !orb_true_iff, !bool_decide_eq_true in Hc. by destruct Hc as [[-> | ->] | ->].
Qed.

Lemma writes_punct c s toks : is_punct c = true → writes s toks → writes (String c s) (punct c :: toks).
Proof. intros Hc Hs rest Hr. rewrite str_app_cons, tokenize_cons, punct_step by done. cbn [app]. by rewrite Hs. Qed.

(** A text after a blank, or after a parenthesis or comma, which end the
    token before them *)
Lemma writes_then a c s ta toks : is_punct c = true → writes a ta → writes s toks →
  writes (a +:+ String c s) (ta ++ punct c :: toks).
Proof.
  intros Hc Ha Hs. apply writes_app; [done|by apply writes_punct|]. intros rest _. right. done.
Qed.

Lemma writes_blank a s ta toks : writes a ta → writes s toks → writes (a +:+ String space s) (ta ++ toks).
Proof. intros Ha Hs. apply writes_app; [done|by apply writes_space|]. intros rest _. by left. Qed.

(** ** Words and names *)

Definition word (s : string) : token := mkToken s tokWord.
Definition quoted (s : string) : token := mkToken s tokQuoted.

Definition is_word_text (s : string) : bool :=
  match s with String c _ => negb (byte_is_digit c) | EmptyString => false end && all_chars isWordByte s.

Lemma word_byte_step c s : isWordByte c = true → byte_is_digit c = false →
  tokenize_step c s = (Some (word (String c (span isWordByte s).1)), (span isWordByte s).2).
Proof.
  intros Hw Hd. unfold tokenize_step. rewrite Hw, Hd. cbn [negb andb].
  assert (skipped c = false ∧ bool_decide (c = dash) = false ∧ bool_decide (c = slash) = false ∧ is_quote c = false ∧
          bool_decide (c = lbracket) = false) as (-> & -> & -> & -> & ->); [|done].
  clear Hd. revert Hw. destruct c as [[] [] [] [] [] [] [] []]; vm_compute; auto.
Qed.

Lemma boundary_not_word s : boundary s → match s with String c _ => isWordByte c = false | EmptyString => True end.
Proof.
  destruct s as [|c s]; [done|]. intros Hb. change (ends_other c = true ∨ is_punct c = true) in Hb. revert Hb.
  destruct c as [[] [] [] [] [] [] [] []]; vm_compute; intuition discriminate.
Qed.

Lemma writes_word w : is_word_text w = true → writes w [word w].
Proof.
  intros Hw rest Hr. destruct w as [|c w]; [done|]. apply andb_true_iff in Hw as [Hd Hall]. apply negb_true_iff in Hd.
  cbn [all_chars] in Hall. apply andb_true_iff in Hall as [Hc Hall].
  rewrite str_app_cons, tokenize_cons, word_byte_step by done.
  rewrite (span_all_app isWordByte w rest Hall) by (by apply boundary_not_word). done.
Qed.

Lemma readQuoted_escaped c n rest : c ≠ lbracket → starts_with c rest = false →
  readQuoted c c (replace_byte c (String c (String c "")) n +:+ String c rest) = (n, rest).
Proof.
  intros Hc Hr. induction n as [|d n IH].
  - cbn [replace_byte]. rewrite str_app_nil_l. cbn [readQuoted]. rewrite bool_decide_eq_true_2 by done.
    destruct rest as [|e rest]; [done|]. cbn [starts_with] in Hr. by rewrite Hr.
  - rewrite replace_byte_cons. destruct (bool_decide (d = c)) eqn:Hd; rewrite !str_app_cons; cbn [readQuoted].
    + apply bool_decide_eq_true in Hd as ->. rewrite !(bool_decide_eq_true_2 (c = c)) by done.
      rewrite bool_decide_eq_false_2 by done. cbn [andb negb]. by rewrite IH.
    + by rewrite Hd, IH.
Qed.

Lemma boundary_not_quote s : boundary s → starts_with dquote s = false.
Proof.
  destruct s as [|c s]; [done|]. intros Hb. change (ends_other c = true ∨ is_punct c = true) in Hb. cbn [starts_with].
  apply bool_decide_eq_false_2. intros ->. by destruct Hb.
Qed.

(** A name that is not already between quotes *)
Definition fresh_name (n : string) : Prop := between dquote n = false.

Lemma writes_name n : fresh_name n → writes (sqlite_QuoteName n) [quoted n].
Proof.
  intros Hn rest Hr. unfold sqlite_QuoteName. rewrite (proj1 (quote_name_new dquote n Hn)). unfold quote_with. str_norm.
  rewrite tokenize_cons. unfold tokenize_step. change (skipped dquote) with false. change (bool_decide (dquote = dash)) with false.
  change (bool_decide (dquote = slash)) with false. change (is_quote dquote) with true. cbn [andb].
  rewrite readQuoted_escaped by (done || by apply boundary_not_quote). done.
Qed.

Definition comma_join (l : list (list token)) : list token :=
  match l with [] => [] | x :: l => x ++ concat (map (cons (punct comma)) l) end.

Lemma comma_join_cons x y l : comma_join (x :: y :: l) = x ++ punct comma :: comma_join (y :: l).
Proof. done. Qed.

(** Texts joined as the editor joins definitions, columns and fields *)
Lemma writes_join texts toks : Forall2 writes texts toks → writes (Join texts ", ") (comma_join toks).
Proof.
  induction 1 as [|s t texts toks Hs Hl IH]; [apply writes_nil|].
  destruct Hl as [|s' t' texts toks Hs' Hl]; [cbn; by rewrite app_nil_r|].
  change (Join (s :: s' :: texts) ", ") with (s +:+ String comma (String space (Join (s' :: texts) ", "))).
  rewrite comma_join_cons. apply writes_then; [done|done|]. by apply writes_space.
Qed.

Lemma writes_names ns : Forall fresh_name ns →
  writes (Join (map sqlite_QuoteName ns) ", ") (comma_join (map (fun n => [quoted n]) ns)).
Proof.
  intros H. apply writes_join. induction H as [|n ns Hn _ IH]; constructor; [by apply writes_name|done].
Qed.

(** ** Balanced tokens *)

Definition not_punct (t : token) : Prop := t_kind t ≠ tokPunct.

Inductive balanced : list token → Prop :=
| balanced_nil : balanced []
| balanced_plain t l : not_punct t → balanced l → balanced (t :: l)
| balanced_comma l : balanced l → balanced (punct comma :: l)
| balanced_group l1 l2 : balanced l1 → balanced l2 → balanced (punct lparen :: l1 ++ punct rparen :: l2).

(** One definition: no comma outside parentheses *)
Inductive definition : list token → Prop :=
| definition_nil : definition []
| definition_plain t l : not_punct t → definition l → definition (t :: l)
| definition_group l1 l2 : balanced l1 → definition l2 → definition (punct lparen :: l1 ++ punct rparen :: l2).

Lemma not_punct_tests t : not_punct t → is_open t = false ∧ is_close t = false ∧ is_comma t = false.
Proof. intros Ht. split_and!; apply bool_decide_eq_false_2; intros ->; by apply Ht. Qed.

Lemma split_balanced l : balanced l → ∀ depth cur out rest, (0 < depth)%Z →
  split_definitions depth cur out (l ++ rest) = split_definitions depth (cur ++ l) out rest.
Proof.
  induction 1 as [|t l Ht _ IH|l _ IH|l1 l2 _ IH1 _ IH2]; intros depth cur out rest Hd; [by rewrite app_nil_r|..]; cbn [app split_definitions].
  - destruct (not_punct_tests t Ht) as (-> & -> & ->). cbn [andb]. rewrite IH by done. by rewrite <- app_assoc.
  - change (is_open (punct comma)) with false. change (is_close (punct comma)) with false. cbn [andb].
    rewrite bool_decide_eq_false_2, andb_false_r by lia. rewrite IH by done. by rewrite <- app_assoc.
  - change (is_open (punct lparen)) with true. cbn iota. rewrite <- app_assoc, IH1 by lia. cbn [app split_definitions].
    change (is_open (punct rparen)) with false. change (is_close (punct rparen)) with true. cbn iota.
    rewrite bool_decide_eq_false_2 by lia. replace (depth + 1 - 1)%Z with depth by lia. rewrite IH2 by done.
    by rewrite <- !app_assoc.
Qed.

Lemma split_definition l : definition l → ∀ cur out rest,
  split_definitions 0 cur out (l ++ rest) = split_definitions 0 (cur ++ l) out rest.
Proof.
  induction 1 as [|t l Ht _ IH|l1 l2 H1 _ IH2]; intros cur out rest; [by rewrite app_nil_r|..]; cbn [app split_definitions].
  - destruct (not_punct_tests t Ht) as (-> & -> & ->). cbn [andb]. rewrite IH. by rewrite <- app_assoc.
  - change (is_open (punct lparen)) with true. cbn iota. rewrite <- app_assoc, split_balanced by (done || lia).
    cbn [app split_definitions]. change (is_open (punct rparen)) with false. change (is_close (punct rparen)) with true. cbn iota.
    rewrite bool_decide_eq_false_2 by lia. replace (0 + 1 - 1)%Z with 0%Z by lia. rewrite IH2. by rewrite <- !app_assoc.
Qed.

(** Definitions joined by commas in parentheses are cut where they were
    joined. *)
Lemma split_joined ds : Forall definition ds → Forall (fun d => d ≠ []) ds → ∀ out,
  split_definitions 0 [] out (comma_join ds ++ [punct rparen]) = out ++ ds.
Proof.
  intros H Hne. induction H as [|d ds Hd H IH]; intros out; [cbn; by rewrite app_nil_r|].
  inversion_clear Hne as [|? ? Hd0 Hne']. specialize (IH Hne'). destruct ds as [|d' ds].
  - cbn [comma_join map concat]. rewrite app_nil_r, split_definition by done. cbn [app split_definitions].
    change (is_open (punct rparen)) with false. change (is_close (punct rparen)) with true. cbn iota.
    rewrite bool_decide_eq_true_2 by done. unfold close_definition. by rewrite bool_decide_eq_false_2.
  - rewrite comma_join_cons, <- app_assoc, split_definition by done. cbn [app]. unfold comma_join in IH |- *.
    cbn [split_definitions]. change (is_open (punct comma)) with false. change (is_close (punct comma)) with false.
    change (is_comma (punct comma)) with true. rewrite bool_decide_eq_true_2 by done. cbn [andb].
    rewrite IH. by rewrite <- app_assoc.
Qed.

Lemma paren_group_balanced l : balanced l → ∀ depth rest,
  paren_group depth (l ++ rest) = (l ++ (paren_group depth rest).1, (paren_group depth rest).2).
Proof.
  induction 1 as [|t l Ht _ IH|l _ IH|l1 l2 _ IH1 _ IH2]; intros depth rest; [apply surjective_pairing|..]; cbn [app paren_group].
  - destruct (not_punct_tests t Ht) as (-> & -> & _). by rewrite IH.
  - assert (is_open (punct comma) = false ∧ is_close (punct comma) = false) as [-> ->] by done. rewrite IH. reflexivity.
  - change (is_open (punct lparen)) with true. cbn iota. rewrite <- app_assoc, IH1. cbn [app paren_group].
    change (is_open (punct rparen)) with false. change (is_close (punct rparen)) with true. cbn iota.
    rewrite IH2. cbn [fst snd]. by rewrite <- app_assoc.
Qed.

Lemma parenGroup_group l rest : balanced l → parenGroup (punct lparen :: l ++ punct rparen :: rest) = (l, rest).
Proof.
  intros Hl. cbn [parenGroup]. change (is_open (punct lparen)) with true. cbn iota. rewrite paren_group_balanced by done.
  cbn [paren_group]. change (is_open (punct rparen)) with false. change (is_close (punct rparen)) with true. cbn [fst snd].
  by rewrite app_nil_r.
Qed.

(** ** Clauses *)

Lemma writes_word_then w s toks : is_word_text w = true → writes s toks → writes (w +:+ String space s) (word w :: toks).
Proof. intros Hw Hs. apply (writes_blank w s [word w] toks); [by apply writes_word|done]. Qed.

Lemma writes_name_then n s toks : fresh_name n → writes s toks →
  writes (sqlite_QuoteName n +:+ String space s) (quoted n :: toks).
Proof. intros Hn Hs. apply (writes_blank _ s [quoted n] toks); [by apply writes_name|done]. Qed.

Lemma writes_group s ts s' ts' : writes s ts → writes s' ts' →
  writes (String lparen (s +:+ String rparen s')) (punct lparen :: ts ++ punct rparen :: ts').
Proof. intros Hs Hs'. apply writes_punct; [done|]. by apply writes_then. Qed.

Lemma writes_words ws : Forall (fun w => is_word_text w = true) ws → writes (Join ws " ") (map word ws).
Proof.
  induction 1 as [|w ws Hw Hws IH]; [apply writes_nil|]. destruct Hws as [|w' ws Hw' Hws]; [by apply writes_word|].
  change (Join (w :: w' :: ws) " ") with (w +:+ String space (Join (w' :: ws) " ")). by apply writes_word_then.
Qed.

(** A referential action: words, or nothing *)
Definition is_action (a : ReferentialAction) : Prop := ∃ ws, Forall (fun w => is_word_text w = true) ws ∧ a = Join ws " ".

Lemma writes_action what a : Forall (fun w => is_word_text w = true) what → what ≠ [] → is_action a →
  ∃ toks, writes (action_clause (String space (Join what " " +:+ " ")) a) toks ∧ Forall not_punct toks ∧
          ∀ rest, boundary rest → boundary (action_clause (String space (Join what " " +:+ " ")) a +:+ rest).
Proof.
  intros Hwhat Hne (ws & Hws & ->). unfold action_clause. case_bool_decide as Ha.
  { exists []. split; [apply writes_nil|]. by split. }
  exists (map word what ++ map word ws). split_and!.
  - change (writes (String space ((Join what " " +:+ String space "") +:+ Join ws " ")) (map word what ++ map word ws)).
    apply writes_space. str_norm. apply writes_blank; by apply writes_words.
  - apply Forall_app. split; apply Forall_map, Forall_forall; by intros.
  - intros rest _. by left.
Qed.

Lemma definition_app a b : definition a → definition b → definition (a ++ b).
Proof.
  induction 1 as [|t l Ht Hl IH|l1 l2 H1 H2 IH]; intros Hb; [done|..]; cbn [app].
  - apply definition_plain; auto.
  - rewrite <- app_assoc. cbn [app]. apply definition_group; auto.
Qed.
Lemma definition_words l : Forall not_punct l → definition l.
Proof. induction 1; by constructor. Qed.

Lemma names_balanced ns : balanced (comma_join (map (fun n => [quoted n]) ns)).
Proof.
  induction ns as [|n ns IH]; [constructor|]. cbn [map]. destruct ns as [|n' ns]; [by repeat constructor|].
  cbn [map] in *. rewrite comma_join_cons. apply balanced_plain; [done|]. by apply balanced_comma.
Qed.

Lemma names_identList ns : identList (comma_join (map (fun n => [quoted n]) ns)) = ns.
Proof.
  unfold identList. induction ns as [|n ns IH]; [done|]. cbn [map]. destruct ns as [|n' ns]; [done|].
  cbn [map] in *. rewrite comma_join_cons. cbn [app ident_list t_kind quoted punct t_s bool_decide].
  rewrite bool_decide_eq_false_2 by done. change (isIdent (quoted n)) with true. cbn [andb].
  rewrite bool_decide_eq_true_2 by done. cbn [andb]. f_equal. exact IH.
Qed.

(** ** Tables *)

(** A constraint of a table, as the editor gives it to the grammar *)
Inductive table_constraint :=
| TUnique (Name : string) (Columns : list string)
| TCheck (Name Check : string)
| TForeign (Name : string) (Columns : list string) (ToTable : string) (ToColumns : list string)
    (OnDelete OnUpdate : ReferentialAction).

(** A table: its columns with the text of their definitions *)
Record table_text := mkTableText {
  tt_Name : string;
  tt_Columns : list (string * string);
  tt_PK : list string;
  tt_Constraints : list table_constraint;
}.

Definition names_sql (ns : list string) : string := Join (map sqlite_QuoteName ns) ", ".

Definition constraint_text (c : table_constraint) : string :=
  match c with
  | TUnique n cols => @g_NamedConstraint sqlite_Grammar (sqlite_QuoteName n) (@g_UniqueConstraint sqlite_Grammar (names_sql cols) "")
  | TCheck n check => @g_NamedConstraint sqlite_Grammar (sqlite_QuoteName n) (@g_CheckConstraint sqlite_Grammar check)
  | TForeign n cols to tocols del upd =>
      @g_AddForeignKey sqlite_Grammar (mkAddForeignKeyArgs "" (sqlite_QuoteName n) (names_sql cols) (sqlite_QuoteName to)
        (names_sql tocols) (action_clause " ON DELETE " del) (action_clause " ON UPDATE " upd) true)
  end.

(** The statement, its parts in the order of TableSQL; [sqlite_TableSQL] below
    shows that the editor writes it *)
Definition table_sql (t : table_text) : string :=
  @g_CreateTable sqlite_Grammar (sqlite_QuoteName (tt_Name t))
    (Join (map (fun c => sqlite_QuoteName c.1 +:+ " " +:+ c.2) (tt_Columns t) ++
           (if bool_decide (tt_PK t = []) then [] else [@g_PrimaryKeyConstraint sqlite_Grammar (names_sql (tt_PK t))]) ++
           map constraint_text (tt_Constraints t)) ", ").

(** A token that starts no clause of a column the parser keeps, but
    AUTOINCREMENT *)
Definition column_keywords : list string := ["CONSTRAINT"; "COLLATE"; "UNIQUE"; "CHECK"; "REFERENCES"].
Definition plain_token (t : token) : Prop := upper t ∉ column_keywords.
Definition is_auto (t : token) : bool := bool_decide (upper t = "AUTOINCREMENT").

(** The text of a type with its NOT NULL and its default, and whether it says
    AUTOINCREMENT *)
Definition column_text (s : string) (auto : bool) : Prop :=
  ∃ toks, writes s toks ∧ definition toks ∧ Forall plain_token toks ∧ existsb is_auto toks = auto.

(** A CHECK expression with the identifiers in it *)
Definition check_text (s : string) (idents : list string) : Prop := ∃ toks, writes s toks ∧ balanced toks ∧ identsIn toks = idents.

Inductive constraint_read : table_constraint → constraintDef → Prop :=
| read_unique n cols :
    fresh_name n → Forall fresh_name cols → n ≠ "" → constraint_read (TUnique n cols) (mkConstraintDef n "UNIQUE" cols "" [])
| read_check n check idents :
    fresh_name n → n ≠ "" → check_text check idents →
    constraint_read (TCheck n check) (mkConstraintDef n "CHECK" idents "" [])
| read_foreign n cols to tocols del upd :
    fresh_name n → n ≠ "" → Forall fresh_name cols → fresh_name to → Forall fresh_name tocols → is_action del → is_action upd →
    constraint_read (TForeign n cols to tocols del upd) (mkConstraintDef n "FOREIGN KEY" cols to tocols).

(** What parse_definition makes of the tokens of a constraint *)
Definition reads (toks : list token) (d : constraintDef) : Prop :=
  definition toks ∧ toks ≠ [] ∧ ∀ acc, parse_definition acc toks = (acc.1, mkTableDef (td_Columns acc.2) (td_Constraints acc.2 ++ [d])).

Lemma name_constraint_named acc c : cn_Name c ≠ "" →
  name_constraint acc c = (acc.1, mkTableDef (td_Columns acc.2) (td_Constraints acc.2 ++ [c])).
Proof. intros Hn. unfold name_constraint. by rewrite bool_decide_eq_false_2. Qed.

Notation names_tokens ns := (comma_join (map (fun n => [quoted n]) ns)).

(** CONSTRAINT name, a keyword, and a group *)
Lemma definition_named n kw g rest : Forall not_punct kw → balanced g → definition rest →
  definition (word "CONSTRAINT" :: quoted n :: kw ++ punct lparen :: g ++ punct rparen :: rest).
Proof.
  intros Hkw Hg Hrest. apply definition_plain; [done|]. apply definition_plain; [done|].
  apply definition_app; [by apply definition_words|]. by apply definition_group.
Qed.

Lemma constraint_name_named n d : constraint_name (word "CONSTRAINT" :: quoted n :: d) = (n, d).
Proof. reflexivity. Qed.

(** The keywords of a table constraint, before its group *)
Lemma kind_unique l : tableConstraintKind (word "UNIQUE" :: punct lparen :: l) = ("UNIQUE", punct lparen :: l).
Proof. reflexivity. Qed.
Lemma kind_check l : tableConstraintKind (word "CHECK" :: punct lparen :: l) = ("CHECK", punct lparen :: l).
Proof. reflexivity. Qed.
Lemma kind_primary l : tableConstraintKind (word "PRIMARY" :: word "KEY" :: punct lparen :: l) = ("PRIMARY KEY", punct lparen :: l).
Proof. reflexivity. Qed.
Lemma kind_foreign l : tableConstraintKind (word "FOREIGN" :: word "KEY" :: punct lparen :: l) = ("FOREIGN KEY", punct lparen :: l).
Proof. reflexivity. Qed.

Lemma references_named to g rest : balanced g →
  parseReferences (word "REFERENCES" :: quoted to :: punct lparen :: g ++ punct rparen :: rest) = (to, identList g).
Proof.
  intros Hg. cbn [parseReferences]. change (bool_decide (upper (word "REFERENCES") = "REFERENCES")) with true. cbn iota.
  change (isIdent (quoted to)) with true. change (text_open (punct lparen :: g ++ punct rparen :: rest)) with true. cbn iota.
  by rewrite parenGroup_group.
Qed.

Lemma constraint_reads c d : constraint_read c d → ∃ toks, writes (constraint_text c) toks ∧ reads toks d.
Proof.
  intros [n cols Hn Hcols Hne|n check idents Hn Hne (toks & Hw & Hb & Hids)|n cols to tocols del upd Hn Hne Hcols Hto Htocols Hdel Hupd].
  - exists (word "CONSTRAINT" :: quoted n :: [word "UNIQUE"] ++ punct lparen :: names_tokens cols ++ [punct rparen]). split; [|split_and!].
    + change (constraint_text (TUnique n cols)) with
        ("CONSTRAINT" +:+ String space (sqlite_QuoteName n +:+ String space ("UNIQUE" +:+ String space
           (String lparen (names_sql cols +:+ String rparen ""))))).
      apply writes_word_then; [done|]. apply writes_name_then; [done|]. apply writes_word_then; [done|].
      apply writes_group; [by apply writes_names|apply writes_nil].
    + apply (definition_named n [word "UNIQUE"] (names_tokens cols) []); [by repeat constructor|apply names_balanced|constructor].
    + done.
    + intros acc. cbn [app]. unfold parse_definition. rewrite constraint_name_named, kind_unique.
      rewrite bool_decide_eq_true_2 by (by right). rewrite parenGroup_group by apply names_balanced. cbn [fst].
      rewrite names_identList. by apply name_constraint_named.
  - exists (word "CONSTRAINT" :: quoted n :: [word "CHECK"] ++ punct lparen :: toks ++ [punct rparen]). split; [|split_and!].
    + change (constraint_text (TCheck n check)) with
        ("CONSTRAINT" +:+ String space (sqlite_QuoteName n +:+ String space ("CHECK" +:+ String space
           (String lparen (check +:+ String rparen ""))))).
      apply writes_word_then; [done|]. apply writes_name_then; [done|]. apply writes_word_then; [done|].
      apply writes_group; [done|apply writes_nil].
    + apply (definition_named n [word "CHECK"] toks []); [by repeat constructor|done|constructor].
    + done.
    + intros acc. cbn [app]. unfold parse_definition. rewrite constraint_name_named, kind_check.
      rewrite bool_decide_eq_false_2 by (by intros [|]). rewrite bool_decide_eq_true_2 by done.
      rewrite parenGroup_group by done. cbn [fst]. rewrite Hids. by apply name_constraint_named.
  - destruct (writes_action ["ON"; "DELETE"] del) as (td & Hwd & Htd & Hbd); [by repeat constructor|done|done|].
    destruct (writes_action ["ON"; "UPDATE"] upd) as (tu & Hwu & Htu & Hbu); [by repeat constructor|done|done|].
    assert (writes (action_clause " ON DELETE " del +:+ action_clause " ON UPDATE " upd) (td ++ tu)) as Hactions
      by (apply writes_app; [exact Hwd|exact Hwu|exact Hbu]).
    exists (word "CONSTRAINT" :: quoted n :: [word "FOREIGN"; word "KEY"] ++ punct lparen :: names_tokens cols ++ punct rparen ::
            word "REFERENCES" :: quoted to :: punct lparen :: names_tokens tocols ++ punct rparen :: td ++ tu). split; [|split_and!].
    + change (constraint_text (TForeign n cols to tocols del upd)) with
        ("CONSTRAINT" +:+ String space (sqlite_QuoteName n +:+ String space ("FOREIGN" +:+ String space ("KEY" +:+ String space
           (String lparen (names_sql cols +:+ String rparen (String space ("REFERENCES" +:+ String space
             (sqlite_QuoteName to +:+ String space (String lparen (names_sql tocols +:+ String rparen
               (action_clause " ON DELETE " del +:+ action_clause " ON UPDATE " upd)))))))))))).
      apply writes_word_then; [done|]. apply writes_name_then; [done|]. apply writes_word_then; [done|].
      apply writes_word_then; [done|]. apply writes_group; [by apply writes_names|]. apply writes_space.
      apply writes_word_then; [done|]. apply writes_name_then; [done|]. apply writes_group; [by apply writes_names|done].
    + apply (definition_named n [word "FOREIGN"; word "KEY"] (names_tokens cols)); [by repeat constructor|apply names_balanced|].
      apply definition_plain; [done|]. apply definition_plain; [done|]. apply definition_group; [apply names_balanced|].
      apply definition_words, Forall_app; by split.
    + done.
    + intros acc. cbn [app]. unfold parse_definition. rewrite constraint_name_named, kind_foreign.
      rewrite bool_decide_eq_false_2 by (by intros [|]). rewrite bool_decide_eq_false_2 by done. rewrite bool_decide_eq_true_2 by done.
      rewrite parenGroup_group by apply names_balanced. rewrite references_named by apply names_balanced.
      rewrite !names_identList. by apply name_constraint_named.
Qed.

Lemma plain_step name col t d : plain_token t →
  column_step name col t d = if is_auto t then ("", mkColumnDef (cd_Name col) true (cd_Collation col), [], d) else (name, col, [], d).
Proof.
  unfold plain_token, column_keywords, column_step, is_auto. intros Ht. rewrite !not_elem_of_cons in Ht.
  destruct Ht as (H1 & H2 & H3 & H4 & H5 & _). rewrite (bool_decide_eq_false_2 _ H1). case_bool_decide; [done|].
  by rewrite !bool_decide_eq_false_2.
Qed.

Lemma parse_plain toks : Forall plain_token toks → ∀ fuel name col, length toks ≤ fuel →
  parse_column fuel name col [] toks =
  (mkColumnDef (cd_Name col) (cd_AutoIncrement col || existsb is_auto toks) (cd_Collation col), []).
Proof.
  induction 1 as [|t toks Ht _ IH]; intros fuel name col Hf; cbn [length] in Hf.
  - cbn [existsb]. rewrite orb_false_r. destruct col. by destruct fuel.
  - destruct fuel as [|fuel]; [lia|]. cbn [parse_column]. rewrite plain_step by done. cbn [existsb].
    destruct (is_auto t); cbn [app]; rewrite IH by lia; cbn [cd_Name cd_AutoIncrement cd_Collation orb]; [by rewrite orb_true_r|done].
Qed.

Lemma column_reads n s auto : fresh_name n → column_text s auto → ∃ toks,
  writes (sqlite_QuoteName n +:+ " " +:+ s) toks ∧ definition toks ∧ toks ≠ [] ∧
  ∀ acc, parse_definition acc toks = (acc.1, mkTableDef (td_Columns acc.2 ++ [mkColumnDef n auto ""]) (td_Constraints acc.2)).
Proof.
  intros Hn (toks & Hw & Hd & Hp & Ha). exists (quoted n :: toks). split_and!; [|by apply definition_plain|done|].
  - change (writes (sqlite_QuoteName n +:+ String space s) (quoted n :: toks)). by apply writes_name_then.
  - intros acc. unfold parse_definition.
    assert (constraint_name (quoted n :: toks) = ("", quoted n :: toks)) as -> by (by destruct toks).
    change (tableConstraintKind (quoted n :: toks)) with ("", quoted n :: toks). cbn iota beta.
    rewrite bool_decide_eq_false_2 by (by intros [|]). rewrite !bool_decide_eq_false_2 by done.
    rewrite bool_decide_eq_true_2 by done. change (isIdent (quoted n)) with true. cbn [negb orb].
    unfold parseColumnDef. rewrite parse_plain by (done || lia). by rewrite Ha.
Qed.

Definition primary_key (cols : list string) : constraintDef := mkConstraintDef (unnamed_name 1) "PRIMARY KEY" cols "" [].

Lemma primary_reads cols : Forall fresh_name cols → ∃ toks,
  writes (@g_PrimaryKeyConstraint sqlite_Grammar (names_sql cols)) toks ∧ definition toks ∧ toks ≠ [] ∧
  ∀ columns, parse_definition (0%Z, mkTableDef columns []) toks = (1%Z, mkTableDef columns [primary_key cols]).
Proof.
  intros Hc. exists (word "PRIMARY" :: word "KEY" :: punct lparen :: names_tokens cols ++ [punct rparen]). split_and!; [| |done|].
  - change (@g_PrimaryKeyConstraint sqlite_Grammar (names_sql cols)) with
      ("PRIMARY" +:+ String space ("KEY" +:+ String space (String lparen (names_sql cols +:+ String rparen "")))).
    apply writes_word_then; [done|]. apply writes_word_then; [done|]. apply writes_group; [by apply writes_names|apply writes_nil].
  - apply definition_plain; [done|]. apply definition_plain; [done|]. apply definition_group; [apply names_balanced|constructor].
  - intros columns. unfold parse_definition.
    change (constraint_name (word "PRIMARY" :: word "KEY" :: punct lparen :: names_tokens cols ++ [punct rparen]))
      with ("", word "PRIMARY" :: word "KEY" :: punct lparen :: names_tokens cols ++ [punct rparen]). cbn iota beta.
    rewrite kind_primary. rewrite bool_decide_eq_true_2 by (by left). rewrite parenGroup_group by apply names_balanced.
    cbn [fst]. by rewrite names_identList.
Qed.

(** ** A table comes back *)

(** Each definition with its tokens, and the loop over them *)
Lemma columns_read cols autos : Forall2 (fun c a => fresh_name c.1 ∧ column_text c.2 a) cols autos → ∃ toks,
  Forall2 writes (map (fun c => sqlite_QuoteName c.1 +:+ " " +:+ c.2) cols) toks ∧
  Forall definition toks ∧ Forall (fun d => d ≠ []) toks ∧
  ∀ acc, fold_left parse_definition toks acc =
    (acc.1, mkTableDef (td_Columns acc.2 ++ zip_with (fun c a => mkColumnDef c.1 a "") cols autos) (td_Constraints acc.2)).
Proof.
  induction 1 as [|c a cols autos [Hn Ht] _ (toks & Hw & Hd & Hne & Hfold)].
  - exists []. split_and!; [by constructor..|]. intros [n [cs ds]]. cbn. by rewrite app_nil_r.
  - destruct (column_reads _ _ _ Hn Ht) as (tk & Hw' & Hd' & Hne' & Hparse). exists (tk :: toks).
    split_and!; [by constructor..|]. intros acc. cbn [fold_left]. rewrite Hparse, Hfold. cbn [fst snd td_Columns td_Constraints zip_with].
    by rewrite <- app_assoc.
Qed.

Lemma constraints_read cs ds : Forall2 constraint_read cs ds → ∃ toks,
  Forall2 writes (map constraint_text cs) toks ∧ Forall definition toks ∧ Forall (fun d => d ≠ []) toks ∧
  ∀ acc, fold_left parse_definition toks acc = (acc.1, mkTableDef (td_Columns acc.2) (td_Constraints acc.2 ++ ds)).
Proof.
  induction 1 as [|c d cs ds Hc _ (toks & Hw & Hd & Hne & Hfold)].
  - exists []. split_and!; [by constructor..|]. intros [n [xs ys]]. cbn. by rewrite app_nil_r.
  - destruct (constraint_reads _ _ Hc) as (tk & Hw' & (Hd' & Hne' & Hparse)). exists (tk :: toks).
    split_and!; [by constructor..|]. intros acc. cbn [fold_left]. rewrite Hparse, Hfold. cbn [fst snd td_Columns td_Constraints].
    by rewrite <- app_assoc.
Qed.

Lemma table_tokens t toks : fresh_name (tt_Name t) →
  Forall2 writes (map (fun c => sqlite_QuoteName c.1 +:+ " " +:+ c.2) (tt_Columns t) ++
    (if bool_decide (tt_PK t = []) then [] else [@g_PrimaryKeyConstraint sqlite_Grammar (names_sql (tt_PK t))]) ++
    map constraint_text (tt_Constraints t)) toks →
  Forall definition toks → Forall (fun d => d ≠ []) toks → splitDefinitions (tokenize (table_sql t)) = toks.
Proof.
  intros Hn Hw Hd Hne. unfold table_sql. set (body := Join _ ", ").
  assert (writes ("CREATE" +:+ String space ("TABLE" +:+ String space (sqlite_QuoteName (tt_Name t) +:+ String space
            (String lparen (body +:+ String rparen ""))))) (word "CREATE" :: word "TABLE" :: quoted (tt_Name t) ::
            punct lparen :: comma_join toks ++ [punct rparen])) as H.
  { apply writes_word_then; [done|]. apply writes_word_then; [done|]. apply writes_name_then; [done|].
    apply writes_group; [by apply writes_join|apply writes_nil]. }
  specialize (H "" I). rewrite str_app_nil_r in H. change (tokenize "") with (@nil token) in H. rewrite app_nil_r in H.
  change (@g_CreateTable sqlite_Grammar (sqlite_QuoteName (tt_Name t)) body) with
    ("CREATE" +:+ String space ("TABLE" +:+ String space (sqlite_QuoteName (tt_Name t) +:+ String space
       (String lparen (body +:+ String rparen ""))))).
  rewrite H. unfold splitDefinitions. cbn [after_open].
  assert (is_open (quoted (tt_Name t)) = false) as -> by by apply not_punct_tests.
  change (is_open (word "CREATE")) with false. change (is_open (word "TABLE")) with false.
  change (is_open (punct lparen)) with true. cbn iota. by rewrite split_joined.
Qed.

(** ** The statement of the editor *)

(** Editor.TableSQL on the grammar of SQLite writes [table_sql] of a table with
    the name and the columns of the model, so that [parse_table] is about it.
    [outer] has ConstraintSQL of the base editor, over [inner]; both have the
    foreign keys of the base editor, as [sqlite_TableSQL] has them below. *)
Section statement.
Context {D : Type} `{Backend D} (outer inner : Overrides D).
Hypothesis Hgrammar : be_Grammar = sqlite_Grammar.
Hypothesis Hquote : be_QuoteName = sqlite_QuoteName.
Hypothesis Hfeatures : be_Features = sqlite_Features.
Hypothesis Hfk : ∀ m f, o_CreateFKSQL outer m f = Editor_CreateFKSQL m f.
Hypothesis Hconstraint : ∀ m c, o_ConstraintSQL outer m c = Editor_ConstraintSQL inner m c.
Hypothesis Hcomposite : ∀ m c w, o_CompositeFKSQL inner m c w = Editor_CompositeFKSQL m c w.

(** A loop that collects gives the pieces its body gave. *)
Lemma collect_io_pieces {A B} (l : list A) (f : A → io (World D) (list B)) w w' ys :
  collect_io l f w = (w', Ok ys) →
  ∃ pieces, ys = concat pieces ∧ Forall2 (fun x piece => ∃ w1 w2, f x w1 = (w2, Ok piece)) l pieces.
Proof.
  unfold collect_io. cut (∀ acc w, fold_io (fun acc x => ys ← f x; mret (acc ++ ys)) acc l w = (w', Ok ys) →
    ∃ pieces, ys = acc ++ concat pieces ∧ Forall2 (fun x piece => ∃ w1 w2, f x w1 = (w2, Ok piece)) l pieces).
  { intros Hcut Hr. by apply (Hcut [] w). }
  clear w. induction l as [|x l IH]; intros acc w; cbn [fold_io].
  { intros [= _ <-]. exists []. by rewrite app_nil_r. }
  intros (w1 & acc1 & (w2 & piece & Hx & [= <- <-])%io_bind_Ok & Hl)%io_bind_Ok.
  destruct (IH _ _ Hl) as (pieces & -> & Hp). exists (piece :: pieces). rewrite <- app_assoc.
  split; [done|]. constructor; [by exists w, w2|done].
Qed.

Lemma column_texts cols : Join (columns_parts sqlite_QuoteName cols []) ", " = names_sql cols.
Proof.
  unfold names_sql. f_equal. induction cols as [|c cols IH]; [done|]. cbn [columns_parts hd tl map].
  by rewrite IH, bool_decide_eq_true_2, str_app_nil_r by done.
Qed.

(** A foreign key inside the statement *)
Lemma inline_key table name cols toTable toCols del upd w w' l :
  inline_or_deferred (Some (foreign_key_statement table name cols toTable toCols del upd)) w = (w', Ok l) →
  l = [constraint_text (TForeign name cols toTable toCols del upd)].
Proof.
  unfold inline_or_deferred, feat, QuoteName. rewrite Hfeatures. cbn [CanCreateInlineFK sqlite_Features].
  intros (w1 & st & [= _ <-] & (w2 & text & Htext & [= _ <-])%io_bind_Ok)%io_bind_Ok. injection Htext as _ Htext.
  revert Htext. unfold Statement_String, foreign_key_statement, st_set_kind. cbn [st_refs mapM_outcome Reference_String].
  rewrite Hquote, Hgrammar. intros <-. cbn [constraint_text]. by rewrite <- !column_texts.
Qed.

Lemma table_constraint_text m c w w' s :
  Editor_ConstraintSQL inner m c w = (w', Ok s) → s = "" ∨ ∃ tc, s = constraint_text tc.
Proof.
  destruct c as [x|x|x]; cbn [Editor_ConstraintSQL]; unfold QuoteColumns, QuoteName.
  - intros [= _ <-]. unfold feat. rewrite Hfeatures, Hgrammar, Hquote. right. by exists (TCheck (cc_Name x) (cc_Check x)).
  - destruct (uniqueSupported x) eqn:Hu; cbn [negb]; [|intros [= _ <-]; by left].
    assert (uc_Deferrable x = "") as Hd.
    { revert Hu. unfold uniqueSupported, feat. rewrite Hfeatures. by do 2 case_bool_decide. }
    destruct (needs_index x || _).
    { intros (w1 & st & _ & (w2 & [] & _ & [= _ <-])%io_bind_Ok)%io_bind_Ok. by left. }
    intros [= _ <-]. right. exists (TUnique (uc_Name x) (elems (uc_Fields x))).
    by rewrite Hd, Hgrammar, Hquote.
  - destruct (SupportsForeignKeys _); [|intros [= _ <-]; by left].
    intros (w1 & st & Hst & (w2 & l & Hl & [= _ <-])%io_bind_Ok)%io_bind_Ok. rewrite Hcomposite in Hst.
    unfold Editor_CompositeFKSQL in Hst. apply io_bind_Ok in Hst as (w3 & remote & _ & [= <- <-]).
    apply inline_key in Hl as ->. right. eexists. reflexivity.
Qed.

(** Pieces that are each the text of a constraint, or nothing *)
Lemma pieces_texts {A} (l : list A) (pieces : list (list string)) :
  Forall2 (fun _ piece => piece = [] ∨ ∃ tc, piece = [constraint_text tc]) l pieces →
  ∃ tcs, concat pieces = map constraint_text tcs.
Proof.
  induction 1 as [|x piece l pieces Hp _ [tcs IH]]; [by exists []|]. cbn [concat]. rewrite IH.
  destruct Hp as [->|[tc ->]]; [by exists tcs|by exists (tc :: tcs)].
Qed.

Lemma TableSQL_is_table_sql (m : ModelPtr) w w' s :
  Editor_TableSQL outer m w = (w', Ok s) →
  ∃ t, s = table_sql t ∧ tt_Name t = m_Table m ∧ (tt_Columns t).*1 = Model_Columns m ∧
       (tt_PK t = pkColumns m ∨ tt_PK t = []).
Proof.
  unfold Editor_TableSQL.
  intros (w1 & [] & _ & (w2 & columns & Hcols & (w3 & fks & Hfks & (w4 & cons & Hcons & [= _ <-])%io_bind_Ok)%io_bind_Ok)%io_bind_Ok)%io_bind_Ok.
  apply collect_io_pieces in Hcols as (pc & -> & Hpc). apply collect_io_pieces in Hfks as (pf & -> & Hpf).
  apply collect_io_pieces in Hcons as (pk & -> & Hpk).
  destruct (pieces_texts (model_fields m) pf) as [fks Hfks'].
  { eapply Forall2_impl; [exact Hpf|]. intros f piece (wa & wb & Hf). destruct (is_foreign f); [|injection Hf as _ <-; by left].
    rewrite Hfk in Hf. apply io_bind_Ok in Hf as (wc & st & Hst & Hin). unfold Editor_CreateFKSQL in Hst.
    apply io_bind_Ok in Hst as (w5 & fk & _ & (w6 & remote & _ & (w7 & field & _ & [= <- <-])%io_bind_Ok)%io_bind_Ok).
    apply inline_key in Hin as ->. right. eexists. reflexivity. }
  destruct (pieces_texts (opt_Constraints (model_options m)) pk) as [cons Hcons'].
  { apply Forall2_same_length_lookup in Hpk as [Hlen Hpk]. apply Forall2_same_length_lookup. split; [done|].
    intros i c piece Hc Hp. destruct (Hpk i c piece Hc Hp) as (wa & wb & Hrun). rewrite Hconstraint in Hrun.
    apply io_bind_Ok in Hrun as (wc & text & Htext & [= _ <-]).
    apply table_constraint_text in Htext. case_bool_decide; [by left|].
    destruct Htext as [?|[tc ->]]; [done|]. right. by exists tc. }
  set (uniques := omap _ (model_fields m)).
  assert (∃ tcs, uniques = map constraint_text tcs) as [uniques' Huniques].
  { unfold uniques, QuoteName. rewrite Hgrammar, Hquote. clear. generalize (model_fields m) as fs.
    induction fs as [|f fs [tcs IH]]; [by exists []|]. cbn [omap list_omap]. destruct (has_own_unique f); [|by exists tcs].
    exists (TUnique (o_UniqueName outer m f) [mf_Column (fp_Field f)] :: tcs). cbn [map]. by rewrite <- IH. }
  assert (∃ texts, concat pc = zip (model_fields m) texts ∧ length texts = length (model_fields m)) as (texts & Hpieces & Hlen).
  { clear -Hpc. induction Hpc as [|f piece fs pieces (wa & wb & Hf) _ (texts & IH & Hlen)]; [by exists []|].
    apply io_bind_Ok in Hf as (wc & def & _ & [= _ <-]). exists (def :: texts). cbn [concat app zip_with]. rewrite IH.
    split; [done|]. simpl. by rewrite Hlen. }
  exists (mkTableText (m_Table m) (zip (map (fun f => mf_Column (fp_Field f)) (model_fields m)) texts)
    (if bool_decide (pkColumns m = []) || existsb (fun c => Contains (ToUpper c.2) "PRIMARY KEY") (concat pc) then [] else pkColumns m)
    (fks ++ uniques' ++ cons)).
  split_and!.
  - unfold table_sql. cbn [tt_Name tt_Columns tt_PK tt_Constraints]. unfold QuoteColumns, QuoteName.
    rewrite Hgrammar, Hquote, Hfks', Hcons', Huniques.
    do 2 f_equal. rewrite !map_app. f_equal.
    + rewrite Hpieces. clear. generalize (model_fields m) as fs. intros fs. revert texts.
      induction fs as [|f fs IH]; intros [|t texts]; [done..|]. cbn [zip_with map]. by rewrite <- IH.
    + f_equal. destruct (bool_decide (pkColumns m = []) || _) eqn:Hk; [done|].
      apply orb_false_iff in Hk as [Hk _]. by rewrite Hk.
  - done.
  - cbn [tt_Columns]. rewrite fst_zip by (rewrite length_map, Hlen; done). unfold Model_Columns, model_fields. by rewrite map_map.
  - cbn [tt_PK]. destruct (_ || _); [by right|by left].
Qed.
End statement.

(** The editor of SQLite, when no table is being remade *)
Lemma sqlite_TableSQL `{Backend D, Sqlite D, Formatting} (below : Overrides D) n (m : ModelPtr) w w' s :
  be_Grammar = sqlite_Grammar → be_QuoteName = sqlite_QuoteName → be_Features = sqlite_Features →
  o_TableSQL (sqlite_overrides below (S (S (S n))) "" "") m w = (w', Ok s) →
  ∃ t, s = table_sql t ∧ tt_Name t = m_Table m ∧ (tt_Columns t).*1 = Model_Columns m ∧
       (tt_PK t = pkColumns m ∨ tt_PK t = []).
Proof.
  intros Hg Hq Hf. apply (TableSQL_is_table_sql _ (sqlite_overrides below (S n) "" "") Hg Hq Hf); try done.
  intros m' c w1. cbn [sqlite_overrides sqlite_layer o_CompositeFKSQL]. unfold sqlite_CompositeFKSQL.
  rewrite bool_decide_eq_true_2 by done. cbn [negb andb]. unfold mbind, io_bind. by destruct (Editor_CompositeFKSQL m' c w1) as [? [?|?|?]].
Qed.

(** C22: what gormgate writes for a table on SQLite, it reads back: parsing the
    CREATE TABLE statement gives the columns in order, with AUTOINCREMENT
    where the text says it, the primary key, under the name the parser makes
    up, and every UNIQUE, CHECK and FOREIGN KEY constraint with its name, its
    columns and what it references. Names may hold anything, quotes, commas
    and parentheses included, but for two things: a name does not stand
    between double quotes already, which QuoteName would leave as it is, and
    a constraint has a name that is not empty. The text of a column has no
    clause of its own but its type, NOT NULL, a default and AUTOINCREMENT. *)
Theorem parse_table t autos ds :
  fresh_name (tt_Name t) → Forall fresh_name (tt_PK t) →
  Forall2 (fun c a => fresh_name c.1 ∧ column_text c.2 a) (tt_Columns t) autos →
  Forall2 constraint_read (tt_Constraints t) ds →
  parseTableDef (table_sql t) =
  mkTableDef (zip_with (fun c a => mkColumnDef c.1 a "") (tt_Columns t) autos)
    ((if bool_decide (tt_PK t = []) then [] else [primary_key (tt_PK t)]) ++ ds).
Proof.
  intros Hn Hpk Hcols Hcons. destruct (columns_read _ _ Hcols) as (tc & Hwc & Hdc & Hnc & Hfc).
  destruct (constraints_read _ _ Hcons) as (tk & Hwk & Hdk & Hnk & Hfk). unfold parseTableDef.
  case_bool_decide as Hp.
  - rewrite (table_tokens t (tc ++ tk)); [|done| | |].
    + rewrite fold_left_app, Hfc, Hfk. done.
    + rewrite bool_decide_eq_true_2 by done. by apply Forall2_app.
    + by apply Forall_app.
    + by apply Forall_app.
  - destruct (primary_reads _ Hpk) as (tp & Hwp & Hdp & Hnp & Hfp). rewrite (table_tokens t (tc ++ [tp] ++ tk)); [|done| | |].
    + rewrite !fold_left_app, Hfc. cbn [fold_left fst snd td_Columns td_Constraints]. rewrite Hfp, Hfk. done.
    + rewrite bool_decide_eq_false_2 by done. apply Forall2_app; [done|]. apply Forall2_app; [by repeat constructor|done].
    + rewrite !Forall_app. by repeat constructor.
    + rewrite !Forall_app. by repeat constructor.
Qed.

(** A table with its key, a name that holds a comma
    and parentheses, and the three kinds of constraint *)
Definition shop_table : table_text := mkTableText "items"
  [("id", "integer NOT NULL"); ("sold, or (not)", "text"); ("owner", "integer")] ["id"]
  [TUnique "uq" ["sold, or (not)"; "id"]; TCheck "ck" ("NOT " +:+ sqlite_QuoteName "owner");
   TForeign "fk" ["owner"] "people" ["id"] "CASCADE" "SET NULL"].

Lemma parse_table_witness : parseTableDef (table_sql shop_table) =
  mkTableDef [mkColumnDef "id" false ""; mkColumnDef "sold, or (not)" false ""; mkColumnDef "owner" false ""]
    [mkConstraintDef "__unnamed_constraint_1__" "PRIMARY KEY" ["id"] "" [];
     mkConstraintDef "uq" "UNIQUE" ["sold, or (not)"; "id"] "" []; mkConstraintDef "ck" "CHECK" ["NOT"; "owner"] "" [];
     mkConstraintDef "fk" "FOREIGN KEY" ["owner"] "people" ["id"]].
Proof.
  assert (∀ ws, Forall (fun w => is_word_text w = true) ws →
    Forall plain_token (map word ws) → existsb is_auto (map word ws) = false → column_text (Join ws " ") false) as Htext.
  { intros ws Hw Hp Ha. exists (map word ws). split_and!; [by apply writes_words| |done|done].
    apply definition_words, Forall_map, Forall_forall. by intros. }
  apply (parse_table shop_table [false; false; false]
    [mkConstraintDef "uq" "UNIQUE" ["sold, or (not)"; "id"] "" []; mkConstraintDef "ck" "CHECK" ["NOT"; "owner"] "" [];
     mkConstraintDef "fk" "FOREIGN KEY" ["owner"] "people" ["id"]]).
  - done.
  - by repeat constructor.
  - constructor; [split; [done|apply (Htext ["integer"; "NOT"; "NULL"])]|constructor; [split; [done|apply (Htext ["text"])]|
      constructor; [split; [done|apply (Htext ["integer"])]|constructor]]]; try done; repeat constructor; by apply (bool_decide_unpack _).
  - repeat constructor; try done.
    + exists [word "NOT"; quoted "owner"]. split_and!; [|repeat constructor; done|done].
      change ("NOT " +:+ sqlite_QuoteName "owner") with ("NOT" +:+ String space (sqlite_QuoteName "owner")).
      apply writes_word_then; [done|]. by apply writes_name.
    + exists ["CASCADE"]. split; [by repeat constructor|done].
    + exists ["SET"; "NULL"]. split; [by repeat constructor|done].
Defined.

(** ** Statements the parser does not read as SQLite does *)

(** A column named desc, in quotes and with no order, is taken for descending:
    indexColumnOrders looks at the text of the last token and not at its kind. *)
Example quoted_desc_is_descending :
  indexColumnOrders ("CREATE INDEX i ON t (" +:+ sqlite_QuoteName "desc" +:+ ", a)") = ["DESC"; "ASC"].
Proof. reflexivity. Qed.

(** The name given to a NOT NULL is left for the next constraint of the
    column, which has none. *)
Example not_null_names_unique :
  parseTableDef "CREATE TABLE t (a int CONSTRAINT nn NOT NULL UNIQUE)" =
  mkTableDef [mkColumnDef "a" false ""] [mkConstraintDef "nn" "UNIQUE" ["a"] "" []].
Proof. reflexivity. Qed.

(** A comment that follows an operator at once is read as tokens. *)
Example comment_after_operator :
  tokenize "x=--c" = [word "x"; mkToken "=--" tokOther; word "c"] ∧ tokenize "x= --c" = [word "x"; mkToken "=" tokOther].
Proof. by split. Qed.
