(* ===== verification/Postgres.v ===== *)
(** * The PostgreSQL backend and its forks

    backends/postgresql/postgresql.go, backends/gaussdb/gaussdb.go and
    backends/cockroachdb/cockroachdb.go: their features and grammars, and the
    methods that replace those of the base editor. [postgres_layer] and
    [cockroach_layer] put them together; openGauss is PostgreSQL with another
    SerialSQL.

    The field concurrently of the editor is set for one call only, so it is an
    argument: [outer true] is the editor while a CONCURRENTLY step runs. So
    are replacingPK, droppingPK and newPK of CockroachDB, which are those of
    the PerformAlterField that runs; when that one fails before it has read
    the primary key, the source leaves them set on an editor that its caller
    gives up. *)

From S2P Require Import Prelude GoStd Keys Errors Fields Index ModelState Apps ProjectState Operation SchemaEditor.
From S2P Require Import OpDatabase Effects Names Grammar References Backend EditorSQL EditorOps EditorAlter BaseEditor SplitSQL Literals.

(** ** Features *)

Definition postgres_Features : Features := {|
  SupportsTransactions := true;
  CanRollbackDDL := true;
  SupportsCombinedAlters := true;
  SupportsForeignKeys := true;
  CanCreateInlineFK := false;
  SupportsComments := true;
  SupportsCommentsInline := false;
  SupportsPartialIndexes := true;
  SupportsExpressionIndexes := true;
  SupportsCoveringIndexes := true;
  SupportsDeferrableUniqueConstraints := true;
  SupportsNullsDistinctUniqueConstraints := true;
  SupportsIndexColumnOrdering := true;
  SupportsTableCheckConstraints := true;
  CanRenameIndex := true;
  InterpretsEmptyStringsAsNulls := false;
  AllowsMultipleConstraintsOnSameFields := true;
  feat_IgnoresTableNameCase := false;
  feat_PadsSizedStrings := false;
  feat_NoAutoIncrementOnInsert := false;
|}.

(** Those of openGauss, and of CockroachDB *)
Definition gauss_Features : Features :=
  mkFeatures true true false true false true false true true false true false true true true false true false false false.
Definition cockroach_Features : Features :=
  mkFeatures true false false true false true false true true true false false true true true false true false false false.

(** ** Grammars *)

(** CREATE INDEX and DROP INDEX *)
Definition postgres_CreateIndex (c : CreateIndexArgs) : string :=
  "CREATE " +:+ indexClass c +:+ "INDEX " +:+ (if ci_Concurrently c then "CONCURRENTLY " else "") +:+ ci_Name c +:+ " ON " +:+
  ci_Table c +:+ ci_Using c +:+ " (" +:+ ci_Columns c +:+ ")" +:+ ci_Include c +:+ ci_Option c +:+ ci_Condition c.
Definition drop_index (concurrently : bool) (name : string) : string :=
  "DROP INDEX " +:+ (if concurrently then "CONCURRENTLY " else "") +:+ "IF EXISTS " +:+ name.

Definition postgres_Grammar : Grammar := {|
  g_CreateTable := @g_CreateTable BaseGrammar;
  g_RenameTable := @g_RenameTable BaseGrammar;
  g_DropTable table := "DROP TABLE " +:+ table +:+ " CASCADE";
  g_TableComment := @g_TableComment BaseGrammar;
  g_AddColumn := @g_AddColumn BaseGrammar;
  g_DropColumn := @g_DropColumn BaseGrammar;
  g_RenameColumn := @g_RenameColumn BaseGrammar;
  g_ColumnComment := @g_ColumnComment BaseGrammar;
  g_FillColumnDefault := @g_FillColumnDefault BaseGrammar;
  g_AlterTable := @g_AlterTable BaseGrammar;
  g_AlterColumnType := @g_AlterColumnType BaseGrammar;
  g_AlterColumnNull := @g_AlterColumnNull BaseGrammar;
  g_AlterColumnNotNull := @g_AlterColumnNotNull BaseGrammar;
  g_AlterColumnDefault := @g_AlterColumnDefault BaseGrammar;
  g_AlterColumnDropDefault := @g_AlterColumnDropDefault BaseGrammar;
  g_AlterColumnDropDefaultNull := @g_AlterColumnDropDefaultNull BaseGrammar;
  g_NamedConstraint := @g_NamedConstraint BaseGrammar;
  g_PrimaryKeyConstraint := @g_PrimaryKeyConstraint BaseGrammar;
  g_UniqueConstraint := @g_UniqueConstraint BaseGrammar;
  g_CheckConstraint := @g_CheckConstraint BaseGrammar;
  g_AddCheck := @g_AddCheck BaseGrammar;
  g_AddUnique := @g_AddUnique BaseGrammar;
  g_AddPrimaryKey := @g_AddPrimaryKey BaseGrammar;
  g_AddForeignKey := @g_AddForeignKey BaseGrammar;
  g_DropCheck := @g_DropCheck BaseGrammar;
  g_DropUnique := @g_DropUnique BaseGrammar;
  g_DropPrimaryKey := @g_DropPrimaryKey BaseGrammar;
  g_DropForeignKey := @g_DropForeignKey BaseGrammar;
  g_DropConstraint := @g_DropConstraint BaseGrammar;
  g_CreateIndex := postgres_CreateIndex;
  g_CreateUniqueIndex := @g_CreateUniqueIndex BaseGrammar;
  g_DropIndex _ name concurrently := drop_index concurrently name;
  g_RenameIndex := @g_RenameIndex BaseGrammar;
|}.

(** CockroachDB's: DropUnique, DropIndex, RenameIndex and AddPrimaryKey *)
Definition cockroach_Grammar : Grammar := {|
  g_CreateTable := @g_CreateTable postgres_Grammar;
  g_RenameTable := @g_RenameTable postgres_Grammar;
  g_DropTable := @g_DropTable postgres_Grammar;
  g_TableComment := @g_TableComment postgres_Grammar;
  g_AddColumn := @g_AddColumn postgres_Grammar;
  g_DropColumn := @g_DropColumn postgres_Grammar;
  g_RenameColumn := @g_RenameColumn postgres_Grammar;
  g_ColumnComment := @g_ColumnComment postgres_Grammar;
  g_FillColumnDefault := @g_FillColumnDefault postgres_Grammar;
  g_AlterTable := @g_AlterTable postgres_Grammar;
  g_AlterColumnType := @g_AlterColumnType postgres_Grammar;
  g_AlterColumnNull := @g_AlterColumnNull postgres_Grammar;
  g_AlterColumnNotNull := @g_AlterColumnNotNull postgres_Grammar;
  g_AlterColumnDefault := @g_AlterColumnDefault postgres_Grammar;
  g_AlterColumnDropDefault := @g_AlterColumnDropDefault postgres_Grammar;
  g_AlterColumnDropDefaultNull := @g_AlterColumnDropDefaultNull postgres_Grammar;
  g_NamedConstraint := @g_NamedConstraint postgres_Grammar;
  g_PrimaryKeyConstraint := @g_PrimaryKeyConstraint postgres_Grammar;
  g_UniqueConstraint := @g_UniqueConstraint postgres_Grammar;
  g_CheckConstraint := @g_CheckConstraint postgres_Grammar;
  g_AddCheck := @g_AddCheck postgres_Grammar;
  g_AddUnique := @g_AddUnique postgres_Grammar;
  g_AddPrimaryKey table _ columns := "ALTER TABLE " +:+ table +:+ " ALTER PRIMARY KEY USING COLUMNS (" +:+ columns +:+ ")";
  g_AddForeignKey := @g_AddForeignKey postgres_Grammar;
  g_DropCheck := @g_DropCheck postgres_Grammar;
  g_DropUnique table name := "DROP INDEX " +:+ table +:+ "@" +:+ name +:+ " CASCADE";
  g_DropPrimaryKey := @g_DropPrimaryKey postgres_Grammar;
  g_DropForeignKey := @g_DropForeignKey postgres_Grammar;
  g_DropConstraint := @g_DropConstraint postgres_Grammar;
  g_CreateIndex := @g_CreateIndex postgres_Grammar;
  g_CreateUniqueIndex := @g_CreateUniqueIndex postgres_Grammar;
  g_DropIndex table name concurrently := drop_index concurrently (table +:+ "@" +:+ name);
  g_RenameIndex table old new := "ALTER INDEX " +:+ table +:+ "@" +:+ old +:+ " RENAME TO " +:+ new;
|}.

(** ** Types *)

(** SplitType *)
Definition SplitType (t : string) : string * string :=
  match cut_string t " GENERATED " with
  | Some (base, clause) => (base, "GENERATED " +:+ clause)
  | None => (t, "")
  end.

(** BaseTypeName: typeParams matches from the first parenthesis of a line to
    the last one that closes. *)
Fixpoint after_last (c : ascii) (s : string) : option string :=
  match s with
  | EmptyString => None
  | String d s' =>
      match after_last c s' with
      | Some r => Some r
      | None => if bool_decide (d = c) then Some s' else None
      end
  end.
Definition without_params (line : string) : string :=
  match Cut line "(" with
  | Some (before, rest) => match after_last ")" rest with Some after => before +:+ after | None => line end
  | None => line
  end.
Definition BaseTypeName (t : string) : string :=
  TrimSpace (Join (map without_params (split_byte newline (ToLower t))) (String newline "")).

(** serialTypes *)
Definition serialTypes (t : string) : option string :=
  if bool_decide (t = "smallserial") then Some "smallint"
  else if bool_decide (t = "serial") then Some "integer"
  else if bool_decide (t = "bigserial") then Some "bigint"
  else None.

(** SerialSQL, with the values of PostgreSQL and of openGauss *)
Record SerialSQL := mkSerialSQL { TypedSequences : bool; Identity : bool }.
Definition StandardSerial : SerialSQL := mkSerialSQL true true.
Definition gauss_Serial : SerialSQL := mkSerialSQL false false.

(** sqlLiteral *)
Definition sqlLiteral (name : string) : string := replace_byte squote (String squote (String squote "")) name.

(** ** The editor *)

(** SequenceInfo *)
Record SequenceInfo := mkSequenceInfo { si_Name : string; si_Table : string; si_Column : string }.

(** What the editor takes from its backend, and reads from the catalogue *)
Class Postgres (D : Type) := {
  pg_DisplayName : string;
  pg_SupportsExtensions : bool;
  pg_SupportsCollations : bool;
  pg_Sequences : string → io D (list SequenceInfo);
  pg_PrimaryKeyColumns : string → io D (list string);
}.

(** base.Style *)
Record SQLStyle := mkSQLStyle { SQLKeyword : string → string; SQLTable : string → string; SQLField : string → string }.

(** A generated column: no column can be altered into one or out of one. *)
Definition generated_error (m : Model) (new : FieldPtr) : error :=
  ValueError ("modifying GeneratedFields is not supported - the field " +:+ Label m +:+ "." +:+ mf_Name (fp_Field new) +:+
    " must be removed and re-added with the new definition") None.
Definition is_generated (clause : string) : bool := Contains clause "AS (".

Section editor.
Context {D : Type} `{Backend D} `{Postgres D}.
Notation IO A := (io (World D) A).
#[local] Existing Instance be_Grammar.
Notation fld f := (mf_Field (fp_Field f)) (only parsing).
Notation col f := (mf_Column (fp_Field f)) (only parsing).

(** SequenceResetSQL: the first column of a model that counts up *)
Definition reset_sequence (style : SQLStyle) (m : Model) (f : ModelField) : string :=
  let c := SQLField style (QuoteName (mf_Column f)) in
  SQLKeyword style "SELECT" +:+ " setval(pg_get_serial_sequence('" +:+ SQLTable style (sqlLiteral (QuoteName (m_Table m))) +:+
  "','" +:+ SQLField style (sqlLiteral (mf_Column f)) +:+ "'), coalesce(max(" +:+ c +:+ "), 1), max(" +:+ c +:+ ") " +:+
  SQLKeyword style "IS NOT" +:+ " null) " +:+ SQLKeyword style "FROM" +:+ " " +:+ SQLTable style (QuoteName (m_Table m)) +:+ ";".
Definition postgres_SequenceResetSQL (style : SQLStyle) (models : list Model) : list string :=
  omap (fun m => reset_sequence style m <$> List.find (fun f => fld_AutoIncrement (mf_Field f)) (m_Fields m)) models.

(** ** Indexes *)

Definition says_concurrently (option_ : string) : bool := EqualFold (TrimSpace option_) "CONCURRENTLY".

(** The arguments as CreateIndexSQL leaves them: an option that says
    CONCURRENTLY is none. *)
Definition postgres_index_args (concurrently : bool) (ix : Index) (a : CreateIndexArgs) : CreateIndexArgs :=
  let named := says_concurrently (ix_Option ix) in
  mkCreateIndexArgs (ci_Name a) (ci_Table a) (ci_Columns a) (ci_Include a) (ci_Using a) ""
    (if negb (bool_decide (ix_Option ix = "")) && negb named then " " +:+ ix_Option ix else "")
    (ci_Condition a) (ci_NullsDistinct a) (ci_Unique a) (ci_Class a) (concurrently || named) (ci_Trailing a).

(** An operator class before the suffix of each column that has one *)
Fixpoint add_opclasses (opclasses suffixes : list string) : list string :=
  match opclasses, suffixes with
  | op :: opclasses, s :: suffixes =>
      (if bool_decide (op = "") then s else TrimSpace (op +:+ " " +:+ s)) :: add_opclasses opclasses suffixes
  | _, _ => suffixes
  end.
Definition with_opclasses (opclasses : list string) (columns : Reference) : Reference :=
  match columns with
  | RColumns t names suffixes => RColumns t names (add_opclasses opclasses suffixes)
  | _ => columns
  end.

(** Editor.CreateIndexSQL, Editor.DeleteIndexSQL *)
Definition postgres_CreateIndexSQL (concurrently : bool) (m : ModelPtr) (ix : Index) : IO (option Statement) :=
  args ← index_args ix;
  mret (Some (index_statement m ix (with_opclasses (elems (ix_OpClasses ix)) (indexColumns m ix true))
                (postgres_index_args concurrently ix args))).

Definition postgres_DeleteIndexSQL (concurrently : bool) (m : ModelPtr) (name : string) : IO Statement :=
  _ ← Editor_DeleteIndexSQL m name;
  mret (drop_index_statement (m_Table m) (QuoteName name) concurrently).

(** ** Column types *)

(** The comment, as a statement after the others *)
Definition type_comment (m : ModelPtr) (old new : FieldPtr) (newType : string) : IO (list string) :=
  if comment_changes old new
  then s ← Editor_AlterColumnCommentSQL m new newType (fld_Comment (fld new)); mret [s] else mret [].

(** The closure seq *)
Definition sequence_of (m : Model) (old new : FieldPtr) : IO string :=
  seqs ← on_db (pg_Sequences (m_Table m));
  mret match List.find (fun s => bool_decide (si_Column s = col old) || bool_decide (si_Column s = col new)) seqs with
       | Some s => si_Name s
       | None => ""
       end.

Definition alter_column (table column change : string) : string :=
  "ALTER TABLE " +:+ table +:+ " ALTER COLUMN " +:+ column +:+ " " +:+ change.

(** The statements that make a column serial *)
Definition make_serial (serial : SerialSQL) (table column newBase name : string) : list string :=
  let q := QuoteName name in
  ["CREATE SEQUENCE IF NOT EXISTS " +:+ q +:+ (if TypedSequences serial then " AS " +:+ newBase else "");
   alter_column table column ("SET DEFAULT nextval('" +:+ sqlLiteral q +:+ "')");
   "ALTER SEQUENCE " +:+ q +:+ " OWNED BY " +:+ table +:+ "." +:+ column;
   "SELECT setval('" +:+ sqlLiteral q +:+ "', coalesce(max(" +:+ column +:+ "), 0) + 1, false) FROM " +:+ table].

(** Into, out of and between the serial types *)
Definition serial_actions (serial : SerialSQL) (m : Model) (old new : FieldPtr) (oldSerial newSerial : option string)
    (oldBase newBase : string) : IO (list string) :=
  let table := QuoteName (m_Table m) in
  let column := QuoteName (col new) in
  match oldSerial, newSerial with
  | None, Some _ =>
      name ← lift (TruncateName (m_Table m +:+ "_" +:+ col new +:+ "_seq") MaxNameLength 4);
      mret (make_serial serial table column newBase name)
  | Some _, None =>
      name ← sequence_of m old new;
      mret (alter_column table column "DROP DEFAULT" ::
            if bool_decide (name = "") then [] else ["DROP SEQUENCE IF EXISTS " +:+ QuoteName name +:+ " CASCADE"])
  | Some _, Some _ =>
      if negb (bool_decide (oldBase = newBase)) && TypedSequences serial then
        name ← sequence_of m old new;
        mret (if bool_decide (name = "") then [] else ["ALTER SEQUENCE IF EXISTS " +:+ QuoteName name +:+ " AS " +:+ newBase])
      else mret []
  | None, None => mret []
  end.

(** Into, out of and between the kinds of identity: an identity is dropped at
    once. *)
Definition identity_actions (table column oldClause newClause : string) : IO (list string) :=
  if negb (bool_decide (newClause = "")) && bool_decide (oldClause = "") then
    mret [alter_column table column ("ADD " +:+ newClause)]
  else if negb (bool_decide (oldClause = "")) && bool_decide (newClause = "") then
    _ ← Execute_ (alter_column table column "DROP IDENTITY IF EXISTS"); mret []
  else if negb (bool_decide (oldClause = "")) && negb (bool_decide (newClause = "")) && negb (bool_decide (oldClause = newClause))
  then mret [alter_column table column ("SET GENERATED " +:+ (if Contains newClause "ALWAYS" then "ALWAYS" else "BY DEFAULT"))]
  else mret [].

Definition no_identity (m : Model) (new : FieldPtr) : error :=
  ValueError (pg_DisplayName +:+ " has no identity columns; the field " +:+ Label m +:+ "." +:+ mf_Name (fp_Field new) +:+
    " cannot be altered into or out of one") None.

(** The clause, with a cast when the types differ by more than parameters *)
Definition alter_type (column oldBase newBase : string) : string :=
  if bool_decide (oldBase = newBase) then ""
  else g_AlterColumnType column newBase "" "" "" +:+
       (if bool_decide (BaseTypeName oldBase = BaseTypeName newBase) then "" else " USING " +:+ column +:+ "::" +:+ newBase).

(** Editor.AlterColumnTypeSQL *)
Definition postgres_AlterColumnTypeSQL (serial : SerialSQL) (m : ModelPtr) (old new : FieldPtr) (newType : string)
    : IO (string * list string) :=
  oldType ← lift (ColumnType m old);
  comments ← type_comment m old new newType;
  if bool_decide (oldType = newType) then mret ("", comments)
  else
    let '(oldName, oldClause) := SplitType oldType in
    let '(newName, newClause) := SplitType newType in
    if is_generated oldClause || is_generated newClause then lift (Err (generated_error m new))
    else if negb (Identity serial) && negb (bool_decide (oldClause = "" ∧ newClause = "")) then lift (Err (no_identity m new))
    else
      let oldSerial := serialTypes (ToLower oldName) in
      let newSerial := serialTypes (ToLower newName) in
      let oldBase := default oldName oldSerial in
      let newBase := default newName newSerial in
      serials ← serial_actions serial m old new oldSerial newSerial oldBase newBase;
      identities ← identity_actions (QuoteName (m_Table m)) (QuoteName (col new)) oldClause newClause;
      mret (alter_type (QuoteName (col new)) oldBase newBase, comments ++ serials ++ identities).

(** ** The steps of contrib.postgres *)

Section steps.
Context (outer : bool → Overrides D).

(** Editor.AddIndexConcurrently, Editor.RemoveIndexConcurrently *)
Definition editor_AddIndexConcurrently (m : ModelPtr) (ix : Index) : IO unit := o_AddIndex (outer true) m ix.
Definition editor_RemoveIndexConcurrently (m : ModelPtr) (ix : Index) : IO unit := o_RemoveIndex (outer true) m ix.

(** Editor.AddConstraintNotValid, Editor.ValidateConstraint *)
Definition editor_AddConstraintNotValid (m : ModelPtr) (c : Constraint) : IO unit :=
  st ← o_CreateConstraintSQL (outer false) m c;
  match st with
  | None => mret tt
  | Some st => s ← lift (Statement_String QuoteName st); Execute_ (s +:+ " NOT VALID")
  end.
Definition editor_ValidateConstraint (m : ModelPtr) (name : string) : IO unit :=
  Execute_ ("ALTER TABLE " +:+ QuoteName (m_Table m) +:+ " VALIDATE CONSTRAINT " +:+ QuoteName name).

(** The Editor as migrations/postgres sees it *)
Definition postgres_PgEditor (n : nat) : PgEditor (Session D) :=
  mkPgEditor (Session D) QuoteName
    (fun m ix => by_editor n (editor_AddIndexConcurrently m ix)) (fun m ix => by_editor n (editor_RemoveIndexConcurrently m ix))
    (fun m c => by_editor n (editor_AddConstraintNotValid m c)) (fun m name => by_editor n (editor_ValidateConstraint m name))
    pg_SupportsExtensions pg_SupportsCollations.
End steps.

(** ** CockroachDB *)

(** The change of the primary key that is under way *)
Record KeyChange := mkKeyChange { replacingPK : bool; droppingPK : bool; newPK : list string }.
Definition no_change : KeyChange := mkKeyChange false false [].

Definition cockroach_serial (t : string) : bool :=
  bool_decide (t ∈ ["smallserial"; "serial"; "bigserial"; "serial2"; "serial4"; "serial8"]).
Definition integerDBType (t : string) : bool := bool_decide (t ∈ ["integer"; "bigint"; "smallint"]).
Definition serialDefault : string := "unique_rowid()".

(** usingSQL *)
Definition usingSQL (column oldType newType : string) : string :=
  let oldBase := BaseTypeName oldType in
  let newBase := BaseTypeName newType in
  if integerDBType oldBase && integerDBType newBase then ""
  else if bool_decide (oldBase = newBase) then ""
  else " USING " +:+ column +:+ "::" +:+ newType.

(** Editor.CreateIndexSQL: no operator classes *)
Definition ix_no_OpClasses (ix : Index) : Index :=
  mkIndex (ix_Name ix) (ix_Fields ix) (ix_Unique ix) (ix_Class ix) (ix_Type ix) (ix_Where ix) (ix_Include ix) None
    (ix_Comment ix) (ix_Option ix).
Definition cockroach_CreateIndexSQL (concurrently : bool) (m : ModelPtr) (ix : Index) : IO (option Statement) :=
  postgres_CreateIndexSQL concurrently m (ix_no_OpClasses ix).

(** Editor.CreatePrimaryKeySQL *)
Definition cockroach_CreatePrimaryKeySQL (m : ModelPtr) (columns : list string) : IO Statement :=
  mret (mkStatement [RTable (m_Table m); RColumns (m_Table m) columns []]
          (fun _ parts => g_AddPrimaryKey (part 0 parts) "" (part 1 parts)) StatementOther None).

(** Editor.AlterColumnTypeSQL *)
Definition cockroach_AlterColumnTypeSQL (m : ModelPtr) (old new : FieldPtr) (newType : string) : IO (string * list string) :=
  oldType ← lift (ColumnType m old);
  comments ← type_comment m old new newType;
  if bool_decide (oldType = newType) then mret ("", comments)
  else
    let '(oldName, oldClause) := SplitType oldType in
    let '(newName, newClause) := SplitType newType in
    if is_generated oldClause || is_generated newClause then lift (Err (generated_error m new))
    else
      let oldIsSerial := cockroach_serial (ToLower (BaseTypeName oldName)) in
      let newIsSerial := cockroach_serial (ToLower (BaseTypeName newName)) in
      let oldBase := if oldIsSerial then "bigint" else oldName in
      let newBase := if newIsSerial then "bigint" else newName in
      let table := QuoteName (m_Table m) in
      let column := QuoteName (col new) in
      let frag := if bool_decide (oldBase = newBase) then ""
                  else g_AlterColumnType column newBase "" "" "" +:+ usingSQL column oldBase newBase in
      let serials := if newIsSerial && negb oldIsSerial then [alter_column table column ("SET DEFAULT " +:+ serialDefault)]
                     else if oldIsSerial && negb newIsSerial then [alter_column table column "DROP DEFAULT"] else [] in
      identities ← identity_actions table column oldClause newClause;
      mret (frag, comments ++ serials ++ identities).

Section cockroach.
Context (outer : KeyChange → bool → Overrides D) (change : KeyChange) (concurrently : bool).

(** Editor.DeletePrimaryKey *)
Definition cannot_drop_key (m : Model) : error :=
  PlainError ("gormgate: CockroachDB cannot drop the primary key of " +:+ m_Table m +:+ " without installing a new one: " +:+
    "every table has a primary key and dropping one is unimplemented (go.crdb.dev/issue/48026)").
Definition cockroach_DeletePrimaryKey (m : ModelPtr) (strict : bool) : IO unit :=
  if replacingPK change then mret tt
  else if droppingPK change && negb (bool_decide (newPK change = [])) then
    st ← o_CreatePrimaryKeySQL (outer change concurrently) m (newPK change); exec_statement st
  else lift (Err (cannot_drop_key m)).

(** The index that CockroachDB leaves behind, and the key that is to be *)
Definition leftover_index (m : Model) (old new : FieldPtr) (cols : list string) : outcome string :=
  if bool_decide (cols = []) then Ok ""
  else TruncateName (m_Table m +:+ "_" +:+ Join (renameIn cols (col old) (col new)) "_" +:+ "_key") MaxNameLength 4.
Definition key_change (m : Model) (old new : FieldPtr) : IO (string * KeyChange) :=
  let replacing := negb (fld_PrimaryKey (fld old)) && fld_PrimaryKey (fld new) in
  let dropping := fld_PrimaryKey (fld old) && negb (fld_PrimaryKey (fld new)) in
  if replacing || dropping then
    cols ← on_db (pg_PrimaryKeyColumns (m_Table m));
    leftover ← lift (leftover_index m old new cols);
    model ← lift (deref (fp_Model new));
    mret (leftover, mkKeyChange replacing dropping (pkColumns (mp_Model model)))
  else mret ("", no_change).

(** Editor.PerformAlterField *)
Definition cockroach_PerformAlterField (m : ModelPtr) (old new : FieldPtr) (oldType newType : string) (strict : bool)
    : IO unit :=
  kc ← key_change m old new;
  _ ← Editor_PerformAlterField (outer kc.2 concurrently) m old new oldType newType strict;
  if bool_decide (kc.1 = "") then mret tt
  else Execute_ ("DROP INDEX IF EXISTS " +:+ QuoteName (m_Table m) +:+ "@" +:+ QuoteName kc.1 +:+ " CASCADE").
End cockroach.

(** ** Layers *)

(** The overrides of the PostgreSQL editor, over those of the base editor *)
Definition postgres_layer (serial : SerialSQL) (outer : bool → Overrides D) (concurrently : bool) : Overrides D :=
  let b := layer (outer concurrently) in {|
  o_ColumnSQL := o_ColumnSQL b;
  o_SkipDefault := o_SkipDefault b;
  o_SkipDefaultOnAlter := o_SkipDefaultOnAlter b;
  o_DBDefaultSQL := o_DBDefaultSQL b;
  o_TableSQL := o_TableSQL b;
  o_UniqueName := o_UniqueName b;
  o_AlterColumnTypeSQL := postgres_AlterColumnTypeSQL serial;
  o_AlterColumnNullSQL := o_AlterColumnNullSQL b;
  o_AlterColumnDefaultSQL := o_AlterColumnDefaultSQL b;
  o_AlterColumnDatabaseDefaultSQL := o_AlterColumnDatabaseDefaultSQL b;
  o_AlterColumnCommentSQL := o_AlterColumnCommentSQL b;
  o_RenameFieldSQL := o_RenameFieldSQL b;
  o_CreateFKSQL := o_CreateFKSQL b;
  o_CompositeFKSQL := o_CompositeFKSQL b;
  o_CreateIndexSQL := postgres_CreateIndexSQL concurrently;
  o_DeleteIndexSQL := postgres_DeleteIndexSQL concurrently;
  o_RenameIndexSQL := o_RenameIndexSQL b;
  o_CreatePrimaryKeySQL := o_CreatePrimaryKeySQL b;
  o_ConstraintSQL := o_ConstraintSQL b;
  o_CreateConstraintSQL := o_CreateConstraintSQL b;
  o_RemoveConstraintSQL := o_RemoveConstraintSQL b;
  o_PerformAlterField := o_PerformAlterField b;
  o_ExecDrop := o_ExecDrop b;
  o_DeletePrimaryKey := o_DeletePrimaryKey b;
  o_DeleteComposedIndex := o_DeleteComposedIndex b;
  o_AddIndex := o_AddIndex b;
  o_RemoveIndex := o_RemoveIndex b;
  o_AlterDBTableComment := o_AlterDBTableComment b;
|}.

(** Those of the CockroachDB editor, over those of the PostgreSQL editor *)
Definition cockroach_layer (outer : KeyChange → bool → Overrides D) (change : KeyChange) (concurrently : bool) : Overrides D :=
  let b := postgres_layer StandardSerial (outer change) concurrently in {|
  o_ColumnSQL := o_ColumnSQL b;
  o_SkipDefault := o_SkipDefault b;
  o_SkipDefaultOnAlter := o_SkipDefaultOnAlter b;
  o_DBDefaultSQL := o_DBDefaultSQL b;
  o_TableSQL := o_TableSQL b;
  o_UniqueName := o_UniqueName b;
  o_AlterColumnTypeSQL := cockroach_AlterColumnTypeSQL;
  o_AlterColumnNullSQL := o_AlterColumnNullSQL b;
  o_AlterColumnDefaultSQL := o_AlterColumnDefaultSQL b;
  o_AlterColumnDatabaseDefaultSQL := o_AlterColumnDatabaseDefaultSQL b;
  o_AlterColumnCommentSQL := o_AlterColumnCommentSQL b;
  o_RenameFieldSQL := o_RenameFieldSQL b;
  o_CreateFKSQL := o_CreateFKSQL b;
  o_CompositeFKSQL := o_CompositeFKSQL b;
  o_CreateIndexSQL := cockroach_CreateIndexSQL concurrently;
  o_DeleteIndexSQL := o_DeleteIndexSQL b;
  o_RenameIndexSQL := o_RenameIndexSQL b;
  o_CreatePrimaryKeySQL := cockroach_CreatePrimaryKeySQL;
  o_ConstraintSQL := o_ConstraintSQL b;
  o_CreateConstraintSQL := o_CreateConstraintSQL b;
  o_RemoveConstraintSQL := o_RemoveConstraintSQL b;
  o_PerformAlterField := cockroach_PerformAlterField outer concurrently;
  o_ExecDrop := o_ExecDrop b;
  o_DeletePrimaryKey := cockroach_DeletePrimaryKey outer change concurrently;
  o_DeleteComposedIndex := o_DeleteComposedIndex b;
  o_AddIndex := o_AddIndex b;
  o_RemoveIndex := o_RemoveIndex b;
  o_AlterDBTableComment := o_AlterDBTableComment b;
|}.

(** The method tables of editors whose methods reach one another so deep at
    most, over [below] *)
Fixpoint postgres_overrides (serial : SerialSQL) (below : Overrides D) (depth : nat) (concurrently : bool) : Overrides D :=
  match depth with
  | O => below
  | S depth => postgres_layer serial (postgres_overrides serial below depth) concurrently
  end.
Fixpoint cockroach_overrides (below : Overrides D) (depth : nat) (change : KeyChange) (concurrently : bool) : Overrides D :=
  match depth with
  | O => below
  | S depth => cockroach_layer (cockroach_overrides below depth) change concurrently
  end.

(** Editors as the operations see them *)
Definition postgres_SchemaEditor (outer : bool → Overrides D) (n : nat) (collect atomic : bool) : SchemaEditor (Session D) :=
  base_SchemaEditor (outer false) (fun n => Some (postgres_PgEditor outer n)) n collect atomic.
Definition cockroach_SchemaEditor (outer : KeyChange → bool → Overrides D) (n : nat) (collect atomic : bool)
    : SchemaEditor (Session D) := postgres_SchemaEditor (outer no_change) n collect atomic.

(** InitConnectionState of CockroachDB *)
Definition cockroach_InitConnectionState : IO unit :=
  r ← attempt (conn_Exec "SET enable_experimental_alter_column_type_general = true" []);
  match r with
  | inl _ => mret tt
  | inr x => lift (Err (PlainError ("enabling ALTER COLUMN TYPE: " +:+ Error x)))
  end.
End editor.

(** ** What the backends ask of a server *)

(** versionRE: CockroachDB \w+ v(\d+)\.(\d+) *)
Definition cockroach_version_here (s : string) : option (Z * Z) :=
  s ← expect "CockroachDB " s;
  let '(word, s) := span tag_char s in
  if bool_decide (word = "") then None
  else
    s ← expect " v" s;
    '(major, s) ← digits s;
    s ← expect "." s;
    '(minor, _) ← digits s;
    Some (atoi major, atoi minor).

(** ServerVersion *)
Definition ServerVersion (v : string) : option (Z * Z) := first_match cockroach_version_here v.

(** CheckVersion of CockroachDB *)
Definition MinimumVersion : Z * Z := (24, 1)%Z.
Definition cockroach_CheckVersion (v : string) : outcome unit :=
  match ServerVersion v with
  | None => Err (PlainError ("gormgate: cannot read the CockroachDB version from " +:+ Quote v))
  | Some (major, minor) =>
      if (major <? MinimumVersion.1)%Z || ((major =? MinimumVersion.1)%Z && (minor <? MinimumVersion.2)%Z)
      then Err (PlainError ("gormgate: CockroachDB " +:+ itoa major +:+ "." +:+ itoa minor +:+
             " is too old; gormgate requires " +:+ itoa MinimumVersion.1 +:+ "." +:+ itoa MinimumVersion.2 +:+ " or later"))
      else Ok tt
  end.

(** CheckCompatibility of openGauss, of the mode it reads *)
Definition gauss_CheckCompatibility (compat : outcome string) : outcome unit :=
  match compat with
  | Ok mode =>
      if EqualFold (TrimSpace mode) "PG" then Ok tt
      else Err (PlainError ("gormgate: the openGauss database is in DBCOMPATIBILITY '" +:+ TrimSpace mode +:+ "' mode; " +:+
        "gormgate requires 'PG' (PostgreSQL) compatibility, because in the other modes the empty string is NULL " +:+
        "and NOT NULL columns, defaults and introspection behave differently. " +:+
        "Recreate the database with: CREATE DATABASE <name> DBCOMPATIBILITY 'PG'"))
  | Err x => Err (PlainError ("gormgate: reading the openGauss compatibility mode of the current database: " +:+ Error x))
  | Panic x => Panic x
  end.
