(* ===== verification/Mysql.v ===== *)
(** * The MySQL and MariaDB backend, and TiDB

    backends/mysql/mysql.go, backends/mysql/schema.go and
    backends/tidb/tidb.go: the features of a server by its version and its
    settings, the grammar, and the methods that replace those of the base
    editor. [mysql_layer] and [tidb_layer] put them together. The quoting of
    names and values is in Literals. *)

From S2P Require Import Prelude GoStd Keys Errors Fields Index ModelState Apps ProjectState Operation SchemaEditor.
From S2P Require Import Filename OpDatabase Effects Names Grammar References Backend EditorSQL EditorOps EditorAlter BaseEditor SplitSQL Literals.

(** ** Versions *)

(** Version.AtLeast, Version.String *)
Definition AtLeast (v want : version) : bool := match compare_versions v want with Lt => false | _ => true end.
Definition Version_String (v : version) : string :=
  let '(a, b, c) := v in itoa a +:+ "." +:+ itoa b +:+ "." +:+ itoa c.

(** \d{1,2} before something that is not a digit, and \d{1,2} at the end *)
Definition one_or_two (s : string) : option (string * string) :=
  '(d, rest) ← digits s; if String.length d <=? 2 then Some (d, rest) else None.
Definition up_to_two (s : string) : option string := '(d, _) ← digits s; Some (String.substring 0 2 d).

(** versionRe *)
Definition mysql_version_here (s : string) : option version :=
  '(a, s) ← one_or_two s;
  s ← expect "." s;
  '(b, s) ← one_or_two s;
  s ← expect "." s;
  c ← up_to_two s;
  Some (atoi a, atoi b, atoi c).

(** ParseVersion *)
Definition mysql_ParseVersion (s : string) : option version := first_match mysql_version_here s.

(** ** Servers *)

(** Server *)
Record Server := mkServer {
  sv_MariaDB : bool;
  sv_Version : version;
  sv_LowerCaseTableNames : Z;
  sv_StorageEngine : string;
}.

(** IsMariaDB, IsTiDB *)
Definition IsMariaDB (v : string) : bool := Contains v "MariaDB".
Definition IsTiDB (v : string) : bool := Contains v "TiDB".

(** ReadServer, of the two settings it reads *)
Definition ReadServer (version_ : string) (settings : outcome (Z * string)) : outcome Server :=
  match mysql_ParseVersion version_ with
  | None => Err (PlainError ("gormgate: cannot determine the MySQL version from " +:+ Quote version_))
  | Some v =>
      match settings with
      | Ok (lower, engine) => Ok (mkServer (IsMariaDB version_) v lower engine)
      | Err x => Err (PlainError ("gormgate: reading the MySQL server settings: " +:+ Error x))
      | Panic x => Panic x
      end
  end.

(** FeaturesFor *)
Definition mysql_FeaturesFor (s : Server) : Features :=
  let innodb := EqualFold (sv_StorageEngine s) "InnoDB" in
  let myisam := EqualFold (sv_StorageEngine s) "MyISAM" in {|
  SupportsTransactions := negb myisam;
  CanRollbackDDL := false;
  SupportsCombinedAlters := false;
  SupportsForeignKeys := negb myisam;
  CanCreateInlineFK := false;
  SupportsComments := true;
  SupportsCommentsInline := true;
  SupportsPartialIndexes := false;
  SupportsExpressionIndexes := negb (sv_MariaDB s) && (negb myisam && AtLeast (sv_Version s) (8, 0, 13)%Z);
  SupportsCoveringIndexes := false;
  SupportsDeferrableUniqueConstraints := false;
  SupportsNullsDistinctUniqueConstraints := false;
  SupportsIndexColumnOrdering := innodb && (negb (sv_MariaDB s) || AtLeast (sv_Version s) (10, 8, 0)%Z);
  SupportsTableCheckConstraints := sv_MariaDB s || AtLeast (sv_Version s) (8, 0, 16)%Z;
  CanRenameIndex := true;
  InterpretsEmptyStringsAsNulls := false;
  AllowsMultipleConstraintsOnSameFields := true;
  feat_IgnoresTableNameCase := negb (bool_decide (sv_LowerCaseTableNames s = 0%Z));
  feat_PadsSizedStrings := false;
  feat_NoAutoIncrementOnInsert := false;
|}.

(** SupportsExpressionDefaults, CanIntrospectCheckConstraints *)
Definition SupportsExpressionDefaults (s : Server) : bool := sv_MariaDB s || AtLeast (sv_Version s) (8, 0, 13)%Z.
Definition CanIntrospectCheckConstraints (s : Server) : bool := sv_MariaDB s || AtLeast (sv_Version s) (8, 0, 16)%Z.

(** CheckMinimumVersion *)
Definition CheckMinimumVersion (s : Server) : outcome unit :=
  if sv_MariaDB s then
    if AtLeast (sv_Version s) (10, 6, 0)%Z then Ok tt
    else Err (NotSupportedError ("MariaDB 10.6 or later is required (found " +:+ Version_String (sv_Version s) +:+ ")"))
  else if AtLeast (sv_Version s) (8, 0, 11)%Z then Ok tt
  else Err (NotSupportedError ("MySQL 8.0.11 or later is required (found " +:+ Version_String (sv_Version s) +:+ ")")).

(** resolve, up to the backend of the server it finds *)
Definition mysql_resolve (version_ : string) (settings : outcome (Z * string)) : outcome Server :=
  s ← ReadServer version_ settings; _ ← CheckMinimumVersion s; Ok s.

(** ** The grammar *)

Definition mysql_Grammar (MariaDB : bool) : Grammar := {|
  g_CreateTable := @g_CreateTable BaseGrammar;
  g_RenameTable old new := "RENAME TABLE " +:+ old +:+ " TO " +:+ new;
  g_DropTable := @g_DropTable BaseGrammar;
  g_TableComment table comment := "ALTER TABLE " +:+ table +:+ " COMMENT = " +:+ comment;
  g_AddColumn := @g_AddColumn BaseGrammar;
  g_DropColumn := @g_DropColumn BaseGrammar;
  g_RenameColumn := @g_RenameColumn BaseGrammar;
  g_ColumnComment _ _ _ _ := "";
  g_FillColumnDefault := @g_FillColumnDefault BaseGrammar;
  g_AlterTable := @g_AlterTable BaseGrammar;
  g_AlterColumnType column typ collation comment _ := "MODIFY " +:+ column +:+ " " +:+ typ +:+ collation +:+ comment;
  g_AlterColumnNull column typ := "MODIFY " +:+ column +:+ " " +:+ typ +:+ " NULL";
  g_AlterColumnNotNull column typ := "MODIFY " +:+ column +:+ " " +:+ typ +:+ " NOT NULL";
  g_AlterColumnDefault := @g_AlterColumnDefault BaseGrammar;
  g_AlterColumnDropDefault := @g_AlterColumnDropDefault BaseGrammar;
  g_AlterColumnDropDefaultNull column _ _ := "ALTER COLUMN " +:+ column +:+ " SET DEFAULT NULL";
  g_NamedConstraint := @g_NamedConstraint BaseGrammar;
  g_PrimaryKeyConstraint := @g_PrimaryKeyConstraint BaseGrammar;
  g_UniqueConstraint := @g_UniqueConstraint BaseGrammar;
  g_CheckConstraint := @g_CheckConstraint BaseGrammar;
  g_AddCheck := @g_AddCheck BaseGrammar;
  g_AddUnique := @g_AddUnique BaseGrammar;
  g_AddPrimaryKey := @g_AddPrimaryKey BaseGrammar;
  g_AddForeignKey := @g_AddForeignKey BaseGrammar;
  g_DropCheck table name :=
    "ALTER TABLE " +:+ table +:+ (if MariaDB then " DROP CONSTRAINT IF EXISTS " else " DROP CHECK ") +:+ name;
  g_DropUnique table name := "ALTER TABLE " +:+ table +:+ " DROP INDEX " +:+ name;
  g_DropPrimaryKey table _ := "ALTER TABLE " +:+ table +:+ " DROP PRIMARY KEY";
  g_DropForeignKey table name := "ALTER TABLE " +:+ table +:+ " DROP FOREIGN KEY " +:+ name;
  g_DropConstraint := @g_DropConstraint BaseGrammar;
  g_CreateIndex := @g_CreateIndex BaseGrammar;
  g_CreateUniqueIndex := @g_CreateUniqueIndex BaseGrammar;
  g_DropIndex table name _ := "DROP INDEX " +:+ name +:+ " ON " +:+ table;
  g_RenameIndex table old new := "ALTER TABLE " +:+ table +:+ " RENAME INDEX " +:+ old +:+ " TO " +:+ new;
|}.

(** ** Column types *)

(** limitedDataTypes *)
Definition limitedDataTypes (t : string) : bool :=
  bool_decide (t ∈ ["tinyblob"; "blob"; "mediumblob"; "longblob"; "tinytext"; "text"; "mediumtext"; "longtext"; "json"]).

(** strings.TrimRight(s, " \t") *)
Definition is_tab_or_space (c : ascii) : bool := bool_decide (c = " "%char ∨ c = ascii_of_nat 9).
Fixpoint trim_right_blank (s : string) : string :=
  match s with
  | EmptyString => EmptyString
  | String c s' =>
      match trim_right_blank s' with
      | EmptyString => if is_tab_or_space c then EmptyString else String c EmptyString
      | r => String c r
      end
  end.

(** The text that ends in so many bytes, and those bytes *)
Definition split_end (n : nat) (s : string) : string * string :=
  (String.substring 0 (String.length s - n) s, String.substring (String.length s - n) n s).
Definition ends_folded (s suffix : string) : bool :=
  (String.length suffix <=? String.length s) && EqualFold (split_end (String.length suffix) s).2 suffix.

(** stripNullSuffix *)
Definition stripNullSuffix (t : string) : string :=
  let s := trim_right_blank t in
  if (5 <? String.length s) && ends_folded s " NULL" && negb (ends_folded s " NOT NULL")
  then trim_right_blank (split_end 5 s).1 else t.

(** ** The editor *)

Section editor.
Context {D : Type} `{Backend D} `{Formatting} (server : Server) (outer : Overrides D).
Notation IO A := (io (World D) A).
#[local] Existing Instance be_Grammar.
Notation fld f := (mf_Field (fp_Field f)) (only parsing).
Notation col f := (mf_Column (fp_Field f)) (only parsing).

(** The type of a field in its own model, in small letters *)
Definition lower_type (f : FieldPtr) : IO string :=
  m ← lift (deref (fp_Model f)); t ← lift (ColumnType (mp_Model m) f); mret (ToLower (stripNullSuffix t)).

(** Editor.isLimitedDataType, Editor.isTextOrBlob *)
Definition isLimitedDataType (f : FieldPtr) : IO bool := t ← lower_type f; mret (limitedDataTypes t).
Definition isTextOrBlob (f : FieldPtr) : IO bool := t ← lower_type f; mret (HasSuffix t "blob" || HasSuffix t "text").

(** defaultIsEmpty *)
Definition defaultIsEmpty (f : FieldPtr) : IO bool :=
  v ← EffectiveDefault f;
  mret match v with
       | Some (AnyString s) => bool_decide (s = "")
       | Some (AnyOther typ x) => match type_case typ with TBytes => bool_decide (bytes_of x = "") | _ => false end
       | _ => false
       end.

(** An answer that is no when there is an error *)
Definition no_on_error (m : IO bool) : IO bool := r ← attempt m; mret match r with inl b => b | inr _ => false end.

(** Whether the default is empty and of a type that cannot have it *)
Definition empty_text_default (f : FieldPtr) : IO bool :=
  empty ← defaultIsEmpty f; if empty : bool then no_on_error (isTextOrBlob f) else mret false.

(** Editor.SkipDefault, Editor.SkipDefaultOnAlter *)
Definition mysql_SkipDefault (f : FieldPtr) : IO bool :=
  skip ← empty_text_default f;
  if skip : bool then mret true
  else if SupportsExpressionDefaults server then mret false else no_on_error (isLimitedDataType f).
Definition mysql_SkipDefaultOnAlter (f : FieldPtr) : IO bool :=
  skip ← empty_text_default f;
  if skip : bool then mret true else if sv_MariaDB server then mret false else no_on_error (isLimitedDataType f).

(** Editor.DBDefaultSQL *)
Definition mysql_DBDefaultSQL (f : FieldPtr) : IO string :=
  sql ← Editor_DBDefaultSQL f;
  d ← lift (deref (fld_DBDefault (fld f)));
  if sv_MariaDB server || negb (SupportsExpressionDefaults server) || negb (bool_decide (dbd_Expr d = "")) then mret sql
  else limited ← isLimitedDataType f; mret (if limited : bool then "(" +:+ sql +:+ ")" else sql).

(** Editor.setFieldNewType *)
Definition setFieldNewType (f : FieldPtr) (newType : string) : IO string :=
  def ← (match fld_DBDefault (fld f) with
         | Some _ => def ← o_DBDefaultSQL outer f; mret (" DEFAULT " +:+ def)
         | None => mret ""
         end);
  mret (stripNullSuffix newType +:+ def +:+ (if fld_Null (fld f) then " NULL" else " NOT NULL")).

(** Editor.commentSQL *)
Definition commentSQL (comment : string) : IO string :=
  if bool_decide (comment = "") then mret "" else q ← QuoteValue (AnyString comment); mret (" COMMENT " +:+ q).

(** Editor.AlterColumnTypeSQL *)
Definition mysql_AlterColumnTypeSQL (m : ModelPtr) (old new : FieldPtr) (newType : string) : IO (string * list string) :=
  typ ← setFieldNewType old newType;
  comment ← commentSQL (fld_Comment (fld new));
  mret (g_AlterColumnType (QuoteName (col new)) typ "" comment "", []).

(** Editor.AlterColumnCommentSQL *)
Definition mysql_AlterColumnCommentSQL (m : ModelPtr) (f : FieldPtr) (newType comment : string) : IO string := mret "".

(** Editor.AlterColumnNullSQL *)
Definition mysql_AlterColumnNullSQL (m : ModelPtr) (old new : FieldPtr) : IO string :=
  typ ← lift (ColumnType m new);
  comment ← commentSQL (fld_Comment (fld new));
  match fld_DBDefault (fld new) with
  | None =>
      let t := stripNullSuffix typ in
      mret ((if fld_Null (fld new) then g_AlterColumnNull (QuoteName (col new)) t
             else g_AlterColumnNotNull (QuoteName (col new)) t) +:+ comment)
  | Some _ => full ← setFieldNewType new typ; mret ("MODIFY " +:+ QuoteName (col new) +:+ " " +:+ full +:+ comment)
  end.

(** Editor.AddField: the default goes to the rows when the column definition
    could not have it. A nil value is NULL. *)
Definition mysql_AddField (m : ModelPtr) (f : FieldPtr) : IO unit :=
  _ ← Editor_AddField outer m f;
  skip ← o_SkipDefault outer f;
  if negb skip || bool_decide (fld_Default (fld f) = None) then mret tt
  else
    v ← EffectiveDefault f;
    let update value := "UPDATE " +:+ QuoteName (m_Table m) +:+ " SET " +:+ QuoteName (col f) +:+ " = " +:+ value in
    match v with Some v => Editor_Execute (update "?") [v] | None => Execute_ (update "NULL") end.

(** Editor.hasOwnFKIndex *)
Definition needs_column (c : string) (info : ConstraintInfo) : bool :=
  bool_decide (is_Some (coi_ForeignKey info)) && bool_decide (head (coi_Columns info) = Some c).
Definition owns_index (cons : gmap string ConstraintInfo) (name : string) : bool :=
  match cons !! name with
  | Some fk =>
      match coi_Index fk, coi_ForeignKey fk, coi_Columns fk with
      | true, Some _, c :: _ =>
          negb (existsb (fun p => negb (bool_decide (p.1 = name)) && needs_column c p.2) (map_to_list cons))
      | _, _, _ => false
      end
  | None => false
  end.
Definition hasOwnFKIndex (table name : string) : IO bool := cons ← on_db (Constraints table); mret (owns_index cons name).

(** Editor.ExecDrop *)
Definition mysql_ExecDrop (table name : string) (st : Statement) : IO unit :=
  drop ← (if bool_decide (st_kind st = StatementDropForeignKey) then hasOwnFKIndex table name else mret false);
  _ ← Editor_ExecDrop table name st;
  if drop : bool then Editor_ExecDrop table name (drop_index_statement table (QuoteName name) false) else mret tt.

(** Editor.createMissingFKIndex *)
Definition mysql_MaxNameLength : Z := 64.
Definition indexes_starting (cons : gmap string ConstraintInfo) (column : string) : nat :=
  length (List.filter (fun p => coi_Index p.2 && bool_decide (head (coi_Columns p.2) = Some column)) (map_to_list cons)).
Definition column_index (name column : string) : Index :=
  mkIndex name (Some [mkIndexField column "" "" "" 0]) false "" "" "" None None "" "".
Definition createMissingFKIndex (m : ModelPtr) (fields : list string) : IO unit :=
  match f ← head fields; Model_Field m f with
  | Some first =>
      if bool_decide (fld_ForeignKey (mf_Field first) = None) then mret tt
      else
        cons ← on_db (Constraints (m_Table m));
        if negb (bool_decide (indexes_starting cons (be_IdentifierConverter (mf_Column first)) = 1)) then mret tt
        else
          name ← lift (CreateIndexName mysql_MaxNameLength (m_Table m) [mf_Column first] "");
          st ← o_CreateIndexSQL outer m (column_index name (mf_Column first));
          exec_pointer st
  | None => mret tt
  end.

(** Editor.RemoveIndex, Editor.RemoveConstraint, Editor.DeleteComposedIndex *)
Definition mysql_RemoveIndex (m : ModelPtr) (ix : Index) : IO unit :=
  _ ← createMissingFKIndex m (Index_Columns ix); Editor_RemoveIndex outer m ix.
Definition keep_unique_index (m : ModelPtr) (c : Constraint) : IO unit :=
  match c with
  | CUnique uc =>
      st ← o_CreateConstraintSQL outer m c;
      match st with Some _ => createMissingFKIndex m (elems (uc_Fields uc)) | None => mret tt end
  | _ => mret tt
  end.
Definition mysql_RemoveConstraint (m : ModelPtr) (c : Constraint) : IO unit :=
  _ ← keep_unique_index m c; Editor_RemoveConstraint outer m c.
Definition mysql_DeleteComposedIndex (m : ModelPtr) (fields : list string) : IO unit :=
  _ ← createMissingFKIndex m fields; Editor_DeleteComposedIndex outer m fields.

(** The overrides of the MySQL editor, over those of the base editor *)
Definition mysql_layer : Overrides D :=
  let b := layer outer in {|
  o_ColumnSQL := o_ColumnSQL b;
  o_SkipDefault := mysql_SkipDefault;
  o_SkipDefaultOnAlter := mysql_SkipDefaultOnAlter;
  o_DBDefaultSQL := mysql_DBDefaultSQL;
  o_TableSQL := o_TableSQL b;
  o_UniqueName := o_UniqueName b;
  o_AlterColumnTypeSQL := mysql_AlterColumnTypeSQL;
  o_AlterColumnNullSQL := mysql_AlterColumnNullSQL;
  o_AlterColumnDefaultSQL := o_AlterColumnDefaultSQL b;
  o_AlterColumnDatabaseDefaultSQL := o_AlterColumnDatabaseDefaultSQL b;
  o_AlterColumnCommentSQL := mysql_AlterColumnCommentSQL;
  o_RenameFieldSQL := o_RenameFieldSQL b;
  o_CreateFKSQL := o_CreateFKSQL b;
  o_CompositeFKSQL := o_CompositeFKSQL b;
  o_CreateIndexSQL := o_CreateIndexSQL b;
  o_DeleteIndexSQL := o_DeleteIndexSQL b;
  o_RenameIndexSQL := o_RenameIndexSQL b;
  o_CreatePrimaryKeySQL := o_CreatePrimaryKeySQL b;
  o_ConstraintSQL := o_ConstraintSQL b;
  o_CreateConstraintSQL := o_CreateConstraintSQL b;
  o_RemoveConstraintSQL := o_RemoveConstraintSQL b;
  o_PerformAlterField := o_PerformAlterField b;
  o_ExecDrop := mysql_ExecDrop;
  o_DeletePrimaryKey := o_DeletePrimaryKey b;
  o_DeleteComposedIndex := mysql_DeleteComposedIndex;
  o_AddIndex := o_AddIndex b;
  o_RemoveIndex := mysql_RemoveIndex;
  o_AlterDBTableComment := o_AlterDBTableComment b;
|}.

(** The n-th editor as the operations see it *)
Definition mysql_SchemaEditor (n : nat) (collect atomic : bool) : SchemaEditor (Session D) :=
  let b := base_SchemaEditor outer (fun _ => None) n collect atomic in {|
  Vendor := @Vendor _ b;
  AllowMigrate := @AllowMigrate _ b;
  InAtomicBlock := @InAtomicBlock _ b;
  count_extension := @count_extension _ b;
  AtomicMigration := @AtomicMigration _ b;
  Atomic := @Atomic _ b;
  CollectSQL := @CollectSQL _ b;
  CollectedSQL := @CollectedSQL _ b;
  AddCollected := @AddCollected _ b;
  Execute := @Execute _ b;
  PrepareSQLScript := @PrepareSQLScript _ b;
  ed_CreateModel := @ed_CreateModel _ b;
  ed_DeleteModel := @ed_DeleteModel _ b;
  ed_AddField m f := by_editor n (with_field f (mysql_AddField m));
  ed_RemoveField := @ed_RemoveField _ b;
  ed_AlterField := @ed_AlterField _ b;
  ed_AlterDBTable := @ed_AlterDBTable _ b;
  ed_AlterDBTableComment := @ed_AlterDBTableComment _ b;
  ed_AlterUniqueTogether := @ed_AlterUniqueTogether _ b;
  ed_AddIndex := @ed_AddIndex _ b;
  ed_RemoveIndex := @ed_RemoveIndex _ b;
  ed_RenameIndex := @ed_RenameIndex _ b;
  ed_AddConstraint := @ed_AddConstraint _ b;
  ed_RemoveConstraint m c := by_editor n (mysql_RemoveConstraint m c);
  pg_Editor := None;
  run_code := run_go;
|}.
End editor.

(** ** TiDB *)

(** versionRe of tidb: TiDB-v(\d+)\.(\d+)\.(\d+) *)
Definition tidb_version_here (s : string) : option version :=
  s ← expect "TiDB-v" s;
  '(a, s) ← digits s;
  s ← expect "." s;
  '(b, s) ← digits s;
  s ← expect "." s;
  '(c, _) ← digits s;
  Some (atoi a, atoi b, atoi c).
Definition tidb_ParseVersion (s : string) : option version := first_match tidb_version_here s.

(** Server of tidb *)
Record TidbServer := mkTidbServer { ti_Version : version; ti_CheckConstraints : bool; ti_MySQL : Server }.

Definition ForeignKeyVersion : version := (6, 6, 0)%Z.

(** ReadServer of tidb, of the settings it reads *)
Definition tidb_ReadServer (version_ : string) (settings : outcome (Z * string)) (check : outcome bool) : outcome TidbServer :=
  match tidb_ParseVersion version_ with
  | None => Err (PlainError ("gormgate: cannot determine the TiDB version from " +:+ Quote version_))
  | Some v =>
      my ← ReadServer version_ settings;
      match check with
      | Ok b => Ok (mkTidbServer v b my)
      | Err x => Err (PlainError ("gormgate: reading @@tidb_enable_check_constraint: " +:+ Error x))
      | Panic x => Panic x
      end
  end.

(** FeaturesFor of tidb *)
Definition tidb_FeaturesFor (s : TidbServer) : Features :=
  let f := mysql_FeaturesFor (ti_MySQL s) in {|
  SupportsTransactions := SupportsTransactions f;
  CanRollbackDDL := CanRollbackDDL f;
  SupportsCombinedAlters := SupportsCombinedAlters f;
  SupportsForeignKeys := AtLeast (ti_Version s) ForeignKeyVersion;
  CanCreateInlineFK := CanCreateInlineFK f;
  SupportsComments := SupportsComments f;
  SupportsCommentsInline := SupportsCommentsInline f;
  SupportsPartialIndexes := SupportsPartialIndexes f;
  SupportsExpressionIndexes := true;
  SupportsCoveringIndexes := SupportsCoveringIndexes f;
  SupportsDeferrableUniqueConstraints := SupportsDeferrableUniqueConstraints f;
  SupportsNullsDistinctUniqueConstraints := SupportsNullsDistinctUniqueConstraints f;
  SupportsIndexColumnOrdering := false;
  SupportsTableCheckConstraints := ti_CheckConstraints s;
  CanRenameIndex := CanRenameIndex f;
  InterpretsEmptyStringsAsNulls := InterpretsEmptyStringsAsNulls f;
  AllowsMultipleConstraintsOnSameFields := AllowsMultipleConstraintsOnSameFields f;
  feat_IgnoresTableNameCase := feat_IgnoresTableNameCase f;
  feat_PadsSizedStrings := feat_PadsSizedStrings f;
  feat_NoAutoIncrementOnInsert := feat_NoAutoIncrementOnInsert f;
|}.

Section tidb.
Context {D : Type} `{Backend D} `{Formatting} (server : TidbServer) (outer : Overrides D).
Notation IO A := (io (World D) A).

(** isClusteredIntegerPK *)
Definition isClusteredIntegerPK (m : Model) (f : FieldPtr) : bool :=
  let d := mf_Field (fp_Field f) in
  fld_PrimaryKey d && bool_decide (fld_Type d = Int_ ∨ fld_Type d = Uint_) && bool_decide (length (PK m) = 1).

(** Editor.AlterColumnTypeSQL of tidb *)
Definition clustered_key_error (m : Model) (old : FieldPtr) (oldType newType : string) : error :=
  NotSupportedError ("TiDB cannot change the type of " +:+ m_Table m +:+ "." +:+ mf_Column (fp_Field old) +:+ " from " +:+
    Quote oldType +:+ " to " +:+ Quote newType +:+ ": the column is the clustered integer primary key of the table, " +:+
    "which MODIFY rejects with " +:+ String dquote "Unsupported modify column: this column has primary key flag" +:+
    String dquote " (and, when AUTO_INCREMENT is involved, " +:+ String dquote "can't set auto_increment" +:+
    String dquote "). Recreate the model with the new primary key instead.").
Definition tidb_AlterColumnTypeSQL (m : ModelPtr) (old new : FieldPtr) (newType : string) : IO (string * list string) :=
  oldType ← lift (ColumnType m old);
  if negb (bool_decide (oldType = newType)) && isClusteredIntegerPK m old && isClusteredIntegerPK m new
  then lift (Err (clustered_key_error m old oldType newType))
  else mysql_AlterColumnTypeSQL outer m old new newType.

(** The overrides of the TiDB editor, over those of the MySQL editor *)
Definition tidb_layer : Overrides D :=
  let b := mysql_layer (ti_MySQL server) outer in {|
  o_ColumnSQL := o_ColumnSQL b;
  o_SkipDefault := o_SkipDefault b;
  o_SkipDefaultOnAlter := o_SkipDefaultOnAlter b;
  o_DBDefaultSQL := o_DBDefaultSQL b;
  o_TableSQL := o_TableSQL b;
  o_UniqueName := o_UniqueName b;
  o_AlterColumnTypeSQL := tidb_AlterColumnTypeSQL;
  o_AlterColumnNullSQL := o_AlterColumnNullSQL b;
  o_AlterColumnDefaultSQL := o_AlterColumnDefaultSQL b;
  o_AlterColumnDatabaseDefaultSQL := o_AlterColumnDatabaseDefaultSQL b;
  o_AlterColumnCommentSQL := o_AlterColumnCommentSQL b;
  o_RenameFieldSQL := o_RenameFieldSQL b;
  o_CreateFKSQL := o_CreateFKSQL b;
  o_CompositeFKSQL := o_CompositeFKSQL b;
  o_CreateIndexSQL := o_CreateIndexSQL b;
  o_DeleteIndexSQL := o_DeleteIndexSQL b;
  o_RenameIndexSQL := o_RenameIndexSQL b;
  o_CreatePrimaryKeySQL := o_CreatePrimaryKeySQL b;
  o_ConstraintSQL := o_ConstraintSQL b;
  o_CreateConstraintSQL := o_CreateConstraintSQL b;
  o_RemoveConstraintSQL := o_RemoveConstraintSQL b;
  o_PerformAlterField := o_PerformAlterField b;
  o_ExecDrop := o_ExecDrop b;
  o_DeletePrimaryKey := o_DeletePrimaryKey b;
  o_DeleteComposedIndex := o_DeleteComposedIndex b;
  o_AddIndex := o_AddIndex b;
  o_RemoveIndex := o_RemoveIndex b;
  o_AlterDBTableComment := o_AlterDBTableComment b;
|}.
End tidb.

(** The method tables of editors whose methods reach one another so deep at
    most, over [below] *)
Section overrides.
Context {D : Type} `{Backend D} `{Formatting} (below : Overrides D).

Fixpoint mysql_overrides (server : Server) (depth : nat) : Overrides D :=
  match depth with O => below | S depth => mysql_layer server (mysql_overrides server depth) end.
Fixpoint tidb_overrides (server : TidbServer) (depth : nat) : Overrides D :=
  match depth with O => below | S depth => tidb_layer server (tidb_overrides server depth) end.
End overrides.
