(* ===== verification/DialectTheorems.v ===== *)
(** * What the editors of PostgreSQL, its forks, MySQL and TiDB do

    What their methods keep of the state, so that collecting SQL touches no
    database with them either; when rendering a change of type runs a
    statement; the versions read back from a server; and the index that a
    foreign key of MySQL stands on. *)

From S2P Require Import Prelude GoStd Keys Errors Fields Index ModelState Apps ProjectState Operation SchemaEditor.
From S2P Require Import OpDatabase Migration Effects Respects Names Grammar References Backend EditorSQL EditorOps EditorAlter BaseEditor.
From S2P Require Import EditorLemmas EditorTheorems SplitSQL Literals SplitTheorems Examples BackendExample SqliteExample Postgres Mysql.

(** ** What their methods keep *)

#[local] Hint Resolve respects_EffectiveDefault respects_remove_deferred respects_QuoteValue respects_ExecDrop
  respects_exec respects_execute_ respects_editor_state respects_default_clause : respects.

(** What the catalogue gives, besides constraints, keeps it too. *)
Class Catalogue {D} `{Backend D} `{Postgres D} (R : relation (World D)) := {
  ca_sequences table : respects R (on_db (pg_Sequences table));
  ca_key_columns table : respects R (on_db (pg_PrimaryKeyColumns table));
}.
#[local] Hint Resolve ca_sequences ca_key_columns : respects.

Section keeps.
Context {D : Type} `{Backend D} (R : relation (World D)) `{!WorldRespects R}.

Lemma respects_index_args ix : respects R (index_args ix).
Proof. unfold index_args. respect. Qed.
Lemma respects_EditorDelete m name : respects R (Editor_DeleteIndexSQL m name).
Proof. unfold Editor_DeleteIndexSQL. respect. Qed.
Hint Resolve respects_index_args respects_EditorDelete : respects.

Section postgres.
Context `{Postgres D} `{!Catalogue R}.

Lemma respects_postgres_CreateIndexSQL c m ix : respects R (postgres_CreateIndexSQL c m ix).
Proof. unfold postgres_CreateIndexSQL. respect. Qed.

Lemma respects_type_comment m old new t : respects R (type_comment m old new t).
Proof. unfold type_comment, Editor_AlterColumnCommentSQL. respect. Qed.
Lemma respects_sequence_of m old new : respects R (sequence_of m old new).
Proof. unfold sequence_of. respect. Qed.
Hint Resolve respects_type_comment respects_sequence_of : respects.
Lemma respects_serial_actions serial m old new o n ob nb : respects R (serial_actions serial m old new o n ob nb).
Proof. unfold serial_actions. respect. Qed.
Lemma respects_identity_actions table column o n : respects R (identity_actions table column o n).
Proof. unfold identity_actions. respect. Qed.
Hint Resolve respects_serial_actions respects_identity_actions : respects.
Lemma respects_postgres_AlterColumnTypeSQL serial m old new t : respects R (postgres_AlterColumnTypeSQL serial m old new t).
Proof. unfold postgres_AlterColumnTypeSQL. respect. Qed.
Lemma respects_cockroach_AlterColumnTypeSQL m old new t : respects R (cockroach_AlterColumnTypeSQL m old new t).
Proof. unfold cockroach_AlterColumnTypeSQL. respect. Qed.

Section layers.
Context (outer : bool → Overrides D) `{!∀ c, OverridesRespect R (outer c)}.
#[export] Instance postgres_layer_respects serial c : OverridesRespect R (postgres_layer serial outer c).
Proof.
  pose proof (layer_respects R (outer c)) as Hl.
  split; intros; cbn [postgres_layer o_AlterColumnTypeSQL o_CreateIndexSQL o_DeleteIndexSQL]; try apply Hl.
  - apply respects_postgres_AlterColumnTypeSQL.
  - apply respects_postgres_CreateIndexSQL.
Qed.
End layers.
Section cockroach.
Context (outer : KeyChange → bool → Overrides D) `{!∀ k c, OverridesRespect R (outer k c)}.

Lemma respects_key_change m old new : respects R (key_change m old new).
Proof. unfold key_change. respect. Qed.
Hint Resolve respects_key_change : respects.

#[export] Instance cockroach_layer_respects k c : OverridesRespect R (cockroach_layer outer k c).
Proof.
  pose proof (postgres_layer_respects (outer k) StandardSerial c) as Hl.
  split; intros; cbn [cockroach_layer o_AlterColumnTypeSQL o_CreateIndexSQL o_CreatePrimaryKeySQL o_PerformAlterField o_DeletePrimaryKey]; try apply Hl.
  - apply respects_cockroach_AlterColumnTypeSQL.
  - unfold cockroach_CreatePrimaryKeySQL. respect.
  - unfold cockroach_PerformAlterField. apply respects_bind; [apply _|respect|intros kc].
    apply respects_bind; [apply _|by apply respects_PerformAlterField|intros _]. respect.
  - unfold cockroach_DeletePrimaryKey. respect.
Qed.
End cockroach.
End postgres.

Section mysql.
Context `{Formatting} (server : Server) (outer : Overrides D) `{!OverridesRespect R outer}.

Lemma respects_empty_text_default f : respects R (empty_text_default f).
Proof. unfold empty_text_default, defaultIsEmpty, no_on_error, isTextOrBlob, lower_type. respect. Qed.
Lemma respects_isLimitedDataType f : respects R (isLimitedDataType f).
Proof. unfold isLimitedDataType, lower_type. respect. Qed.
Lemma respects_setFieldNewType f t : respects R (setFieldNewType outer f t).
Proof. unfold setFieldNewType. respect. Qed.
Lemma respects_commentSQL c : respects R (commentSQL c).
Proof. unfold commentSQL. respect. Qed.
Lemma respects_createMissingFKIndex m fields : respects R (createMissingFKIndex outer m fields).
Proof. unfold createMissingFKIndex, exec_pointer. respect. Qed.
Hint Resolve respects_empty_text_default respects_isLimitedDataType respects_setFieldNewType respects_commentSQL
  respects_createMissingFKIndex : respects.
Lemma respects_mysql_AlterColumnTypeSQL m old new t : respects R (mysql_AlterColumnTypeSQL outer m old new t).
Proof. unfold mysql_AlterColumnTypeSQL. respect. Qed.

#[export] Instance mysql_layer_respects : OverridesRespect R (mysql_layer server outer).
Proof.
  pose proof (layer_respects R outer) as Hl.
  split; intros; cbn [mysql_layer o_SkipDefault o_SkipDefaultOnAlter o_DBDefaultSQL o_AlterColumnTypeSQL
    o_AlterColumnNullSQL o_AlterColumnCommentSQL o_ExecDrop o_DeleteComposedIndex o_RemoveIndex]; try apply Hl.
  all: unfold mysql_SkipDefault, mysql_SkipDefaultOnAlter, mysql_DBDefaultSQL, Editor_DBDefaultSQL, mysql_AlterColumnTypeSQL,
    mysql_AlterColumnNullSQL, mysql_AlterColumnCommentSQL, mysql_ExecDrop, hasOwnFKIndex, mysql_DeleteComposedIndex,
    Editor_DeleteComposedIndex, mysql_RemoveIndex, Editor_RemoveIndex, no_on_error; respect.
Qed.

Lemma respects_mysql_AddField m f : respects R (mysql_AddField outer m f).
Proof. unfold mysql_AddField. apply respects_bind; [apply _|by apply respects_AddField|intros _]. respect. Qed.
Lemma respects_mysql_RemoveConstraint m c : respects R (mysql_RemoveConstraint outer m c).
Proof.
  unfold mysql_RemoveConstraint, keep_unique_index. apply respects_bind; [apply _|respect|intros _].
  by apply respects_RemoveConstraint.
Qed.
End mysql.

#[export] Instance tidb_layer_respects `{Formatting} server (outer : Overrides D) `{!OverridesRespect R outer} :
  OverridesRespect R (tidb_layer server outer).
Proof.
  pose proof (mysql_layer_respects (ti_MySQL server) outer) as Hl.
  split; intros; cbn [tidb_layer o_AlterColumnTypeSQL]; try apply Hl.
  unfold tidb_AlterColumnTypeSQL. apply respects_bind; [apply _|respect|intros oldType].
  destruct (_ && _); [respect|by apply respects_mysql_AlterColumnTypeSQL].
Qed.
End keeps.

(** The editors of a depth over whatever is below *)
Section overrides.
Context {D : Type} `{Backend D} (R : relation (World D)) `{!WorldRespects R} (below : Overrides D) `{!OverridesRespect R below}.

#[export] Instance postgres_overrides_respect `{Postgres D} `{!Catalogue R} serial depth c :
  OverridesRespect R (postgres_overrides serial below depth c).
Proof. revert c. induction depth as [|depth IH]; intros c; [done|]. by apply postgres_layer_respects. Qed.
#[export] Instance cockroach_overrides_respect `{Postgres D} `{!Catalogue R} depth k c :
  OverridesRespect R (cockroach_overrides below depth k c).
Proof. revert k c. induction depth as [|depth IH]; intros k c; [done|]. by apply cockroach_layer_respects. Qed.
#[export] Instance mysql_overrides_respect `{Formatting} server depth : OverridesRespect R (mysql_overrides below server depth).
Proof. induction depth as [|depth IH]; [done|]. by apply mysql_layer_respects. Qed.
#[export] Instance tidb_overrides_respect `{Formatting} server depth : OverridesRespect R (tidb_overrides below server depth).
Proof. induction depth as [|depth IH]; [done|]. by apply tidb_layer_respects. Qed.
End overrides.

(** ** Collecting SQL *)

Section collect.
Context {D : Type} `{Backend D} `{!ReadOnly D} `{Postgres D} `{Formatting}.
Context (Hsequences : ∀ table, quiet (pg_Sequences table)) (Hkeys : ∀ table, quiet (pg_PrimaryKeyColumns table)).
Context (Hhook : PreCommit = None) (FormatOperation : Operation → string).

#[local] Instance catalogue_collects : Catalogue (@leaves_db D).
Proof. split; intros table; by apply on_db_quiet. Qed.

(** The editors of the five backends, for collecting *)
Definition dialect_editors (server : Server) (tidb : TidbServer) (below : Overrides D) (depth n : nat) (atomic : bool)
    : list (SchemaEditor (Session D)) :=
  [postgres_SchemaEditor (postgres_overrides StandardSerial below depth) n true atomic;
   postgres_SchemaEditor (postgres_overrides gauss_Serial below depth) n true atomic;
   cockroach_SchemaEditor (cockroach_overrides below depth) n true atomic;
   mysql_SchemaEditor (mysql_overrides below server depth) n true atomic;
   mysql_SchemaEditor (tidb_overrides below tidb depth) n true atomic].

(** The life of an editor around one migration *)
Definition editor_run (n : nat) (ed : SchemaEditor (Session D)) (mig : Migration) (backwards : bool) (state : ProjectState)
    : io (Session D) unit :=
  _ ← by_editor n Editor_Begin;
  r ← attempt (if backwards then @Unapply _ ed FormatOperation mig state else @Apply _ ed mig state);
  by_editor n (Editor_Finish (error_of r)).

Lemma postgres_editor_respects (outer : bool → Overrides D) n atomic :
  (∀ c, OverridesRespect leaves_db (outer c)) →
  EditorRespects (at_editor leaves_db n) (postgres_SchemaEditor outer n true atomic).
Proof.
  intros Ho. apply collecting_editor; [apply Ho|]. intros k p [= <-]. split_and!; intros; cbn; apply respects_by_editor;
    unfold editor_AddIndexConcurrently, editor_RemoveIndexConcurrently, editor_AddConstraintNotValid, editor_ValidateConstraint; try apply Ho;
    respect.
Qed.

Lemma mysql_editor_respects (outer : Overrides D) n atomic :
  OverridesRespect leaves_db outer → EditorRespects (at_editor leaves_db n) (mysql_SchemaEditor outer n true atomic).
Proof.
  intros Ho. pose proof (collecting_editor outer (fun _ => None) (fun n p Hp => ltac:(discriminate Hp)) n atomic) as Hb.
  destruct Hb. split; intros; eauto; try done.
  - apply respects_by_editor. unfold with_field. respect; by apply respects_mysql_AddField.
  - apply respects_by_editor, respects_mysql_RemoveConstraint; apply _.
Qed.

Lemma dialects_respect server tidb below depth n atomic ed :
  OverridesRespect leaves_db below → ed ∈ dialect_editors server tidb below depth n atomic →
  EditorRespects (at_editor leaves_db n) ed ∧ @CollectSQL _ ed = true.
Proof.
  intros Hb Hed. unfold dialect_editors in Hed. rewrite !elem_of_cons, elem_of_nil in Hed.
  destruct_or! Hed; subst ed; try done; (split; [|done]).
  1-3: apply postgres_editor_respects; intros c; apply _.
  all: apply mysql_editor_respects; apply _.
Qed.

(** C21: sqlmigrate does not touch the database with the editors of
    PostgreSQL, openGauss, CockroachDB, MySQL, MariaDB and TiDB either:
    whatever the server, from Begin through every operation of a migration,
    forwards or backwards, the concurrent ones among them, to Finish, and
    however it ends, their methods only write to the list of collected
    statements. The catalogue is read without changing it, and no Go code
    hides inside a SeparateDatabaseAndState. *)
Theorem dialects_collect_touch_nothing server tidb below depth n atomic ed mig (backwards : bool) state s :
  OverridesRespect leaves_db below → ed ∈ dialect_editors server tidb below depth n atomic →
  n < length (s_editors s) → collecting (editor_at n s) → shows_code mig →
  s_db (editor_run n ed mig backwards state s).1 = s_db s.
Proof.
  intros Hb Hed Hn Hc Hm. destruct (dialects_respect _ _ _ _ _ _ _ Hb Hed) as [He Hcollect].
  assert (runs_respect (at_editor leaves_db n) mig) as Hruns.
  { intros op Hop. eapply Forall_forall in Hm; [|done]. destruct Hm as [Hr|Hg]; [by left|right; by left]. }
  assert (respects (at_editor leaves_db n) (editor_run n ed mig backwards state)) as Hr.
  { unfold editor_run. apply respects_bind; [apply _|apply respects_by_editor, Begin_collects; apply _|intros _].
    apply respects_bind; [apply _| |intros r; apply respects_by_editor].
    - apply respects_attempt. destruct backwards; [by apply respects_Unapply|by apply respects_Apply].
    - apply Finish_collects. intros hook Hp. by rewrite Hhook in Hp. }
  specialize (Hr s) as [_ Hr]. by apply (Hr Hn Hc).
Qed.
End collect.

(** ** Rendering a change of type *)

Section rendering.
Context {D : Type} `{Backend D} `{Postgres D} (Hsequences : ∀ table, quiet (pg_Sequences table)).
Notation change := (ModelPtr → FieldPtr → FieldPtr → string → io (World D) (string * list string)).

Lemma on_db_leaves {A} (m : io D A) : quiet m → quiet (on_db m).
Proof. intros Hm w. unfold on_db, zoom. specialize (Hm (w_db w)). destruct (m (w_db w)). simpl in *. subst. by destruct w. Qed.

(** Whether a column loses its identity *)
Definition loses_identity (oldType newType : string) : Prop := (SplitType oldType).2 ≠ "" ∧ (SplitType newType).2 = "".
Definition drops_identity (m : ModelPtr) (old : FieldPtr) (newType : string) : Prop :=
  match ColumnType m old with Ok oldType => loses_identity oldType newType | _ => False end.

Definition drop_identity (m : ModelPtr) (new : FieldPtr) : io (World D) unit :=
  Execute_ (alter_column (QuoteName (m_Table m)) (QuoteName (mf_Column (fp_Field new))) "DROP IDENTITY IF EXISTS").

(** Nothing happens but an identity that is dropped, when it has to be. *)
Definition only_drops {A} (b : Prop) (drop : io (World D) unit) (c : io (World D) A) : Prop := ∀ w,
  (¬ b → (c w).1 = w) ∧ ((c w).1 = w ∨ (c w).1 = (drop w).1) ∧ (b → is_ok (c w).2 = true → (c w).1 = (drop w).1).

Lemma only_drops_bind {A B} b drop (m : io (World D) A) (k : A → io (World D) B) :
  quiet m → (∀ a w, (m w).2 = Ok a → only_drops b drop (k a)) → only_drops b drop (m ≫= k).
Proof.
  intros Hm Hk w. unfold mbind, io_bind. specialize (Hm w). specialize (Hk) with (w := w).
  destruct (m w) as [w' [a|x|x]]; simpl in *; subst w'; [by apply (Hk a)|naive_solver..].
Qed.

Lemma only_drops_quiet {A} (b : Prop) drop (c : io (World D) A) :
  quiet c → (b → ∀ w, is_ok (c w).2 = false) → only_drops b drop c.
Proof. intros Hc Hb w. rewrite Hc. split_and!; [done|by left|]. intros H1 Hok. by rewrite (Hb H1 w) in Hok. Qed.

Lemma identity_actions_drop m new oldType newType (rest : list string → string * list string) :
  only_drops (loses_identity oldType newType) (drop_identity m new)
    (ids ← identity_actions (QuoteName (m_Table m)) (QuoteName (mf_Column (fp_Field new))) (SplitType oldType).2 (SplitType newType).2;
     mret (rest ids)).
Proof.
  intros w. unfold identity_actions, drop_identity, loses_identity.
  generalize (SplitType oldType).2 as o, (SplitType newType).2 as n. intros o n.
  repeat case_bool_decide; cbn [negb andb]; split_and!; try (by left); try (by intros []); try done.
  all: unfold mbind, io_bind; destruct (Execute_ _ w) as [w' [a|x|x]]; cbn; first [by right | by intros | naive_solver].
Qed.

Lemma comment_quiet m old new t : quiet (type_comment m old new t).
Proof. unfold type_comment, Editor_AlterColumnCommentSQL, QuoteValue. destruct (comment_changes old new); [|done]. by repeat (apply quiet_bind; [|intros]). Qed.

Lemma serial_quiet serial m old new o n ob nb : quiet (serial_actions serial m old new o n ob nb).
Proof.
  assert (quiet (sequence_of m old new)) as Hs by (unfold sequence_of; apply quiet_bind; [by apply on_db_leaves|done]).
  unfold serial_actions. destruct o, n; try destruct (_ && _); try done; by (apply quiet_bind; [|done]).
Qed.

(** C31: what rendering a change of type does. AlterColumnTypeSQL of
    PostgreSQL and of CockroachDB leaves the editor and the database as they
    are, unless the column loses its identity: then, where it succeeds, it
    has run the statement that drops it, before any of those it returns. On
    openGauss, which has no identity columns, it never runs anything. *)
Theorem AlterColumnTypeSQL_runs serial m old new newType :
  let drop := drop_identity m new in
  only_drops (drops_identity m old newType) drop (postgres_AlterColumnTypeSQL serial m old new newType) ∧
  only_drops (drops_identity m old newType) drop (cockroach_AlterColumnTypeSQL m old new newType) ∧
  quiet (postgres_AlterColumnTypeSQL gauss_Serial m old new newType).
Proof.
  intros drop. set (b := drops_identity m old newType).
  assert (∀ t w, (lift (W := World D) (ColumnType m old) w).2 = Ok t → b = loses_identity t newType) as Hb.
  { intros t w Ht. unfold b, drops_identity. cbn in Ht. by rewrite Ht. }
  assert (∀ t, loses_identity t newType → t ≠ newType) as Hne by (intros t [H1 H2] ->; done).
  split_and!.
  - unfold postgres_AlterColumnTypeSQL. apply only_drops_bind; [apply quiet_lift|]. intros t w ->%Hb.
    apply only_drops_bind; [apply comment_quiet|]. intros comments _ _. case_bool_decide as Ht.
    { apply only_drops_quiet; [done|]. by intros ?%Hne. }
    pose proof (identity_actions_drop m new t newType) as Hd. destruct (SplitType t) as [o oc], (SplitType newType) as [n nc].
    cbn [snd] in Hd. destruct (_ || _); [by apply only_drops_quiet|]. destruct (_ && _); [by apply only_drops_quiet|].
    apply only_drops_bind; [apply serial_quiet|]. intros serials _ _. apply Hd.
  - unfold cockroach_AlterColumnTypeSQL. apply only_drops_bind; [apply quiet_lift|]. intros t w ->%Hb.
    apply only_drops_bind; [apply comment_quiet|]. intros comments _ _. case_bool_decide as Ht.
    { apply only_drops_quiet; [done|]. by intros ?%Hne. }
    pose proof (identity_actions_drop m new t newType) as Hd. destruct (SplitType t) as [o oc], (SplitType newType) as [n nc].
    cbn [snd] in Hd. destruct (_ || _); [by apply only_drops_quiet|]. apply Hd.
  - unfold postgres_AlterColumnTypeSQL. apply quiet_bind; [apply quiet_lift|intros t].
    apply quiet_bind; [apply comment_quiet|intros comments]. case_bool_decide; [done|].
    destruct (SplitType t) as [o oc], (SplitType newType) as [n nc]. destruct (_ || _); [done|].
    cbn [Identity gauss_Serial negb andb]. case_bool_decide as Hc; [|done]. destruct Hc as [-> ->].
    apply quiet_bind; [apply serial_quiet|done].
Qed.
End rendering.

(** ** Versions *)

Lemma all_digits_chars s : all_digits s = all_chars byte_is_digit s.
Proof. by induction s as [|c s IH]; simpl; [|rewrite IH]. Qed.

Definition starts_digit (s : string) : bool := match s with String c _ => byte_is_digit c | EmptyString => false end.

Lemma digits_itoa n rest : (0 ≤ n)%Z → starts_digit rest = false → digits (itoa n +:+ rest) = Some (itoa n, rest).
Proof.
  intros Hn Hr. destruct (itoa_numeral n Hn) as (_ & Ha & Hne). unfold digits.
  rewrite span_all_app; [by rewrite bool_decide_eq_false_2|by rewrite <- all_digits_chars|by destruct rest].
Qed.

Lemma atoi_itoa n : (0 ≤ n ≤ maxInt)%Z → atoi (itoa n) = n.
Proof. intros [Hn Hm]. destruct (itoa_numeral n Hn) as (Hd & _ & _). unfold atoi. rewrite Hd. lia. Qed.

Lemma itoa_short n : (0 ≤ n ≤ 99)%Z → (String.length (itoa n) <=? 2) = true.
Proof.
  intros Hn. assert (forallb (fun k => String.length (itoa k) <=? 2) (seqZ 0 100) = true) as Hall by (vm_compute; reflexivity).
  rewrite forallb_forall in Hall. apply Hall, list_elem_of_In, elem_of_seqZ. lia.
Qed.

Lemma one_or_two_itoa n rest : (0 ≤ n ≤ 99)%Z → starts_digit rest = false → one_or_two (itoa n +:+ rest) = Some (itoa n, rest).
Proof. intros Hn Hr. unfold one_or_two. rewrite digits_itoa by (done || lia). cbn. by rewrite itoa_short. Qed.

Lemma up_to_two_itoa n rest : (0 ≤ n ≤ 99)%Z → starts_digit rest = false → up_to_two (itoa n +:+ rest) = Some (itoa n).
Proof.
  intros Hn Hr. unfold up_to_two. rewrite digits_itoa by (done || lia). cbn [mbind option_bind]. f_equal.
  pose proof (itoa_short n Hn) as Hl. revert Hl. destruct (itoa n) as [|a [|b [|c s]]]; cbn; by try (intros ?%Nat.leb_le; lia).
Qed.

Lemma expect_app p s : expect p (p +:+ s) = Some s.
Proof. unfold expect, HasPrefix. by rewrite prefix_app, TrimPrefix_app. Qed.

Lemma first_match_here {A} (f : string → option A) s r : f s = Some r → first_match f s = Some r.
Proof. intros Hs. destruct s; cbn; by rewrite Hs. Qed.

(** A pattern that starts with a text is not found before its first letter
    occurs. *)
Lemma first_match_skip {A} (f : string → option A) c before s r :
  (∀ d t, d ≠ c → f (String d t) = None) → ContainsByte before c = false → f s = Some r → first_match f (before +:+ s) = Some r.
Proof.
  intros Hf Hb Hs. induction before as [|d before IH]; [rewrite str_app_nil_l; by apply first_match_here|].
  cbn [ContainsByte] in Hb. apply orb_false_iff in Hb as [Hd%bool_decide_eq_false Hb]. rewrite str_app_cons. cbn [first_match].
  rewrite (Hf _ _ Hd). by apply IH.
Qed.

Lemma expect_other c p d t : d ≠ c → expect (String c p) (String d t) = None.
Proof. intros Hd. unfold expect, HasPrefix. cbn [String.prefix]. destruct (ascii_dec c d) as [->|]; done. Qed.

Definition small (n : Z) : Prop := (0 ≤ n ≤ 99)%Z.
Definition int_number (n : Z) : Prop := (0 ≤ n ≤ maxInt)%Z.

Lemma mysql_version_read a b c rest : small a → small b → small c → starts_digit rest = false →
  mysql_ParseVersion (Version_String (a, b, c) +:+ rest) = Some (a, b, c).
Proof.
  unfold small. intros Ha Hb Hc Hr. apply first_match_here. unfold mysql_version_here, Version_String. rewrite !str_app_assoc.
  rewrite one_or_two_itoa by done. cbn [mbind option_bind]. rewrite expect_app. cbn [mbind option_bind].
  rewrite one_or_two_itoa by done. cbn [mbind option_bind]. rewrite expect_app. cbn [mbind option_bind].
  rewrite up_to_two_itoa by done. cbn [mbind option_bind].
  by rewrite !atoi_itoa by (unfold maxInt; lia).
Qed.

Lemma tidb_version_read a b c before rest : int_number a → int_number b → int_number c →
  ContainsByte before "T" = false → starts_digit rest = false →
  tidb_ParseVersion (before +:+ "TiDB-v" +:+ Version_String (a, b, c) +:+ rest) = Some (a, b, c).
Proof.
  unfold int_number. intros Ha Hb Hc Hbefore Hr. apply (first_match_skip _ "T"); [|done|].
  { intros d t Hd. unfold tidb_version_here. by rewrite expect_other. }
  unfold tidb_version_here, Version_String. rewrite !str_app_assoc, expect_app. cbn [mbind option_bind].
  rewrite digits_itoa by (done || lia). cbn [mbind option_bind]. rewrite expect_app. cbn [mbind option_bind].
  rewrite digits_itoa by (done || lia). cbn [mbind option_bind]. rewrite expect_app. cbn [mbind option_bind].
  rewrite digits_itoa by (done || lia). cbn [mbind option_bind]. by rewrite !atoi_itoa.
Qed.

Lemma cockroach_version_read a b word rest : int_number a → int_number b → all_chars tag_char word = true → word ≠ "" →
  starts_digit rest = false →
  ServerVersion ("CockroachDB " +:+ word +:+ " v" +:+ itoa a +:+ "." +:+ itoa b +:+ rest) = Some (a, b).
Proof.
  unfold int_number. intros Ha Hb Hw Hne Hr. apply first_match_here. unfold cockroach_version_here.
  rewrite expect_app. cbn [mbind option_bind]. rewrite span_all_app by done. rewrite bool_decide_eq_false_2 by done.
  rewrite expect_app. cbn [mbind option_bind].
  rewrite digits_itoa by (done || lia). cbn [mbind option_bind]. rewrite expect_app. cbn [mbind option_bind].
  rewrite digits_itoa by (done || lia). cbn [mbind option_bind]. by rewrite !atoi_itoa.
Qed.

(** The order of versions, part by part *)
Definition version_le (v w : version) : Prop :=
  let '(a, b, c) := v in let '(x, y, z) := w in (a < x ∨ a = x ∧ (b < y ∨ b = y ∧ c ≤ z))%Z.

Lemma AtLeast_le v want : AtLeast v want = true ↔ version_le want v.
Proof.
  destruct v as [[a b] c], want as [[x y] z]. unfold AtLeast, compare_versions, version_le.
  destruct (Z.compare_spec a x); [|split; [done|lia]|split; [lia|done]].
  destruct (Z.compare_spec b y); [|split; [done|lia]|split; [lia|done]].
  destruct (Z.compare_spec c z); split; done || lia.
Qed.

(** C40: a server is known by its version and accepted from its minimum on.
    From the text a server answers VERSION() with, ParseVersion of mysql reads
    the version it starts with, ParseVersion of tidb the one behind TiDB-v,
    and ServerVersion of cockroachdb the first two numbers; MySQL is accepted
    from 8.0.11, MariaDB from 10.6.0 and CockroachDB from 24.1, part by part
    and not by the letter. *)
Theorem server_versions_checked a b c rest lower engine :
  small a → small b → small c → starts_digit rest = false →
  let text := Version_String (a, b, c) +:+ rest in
  let minimum := if IsMariaDB text then (10, 6, 0)%Z else (8, 0, 11)%Z in
  (version_le minimum (a, b, c) →
     mysql_resolve text (Ok (lower, engine)) = Ok (mkServer (IsMariaDB text) (a, b, c) lower engine)) ∧
  (¬ version_le minimum (a, b, c) → ∃ msg, mysql_resolve text (Ok (lower, engine)) = Err (NotSupportedError msg)) ∧
  (∀ before, ContainsByte before "T" = false → tidb_ParseVersion (before +:+ "TiDB-v" +:+ text) = Some (a, b, c)) ∧
  (∀ word, all_chars tag_char word = true → word ≠ "" →
     is_ok (cockroach_CheckVersion ("CockroachDB " +:+ word +:+ " v" +:+ text)) = true ↔ version_le (24, 1, 0)%Z (a, b, 0)%Z).
Proof.
  intros Ha Hb Hc Hr text minimum. assert (∀ n, small n → int_number n) as Hint by (unfold small, int_number, maxInt; lia).
  assert (mysql_resolve text (Ok (lower, engine)) =
          _ ← CheckMinimumVersion (mkServer (IsMariaDB text) (a, b, c) lower engine);
          Ok (mkServer (IsMariaDB text) (a, b, c) lower engine)) as Hres.
  { unfold mysql_resolve, ReadServer. unfold text at 1. by rewrite mysql_version_read. }
  unfold CheckMinimumVersion in Hres. cbn [sv_MariaDB sv_Version] in Hres. split_and!.
  - intros Hm%AtLeast_le. rewrite Hres. unfold minimum in Hm. destruct (IsMariaDB text); by rewrite Hm.
  - intros Hm. rewrite <- AtLeast_le in Hm. apply not_true_is_false in Hm. rewrite Hres. unfold minimum in Hm.
    destruct (IsMariaDB text); rewrite Hm; by eexists.
  - intros before Hbefore. unfold text. by apply tidb_version_read; try apply Hint.
  - intros word Hw Hne. unfold cockroach_CheckVersion, text, Version_String. rewrite !str_app_assoc.
    rewrite (cockroach_version_read a b word ("." +:+ itoa c +:+ rest)) by (try apply Hint; done).
    unfold MinimumVersion, version_le. cbn [fst snd].
    destruct (a <? 24)%Z eqn:E1, (a =? 24)%Z eqn:E2, (b <? 1)%Z eqn:E3; cbn [orb andb is_ok];
      rewrite ?Z.ltb_lt, ?Z.ltb_ge, ?Z.eqb_eq, ?Z.eqb_neq in *; (split; [try done; lia|intros; try done; lia]).
Qed.

(** ** The index a foreign key stands on *)

(** What the statements that concern us do to the keys and indexes of a
    table. An entry of the catalogue may be a key and an index at once. *)
Inductive ddl :=
| CreateIx (name column : string)
| DropIx (name : string)
| DropKey (name : string).

Notation catalogue := (gmap string ConstraintInfo).

Definition clear_key (i : ConstraintInfo) : ConstraintInfo :=
  mkConstraintInfo (coi_Columns i) (coi_PrimaryKey i) (coi_Unique i) None (coi_Check i) (coi_Index i).
Definition clear_index (i : ConstraintInfo) : ConstraintInfo :=
  mkConstraintInfo (coi_Columns i) (coi_PrimaryKey i) (coi_Unique i) (coi_ForeignKey i) (coi_Check i) false.
Definition new_index (column : string) : ConstraintInfo := mkConstraintInfo [column] false false None false true.

Definition run_ddl (cons : catalogue) (d : ddl) : catalogue :=
  match d with
  | CreateIx name column => <[name := new_index column]> cons
  | DropIx name => alter clear_index name cons
  | DropKey name => alter clear_key name cons
  end.

(** The columns that a key of the table starts with, and an index *)
Definition key_on (cons : catalogue) (c : string) : Prop :=
  ∃ n i, cons !! n = Some i ∧ is_Some (coi_ForeignKey i) ∧ head (coi_Columns i) = Some c.
Definition index_on (cons : catalogue) (c : string) : Prop :=
  ∃ n i, cons !! n = Some i ∧ coi_Index i = true ∧ head (coi_Columns i) = Some c.

(** What the server asks for: every key has an index to stand on. *)
Definition indexed (cons : catalogue) : Prop := ∀ c, key_on cons c → index_on cons c.

Lemma needs_column_spec c i : needs_column c i = true ↔ is_Some (coi_ForeignKey i) ∧ head (coi_Columns i) = Some c.
Proof. unfold needs_column. by rewrite andb_true_iff, !bool_decide_eq_true. Qed.

Lemma owns_index_spec cons name : owns_index cons name = true ↔
  ∃ i c, cons !! name = Some i ∧ coi_Index i = true ∧ is_Some (coi_ForeignKey i) ∧ head (coi_Columns i) = Some c ∧
    ∀ n j, cons !! n = Some j → n ≠ name → ¬ (is_Some (coi_ForeignKey j) ∧ head (coi_Columns j) = Some c).
Proof.
  unfold owns_index. destruct (cons !! name) as [i|] eqn:Hi; [|split; [done|by intros (? & ? & ? & _)]].
  assert (∀ c, negb (existsb (fun p => negb (bool_decide (p.1 = name)) && needs_column c p.2) (map_to_list cons)) = true ↔
    ∀ n j, cons !! n = Some j → n ≠ name → ¬ (is_Some (coi_ForeignKey j) ∧ head (coi_Columns j) = Some c)) as Hothers.
  { intros c. rewrite negb_true_iff, <- not_true_iff_false, existsb_exists. setoid_rewrite andb_true_iff.
    setoid_rewrite negb_true_iff. setoid_rewrite bool_decide_eq_false. setoid_rewrite needs_column_spec. split.
    - intros Hn n j Hj Hne Hk. apply Hn. exists (n, j). split; [|done]. by apply list_elem_of_In, elem_of_map_to_list.
    - intros Hall ([n j] & Hin%list_elem_of_In%elem_of_map_to_list & Hne & Hk). by apply (Hall n j). }
  destruct (coi_Index i) eqn:Hx, (coi_ForeignKey i) as [fk|] eqn:Hf, (coi_Columns i) as [|c cols] eqn:Hc.
  2: { rewrite Hothers. split.
       - intros Ho. exists i, c. split_and!; [done|done|by rewrite Hf|by rewrite Hc|done].
       - intros (i' & c' & [= <-] & _ & _ & Hh & Ho). rewrite Hc in Hh. cbn in Hh. by injection Hh as <-. }
  all: split; [done|]; intros (i' & c' & [= <-] & Hx' & Hf' & Hh & _); rewrite ?Hx, ?Hf, ?Hc in *; by try destruct Hf'.
Qed.

Lemma run_other cons d n : (match d with CreateIx m _ | DropIx m | DropKey m => n ≠ m end) → run_ddl cons d !! n = cons !! n.
Proof. destruct d; intros Hn; cbn; first [by rewrite lookup_insert_ne | by rewrite lookup_alter_ne]. Qed.

(** Dropping a key with the index that only it needs *)
Definition drop_key_ddl (cons : catalogue) (name : string) : list ddl :=
  DropKey name :: if owns_index cons name then [DropIx name] else [].

Lemma drop_key_indexed cons name : indexed cons → indexed (fold_left run_ddl (drop_key_ddl cons name) cons).
Proof.
  intros Hc c (n & i & Hn & Hfk & Hh). set (after := fold_left _ _ _) in *.
  assert (∀ n, n ≠ name → after !! n = cons !! n) as Hother.
  { intros k Hk. unfold after, drop_key_ddl. cbn [fold_left].
    destruct (owns_index cons name); cbn [fold_left]; rewrite ?run_other; done. }
  assert (n ≠ name) as Hne.
  { intros ->. unfold after, drop_key_ddl in Hn. cbn [fold_left run_ddl] in Hn.
    destruct (owns_index cons name); cbn [fold_left run_ddl] in Hn; rewrite ?lookup_alter_eq in Hn;
      destruct (cons !! name); try discriminate Hn; injection Hn as <-; by destruct Hfk. }
  rewrite Hother in Hn by done. destruct (Hc c) as (x & j & Hx & Hi & Hj); [by exists n, i|].
  destruct (decide (x = name)) as [->|Hxn]; [|exists x, j; by rewrite Hother].
  destruct (owns_index cons name) eqn:Ho.
  - apply owns_index_spec in Ho as (i' & c' & Hi' & _ & _ & Hh' & Hall). simplify_eq. by destruct (Hall n i).
  - exists name, (clear_key j). unfold after, drop_key_ddl. rewrite Ho. cbn [fold_left run_ddl].
    by rewrite lookup_alter_eq, Hx.
Qed.

(** Replacing an index that only one key stands on *)
Definition replace_index_ddl (cons : catalogue) (name fresh column : string) : list ddl :=
  (if bool_decide (indexes_starting cons column = 1) then [CreateIx fresh column] else []) ++ [DropIx name].

Lemma another_index cons name i column :
  cons !! name = Some i → coi_Index i = true → head (coi_Columns i) = Some column → indexes_starting cons column ≠ 1 →
  ∃ n j, n ≠ name ∧ cons !! n = Some j ∧ coi_Index j = true ∧ head (coi_Columns j) = Some column.
Proof.
  intros Hi Hx Hh. unfold indexes_starting. set (p := fun _ => _). set (l := List.filter p (map_to_list cons)).
  assert (∀ q, q ∈ l ↔ cons !! q.1 = Some q.2 ∧ coi_Index q.2 = true ∧ head (coi_Columns q.2) = Some column) as Hl.
  { intros [n j]. unfold l. rewrite list_elem_of_In, filter_In, <- list_elem_of_In, elem_of_map_to_list. unfold p.
    by rewrite andb_true_iff, bool_decide_eq_true. }
  assert (NoDup l) as Hnd by (apply NoDup_ListNoDup, List.NoDup_filter, NoDup_ListNoDup, NoDup_map_to_list).
  assert ((name, i) ∈ l) as Hin by (by apply Hl). intros Hlen.
  assert (∃ q, q ∈ l ∧ q ≠ (name, i)) as ([n j] & Hq & Hne).
  { destruct l as [|a [|b l]]; [by apply not_elem_of_nil in Hin|done|]. apply NoDup_cons in Hnd as [Hab _].
    apply elem_of_cons in Hin as [->|Hin]; [exists b|exists a]; (split; [|intros ->; apply Hab]).
    - right. left.
    - left.
    - left.
    - done. }
  apply Hl in Hq as (Hj & Hjx & Hjh). exists n, j. split; [|done]. intros ->. cbn in *. by simplify_eq.
Qed.

Lemma replace_index_indexed cons name fresh column i :
  indexed cons → cons !! name = Some i → coi_Index i = true → head (coi_Columns i) = Some column → cons !! fresh = None →
  indexed (fold_left run_ddl (replace_index_ddl cons name fresh column) cons).
Proof.
  intros Hc Hi Hx Hh Hfresh c (n & k & Hn & Hfk & Hk). set (after := fold_left _ _ _) in *.
  assert (fresh ≠ name) as Hfn by (intros ->; congruence).
  assert (∀ x, x ≠ name → x ≠ fresh → after !! x = cons !! x) as Hother.
  { intros x Hxn Hxf. unfold after, replace_index_ddl. case_bool_decide; cbn [app fold_left]; by rewrite !run_other. }
  assert (key_on cons c) as Hkey.
  { unfold after, replace_index_ddl in Hn. destruct (decide (n = name)) as [->|Hnn].
    - exists name, i. split; [done|]. assert (k = clear_index i) as ->.
      { revert Hn. case_bool_decide; cbn [app fold_left run_ddl]; rewrite lookup_alter_eq, ?lookup_insert_ne, Hi by done; by intros [= <-]. }
      by split.
    - exists n, k. revert Hn. case_bool_decide; cbn [app fold_left run_ddl]; rewrite lookup_alter_ne by done; [|done].
      destruct (decide (n = fresh)) as [->|Hnf]; [rewrite lookup_insert_eq|by rewrite lookup_insert_ne].
      intros [= <-]. by destruct Hfk. }
  destruct (Hc c Hkey) as (x & j & Hj & Hjx & Hjh). destruct (decide (x = name)) as [->|Hxn].
  - simplify_eq. destruct (decide (indexes_starting cons column = 1)) as [H1|H1].
    + exists fresh, (new_index column). unfold after, replace_index_ddl. rewrite bool_decide_eq_true_2 by done.
      cbn [app fold_left run_ddl]. by rewrite lookup_alter_ne, lookup_insert_eq by done.
    + destruct (another_index cons name i column Hi Hx Hh H1) as (y & l & Hy & Hl & Hlx & Hlh). exists y, l.
      split; [|done]. rewrite Hother; [done|done|]. intros ->. congruence.
  - exists x, j. split; [|done]. rewrite Hother; [done|done|]. intros ->. congruence.
Qed.

Section key_index.
Context {D : Type} `{Backend D} `{Formatting} (server : Server) (below : Overrides D).
Context (Hgrammar : be_Grammar = mysql_Grammar (sv_MariaDB server)).
#[local] Existing Instance be_Grammar.

(** The statements as MySQL spells them *)
Definition ddl_sql (table : string) (d : ddl) : string :=
  match d with
  | CreateIx name column =>
      "CREATE INDEX " +:+ QuoteName name +:+ " ON " +:+ QuoteName table +:+ " (" +:+ QuoteName column +:+ ")"
  | DropIx name => "DROP INDEX " +:+ QuoteName name +:+ " ON " +:+ QuoteName table
  | DropKey name => "ALTER TABLE " +:+ QuoteName table +:+ " DROP FOREIGN KEY " +:+ QuoteName name
  end.

(** What a step adds to the collected statements; it leaves the database as
    it is and goes on collecting. *)
Definition adds (w w' : World D) (l : list string) : Prop :=
  es_collect (w_editor w') = true ∧ w_db w' = w_db w ∧ es_sqls (w_editor w') = es_sqls (w_editor w) ++ map terminated l.

Lemma adds_app w1 w2 w3 l1 l2 : adds w1 w2 l1 → adds w2 w3 l2 → adds w1 w3 (l1 ++ l2).
Proof. intros (_ & Hd & Hs) (Hc & Hd' & Hs'). split; [done|]. split; [congruence|]. by rewrite Hs', Hs, map_app, app_assoc. Qed.

Lemma exec_adds st sql w : Statement_String QuoteName st = Ok sql → es_collect (w_editor w) = true →
  ∃ w', exec_statement st w = (w', Ok tt) ∧ adds w w' [sql].
Proof.
  intros Hst Hc. unfold exec_statement. rewrite (io_bind_lift_ok _ _ sql w Hst). eexists.
  split; [exact (Execute_collects sql w Hc)|]. by split_and!.
Qed.

Lemma ExecDrop_adds table name st sql w : Statement_String QuoteName st = Ok sql → es_collect (w_editor w) = true →
  ∃ w', Editor_ExecDrop table name st w = (w', Ok tt) ∧ adds w w' [sql].
Proof.
  intros Hst Hc. destruct (exec_adds st sql w Hst Hc) as (w1 & Hr & Hc1 & Hd & Hs). unfold Editor_ExecDrop, mbind, io_bind. rewrite Hr.
  eexists. split; [done|]. unfold adds, remember_drop. cbn. by rewrite Hc1.
Qed.

Lemma catalogue_read m cons w : Constraints (m_Table m) (w_db w) = (w_db w, Ok cons) →
  on_db (Constraints (m_Table m)) w = (w, Ok cons).
Proof. intros Hr. unfold on_db, zoom. rewrite Hr. by destruct w. Qed.

Lemma drop_index_text table name : Statement_String QuoteName (drop_index_statement table (QuoteName name) false) = Ok (ddl_sql table (DropIx name)).
Proof. unfold drop_index_statement. rewrite Hgrammar. done. Qed.
Lemma drop_key_text m name : Statement_String QuoteName (DeleteFKSQL m name) = Ok (ddl_sql (m_Table m) (DropKey name)).
Proof. unfold DeleteFKSQL, deleteConstraintSQL. by rewrite Hgrammar. Qed.

Lemma TrimPrefix_self s : TrimPrefix s s = "".
Proof. rewrite <- (str_app_nil_r s) at 1. apply TrimPrefix_app. Qed.

Lemma plain_column_sql column : index_column_sql true (mkIndexField column "" "" "" 0) = QuoteName column.
Proof.
  unfold index_column_sql. cbn [if_Expression if_Column if_Length if_Collate if_Sort]. rewrite bool_decide_eq_true_2 by done.
  cbn [negb andb]. by rewrite !str_app_nil_r.
Qed.

Lemma plain_columns m name column : indexColumns m (column_index name column) true = RColumns (m_Table m) [column] [""].
Proof.
  unfold indexColumns. assert (HasExpressions (column_index name column) = false) as -> by done.
  change (RColumns (m_Table m) [column]
    [TrimSpace (TrimPrefix (index_column_sql true (mkIndexField column "" "" "" 0)) (QuoteName column))] = RColumns (m_Table m) [column] [""]).
  by rewrite plain_column_sql, TrimPrefix_self.
Qed.

Lemma create_index_text m name column w : ∃ st,
  Editor_CreateIndexSQL m (column_index name column) w = (w, Ok (Some st)) ∧
  Statement_String QuoteName st = Ok (ddl_sql (m_Table m) (CreateIx name column)).
Proof.
  unfold Editor_CreateIndexSQL. rewrite plain_columns.
  assert (index_args (column_index name column) w = (w, Ok (mkCreateIndexArgs "" "" "" "" "" "" "" "" "" false "" false ""))) as Ha by done.
  unfold mbind, io_bind. rewrite Ha. eexists. split; [reflexivity|]. unfold index_statement. rewrite Hgrammar.
  cbn -[String.append]. unfold base_CreateIndex. cbn -[String.append]. by rewrite !str_app_nil_r.
Qed.
(** createMissingFKIndex writes the index that is to replace the only one a
    key stands on. *)
Definition missing_index (cons : catalogue) (f : ModelField) (fresh : string) : list ddl :=
  if bool_decide (is_Some (fld_ForeignKey (mf_Field f)) ∧ indexes_starting cons (mf_Column f) = 1)
  then [CreateIx fresh (mf_Column f)] else [].

Lemma createMissing_adds (m : ModelPtr) fields first f cons w fresh :
  head fields = Some first → Model_Field m first = Some f → be_IdentifierConverter (mf_Column f) = mf_Column f →
  CreateIndexName mysql_MaxNameLength (m_Table m) [mf_Column f] "" = Ok fresh →
  Constraints (m_Table m) (w_db w) = (w_db w, Ok cons) → es_collect (w_editor w) = true →
  ∃ w', createMissingFKIndex (mysql_layer server below) m fields w = (w', Ok tt) ∧
    adds w w' (map (ddl_sql (m_Table m)) (missing_index cons f fresh)).
Proof.
  intros Hh Hf Hconv Hname Hcons Hc. unfold createMissingFKIndex, missing_index. rewrite Hh. cbn [mbind option_bind]. rewrite Hf, Hconv.
  assert (adds w w []) as Hnil by (split; [done|split; [done|by rewrite app_nil_r]]).
  destruct (fld_ForeignKey (mf_Field f)) as [fk|] eqn:Hfk.
  2: { rewrite (bool_decide_eq_true_2 (None = None)), (bool_decide_eq_false_2 (is_Some None ∧ _)) by naive_solver. by exists w. }
  rewrite (bool_decide_eq_false_2 (Some fk = None)) by done. unfold mbind, io_bind at 1. rewrite (catalogue_read m cons w Hcons).
  case_bool_decide as H1; cbn [negb]; [|rewrite bool_decide_eq_false_2 by naive_solver; by exists w].
  rewrite (bool_decide_eq_true_2 (is_Some _ ∧ _)) by naive_solver.
  unfold io_bind. rewrite Hname. cbn [lift mysql_layer o_CreateIndexSQL layer].
  destruct (create_index_text m fresh (mf_Column f) w) as (st & Hst & Htext). rewrite Hst.
  destruct (exec_adds st _ w Htext Hc) as (w' & Hw & Ha). exists w'. by split.
Qed.

Lemma RemoveIndex_adds (m : ModelPtr) ix w :
  skips_index ix = false → es_collect (w_editor w) = true →
  ∃ w', Editor_RemoveIndex (mysql_layer server below) m ix w = (w', Ok tt) ∧
    adds w w' [ddl_sql (m_Table m) (DropIx (ix_Name ix))].
Proof.
  intros Hs Hc. unfold Editor_RemoveIndex. rewrite Hs. cbn [mysql_layer o_DeleteIndexSQL layer].
  unfold Editor_DeleteIndexSQL, RemoveDeferred, edit, modify, mbind, io_bind. set (w1 := on_editor _ w).
  destruct (exec_adds (drop_index_statement (m_Table m) (QuoteName (ix_Name ix)) false) _ w1 (drop_index_text _ _) Hc)
    as (w' & Hw & Ha). by exists w'.
Qed.

Lemma drop_index_indexed cons name i column :
  indexed cons → cons !! name = Some i → head (coi_Columns i) = Some column → ¬ key_on cons column →
  indexed (run_ddl cons (DropIx name)).
Proof.
  intros Hc Hi Hh Hno c (n & k & Hn & Hfk & Hk). cbn [run_ddl] in *.
  assert (key_on cons c) as Hkey.
  { destruct (decide (n = name)) as [->|Hne]; [|rewrite lookup_alter_ne in Hn by done; by exists n, k].
    rewrite lookup_alter_eq, Hi in Hn. injection Hn as <-. by exists name, i. }
  destruct (Hc c Hkey) as (x & j & Hj & Hjx & Hjh). destruct (decide (x = name)) as [->|Hxn]; [simplify_eq; done|].
  exists x, j. by rewrite lookup_alter_ne.
Qed.

(** C8: on MySQL no foreign key is left without the index it stands on. Take
    a table each of whose keys has an index that starts with its column, as
    the server asks. Dropping a key with ExecDrop, which drops the index the
    key owns with it, keeps this, and so does RemoveIndex, which writes
    another index first when the one that is dropped is the only one for the
    column of a key: what sqlmigrate shows are the statements that do so, in
    this order. The keys of the column are those of its field. *)
Theorem mysql_keys_keep_index (m : ModelPtr) cons w :
  es_collect (w_editor w) = true → Constraints (m_Table m) (w_db w) = (w_db w, Ok cons) → indexed cons →
  (∀ name, ∃ w', mysql_ExecDrop (m_Table m) name (DeleteFKSQL m name) w = (w', Ok tt) ∧
     adds w w' (map (ddl_sql (m_Table m)) (drop_key_ddl cons name)) ∧
     indexed (fold_left run_ddl (drop_key_ddl cons name) cons)) ∧
  (∀ ix first f i, head (Index_Columns ix) = Some first → Model_Field m first = Some f → skips_index ix = false →
     be_IdentifierConverter (mf_Column f) = mf_Column f →
     cons !! ix_Name ix = Some i → coi_Index i = true → head (coi_Columns i) = Some (mf_Column f) →
     (key_on cons (mf_Column f) → is_Some (fld_ForeignKey (mf_Field f))) →
     ∃ fresh w', CreateIndexName mysql_MaxNameLength (m_Table m) [mf_Column f] "" = Ok fresh ∧
       mysql_RemoveIndex (mysql_layer server below) m ix w = (w', Ok tt) ∧
       adds w w' (map (ddl_sql (m_Table m)) (missing_index cons f fresh ++ [DropIx (ix_Name ix)])) ∧
       (cons !! fresh = None → indexed (fold_left run_ddl (missing_index cons f fresh ++ [DropIx (ix_Name ix)]) cons))).
Proof.
  intros Hc Hcons Hind. split.
  - intros name. unfold mysql_ExecDrop, hasOwnFKIndex. cbn [st_kind DeleteFKSQL deleteConstraintSQL].
    rewrite bool_decide_eq_true_2 by done. unfold mbind, io_bind. rewrite (catalogue_read m cons w Hcons). cbn [mret io_ret].
    destruct (ExecDrop_adds (m_Table m) name _ _ w (drop_key_text m name) Hc) as (w1 & Hr1 & Ha1). rewrite Hr1.
    pose proof (drop_key_indexed cons name Hind) as Hi. unfold drop_key_ddl in *. destruct (owns_index cons name); [|by exists w1].
    destruct (ExecDrop_adds (m_Table m) name _ _ w1 (drop_index_text (m_Table m) name) (proj1 Ha1)) as (w2 & Hr2 & Ha2).
    exists w2. split; [done|]. split; [|done]. by apply (adds_app w w1 w2 [_] [_]).
  - intros ix first f i Hh Hf Hs Hconv Hi Hx Hcol Hkey.
    destruct (CreateIndexName_ok mysql_MaxNameLength (m_Table m) [mf_Column f] "") as [fresh Hname]; [done|].
    destruct (createMissing_adds m (Index_Columns ix) first f cons w fresh Hh Hf Hconv Hname Hcons Hc) as (w1 & Hr1 & Ha1).
    destruct (RemoveIndex_adds m ix w1 Hs (proj1 Ha1)) as (w2 & Hr2 & Ha2). exists fresh, w2. split; [done|]. split_and!.
    + unfold mysql_RemoveIndex, mbind, io_bind. by rewrite Hr1.
    + rewrite map_app. by apply (adds_app w w1 w2).
    + intros Hfresh. unfold missing_index. destruct (decide (is_Some (fld_ForeignKey (mf_Field f)))) as [Hfk|Hfk].
      * pose proof (replace_index_indexed cons (ix_Name ix) fresh (mf_Column f) i Hind Hi Hx Hcol Hfresh) as Hr.
        unfold replace_index_ddl in Hr. by rewrite (bool_decide_ext _ (indexes_starting cons (mf_Column f) = 1)) by naive_solver.
      * rewrite bool_decide_eq_false_2 by naive_solver. cbn [app fold_left]. apply (drop_index_indexed cons _ i (mf_Column f)); naive_solver.
Qed.
End key_index.

(** ** The dialects at work *)

#[local] Existing Instance example_formatting.

(** The database of the other examples, as a server of another dialect *)
Definition serial_type (f : GormField) : string :=
  if bool_decide (gf_DataType f = Int_) then
    if gf_AutoIncrement f then "bigint GENERATED BY DEFAULT AS IDENTITY" else "bigint"
  else "text".
Definition speaking (features : Features) (grammar : Grammar) (quote : string → string) (value : option any → outcome string)
    (cons : gmap string ConstraintInfo) : Backend sql_db := {|
  be_Vendor := "example";
  be_Features := features;
  be_RecorderDeleteSettings := "";
  be_alias := "default";
  Routers := [];
  MaxNameLength := 63;
  be_QuoteName := quote;
  be_QuoteValue := value;
  be_PrepareSQLScript := fun s => [s];
  be_Grammar := grammar;
  be_IdentifierConverter := fun s => s;
  Constraints := fun _ => mret cons;
  be_TableNames := mret [];
  be_TableDescription := fun _ => mret [];
  db_Exec := sql_exec;
  db_Begin := sql_begin;
  db_Commit := sql_commit;
  db_Rollback := sql_rollback;
  db_Rows := fun _ => mret [];
  db_count_extension := fun _ => mret 0%Z;
  db_Transaction := fun fn => fn;
  NamingUniqueName := fun table column => "uni_" +:+ table +:+ "_" +:+ column;
  DataTypeOf := serial_type;
  GormDBDataType := fun _ _ => None;
  Sprint := fun v => match v with Some (AnyString s) => s | _ => "" end;
  time_at := fun n => AnyOther "time.Time" "now";
  call_func := fun _ _ => None;
  expr_Literal := fun _ => None;
  PreCommit := None;
  run_go := fun _ _ => mret tt;
|}.

#[local] Instance example_postgres : Postgres sql_db := {|
  pg_DisplayName := "PostgreSQL";
  pg_SupportsExtensions := true;
  pg_SupportsCollations := true;
  pg_Sequences := fun table => mret [mkSequenceInfo (table +:+ "_id_seq") table "id"];
  pg_PrimaryKeyColumns := fun _ => mret ["id"];
|}.

Section postgres_example.
#[local] Instance speaks_postgres : Backend sql_db := speaking postgres_Features postgres_Grammar postgres_QuoteName postgres_QuoteValue ∅.
#[local] Instance postgres_reads : ReadOnly sql_db.
Proof. by split. Qed.

Definition concurrent_index : Migration :=
  mkMigration "blog" "0002_index" [] [] [] None (Some false)
    [AddIndexConcurrently "ShopOrder" (mkIndex "idx_author" (Some [mkIndexField "author" "" "desc" "" 0]) true "" "btree" "" None
       (Some ["int8_ops"]) "" "")] "".

Example concurrent_sql :
  List.last (es_sqls (editor_at 0 (editor_run Describe 0
    (postgres_SchemaEditor (postgres_overrides StandardSerial bottom 3) 0 true false) concurrent_index false before session).1)) "" =
  "CREATE UNIQUE INDEX CONCURRENTLY " +:+ q "idx_author" +:+ " ON " +:+ q "orders" +:+ " USING btree (" +:+ q "author" +:+
  " int8_ops desc);".
Proof. vm_compute. reflexivity. Qed.

Lemma dialects_collect_touch_nothing_witness :
  s_db (editor_run Describe 0 (cockroach_SchemaEditor (cockroach_overrides bottom 3) 0 true false) concurrent_index false before
    session).1 = s_db session.
Proof.
  assert (∀ t, quiet (pg_Sequences (D := sql_db) t)) as Hseq by (intros t d; reflexivity).
  assert (∀ t, quiet (pg_PrimaryKeyColumns (D := sql_db) t)) as Hkeys by (intros t d; reflexivity).
  apply (dialects_collect_touch_nothing (H := speaks_postgres) Hseq Hkeys eq_refl Describe
    (mkServer false (8, 0, 35)%Z 0 "InnoDB") (mkTidbServer (8, 5, 1)%Z true (mkServer false (8, 0, 11)%Z 0 "InnoDB")) bottom 3 0 false).
  - apply bottom_respects. apply _.
  - right. right. left.
  - cbn. lia.
  - by split.
  - constructor; [right; reflexivity|constructor].
Defined.

(** The key of the shop is no identity any more. *)
Definition counted : FieldPtr := field_in ShopOrder "id".
Definition plain_key : FieldPtr :=
  mkFieldPtr (fp_Apps counted) (mkModelField (mf_Model counted) "id" (mkField Int_ 64 0 0 true false 0 false false None None "" None
    None None false false "") "id" None None).

Example identity_dropped :
  es_sqls (w_editor (postgres_AlterColumnTypeSQL StandardSerial ShopOrder counted plain_key "bigint" collecting_world).1) =
  ["ALTER TABLE " +:+ q "orders" +:+ " ALTER COLUMN " +:+ q "id" +:+ " DROP IDENTITY IF EXISTS;"].
Proof. vm_compute. reflexivity. Qed.

Lemma AlterColumnTypeSQL_runs_witness :
  drops_identity ShopOrder counted "bigint" ∧
  (postgres_AlterColumnTypeSQL StandardSerial ShopOrder counted plain_key "bigint" collecting_world).1 =
  (drop_identity ShopOrder plain_key collecting_world).1.
Proof.
  assert (ColumnType ShopOrder counted = Ok "bigint GENERATED BY DEFAULT AS IDENTITY") as Ht by (vm_compute; reflexivity).
  assert (drops_identity ShopOrder counted "bigint") as Hd
    by (unfold drops_identity; rewrite Ht; split; [vm_compute; discriminate|reflexivity]).
  assert (∀ t, quiet (pg_Sequences (D := sql_db) t)) as Hseq by (intros t d; reflexivity).
  split; [exact Hd|].
  destruct (AlterColumnTypeSQL_runs (H := speaks_postgres) Hseq StandardSerial ShopOrder counted plain_key "bigint") as (Hp & _).
  destruct (Hp collecting_world) as (_ & _ & Hrun). apply Hrun; [exact Hd|vm_compute; reflexivity].
Defined.

(** A serial column gets its sequence, and loses it. *)
Example serial_sql :
  (serial_actions StandardSerial ShopOrder counted counted None (Some "bigint") "bigint" "bigint" collecting_world).2 =
  Ok ["CREATE SEQUENCE IF NOT EXISTS " +:+ q "orders_id_seq" +:+ " AS bigint";
      "ALTER TABLE " +:+ q "orders" +:+ " ALTER COLUMN " +:+ q "id" +:+ " SET DEFAULT nextval('" +:+ q "orders_id_seq" +:+ "')";
      "ALTER SEQUENCE " +:+ q "orders_id_seq" +:+ " OWNED BY " +:+ q "orders" +:+ "." +:+ q "id";
      "SELECT setval('" +:+ q "orders_id_seq" +:+ "', coalesce(max(" +:+ q "id" +:+ "), 0) + 1, false) FROM " +:+ q "orders"].
Proof. vm_compute. reflexivity. Qed.
End postgres_example.

Lemma server_versions_checked_witness :
  mysql_resolve "8.0.35-log" (Ok (0%Z, "InnoDB")) = Ok (mkServer false (8, 0, 35)%Z 0 "InnoDB") ∧
  tidb_ParseVersion "8.0.11-TiDB-v8.0.35-log" = Some (8, 0, 35)%Z.
Proof.
  assert (Version_String (8, 0, 35)%Z +:+ "-log" = "8.0.35-log") as Htext by (vm_compute; reflexivity).
  pose proof (server_versions_checked 8 0 35 "-log" 0 "InnoDB") as Hs. rewrite Htext in Hs.
  destruct Hs as (Hok & _ & Htidb & _); [split; lia..|reflexivity|]. split; [|exact (Htidb "8.0.11-" eq_refl)].
  apply Hok. change (version_le (8, 0, 11)%Z (8, 0, 35)%Z). unfold version_le. lia.
Defined.

(** ** An index of MySQL *)

Section mysql_example.
Definition my_server : Server := mkServer false (8, 0, 35)%Z 0 "InnoDB".
Definition author_fk : ConstraintInfo := mkConstraintInfo ["author"] false false (Some ("authors", ["id"])) false false.
Definition author_ix : ConstraintInfo := mkConstraintInfo ["author"; "note"] false false None false true.
Definition orders_catalogue : gmap string ConstraintInfo := <["fk_author" := author_fk]> (<["idx_author_note" := author_ix]> ∅).
#[local] Instance speaks_mysql : Backend sql_db :=
  speaking (mysql_FeaturesFor my_server) (mysql_Grammar false) mysql_QuoteName mysql_QuoteValue orders_catalogue.

Definition author_note : Index :=
  mkIndex "idx_author_note" (Some [mkIndexField "author" "" "" "" 0; mkIndexField "note" "" "" "" 0]) false "" "" "" None None "" "".

Lemma orders_indexed : indexed orders_catalogue.
Proof.
  intros c (n & i & Hn & Hfk & Hh). unfold orders_catalogue in Hn.
  rewrite lookup_insert_Some in Hn. destruct Hn as [[<- <-]|[_ Hn]].
  - injection Hh as <-. exists "idx_author_note", author_ix. by split_and!.
  - rewrite lookup_insert_Some in Hn. destruct Hn as [[<- <-]|[_ Hn]]; [by destruct Hfk|by rewrite lookup_empty in Hn].
Qed.

Example author_note_removed :
  es_sqls (w_editor (mysql_RemoveIndex (mysql_layer my_server bottom) ShopOrder author_note collecting_world).1) =
  ["CREATE INDEX `orders_author_bb8bcaf6` ON `orders` (`author`);"; "DROP INDEX `idx_author_note` ON `orders`;"].
Proof. vm_compute. reflexivity. Qed.

Lemma mysql_keys_keep_index_witness :
  indexed orders_catalogue ∧
  (∃ w', mysql_ExecDrop "orders" "fk_author" (DeleteFKSQL ShopOrder "fk_author") collecting_world = (w', Ok tt)) ∧
  ∃ w', mysql_RemoveIndex (mysql_layer my_server bottom) ShopOrder author_note collecting_world = (w', Ok tt).
Proof.
  assert (m_Table ShopOrder = "orders") as Ht by (vm_compute; reflexivity).
  assert (∃ f, Model_Field ShopOrder "author" = Some f ∧ mf_Column f = "author" ∧
    bool_decide (is_Some (fld_ForeignKey (mf_Field f))) = true) as (f & Hf & Hcol & Hfk)
    by (eexists; split_and!; vm_compute; reflexivity).
  destruct (mysql_keys_keep_index (H := speaks_mysql) my_server bottom eq_refl ShopOrder orders_catalogue collecting_world eq_refl
    ltac:(vm_compute; reflexivity) orders_indexed) as [Hdrop Hremove].
  split; [exact orders_indexed|]. split.
  - destruct (Hdrop "fk_author") as (w' & Hw & _). rewrite Ht in Hw. by exists w'.
  - destruct (Hremove author_note "author" f author_ix) as (fresh & w' & _ & Hw & _); [reflexivity|exact Hf|reflexivity|reflexivity|
      reflexivity|reflexivity|by rewrite Hcol|intros _; exact (bool_decide_eq_true_1 _ Hfk)|by exists w'].
Defined.
End mysql_example.

(** A key that the options of the model declare, and no field, is not looked
    for: the only index it stands on goes without another one. *)
Section table_key.
Definition note_fk : Constraint := CForeignKey (mkForeignKeyConstraint "fk_note" (Some ["note"]) "blog.Author" (Some ["id"]) "" "").
Definition noted : ModelPtr := model_in (after (AddConstraint "ShopOrder" note_fk)).
Definition note_catalogue : gmap string ConstraintInfo :=
  <["fk_note" := mkConstraintInfo ["note"] false false (Some ("authors", ["id"])) false false]>
  (<["idx_note" := new_index "note"]> ∅).
#[local] Instance speaks_of_notes : Backend sql_db :=
  speaking (mysql_FeaturesFor my_server) (mysql_Grammar false) mysql_QuoteName mysql_QuoteValue note_catalogue.

Lemma table_key_unprotected :
  es_sqls (w_editor (mysql_RemoveIndex (mysql_layer my_server bottom) noted
    (mkIndex "idx_note" (Some [mkIndexField "note" "" "" "" 0]) false "" "" "" None None "" "") collecting_world).1) =
    ["DROP INDEX `idx_note` ON `orders`;"] ∧
  index_on note_catalogue "note" ∧ key_on (run_ddl note_catalogue (DropIx "idx_note")) "note" ∧
  ¬ index_on (run_ddl note_catalogue (DropIx "idx_note")) "note".
Proof.
  split_and!.
  - vm_compute. reflexivity.
  - exists "idx_note", (new_index "note"). by split_and!.
  - exists "fk_note", (mkConstraintInfo ["note"] false false (Some ("authors", ["id"])) false false). by split_and!; [| |].
  - intros (n & i & Hn & Hi & _). cbn [run_ddl] in Hn. destruct (decide (n = "idx_note")) as [->|Hne].
    + rewrite lookup_alter_eq in Hn. vm_compute in Hn. injection Hn as <-. discriminate Hi.
    + rewrite lookup_alter_ne in Hn by done. unfold note_catalogue in Hn.
      rewrite lookup_insert_Some in Hn. destruct Hn as [[_ <-]|[_ Hn]]; [discriminate Hi|].
      rewrite lookup_insert_ne, lookup_empty in Hn by done. discriminate Hn.
Qed.
End table_key.
